(** * Boundary-scoped filesystem access: resolver, verified opener, facade

    A shallow embedding of [src/infra/boundary-path.ts],
    [src/infra/boundary-file-read.ts] and the root-scoped open/read/write
    helpers (the module that defines [SafeOpenError], [openVerifiedLocalFile],
    [openFileWithinRoot], [readFileWithinRoot] and [writeFileWithinRoot]).

    Layout: the first half of the file holds every definition (the Node
    runtime interface the code is written against, the embedded functions,
    and the concrete hosts and filesystems used to evaluate them); the second
    half holds the lemmas and theorems. *)

From Stdlib Require Import String Ascii List Bool ZArith Arith Lia DecimalString.
Import ListNotations.
Local Open Scope string_scope.
Local Open Scope list_scope.

Set Implicit Arguments.
Set Warnings "-register-all".

(* ================================================================== *)
(** * Part I — definitions                                             *)
(* ================================================================== *)

(** ** The Node runtime as the code sees it *)

Module Node.

(** [fs.Stats], reduced to the fields and predicates the code reads:
    [isFile()], [isDirectory()], [isSymbolicLink()], [dev], [ino], [nlink]
    and [size]. *)
Inductive FileType : Type := FtFile | FtDirectory | FtSymlink | FtOther.

Record Stats : Type := mkStats {
  st_type : FileType;
  st_dev : Z;
  st_ino : Z;
  st_nlink : Z;
  st_size : Z
}.

Definition isFile (s : Stats) : bool :=
  match st_type s with FtFile => true | _ => false end.

Definition isDirectory (s : Stats) : bool :=
  match st_type s with FtDirectory => true | _ => false end.

Definition isSymbolicLink (s : Stats) : bool :=
  match st_type s with FtSymlink => true | _ => false end.

(** An error raised by a Node filesystem call ([err.code], [err.message]). *)
Record NodeError : Type := mkNodeError {
  ne_code : string;
  ne_message : string
}.

(** [SafeOpenErrorCode] of the root-scoped helpers. *)
Inductive SafeOpenErrorCode : Type :=
| InvalidPath        (* "invalid-path" *)
| NotFound           (* "not-found" *)
| OutsideWorkspace   (* "outside-workspace" *)
| Symlink            (* "symlink" *)
| NotFile            (* "not-file" *)
| PathMismatch       (* "path-mismatch" *)
| TooLarge.          (* "too-large" *)

(** Everything the embedded code can throw: a raw filesystem error, a plain
    [new Error(message)], or a [SafeOpenError(code, message, { cause })]. *)
Inductive Exn : Type :=
| NodeErr (e : NodeError)
| JsError (message : string)
| SafeOpenError (code : SafeOpenErrorCode) (message : string) (cause : option Exn).

Definition isSafeOpenError (e : Exn) : bool :=
  match e with SafeOpenError _ _ _ => true | _ => false end.

(** Outcome of a call that either returns or throws. *)
Inductive Result (A : Type) : Type :=
| Ok (a : A)
| Throw (e : Exn).

Arguments Ok {A} a.
Arguments Throw {A} e.

Definition ofOs {A : Type} (r : NodeError + A) : Result A :=
  match r with inl e => Throw (NodeErr e) | inr a => Ok a end.

(** [node:path]: the operations the code calls.  [path_resolve] is the
    variadic [path.resolve(...segments)]. *)
Class PathModule : Type := {
  path_sep : ascii;
  path_resolve : list string -> string;
  path_relative : string -> string -> string;
  path_join : string -> string -> string;
  path_dirname : string -> string;
  path_basename : string -> string;
  path_isAbsolute : string -> bool;
  path_parse_root : string -> string
}.

(** The helpers imported from [./path-guards.js], [./file-identity.js] and
    [./home-dir.js]; their sources are not part of the files at hand, so the
    embedded code takes them as an interface. *)
Class PathGuards : Type := {
  isPathInside : string -> string -> bool;
  isNotFoundPathError : Exn -> bool;
  isSymlinkOpenError : Exn -> bool;
  hasNodeErrorCode : Exn -> string -> bool;
  sameFileIdentity : Stats -> Stats -> bool;
  expandHomePrefix : string -> string -> string
}.

(** [node:os] and [process.env] as read by the code. *)
Class Host : Type := {
  os_homedir : string;
  env_HOME : option string;
  env_USERPROFILE : option string
}.

(** [fsConstants] and [process.platform !== "win32"]. *)
Class FsConstants : Type := {
  platform_is_win32 : bool;
  O_RDONLY : Z;
  O_WRONLY : Z;
  O_CREAT : Z;
  O_EXCL : Z;
  O_NOFOLLOW : option Z     (* [None]: the key is absent from [fsConstants] *)
}.

End Node.

Import Node.

(** ** JavaScript string helpers *)

Module Js.

(** [s.split(sep)] for a one-character separator. *)
Fixpoint split (sep : ascii) (s : string) : list string :=
  match s with
  | EmptyString => [EmptyString]
  | String c rest =>
      if Ascii.eqb c sep then EmptyString :: split sep rest
      else match split sep rest with
           | [] => [String c EmptyString]
           | h :: t => String c h :: t
           end
  end.

(** [Boolean(s)] on a string: the empty string is falsy. *)
Definition truthy (s : string) : bool := negb (String.eqb s "").

(** [xs.filter(Boolean)] on an array of strings. *)
Definition filterBoolean (xs : list string) : list string := filter truthy xs.

Definition startsWith (s p : string) : bool := String.prefix p s.

(** [s.slice(n)]. *)
Definition slice (n : nat) (s : string) : string :=
  String.substring n (String.length s - n) s.

Definition endsWithChar (s : string) (c : ascii) : bool :=
  match String.get (String.length s - 1) s with
  | Some d => if String.eqb s "" then false else Ascii.eqb c d
  | None => false
  end.

(** Truthiness of an optional boolean ([undefined] is falsy). *)
Definition optTrue (b : option bool) : bool :=
  match b with Some true => true | _ => false end.

(** Template-literal rendering of an integer. *)
Definition ofZ (z : Z) : string := NilZero.string_of_int (Z.to_int z).

End Js.

(** ** [src/infra/boundary-path.ts] *)

Module BoundaryPath.

Inductive BoundaryPathIntent : Type :=
| IntentRead | IntentWrite | IntentCreate | IntentDelete | IntentStat.

Record BoundaryPathAliasPolicy : Type := mkPolicy {
  allowFinalSymlinkForUnlink : option bool;
  allowFinalHardlinkForUnlink : option bool
}.

(** [BOUNDARY_PATH_ALIAS_POLICIES.strict] and [.unlinkTarget]. *)
Definition strict : BoundaryPathAliasPolicy :=
  {| allowFinalSymlinkForUnlink := Some false;
     allowFinalHardlinkForUnlink := Some false |}.

Definition unlinkTarget : BoundaryPathAliasPolicy :=
  {| allowFinalSymlinkForUnlink := Some true;
     allowFinalHardlinkForUnlink := Some true |}.

Record ResolveBoundaryPathParams : Type := mkParams {
  p_absolutePath : string;
  p_rootPath : string;
  p_boundaryLabel : string;
  p_intent : option BoundaryPathIntent;
  p_policy : option BoundaryPathAliasPolicy;
  p_skipLexicalRootCheck : option bool;
  p_rootCanonicalPath : option string
}.

Inductive ResolvedBoundaryPathKind : Type :=
| Kmissing | Kfile | Kdirectory | Ksymlink | Kother.

Record PathKind : Type := mkPathKind {
  pk_exists : bool;
  pk_kind : ResolvedBoundaryPathKind
}.

Record ResolvedBoundaryPath : Type := mkResolved {
  absolutePath : string;
  canonicalPath : string;
  rootPath : string;
  rootCanonicalPath : string;
  relativePath : string;
  exists_ : bool;
  kind : ResolvedBoundaryPathKind
}.

Record LexicalTraversalState : Type := mkState {
  segments : list string;
  allowFinalSymlink : bool;
  canonicalCursor : string;
  lexicalCursor : string;
  preserveFinalSymlink : bool
}.

Definition set_canonicalCursor (v : string) (s : LexicalTraversalState) :=
  {| segments := segments s; allowFinalSymlink := allowFinalSymlink s;
     canonicalCursor := v; lexicalCursor := lexicalCursor s;
     preserveFinalSymlink := preserveFinalSymlink s |}.

Definition set_lexicalCursor (v : string) (s : LexicalTraversalState) :=
  {| segments := segments s; allowFinalSymlink := allowFinalSymlink s;
     canonicalCursor := canonicalCursor s; lexicalCursor := v;
     preserveFinalSymlink := preserveFinalSymlink s |}.

Definition set_preserveFinalSymlink (v : bool) (s : LexicalTraversalState) :=
  {| segments := segments s; allowFinalSymlink := allowFinalSymlink s;
     canonicalCursor := canonicalCursor s; lexicalCursor := lexicalCursor s;
     preserveFinalSymlink := v |}.

Record BoundaryResolutionContext : Type := mkContext {
  ctx_rootPath : string;
  ctx_absolutePath : string;
  ctx_rootCanonicalPath : string;
  ctx_lexicalInside : bool;
  ctx_canonicalOutsideLexicalPath : string
}.

(** The filesystem as one resolution observes it.  The resolver only reads,
    so a fixed state of the filesystem is a table of answers: [fs.lstat],
    [fs.stat], [fs.realpath], [fs.readlink] (the promise and the blocking
    entry points answer alike on one state) and [fs.existsSync]. *)
Record FsView : Type := mkFsView {
  fs_lstat : string -> NodeError + Stats;
  fs_stat : string -> NodeError + Stats;
  fs_realpath : string -> NodeError + string;
  fs_readlink : string -> NodeError + string;
  fs_existsSync : string -> bool
}.

(** The walk over the segments mutates one [LexicalTraversalState] object and
    may throw: a state-and-error monad over that object. *)
Definition Trav (A : Type) : Type :=
  LexicalTraversalState -> Result (A * LexicalTraversalState).

Definition retT {A : Type} (a : A) : Trav A := fun s => Ok (a, s).

Definition throwT {A : Type} (e : Exn) : Trav A := fun _ => Throw e.

Definition bindT {A B : Type} (m : Trav A) (k : A -> Trav B) : Trav B :=
  fun s => match m s with
           | Ok (a, s') => k a s'
           | Throw e => Throw e
           end.

Definition getT : Trav LexicalTraversalState := fun s => Ok (s, s).

Definition modifyT (f : LexicalTraversalState -> LexicalTraversalState) : Trav unit :=
  fun s => Ok (tt, f s).

Definition liftT {A : Type} (r : Result A) : Trav A :=
  fun s => match r with Ok a => Ok (a, s) | Throw e => Throw e end.

(** Plain error monad for the code outside the walk. *)
Definition bindR {A B : Type} (m : Result A) (k : A -> Result B) : Result B :=
  match m with Ok a => k a | Throw e => Throw e end.

Declare Scope trav_scope.
Delimit Scope trav_scope with trav.
Notation "x <- m ;; k" := (bindT m (fun x => k))
  (at level 61, m at next level, right associativity) : trav_scope.
Notation "m ;;; k" := (bindT m (fun _ => k))
  (at level 61, right associativity) : trav_scope.

Declare Scope result_scope.
Delimit Scope result_scope with result.
Notation "x <- m ;; k" := (bindR m (fun x => k))
  (at level 61, m at next level, right associativity) : result_scope.
Notation "m ;;; k" := (bindR m (fun _ => k))
  (at level 61, right associativity) : result_scope.

Inductive Disposition : Type := Continue | Break | ResolveLink.

(** A step of the walk that does not touch [state.segments]. *)
Definition keepsSegments {A : Type} (m : Trav A) : Prop :=
  forall s a s', m s = Ok (a, s') -> segments s' = segments s.

Section Resolver.

Context {PM : PathModule} {PG : PathGuards} {H : Host}.
Variable fs : FsView.

Definition shortPath (value : string) : string :=
  let home := os_homedir in
  if Js.startsWith value home
  then "~" ++ Js.slice (String.length home) value
  else value.

Definition isFilesystemRoot (candidate : string) : bool :=
  String.eqb (path_parse_root candidate) candidate.

Definition pathEscapeError (boundaryLabel rootPath absolutePath : string) : Exn :=
  JsError ("Path escapes " ++ boundaryLabel ++ " (" ++ shortPath rootPath
           ++ "): " ++ shortPath absolutePath).

Definition symlinkEscapeError (boundaryLabel rootCanonicalPath symlinkPath : string) : Exn :=
  JsError ("Symlink escapes " ++ boundaryLabel ++ " (" ++ shortPath rootCanonicalPath
           ++ "): " ++ shortPath symlinkPath).

Definition assertInsideBoundary
  (boundaryLabel rootCanonicalPath candidatePath absolutePath : string) : Result unit :=
  if isPathInside rootCanonicalPath candidatePath then Ok tt
  else Throw (JsError ("Path resolves outside " ++ boundaryLabel ++ " ("
                       ++ shortPath rootCanonicalPath ++ "): " ++ shortPath absolutePath)).

Definition relativeInsideRoot (rootPath targetPath : string) : string :=
  let relative := path_relative (path_resolve [rootPath]) (path_resolve [targetPath]) in
  if negb (Js.truthy relative) || String.eqb relative "." then ""
  else if Js.startsWith relative ".." || path_isAbsolute relative then ""
  else relative.

Definition toResolvedKind (stat : Stats) : ResolvedBoundaryPathKind :=
  if isFile stat then Kfile
  else if isDirectory stat then Kdirectory
  else if isSymbolicLink stat then Ksymlink
  else Kother.

Definition buildResolvedBoundaryPath
  (absolutePath canonicalPath rootPath rootCanonicalPath : string) (kind : PathKind)
  : ResolvedBoundaryPath :=
  {| absolutePath := absolutePath;
     canonicalPath := canonicalPath;
     rootPath := rootPath;
     rootCanonicalPath := rootCanonicalPath;
     relativePath := relativeInsideRoot rootCanonicalPath canonicalPath;
     exists_ := pk_exists kind;
     kind := pk_kind kind |}.

(** [getPathKind] and [getPathKindSync]: the same text up to [await]. *)
Definition getPathKind (absolutePath : string) (preserveFinalSymlink : bool)
  : Result PathKind :=
  match (if preserveFinalSymlink then fs_lstat fs absolutePath
         else fs_stat fs absolutePath) with
  | inr stat => Ok {| pk_exists := true; pk_kind := toResolvedKind stat |}
  | inl error =>
      if isNotFoundPathError (NodeErr error)
      then Ok {| pk_exists := false; pk_kind := Kmissing |}
      else Throw (NodeErr error)
  end.

Definition getPathKindSync (absolutePath : string) (preserveFinalSymlink : bool)
  : Result PathKind :=
  match (if preserveFinalSymlink then fs_lstat fs absolutePath
         else fs_stat fs absolutePath) with
  | inr stat => Ok {| pk_exists := true; pk_kind := toResolvedKind stat |}
  | inl error =>
      if isNotFoundPathError (NodeErr error)
      then Ok {| pk_exists := false; pk_kind := Kmissing |}
      else Throw (NodeErr error)
  end.

(** [pathExists]: an [lstat] probe; anything but a not-found error is
    rethrown. *)
Definition pathExists (targetPath : string) : Result bool :=
  match fs_lstat fs targetPath with
  | inr _ => Ok true
  | inl error =>
      if isNotFoundPathError (NodeErr error) then Ok false
      else Throw (NodeErr error)
  end.

(** [resolvePathViaExistingAncestor]: the [while] loop.  [fuel] bounds the
    number of iterations; the caller passes one more than the length of the
    path, and each iteration replaces the cursor by its (shorter)
    [path.dirname]. *)
Fixpoint ancestorLoop (fuel : nat) (cursor : string) (missingSuffix : list string)
  : Result (string * list string) :=
  match fuel with
  | O => Ok (cursor, missingSuffix)
  | S fuel' =>
      if isFilesystemRoot cursor then Ok (cursor, missingSuffix)
      else
        (present <- pathExists cursor ;;
         if present then Ok (cursor, missingSuffix)
         else
           let missingSuffix' := path_basename cursor :: missingSuffix in
           let parent := path_dirname cursor in
           if String.eqb parent cursor then Ok (cursor, missingSuffix')
           else ancestorLoop fuel' parent missingSuffix')%result
  end.

Definition resolvePathViaExistingAncestor (targetPath : string) : Result string :=
  let normalized := path_resolve [targetPath] in
  (walked <- ancestorLoop (S (String.length normalized)) normalized [] ;;
   let '(cursor, missingSuffix) := walked in
   present <- pathExists cursor ;;
   if negb present then Ok normalized
   else
     match fs_realpath fs cursor with
     | inr real =>
         let resolvedAncestor := path_resolve [real] in
         match missingSuffix with
         | [] => Ok resolvedAncestor
         | _ => Ok (path_resolve (resolvedAncestor :: missingSuffix))
         end
     | inl _ => Ok normalized
     end)%result.

(** [resolvePathViaExistingAncestorSync]: the same loop over
    [fs.existsSync], which never throws. *)
Fixpoint ancestorLoopSync (fuel : nat) (cursor : string) (missingSuffix : list string)
  : string * list string :=
  match fuel with
  | O => (cursor, missingSuffix)
  | S fuel' =>
      if negb (isFilesystemRoot cursor) && negb (fs_existsSync fs cursor) then
        let missingSuffix' := path_basename cursor :: missingSuffix in
        let parent := path_dirname cursor in
        if String.eqb parent cursor then (cursor, missingSuffix')
        else ancestorLoopSync fuel' parent missingSuffix'
      else (cursor, missingSuffix)
  end.

Definition resolvePathViaExistingAncestorSync (targetPath : string) : string :=
  let normalized := path_resolve [targetPath] in
  let '(cursor, missingSuffix) :=
    ancestorLoopSync (S (String.length normalized)) normalized [] in
  if negb (fs_existsSync fs cursor) then normalized
  else
    match fs_realpath fs cursor with
    | inr real =>
        let resolvedAncestor := path_resolve [real] in
        match missingSuffix with
        | [] => resolvedAncestor
        | _ => path_resolve (resolvedAncestor :: missingSuffix)
        end
    | inl _ => normalized
    end.

Definition resolveSymlinkHopPath (symlinkPath : string) : Result string :=
  match fs_realpath fs symlinkPath with
  | inr real => Ok (path_resolve [real])
  | inl error =>
      if negb (isNotFoundPathError (NodeErr error)) then Throw (NodeErr error)
      else
        (linkTarget <- ofOs (fs_readlink fs symlinkPath) ;;
         let linkAbsolute := path_resolve [path_dirname symlinkPath; linkTarget] in
         resolvePathViaExistingAncestor linkAbsolute)%result
  end.

Definition resolveSymlinkHopPathSync (symlinkPath : string) : Result string :=
  match fs_realpath fs symlinkPath with
  | inr real => Ok (path_resolve [real])
  | inl error =>
      if negb (isNotFoundPathError (NodeErr error)) then Throw (NodeErr error)
      else
        (linkTarget <- ofOs (fs_readlink fs symlinkPath) ;;
         let linkAbsolute := path_resolve [path_dirname symlinkPath; linkTarget] in
         Ok (resolvePathViaExistingAncestorSync linkAbsolute))%result
  end.

Definition createLexicalTraversalState
  (params : ResolveBoundaryPathParams) (rootPath rootCanonicalPath absolutePath : string)
  : LexicalTraversalState :=
  let relative := path_relative rootPath absolutePath in
  {| segments := Js.filterBoolean (Js.split path_sep relative);
     allowFinalSymlink :=
       match p_policy params with
       | Some policy => Js.optTrue (allowFinalSymlinkForUnlink policy)
       | None => false
       end;
     canonicalCursor := rootCanonicalPath;
     lexicalCursor := rootPath;
     preserveFinalSymlink := false |}.

Definition assertLexicalCursorInsideBoundary
  (params : ResolveBoundaryPathParams) (rootCanonicalPath absolutePath candidatePath : string)
  : Result unit :=
  assertInsideBoundary (p_boundaryLabel params) rootCanonicalPath candidatePath absolutePath.

Definition applyMissingSuffixToCanonicalCursor
  (missingFromIndex : nat) (rootCanonicalPath : string)
  (params : ResolveBoundaryPathParams) (absolutePath : string) : Trav unit :=
  (state <- getT ;;
   let missingSuffix := skipn missingFromIndex (segments state) in
   modifyT (set_canonicalCursor (path_resolve (canonicalCursor state :: missingSuffix))) ;;;
   state' <- getT ;;
   liftT (assertLexicalCursorInsideBoundary params rootCanonicalPath absolutePath
            (canonicalCursor state')))%trav.

Definition advanceCanonicalCursorForSegment
  (segment : string) (rootCanonicalPath : string)
  (params : ResolveBoundaryPathParams) (absolutePath : string) : Trav unit :=
  (state <- getT ;;
   modifyT (set_canonicalCursor (path_resolve [canonicalCursor state; segment])) ;;;
   state' <- getT ;;
   liftT (assertLexicalCursorInsideBoundary params rootCanonicalPath absolutePath
            (canonicalCursor state')))%trav.

Definition finalizeLexicalResolution
  (params : ResolveBoundaryPathParams) (rootPath rootCanonicalPath absolutePath : string)
  (state : LexicalTraversalState) (kind : PathKind) : Result ResolvedBoundaryPath :=
  (assertLexicalCursorInsideBoundary params rootCanonicalPath absolutePath
     (canonicalCursor state) ;;;
   Ok (buildResolvedBoundaryPath absolutePath (canonicalCursor state)
         rootPath rootCanonicalPath kind))%result.

Definition handleLexicalLstatFailure
  (error : Exn) (missingFromIndex : nat) (rootCanonicalPath : string)
  (resolveParams : ResolveBoundaryPathParams) (absolutePath : string) : Trav bool :=
  if negb (isNotFoundPathError error) then retT false
  else
    (applyMissingSuffixToCanonicalCursor missingFromIndex rootCanonicalPath
       resolveParams absolutePath ;;;
     retT true)%trav.

(** Returns [null] (here [None]) when the failure was a missing entry. *)
Definition handleLexicalStatReadFailure
  (error : Exn) (missingFromIndex : nat) (rootCanonicalPath : string)
  (resolveParams : ResolveBoundaryPathParams) (absolutePath : string)
  : Trav (option Stats) :=
  (handled <- handleLexicalLstatFailure error missingFromIndex rootCanonicalPath
                resolveParams absolutePath ;;
   if handled then retT None else throwT error)%trav.

Definition handleLexicalStatDisposition
  (isSymbolicLink : bool) (segment : string) (isLast : bool) (rootCanonicalPath : string)
  (resolveParams : ResolveBoundaryPathParams) (absolutePath : string)
  : Trav Disposition :=
  if negb isSymbolicLink then
    (advanceCanonicalCursorForSegment segment rootCanonicalPath resolveParams absolutePath ;;;
     retT Continue)%trav
  else
    (state <- getT ;;
     if allowFinalSymlink state && isLast then
       modifyT (set_preserveFinalSymlink true) ;;;
       advanceCanonicalCursorForSegment segment rootCanonicalPath resolveParams absolutePath ;;;
       retT Break
     else retT ResolveLink)%trav.

Definition applyResolvedSymlinkHop
  (linkCanonical rootCanonicalPath boundaryLabel : string) : Trav unit :=
  (state <- getT ;;
   if negb (isPathInside rootCanonicalPath linkCanonical) then
     throwT (symlinkEscapeError boundaryLabel rootCanonicalPath (lexicalCursor state))
   else
     modifyT (set_canonicalCursor linkCanonical) ;;;
     modifyT (set_lexicalCursor linkCanonical))%trav.

(** [readLexicalStat]: [read] is the [lstat] flavour of the caller; a plain
    throw and a rejected promise take the same handler. *)
Definition readLexicalStat
  (missingFromIndex : nat) (rootCanonicalPath : string)
  (resolveParams : ResolveBoundaryPathParams) (absolutePath : string)
  (read : string -> NodeError + Stats) : Trav (option Stats) :=
  (state <- getT ;;
   match read (lexicalCursor state) with
   | inr stat => retT (Some stat)
   | inl error =>
       handleLexicalStatReadFailure (NodeErr error) missingFromIndex rootCanonicalPath
         resolveParams absolutePath
   end)%trav.

Definition resolveAndApplySymlinkHop
  (rootCanonicalPath boundaryLabel : string)
  (resolveLinkCanonical : string -> Result string) : Trav unit :=
  (state <- getT ;;
   linkCanonical <- liftT (resolveLinkCanonical (lexicalCursor state)) ;;
   applyResolvedSymlinkHop linkCanonical rootCanonicalPath boundaryLabel)%trav.

(** The [for] loop of [resolveBoundaryPathLexicalSync].  [remaining] counts
    the iterations left ([state.segments.length - idx]); the loop starts as
    [lexicalLoopSync (length segments) 0]. *)
Fixpoint lexicalLoopSync
  (params : ResolveBoundaryPathParams) (absolutePath rootCanonicalPath : string)
  (remaining idx : nat) : Trav unit :=
  match remaining with
  | O => retT tt
  | S remaining' =>
      (state <- getT ;;
       let segment := nth idx (segments state) "" in
       let isLast := Nat.eqb idx (List.length (segments state) - 1) in
       modifyT (fun st => set_lexicalCursor (path_join (lexicalCursor st) segment) st) ;;;
       maybeStat <- readLexicalStat idx rootCanonicalPath params absolutePath (fs_lstat fs) ;;
       match maybeStat with
       | None => retT tt
       | Some stat =>
           disposition <- handleLexicalStatDisposition (isSymbolicLink stat) segment isLast
                            rootCanonicalPath params absolutePath ;;
           match disposition with
           | Continue =>
               lexicalLoopSync params absolutePath rootCanonicalPath remaining' (S idx)
           | Break => retT tt
           | ResolveLink =>
               resolveAndApplySymlinkHop rootCanonicalPath (p_boundaryLabel params)
                 resolveSymlinkHopPathSync ;;;
               lexicalLoopSync params absolutePath rootCanonicalPath remaining' (S idx)
           end
       end)%trav
  end.

Definition resolveBoundaryPathLexicalSync
  (params : ResolveBoundaryPathParams) (absolutePath rootPath rootCanonicalPath : string)
  : Result ResolvedBoundaryPath :=
  let state := createLexicalTraversalState params rootPath rootCanonicalPath absolutePath in
  match lexicalLoopSync params absolutePath rootCanonicalPath
          (List.length (segments state)) 0 state with
  | Throw e => Throw e
  | Ok (_, state') =>
      (kind <- getPathKindSync absolutePath (preserveFinalSymlink state') ;;
       finalizeLexicalResolution params rootPath rootCanonicalPath absolutePath
         state' kind)%result
  end.

(** [iterateLexicalTraversal]: one resumption of the generator at index
    [idx].  It moves the lexical cursor of the shared state object and yields
    the step, or reports that it is done. *)
Record LexicalTraversalStep : Type := mkStep {
  step_idx : nat;
  step_segment : string;
  step_isLast : bool
}.

Definition iterateLexicalTraversal (idx : nat) : Trav (option LexicalTraversalStep) :=
  (state <- getT ;;
   if Nat.ltb idx (List.length (segments state)) then
     let segment := nth idx (segments state) "" in
     let isLast := Nat.eqb idx (List.length (segments state) - 1) in
     modifyT (fun st => set_lexicalCursor (path_join (lexicalCursor st) segment) st) ;;;
     retT (Some {| step_idx := idx; step_segment := segment; step_isLast := isLast |})
   else retT None)%trav.

(** The [for ... of] loop of [resolveBoundaryPathLexicalAsync] over that
    generator.  [fuel] is one more than the number of segments, so the loop
    ends when the generator is done. *)
Fixpoint lexicalLoopAsync
  (params : ResolveBoundaryPathParams) (absolutePath rootCanonicalPath : string)
  (fuel idx : nat) : Trav unit :=
  match fuel with
  | O => retT tt
  | S fuel' =>
      (next <- iterateLexicalTraversal idx ;;
       match next with
       | None => retT tt
       | Some step =>
           stat <- readLexicalStat (step_idx step) rootCanonicalPath params absolutePath
                     (fs_lstat fs) ;;
           match stat with
           | None => retT tt
           | Some stat =>
               disposition <- handleLexicalStatDisposition (isSymbolicLink stat)
                                (step_segment step) (step_isLast step)
                                rootCanonicalPath params absolutePath ;;
               match disposition with
               | Continue =>
                   lexicalLoopAsync params absolutePath rootCanonicalPath fuel' (S idx)
               | Break => retT tt
               | ResolveLink =>
                   resolveAndApplySymlinkHop rootCanonicalPath (p_boundaryLabel params)
                     resolveSymlinkHopPath ;;;
                   lexicalLoopAsync params absolutePath rootCanonicalPath fuel' (S idx)
               end
           end
       end)%trav
  end.

Definition resolveBoundaryPathLexicalAsync
  (params : ResolveBoundaryPathParams) (absolutePath rootPath rootCanonicalPath : string)
  : Result ResolvedBoundaryPath :=
  let state := createLexicalTraversalState params rootPath rootCanonicalPath absolutePath in
  match lexicalLoopAsync params absolutePath rootCanonicalPath
          (S (List.length (segments state))) 0 state with
  | Throw e => Throw e
  | Ok (_, state') =>
      (kind <- getPathKind absolutePath (preserveFinalSymlink state') ;;
       finalizeLexicalResolution params rootPath rootCanonicalPath absolutePath
         state' kind)%result
  end.

Definition resolveCanonicalOutsideLexicalPath
  (absolutePath : string) (outsideLexicalCanonicalPath : option string) : string :=
  match outsideLexicalCanonicalPath with
  | Some v => v
  | None => absolutePath
  end.

Definition assertLexicalBoundaryOrCanonicalAlias
  (skipLexicalRootCheck : option bool) (lexicalInside : bool)
  (canonicalOutsideLexicalPath rootCanonicalPath boundaryLabel rootPath absolutePath : string)
  : Result unit :=
  if Js.optTrue skipLexicalRootCheck || lexicalInside then Ok tt
  else if isPathInside rootCanonicalPath canonicalOutsideLexicalPath then Ok tt
  else Throw (pathEscapeError boundaryLabel rootPath absolutePath).

Definition createBoundaryResolutionContext
  (resolveParams : ResolveBoundaryPathParams)
  (rootPath absolutePath rootCanonicalPath : string)
  (outsideLexicalCanonicalPath : option string) : Result BoundaryResolutionContext :=
  let lexicalInside := isPathInside rootPath absolutePath in
  let canonicalOutsideLexicalPath :=
    resolveCanonicalOutsideLexicalPath absolutePath outsideLexicalCanonicalPath in
  (assertLexicalBoundaryOrCanonicalAlias (p_skipLexicalRootCheck resolveParams)
     lexicalInside canonicalOutsideLexicalPath rootCanonicalPath
     (p_boundaryLabel resolveParams) rootPath absolutePath ;;;
   Ok {| ctx_rootPath := rootPath;
         ctx_absolutePath := absolutePath;
         ctx_rootCanonicalPath := rootCanonicalPath;
         ctx_lexicalInside := lexicalInside;
         ctx_canonicalOutsideLexicalPath := canonicalOutsideLexicalPath |})%result.

Definition buildOutsideLexicalBoundaryPath
  (boundaryLabel rootCanonicalPath absolutePath canonicalOutsideLexicalPath rootPath : string)
  (kind : PathKind) : Result ResolvedBoundaryPath :=
  (assertInsideBoundary boundaryLabel rootCanonicalPath canonicalOutsideLexicalPath
     absolutePath ;;;
   Ok (buildResolvedBoundaryPath absolutePath canonicalOutsideLexicalPath
         rootPath rootCanonicalPath kind))%result.

Definition resolveOutsideBoundaryPathAsync
  (boundaryLabel : string) (context : BoundaryResolutionContext)
  : Result (option ResolvedBoundaryPath) :=
  if ctx_lexicalInside context then Ok None
  else
    (kind <- getPathKind (ctx_absolutePath context) false ;;
     resolved <- buildOutsideLexicalBoundaryPath boundaryLabel
                   (ctx_rootCanonicalPath context) (ctx_absolutePath context)
                   (ctx_canonicalOutsideLexicalPath context) (ctx_rootPath context) kind ;;
     Ok (Some resolved))%result.

Definition resolveOutsideBoundaryPathSync
  (boundaryLabel : string) (context : BoundaryResolutionContext)
  : Result (option ResolvedBoundaryPath) :=
  if ctx_lexicalInside context then Ok None
  else
    (kind <- getPathKindSync (ctx_absolutePath context) false ;;
     resolved <- buildOutsideLexicalBoundaryPath boundaryLabel
                   (ctx_rootCanonicalPath context) (ctx_absolutePath context)
                   (ctx_canonicalOutsideLexicalPath context) (ctx_rootPath context) kind ;;
     Ok (Some resolved))%result.

Definition resolveOutsideLexicalCanonicalPathAsync (rootPath absolutePath : string)
  : Result (option string) :=
  if isPathInside rootPath absolutePath then Ok None
  else (canonical <- resolvePathViaExistingAncestor absolutePath ;;
        Ok (Some canonical))%result.

Definition resolveOutsideLexicalCanonicalPathSync (rootPath absolutePath : string)
  : option string :=
  if isPathInside rootPath absolutePath then None
  else Some (resolvePathViaExistingAncestorSync absolutePath).

(** [params.rootCanonicalPath ? ... : ...]: an absent or empty string is
    falsy. *)
Definition givenRootCanonicalPath (params : ResolveBoundaryPathParams) : option string :=
  match p_rootCanonicalPath params with
  | Some v => if Js.truthy v then Some v else None
  | None => None
  end.

(** The suspension-capable resolver.  On one state of the filesystem every
    [await] yields the answer of the table, so the promise is modelled by the
    outcome it settles to. *)
Definition resolveBoundaryPath (params : ResolveBoundaryPathParams)
  : Result ResolvedBoundaryPath :=
  let rootPath := path_resolve [p_rootPath params] in
  let absolutePath := path_resolve [p_absolutePath params] in
  (rootCanonicalPath <-
     match givenRootCanonicalPath params with
     | Some v => Ok (path_resolve [v])
     | None => resolvePathViaExistingAncestor rootPath
     end ;;
   outsideLexicalCanonicalPath <-
     resolveOutsideLexicalCanonicalPathAsync rootPath absolutePath ;;
   context <- createBoundaryResolutionContext params rootPath absolutePath
                rootCanonicalPath outsideLexicalCanonicalPath ;;
   outsideResult <- resolveOutsideBoundaryPathAsync (p_boundaryLabel params) context ;;
   match outsideResult with
   | Some resolved => Ok resolved
   | None =>
       resolveBoundaryPathLexicalAsync params (ctx_absolutePath context)
         (ctx_rootPath context) (ctx_rootCanonicalPath context)
   end)%result.

(** The blocking resolver. *)
Definition resolveBoundaryPathSync (params : ResolveBoundaryPathParams)
  : Result ResolvedBoundaryPath :=
  let rootPath := path_resolve [p_rootPath params] in
  let absolutePath := path_resolve [p_absolutePath params] in
  let rootCanonicalPath :=
    match givenRootCanonicalPath params with
    | Some v => path_resolve [v]
    | None => resolvePathViaExistingAncestorSync rootPath
    end in
  (context <- createBoundaryResolutionContext params rootPath absolutePath
                rootCanonicalPath
                (resolveOutsideLexicalCanonicalPathSync rootPath absolutePath) ;;
   outsideResult <- resolveOutsideBoundaryPathSync (p_boundaryLabel params) context ;;
   match outsideResult with
   | Some resolved => Ok resolved
   | None =>
       resolveBoundaryPathLexicalSync params (ctx_absolutePath context)
         (ctx_rootPath context) (ctx_rootCanonicalPath context)
   end)%result.

(** *** Notions used to state what the ancestor walk computes

    [climb k p] is [path.dirname] applied [k] times to [p], and
    [missingNames k p acc] is what [k] turns of the loop of
    [resolvePathViaExistingAncestor] have put in front of [acc]: the base
    names of [p] and of its first [k - 1] ancestors, outermost first. *)
Fixpoint climb (k : nat) (p : string) : string :=
  match k with
  | O => p
  | S k' => climb k' (path_dirname p)
  end.

Fixpoint missingNames (k : nat) (p : string) (acc : list string) : list string :=
  match k with
  | O => acc
  | S k' => missingNames k' (path_dirname p) (path_basename p :: acc)
  end.

(** *** Notions used to state what the walk computes

    [ExistingPrefix rootCanonicalPath lex canon segs lex' canon'] describes
    the filesystem along [segs], starting below the lexical path [lex] whose
    canonical form is [canon]: every segment is there ([lstat] answers), and
    is either an ordinary entry, whose canonical form extends the one of its
    parent, or a symbolic link, whose canonical form is its real path; each
    canonical form lies inside the root.  [lex'] and [canon'] are the lexical
    cursor and the canonical form reached at the last segment. *)
Inductive ExistingPrefix (rootCanonicalPath : string)
  : string -> string -> list string -> string -> string -> Prop :=
| Existing_done lex canon :
    ExistingPrefix rootCanonicalPath lex canon [] lex canon
| Existing_entry lex canon segment rest stat lex' canon' :
    fs_lstat fs (path_join lex segment) = inr stat ->
    isSymbolicLink stat = false ->
    isPathInside rootCanonicalPath (path_resolve [canon; segment]) = true ->
    ExistingPrefix rootCanonicalPath
      (path_join lex segment) (path_resolve [canon; segment]) rest lex' canon' ->
    ExistingPrefix rootCanonicalPath lex canon (segment :: rest) lex' canon'
| Existing_link lex canon segment rest stat real lex' canon' :
    fs_lstat fs (path_join lex segment) = inr stat ->
    isSymbolicLink stat = true ->
    fs_realpath fs (path_join lex segment) = inr real ->
    isPathInside rootCanonicalPath (path_resolve [real]) = true ->
    ExistingPrefix rootCanonicalPath
      (path_resolve [real]) (path_resolve [real]) rest lex' canon' ->
    ExistingPrefix rootCanonicalPath lex canon (segment :: rest) lex' canon'.

End Resolver.

End BoundaryPath.

(** ** The root-scoped open, read and write helpers
    ([SafeOpenError], [openVerifiedLocalFile], [openFileWithinRoot],
    [readFileWithinRoot], [writeFileWithinRoot]) *)

Module FsSafe.

Definition FileHandle : Type := Z.

Inductive WriteData : Type :=
| DataString (text : string) (encoding : string)
| DataBuffer (bytes : string).

(** What the process did to the filesystem, in order, with what it was told. *)
Inductive Event : Type :=
| EvLstat (p : string) (r : NodeError + Stats)
| EvStat (p : string) (r : NodeError + Stats)
| EvRealpath (p : string) (r : NodeError + string)
| EvOpen (p : string) (flags : Z) (mode : option Z) (r : NodeError + FileHandle)
| EvMkdir (p : string)
| EvRm (p : string)
| EvAliasCheck (absolutePath rootPath boundaryLabel : string)
| EvHandleStat (h : FileHandle) (r : NodeError + Stats)
| EvHandleClose (h : FileHandle)
| EvHandleReadFile (h : FileHandle)
| EvHandleTruncate (h : FileHandle) (len : Z)
| EvHandleWriteFile (h : FileHandle) (data : WriteData).

Record SafeOpenResult : Type := mkOpened {
  handle : FileHandle;
  realPath : string;
  stat : Stats
}.

Record SafeLocalReadResult : Type := mkRead {
  read_buffer : string;
  read_realPath : string;
  read_stat : Stats
}.

Record OpenOptions : Type := mkOpenOptions {
  oo_rejectHardlinks : option bool
}.

Record RootParams : Type := mkRootParams {
  r_rootDir : string;
  r_relativePath : string;
  r_rejectHardlinks : option bool;
  r_maxBytes : option Z
}.

Record WriteParams : Type := mkWriteParams {
  w_rootDir : string;
  w_relativePath : string;
  w_data : string + string;        (* [string | Buffer] *)
  w_encoding : option string;
  w_mkdir : option bool
}.

Record PathReadParams : Type := mkPathReadParams {
  pr_rootDir : string;
  pr_filePath : string;
  pr_rejectHardlinks : option bool;
  pr_maxBytes : option Z
}.

Record RootScopedReadParams : Type := mkRootScopedReadParams {
  rs_rootDir : string;
  rs_rejectHardlinks : option bool;
  rs_maxBytes : option Z
}.

Section Ops.

Context {PM : PathModule} {PG : PathGuards} {H : Host} {FC : FsConstants}.

(** The world outside the process.  Every filesystem call takes the current
    world and returns an answer and the next world; nothing is assumed about
    how the world moves between two calls, so other tasks and processes may
    change the filesystem at every suspension point.
    [os_aliasCheck] stands for [assertNoPathAliasEscape] of
    [./path-alias-guards.js], whose source is not part of the files at
    hand. *)
Variable W : Type.

Record Env : Type := mkEnv {
  os_lstat : string -> W -> (NodeError + Stats) * W;
  os_stat : string -> W -> (NodeError + Stats) * W;
  os_realpath : string -> W -> (NodeError + string) * W;
  os_open : string -> Z -> option Z -> W -> (NodeError + FileHandle) * W;
  os_mkdir : string -> W -> (NodeError + unit) * W;
  os_rm : string -> W -> (NodeError + unit) * W;
  os_fstat : FileHandle -> W -> (NodeError + Stats) * W;
  os_close : FileHandle -> W -> (NodeError + unit) * W;
  os_readFile : FileHandle -> W -> (NodeError + string) * W;
  os_truncate : FileHandle -> Z -> W -> (NodeError + unit) * W;
  os_writeFile : FileHandle -> WriteData -> W -> (NodeError + unit) * W;
  os_aliasCheck : string -> string -> string -> W -> (Exn + unit) * W
}.

Variable env : Env.

Record St : Type := mkSt {
  world : W;
  trace : list Event
}.

Definition start (w : W) : St := {| world := w; trace := [] |}.

(** An [async] body: it threads the world and the trace and may throw. *)
Definition M (A : Type) : Type := St -> Result A * St.

Definition ret {A : Type} (a : A) : M A := fun s => (Ok a, s).

Definition throw {A : Type} (e : Exn) : M A := fun s => (Throw e, s).

Definition bind {A B : Type} (m : M A) (k : A -> M B) : M B :=
  fun s => match m s with
           | (Ok a, s') => k a s'
           | (Throw e, s') => (Throw e, s')
           end.

(** [try { m } catch (err) { handler err }]. *)
Definition tryCatch {A : Type} (m : M A) (handler : Exn -> M A) : M A :=
  fun s => match m s with
           | (Ok a, s') => (Ok a, s')
           | (Throw e, s') => handler e s'
           end.

(** [try { m } finally { cleanup }]. *)
Definition finally {A : Type} (m : M A) (cleanup : M unit) : M A :=
  fun s => match m s with
           | (r, s') =>
               match cleanup s' with
               | (Ok _, s'') => (r, s'')
               | (Throw e, s'') => (Throw e, s'')
               end
           end.

Definition call {A : Type} (op : W -> (NodeError + A) * W) (ev : NodeError + A -> Event)
  : M A :=
  fun s => let '(r, w') := op (world s) in
           (ofOs r, {| world := w'; trace := trace s ++ [ev r] |}).

Definition fsp_lstat (p : string) : M Stats := call (os_lstat env p) (EvLstat p).
Definition fsp_stat (p : string) : M Stats := call (os_stat env p) (EvStat p).
Definition fsp_realpath (p : string) : M string := call (os_realpath env p) (EvRealpath p).
Definition fsp_open (p : string) (flags : Z) (mode : option Z) : M FileHandle :=
  call (os_open env p flags mode) (EvOpen p flags mode).
Definition fsp_mkdir_recursive (p : string) : M unit :=
  call (os_mkdir env p) (fun _ => EvMkdir p).
Definition fsp_rm_force (p : string) : M unit := call (os_rm env p) (fun _ => EvRm p).
Definition handle_stat (h : FileHandle) : M Stats := call (os_fstat env h) (EvHandleStat h).
Definition handle_close (h : FileHandle) : M unit :=
  call (os_close env h) (fun _ => EvHandleClose h).
Definition handle_readFile (h : FileHandle) : M string :=
  call (os_readFile env h) (fun _ => EvHandleReadFile h).
Definition handle_truncate (h : FileHandle) (len : Z) : M unit :=
  call (os_truncate env h len) (fun _ => EvHandleTruncate h len).
Definition handle_writeFile (h : FileHandle) (data : WriteData) : M unit :=
  call (os_writeFile env h data) (fun _ => EvHandleWriteFile h data).

Definition assertNoPathAliasEscape (absolutePath rootPath boundaryLabel : string) : M unit :=
  fun s => let '(r, w') := os_aliasCheck env absolutePath rootPath boundaryLabel (world s) in
           (match r with inl e => Throw e | inr u => Ok u end,
            {| world := w';
               trace := trace s ++ [EvAliasCheck absolutePath rootPath boundaryLabel] |}).

(** [p.catch(() => {})]: the failure of [p] is dropped. *)
Definition quietly (m : M unit) : M unit :=
  tryCatch m (fun _ => ret tt).

(** [Promise.all([a, b])]: both calls are issued, [a] first; the first
    failure in that order is the one reported. *)
Definition promiseAll2 {A B : Type} (a : M A) (b : M B) : M (A * B) :=
  fun s => match a s with
           | (ra, s1) =>
               match b s1 with
               | (rb, s2) =>
                   (match ra, rb with
                    | Ok x, Ok y => Ok (x, y)
                    | Throw e, _ => Throw e
                    | Ok _, Throw e => Throw e
                    end, s2)
               end
           end.

Local Notation "x <- m ;; k" := (bind m (fun x => k))
  (at level 61, m at next level, right associativity).
Local Notation "m ;;; k" := (bind m (fun _ => k))
  (at level 61, right associativity).

Definition SUPPORTS_NOFOLLOW : bool :=
  negb platform_is_win32 && match O_NOFOLLOW with Some _ => true | None => false end.

Definition nofollowBits : Z :=
  if SUPPORTS_NOFOLLOW then match O_NOFOLLOW with Some v => v | None => 0%Z end else 0%Z.

Definition OPEN_READ_FLAGS : Z := Z.lor O_RDONLY nofollowBits.

Definition OPEN_WRITE_EXISTING_FLAGS : Z := Z.lor O_WRONLY nofollowBits.

Definition OPEN_WRITE_CREATE_FLAGS : Z :=
  Z.lor (Z.lor (Z.lor O_WRONLY O_CREAT) O_EXCL) nofollowBits.

Definition ensureTrailingSep (value : string) : string :=
  if Js.endsWithChar value path_sep then value
  else (value ++ String path_sep EmptyString)%string.

(** [a || b] on optional strings: the first one that is present and not
    empty. *)
Definition orElse (a : option string) (b : string) : string :=
  match a with
  | Some v => if Js.truthy v then v else b
  | None => b
  end.

Definition expandRelativePathWithHome (relativePath : string) : M string :=
  let home := orElse env_HOME (orElse env_USERPROFILE os_homedir) in
  home' <- tryCatch (fsp_realpath home) (fun _ => ret home) ;;
  ret (expandHomePrefix relativePath home').

(** The three blocks of [openVerifiedLocalFile], in source order: the
    directory pre-check, the open, and the verification of the open handle. *)
Definition rejectDirectoryBeforeOpen (filePath : string) : M unit :=
  tryCatch
    (preStat <- fsp_lstat filePath ;;
     if isDirectory preStat then throw (SafeOpenError NotFile "not a file" None)
     else ret tt)
    (fun err => if isSafeOpenError err then throw err else ret tt).

Definition openForRead (filePath : string) : M FileHandle :=
  tryCatch
    (fsp_open filePath OPEN_READ_FLAGS None)
    (fun err =>
       if isNotFoundPathError err then
         throw (SafeOpenError NotFound "file not found" None)
       else if isSymlinkOpenError err then
         throw (SafeOpenError Symlink "symlink open blocked" (Some err))
       else if hasNodeErrorCode err "EISDIR" then
         throw (SafeOpenError NotFile "not a file" None)
       else throw err).

Definition verifyOpenedFile
  (filePath : string) (options : option OpenOptions) (handle : FileHandle)
  : M SafeOpenResult :=
  let rejectHardlinks :=
    match options with
    | Some o => Js.optTrue (oo_rejectHardlinks o)
    | None => false
    end in
  tryCatch
    (observed <- promiseAll2 (handle_stat handle) (fsp_lstat filePath) ;;
     let '(stat, lstat) := observed in
     if isSymbolicLink lstat then
       throw (SafeOpenError Symlink "symlink not allowed" None)
     else if negb (isFile stat) then
       throw (SafeOpenError NotFile "not a file" None)
     else if rejectHardlinks && (1 <? st_nlink stat)%Z then
       throw (SafeOpenError InvalidPath "hardlinked path not allowed" None)
     else if negb (sameFileIdentity stat lstat) then
       throw (SafeOpenError PathMismatch "path changed during read" None)
     else
       realPath <- fsp_realpath filePath ;;
       realStat <- fsp_stat realPath ;;
       if rejectHardlinks && (1 <? st_nlink realStat)%Z then
         throw (SafeOpenError InvalidPath "hardlinked path not allowed" None)
       else if negb (sameFileIdentity stat realStat) then
         throw (SafeOpenError PathMismatch "path mismatch" None)
       else
         ret {| handle := handle; realPath := realPath; stat := stat |})
    (fun err =>
       quietly (handle_close handle) ;;;
       if isSafeOpenError err then throw err
       else if isNotFoundPathError err then
         throw (SafeOpenError NotFound "file not found" None)
       else throw err).

Definition openVerifiedLocalFile (filePath : string) (options : option OpenOptions)
  : M SafeOpenResult :=
  rejectDirectoryBeforeOpen filePath ;;;
  handle <- openForRead filePath ;;
  verifyOpenedFile filePath options handle.

Definition resolvePathWithinRoot (rootDir relativePath : string)
  : M (string * string * string) :=
  rootReal <- tryCatch (fsp_realpath rootDir)
                (fun err =>
                   if isNotFoundPathError err then
                     throw (SafeOpenError NotFound "root dir not found" None)
                   else throw err) ;;
  let rootWithSep := ensureTrailingSep rootReal in
  expanded <- expandRelativePathWithHome relativePath ;;
  let resolved := path_resolve [rootWithSep; expanded] in
  if negb (isPathInside rootWithSep resolved) then
    throw (SafeOpenError OutsideWorkspace "file is outside workspace root" None)
  else ret (rootReal, rootWithSep, resolved).

Definition openFileWithinRoot (params : RootParams) : M SafeOpenResult :=
  located <- resolvePathWithinRoot (r_rootDir params) (r_relativePath params) ;;
  let '(_, rootWithSep, resolved) := located in
  opened <- tryCatch (openVerifiedLocalFile resolved None)
              (fun err =>
                 match err with
                 | SafeOpenError code _ _ =>
                     match code with
                     | NotFound => throw err
                     | _ => throw (SafeOpenError InvalidPath
                                     "path is not a regular file under root" (Some err))
                     end
                 | _ => throw err
                 end) ;;
  if match r_rejectHardlinks params with Some false => false | _ => true end
     && (1 <? st_nlink (stat opened))%Z then
    quietly (handle_close (handle opened)) ;;;
    throw (SafeOpenError InvalidPath "hardlinked path not allowed" None)
  else if negb (isPathInside rootWithSep (realPath opened)) then
    quietly (handle_close (handle opened)) ;;;
    throw (SafeOpenError OutsideWorkspace "file is outside workspace root" None)
  else ret opened.

Definition readOpenedFileSafely (opened : SafeOpenResult) (maxBytes : option Z)
  : M SafeLocalReadResult :=
  let readAll : M SafeLocalReadResult :=
    buffer <- handle_readFile (handle opened) ;;
    ret {| read_buffer := buffer; read_realPath := realPath opened;
           read_stat := stat opened |} in
  match maxBytes with
  | Some limit =>
      if (limit <? st_size (stat opened))%Z then
        throw (SafeOpenError TooLarge
                 ("file exceeds limit of " ++ Js.ofZ limit ++ " bytes (got "
                  ++ Js.ofZ (st_size (stat opened)) ++ ")") None)
      else readAll
  | None => readAll
  end.

Definition readFileWithinRoot (params : RootParams) : M SafeLocalReadResult :=
  opened <- openFileWithinRoot
              {| r_rootDir := r_rootDir params;
                 r_relativePath := r_relativePath params;
                 r_rejectHardlinks := r_rejectHardlinks params;
                 r_maxBytes := None |} ;;
  finally (readOpenedFileSafely opened (r_maxBytes params))
          (quietly (handle_close (handle opened))).

Definition readLocalFileSafely (filePath : string) (maxBytes : option Z)
  : M SafeLocalReadResult :=
  opened <- openVerifiedLocalFile filePath None ;;
  finally (readOpenedFileSafely opened maxBytes)
          (quietly (handle_close (handle opened))).

Definition readPathWithinRoot (params : PathReadParams) : M SafeLocalReadResult :=
  let rootDir := path_resolve [pr_rootDir params] in
  let candidatePath :=
    if path_isAbsolute (pr_filePath params)
    then path_resolve [pr_filePath params]
    else path_resolve [rootDir; pr_filePath params] in
  let relativePath := path_relative rootDir candidatePath in
  readFileWithinRoot
    {| r_rootDir := rootDir;
       r_relativePath := relativePath;
       r_rejectHardlinks := pr_rejectHardlinks params;
       r_maxBytes := pr_maxBytes params |}.

(** [createRootScopedReadFile]: the root is resolved once, when the reader
    is made; the reader returns the buffer of [readPathWithinRoot]. *)
Definition createRootScopedReadFile (params : RootScopedReadParams)
  : string -> M string :=
  let rootDir := path_resolve [rs_rootDir params] in
  fun filePath =>
    safeRead <- readPathWithinRoot
                  {| pr_rootDir := rootDir;
                     pr_filePath := filePath;
                     pr_rejectHardlinks := rs_rejectHardlinks params;
                     pr_maxBytes := rs_maxBytes params |} ;;
    ret (read_buffer safeRead).

(** The verification block of [writeFileWithinRoot] once the real path of
    the open file is known, i.e. while [openedRealPath] holds [realPath]:
    the remaining checks, then the truncation and the write; and the
    [catch] clause, which removes [openedRealPath] when the file was created
    by this call and a [SafeOpenError] was thrown. *)
Definition checkRealPathThenWrite
  (rootWithSep : string) (handle : FileHandle) (createdForWrite : bool)
  (stat : Stats) (realPath : string) (data : string + string) (encoding : option string)
  : M unit :=
  tryCatch
    (realStat <- fsp_stat realPath ;;
     if negb (sameFileIdentity stat realStat) then
       throw (SafeOpenError PathMismatch "path mismatch" None)
     else if (1 <? st_nlink realStat)%Z then
       throw (SafeOpenError InvalidPath "hardlinked path not allowed" None)
     else if negb (isPathInside rootWithSep realPath) then
       throw (SafeOpenError OutsideWorkspace "file is outside workspace root" None)
     else
       (if negb createdForWrite then handle_truncate handle 0 else ret tt) ;;;
       match data with
       | inl text =>
           handle_writeFile handle
             (DataString text (match encoding with Some e => e | None => "utf8" end))
       | inr bytes => handle_writeFile handle (DataBuffer bytes)
       end)
    (fun err =>
       (if createdForWrite && isSafeOpenError err && Js.truthy realPath
        then quietly (fsp_rm_force realPath) else ret tt) ;;;
       throw err).

(** The part of that block that runs while [openedRealPath] is still
    [null]; a failure here passes through the [catch] clause unchanged. *)
Definition verifyOpenedForWrite
  (rootWithSep ioPath : string) (handle : FileHandle) (createdForWrite : bool)
  (data : string + string) (encoding : option string) : M unit :=
  observed <- promiseAll2 (handle_stat handle) (fsp_lstat ioPath) ;;
  let '(stat, lstat) := observed in
  if isSymbolicLink lstat || negb (isFile stat) then
    throw (SafeOpenError InvalidPath "path is not a regular file under root" None)
  else if (1 <? st_nlink stat)%Z then
    throw (SafeOpenError InvalidPath "hardlinked path not allowed" None)
  else if negb (sameFileIdentity stat lstat) then
    throw (SafeOpenError PathMismatch "path changed during write" None)
  else
    realPath <- fsp_realpath ioPath ;;
    checkRealPathThenWrite rootWithSep handle createdForWrite stat realPath data encoding.

(** [fs.open] for writing: the existing file, or a new one when there is
    none.  The boolean is [createdForWrite]. *)
Definition openForWrite (ioPath : string) : M (FileHandle * bool) :=
  tryCatch
    (tryCatch
       (handle <- fsp_open ioPath OPEN_WRITE_EXISTING_FLAGS (Some 384%Z) ;;
        ret (handle, false))
       (fun err =>
          if negb (isNotFoundPathError err) then throw err
          else
            handle <- fsp_open ioPath OPEN_WRITE_CREATE_FLAGS (Some 384%Z) ;;
            ret (handle, true)))
    (fun err =>
       if isNotFoundPathError err then
         throw (SafeOpenError NotFound "file not found" None)
       else if isSymlinkOpenError err then
         throw (SafeOpenError InvalidPath "symlink open blocked" (Some err))
       else throw err).

Definition writeFileWithinRoot (params : WriteParams) : M unit :=
  located <- resolvePathWithinRoot (w_rootDir params) (w_relativePath params) ;;
  let '(rootReal, rootWithSep, resolved) := located in
  tryCatch (assertNoPathAliasEscape resolved rootReal "root")
    (fun err => throw (SafeOpenError InvalidPath "path alias escape blocked" (Some err))) ;;;
  (if match w_mkdir params with Some false => false | _ => true end
   then fsp_mkdir_recursive (path_dirname resolved) else ret tt) ;;;
  ioPath <- tryCatch
              (resolvedRealPath <- fsp_realpath resolved ;;
               if negb (isPathInside rootWithSep resolvedRealPath) then
                 throw (SafeOpenError OutsideWorkspace "file is outside workspace root" None)
               else ret resolvedRealPath)
              (fun err =>
                 if isSafeOpenError err then throw err
                 else if negb (isNotFoundPathError err) then throw err
                 else ret resolved) ;;
  opened <- openForWrite ioPath ;;
  let '(handle, createdForWrite) := opened in
  finally
    (verifyOpenedForWrite rootWithSep ioPath handle createdForWrite
       (w_data params) (w_encoding params))
    (quietly (handle_close handle)).

End Ops.

(** *** Notions used to state what the helpers do *)

(** The classification of a failure, when it has one. *)
Definition codeOf (e : Exn) : option SafeOpenErrorCode :=
  match e with
  | SafeOpenError code _ _ => Some code
  | _ => None
  end.

Definition isContentRead (ev : Event) : bool :=
  match ev with EvHandleReadFile _ => true | _ => false end.

Definition isTruncation (ev : Event) : bool :=
  match ev with EvHandleTruncate _ _ => true | _ => false end.

Definition isRemoval (ev : Event) : bool :=
  match ev with EvRm _ => true | _ => false end.

Definition isContentWrite (ev : Event) : bool :=
  match ev with EvHandleWriteFile _ _ => true | _ => false end.

(** [options?.rejectHardlinks] as [openVerifiedLocalFile] reads it. *)
Definition rejectsHardlinks (options : option OpenOptions) : bool :=
  match options with
  | Some o => Js.optTrue (oo_rejectHardlinks o)
  | None => false
  end.

(** [Emits P Q m]: every run of the body [m] extends the trace by events
    that satisfy [P], and an exception it ends with satisfies [Q]. *)
Definition Emits {W A : Type} (P : Event -> Prop) (Q : Exn -> Prop) (m : M W A) : Prop :=
  forall s r s',
    m s = (r, s') ->
    (exists evs, trace s' = trace s ++ evs /\ Forall P evs) /\
    (forall e, r = Throw e -> Q e).

Definition anyExn : Exn -> Prop := fun _ => True.

(** Not a [SafeOpenError]. *)
Definition rawExn : Exn -> Prop := fun e => codeOf e = None.

(** A [SafeOpenError] only with one of the listed codes. *)
Definition codeIn (codes : list SafeOpenErrorCode) : Exn -> Prop :=
  fun e => forall code, codeOf e = Some code -> In code codes.

(** An event that truncates nothing, removes nothing and writes nothing. *)
Definition harmless (ev : Event) : Prop :=
  isTruncation ev = false /\ isRemoval ev = false /\ isContentWrite ev = false.

(** Every check [writeFileWithinRoot] makes on the open handle before it
    truncates: what the handle, the path and the real path were seen to be. *)
Definition writeChecksPass `{PathGuards}
  (rootWithSep : string) (stat lstat : Stats) (realPath : string) (realStat : Stats) : Prop :=
  isSymbolicLink lstat = false /\
  isFile stat = true /\
  (st_nlink stat <= 1)%Z /\
  sameFileIdentity stat lstat = true /\
  sameFileIdentity stat realStat = true /\
  (st_nlink realStat <= 1)%Z /\
  isPathInside rootWithSep realPath = true.

(** The handles a stretch of the trace obtained from [fs.open], and the
    handles it closed, each in order. *)
Definition opensIn (evs : list Event) : list FileHandle :=
  flat_map (fun ev => match ev with
                      | EvOpen _ _ _ (inr h) => [h]
                      | _ => []
                      end) evs.

Definition closesIn (evs : list Event) : list FileHandle :=
  flat_map (fun ev => match ev with
                      | EvHandleClose h => [h]
                      | _ => []
                      end) evs.

(** An event that is no [fs.open], or an [fs.open] with one of the listed
    pairs of flags and mode. *)
Definition opensOnlyWith (allowed : list (Z * option Z)) (ev : Event) : Prop :=
  match ev with
  | EvOpen _ flags mode _ => In (flags, mode) allowed
  | _ => True
  end.

Definition isMkdir (ev : Event) : bool :=
  match ev with EvMkdir _ => true | _ => false end.

(** What [handle.writeFile] receives for [params.data] and
    [params.encoding]: text with the given encoding or ["utf8"], a buffer as
    it is. *)
Definition writtenData (data : string + string) (encoding : option string) : WriteData :=
  match data with
  | inl text => DataString text (match encoding with Some e => e | None => "utf8" end)
  | inr bytes => DataBuffer bytes
  end.

End FsSafe.

(** ** [src/infra/boundary-file-read.ts] *)

Module BoundaryFileRead.

Import BoundaryPath.

(** A value that is either there already or promised; a promise is modelled
    by the outcome it settles to.  [x instanceof Promise] asks which. *)
Inductive MaybePromise (A : Type) : Type :=
| Plain (a : A)
| Promised (settled : Result A).

Arguments Plain {A} a.
Arguments Promised {A} settled.

Record ResolvedBoundaryFilePath : Type := mkResolvedFile {
  rf_absolutePath : string;
  rf_resolvedPath : string;
  rf_rootRealPath : string
}.

Section Facade.

(** [./safe-open-sync.js] is not part of the files at hand: its failure
    reasons, its allowed-type option, the [fs] module it is handed and
    [openVerifiedFileSync] itself are taken as given. *)
Variables SafeOpenSyncFailureReason SafeOpenSyncAllowedType BoundaryReadFs : Type.

Inductive BoundaryFileOpenFailureReason : Type :=
| Validation                                   (* "validation" *)
| OpenFailure (reason : SafeOpenSyncFailureReason).

Inductive BoundaryFileOpenResult : Type :=
| Opened (path : string) (fd : Z) (stat : Stats) (rootRealPath : string)
| Failed (reason : BoundaryFileOpenFailureReason) (error : option Exn).

Inductive SafeOpenSyncResult : Type :=
| SyncOpened (path : string) (fd : Z) (stat : Stats)
| SyncFailed (reason : SafeOpenSyncFailureReason) (error : option Exn).

Record OpenVerifiedFileSyncParams : Type := mkSyncRequest {
  req_filePath : string;
  req_resolvedPath : string;
  req_rejectHardlinks : bool;
  req_maxBytes : option Z;
  req_allowedType : option SafeOpenSyncAllowedType;
  req_ioFs : BoundaryReadFs
}.

Record OpenBoundaryFileParams : Type := mkOpenParams {
  o_absolutePath : string;
  o_rootPath : string;
  o_boundaryLabel : string;
  o_rootRealPath : option string;
  o_maxBytes : option Z;
  o_rejectHardlinks : option bool;
  o_allowedType : option SafeOpenSyncAllowedType;
  o_skipLexicalRootCheck : option bool;
  o_ioFs : option BoundaryReadFs;
  o_aliasPolicy : option BoundaryPathAliasPolicy   (* [openBoundaryFile] only *)
}.

Context {PM : PathModule} {PG : PathGuards} {H : Host}.
Variable fs : FsView.
Variable nodeFs : BoundaryReadFs.
Variable openVerifiedFileSync : OpenVerifiedFileSyncParams -> Result SafeOpenSyncResult.

Definition toBoundaryValidationError (error : Exn) : BoundaryFileOpenResult :=
  Failed Validation (Some error).

Definition mapResolvedBoundaryPath (absolutePath : string) (resolved : ResolvedBoundaryPath)
  : ResolvedBoundaryFilePath :=
  {| rf_absolutePath := absolutePath;
     rf_resolvedPath := canonicalPath resolved;
     rf_rootRealPath := rootCanonicalPath resolved |}.

(** [resolve] may throw, return a value, or return a promise.  The left
    summand is a [ResolvedBoundaryFilePath], the right one a
    [BoundaryFileOpenResult] (the one with an ["ok"] key). *)
Definition resolveBoundaryFilePathGeneric
  (absolutePath0 : string)
  (resolve : string -> Result (MaybePromise ResolvedBoundaryPath))
  : MaybePromise (ResolvedBoundaryFilePath + BoundaryFileOpenResult) :=
  let absolutePath := path_resolve [absolutePath0] in
  match resolve absolutePath with
  | Ok (Promised settled) =>
      Promised
        (match settled with
         | Ok value => Ok (inl (mapResolvedBoundaryPath absolutePath value))
         | Throw error => Ok (inr (toBoundaryValidationError error))
         end)
  | Ok (Plain resolved) => Plain (inl (mapResolvedBoundaryPath absolutePath resolved))
  | Throw error => Plain (inr (toBoundaryValidationError error))
  end.

Definition openBoundaryFileResolved
  (absolutePath resolvedPath rootRealPath : string) (maxBytes : option Z)
  (rejectHardlinks : option bool) (allowedType : option SafeOpenSyncAllowedType)
  (ioFs : BoundaryReadFs) : Result BoundaryFileOpenResult :=
  match openVerifiedFileSync
          {| req_filePath := absolutePath;
             req_resolvedPath := resolvedPath;
             req_rejectHardlinks := match rejectHardlinks with Some b => b | None => true end;
             req_maxBytes := maxBytes;
             req_allowedType := allowedType;
             req_ioFs := ioFs |} with
  | Throw e => Throw e
  | Ok (SyncFailed reason error) => Ok (Failed (OpenFailure reason) error)
  | Ok (SyncOpened path fd stat) => Ok (Opened path fd stat rootRealPath)
  end.

Definition openBoundaryFileSync (params : OpenBoundaryFileParams)
  : Result BoundaryFileOpenResult :=
  let ioFs := match o_ioFs params with Some f => f | None => nodeFs end in
  let resolved :=
    resolveBoundaryFilePathGeneric (o_absolutePath params)
      (fun absolutePath =>
         match resolveBoundaryPathSync fs
                 {| p_absolutePath := absolutePath;
                    p_rootPath := o_rootPath params;
                    p_boundaryLabel := o_boundaryLabel params;
                    p_intent := None;
                    p_policy := None;
                    p_skipLexicalRootCheck := o_skipLexicalRootCheck params;
                    p_rootCanonicalPath := o_rootRealPath params |} with
         | Ok r => Ok (Plain r)
         | Throw e => Throw e
         end) in
  match resolved with
  | Promised _ =>
      Ok (toBoundaryValidationError (JsError "Unexpected async boundary resolution"))
  | Plain (inr result) => Ok result
  | Plain (inl file) =>
      openBoundaryFileResolved (rf_absolutePath file) (rf_resolvedPath file)
        (rf_rootRealPath file) (o_maxBytes params) (o_rejectHardlinks params)
        (o_allowedType params) ioFs
  end.

Definition openBoundaryFile (params : OpenBoundaryFileParams)
  : Result BoundaryFileOpenResult :=
  let ioFs := match o_ioFs params with Some f => f | None => nodeFs end in
  let maybeResolved :=
    resolveBoundaryFilePathGeneric (o_absolutePath params)
      (fun absolutePath =>
         Ok (Promised
               (resolveBoundaryPath fs
                  {| p_absolutePath := absolutePath;
                     p_rootPath := o_rootPath params;
                     p_boundaryLabel := o_boundaryLabel params;
                     p_intent := None;
                     p_policy := o_aliasPolicy params;
                     p_skipLexicalRootCheck := o_skipLexicalRootCheck params;
                     p_rootCanonicalPath := o_rootRealPath params |}))) in
  match (match maybeResolved with
         | Promised settled => settled
         | Plain v => Ok v
         end) with
  | Throw e => Throw e
  | Ok (inr result) => Ok result
  | Ok (inl file) =>
      openBoundaryFileResolved (rf_absolutePath file) (rf_resolvedPath file)
        (rf_rootRealPath file) (o_maxBytes params) (o_rejectHardlinks params)
        (o_allowedType params) ioFs
  end.

End Facade.

End BoundaryFileRead.

(** ** A POSIX host, for evaluating the code on concrete inputs *)

Module Posix.

Definition sep : ascii := "/"%char.

Definition isAbsolute (p : string) : bool :=
  match p with
  | String c _ => Ascii.eqb c sep
  | EmptyString => false
  end.

Definition joinSegments (segs : list string) : string := String.concat "/" segs.

(** Node's [normalizeString], on the segments of the path: empty and ["."]
    segments vanish, [".."] removes the segment before it; above the root it
    is dropped, or kept when [allowAboveRoot]. *)
Fixpoint normalizeSegments (allowAboveRoot : bool) (acc segs : list string)
  : list string :=
  match segs with
  | [] => rev acc
  | seg :: rest =>
      if String.eqb seg "" || String.eqb seg "." then
        normalizeSegments allowAboveRoot acc rest
      else if String.eqb seg ".." then
        match acc with
        | [] =>
            normalizeSegments allowAboveRoot
              (if allowAboveRoot then [".."] else []) rest
        | top :: acc' =>
            if String.eqb top ".."
            then normalizeSegments allowAboveRoot (".." :: acc) rest
            else normalizeSegments allowAboveRoot acc' rest
        end
      else normalizeSegments allowAboveRoot (seg :: acc) rest
  end.

(** [path.resolve]: arguments are taken from the right until one is
    absolute; the working directory is the last resort. *)
Fixpoint gather (cwd : string) (argsFromRight : list string) (acc : string) : string :=
  match argsFromRight with
  | [] => cwd ++ "/" ++ acc
  | p :: rest =>
      if String.eqb p "" then gather cwd rest acc
      else if isAbsolute p then p ++ "/" ++ acc
      else gather cwd rest (p ++ "/" ++ acc)
  end.

Definition resolve (cwd : string) (args : list string) : string :=
  let raw := gather cwd (rev args) "" in
  if isAbsolute raw then
    "/" ++ joinSegments (normalizeSegments false [] (Js.split sep raw))
  else
    let body := joinSegments (normalizeSegments true [] (Js.split sep raw)) in
    if String.eqb body "" then "." else body.

Fixpoint stripCommon (a b : list string) : list string * list string :=
  match a, b with
  | x :: a', y :: b' => if String.eqb x y then stripCommon a' b' else (a, b)
  | _, _ => (a, b)
  end.

Definition relative (cwd : string) (from to : string) : string :=
  let from' := resolve cwd [from] in
  let to' := resolve cwd [to] in
  if String.eqb from' to' then ""
  else
    let '(up, down) := stripCommon (Js.filterBoolean (Js.split sep from'))
                                   (Js.filterBoolean (Js.split sep to')) in
    joinSegments (map (fun _ => "..") up ++ down).

Definition normalize (p : string) : string :=
  if String.eqb p "" then "."
  else
    let absolute := isAbsolute p in
    let trailing := Js.endsWithChar p sep in
    let body := joinSegments (normalizeSegments (negb absolute) [] (Js.split sep p)) in
    if String.eqb body "" then
      (if absolute then "/" else if trailing then "./" else ".")
    else
      let body' := (if trailing then body ++ "/" else body)%string in
      if absolute then "/" ++ body' else body'.

Definition join (a b : string) : string :=
  match Js.filterBoolean [a; b] with
  | [] => "."
  | parts => normalize (joinSegments parts)
  end.

(** [path.dirname] and [path.basename], as they act on paths without a
    trailing or doubled separator (every path the code hands them is an
    output of [path.resolve]). *)
Definition dirname (p : string) : string :=
  let dir := joinSegments (removelast (Js.split sep p)) in
  if String.eqb dir "" then (if isAbsolute p then "/" else ".") else dir.

Definition basename (p : string) : string := last (Js.split sep p) "".

Definition parse_root (p : string) : string := if isAbsolute p then "/" else "".

Definition pathModule (cwd : string) : PathModule :=
  {| path_sep := sep;
     path_resolve := resolve cwd;
     path_relative := relative cwd;
     path_join := join;
     path_dirname := dirname;
     path_basename := basename;
     path_isAbsolute := isAbsolute;
     path_parse_root := parse_root |}.

Definition errorCodeIn (codes : list string) (e : Exn) : bool :=
  match e with
  | NodeErr ne => existsb (String.eqb (ne_code ne)) codes
  | _ => false
  end.

(** Modelled from the spec: the sources of [./path-guards.js],
    [./file-identity.js] and [./home-dir.js] are missing.  The spec describes
    them as "is path A lexically inside path B", "is this error a not-found
    error", "is this error specifically a symlink-open rejection", and file
    identity as "device + inode"; the lexical test is written the way
    [relativeInsideRoot] of [boundary-path.ts] tests a relative path. *)
Definition guards (cwd : string) : PathGuards :=
  {| isPathInside := fun root target =>
       let rel := relative cwd (resolve cwd [root]) (resolve cwd [target]) in
       String.eqb rel "" || (negb (Js.startsWith rel "..") && negb (isAbsolute rel));
     isNotFoundPathError := errorCodeIn ["ENOENT"; "ENOTDIR"];
     isSymlinkOpenError := errorCodeIn ["ELOOP"; "EINVAL"; "ENOTSUP"];
     hasNodeErrorCode := fun e code => errorCodeIn [code] e;
     sameFileIdentity := fun a b =>
       Z.eqb (st_dev a) (st_dev b) && Z.eqb (st_ino a) (st_ino b);
     expandHomePrefix := fun input home =>
       if String.eqb input "~" then home
       else if Js.startsWith input "~/" then (home ++ Js.slice 1 input)%string
       else input |}.

Definition host (home : string) : Host :=
  {| os_homedir := home; env_HOME := Some home; env_USERPROFILE := None |}.

(** Linux values of [fsConstants]. *)
Definition linuxConstants : FsConstants :=
  {| platform_is_win32 := false;
     O_RDONLY := 0%Z; O_WRONLY := 1%Z; O_CREAT := 64%Z; O_EXCL := 128%Z;
     O_NOFOLLOW := Some 131072%Z |}.

End Posix.

(** ** A small in-memory POSIX filesystem

    Used to build concrete [FsView] tables: a tree of directories, files and
    symbolic links, keyed by the canonical path of each entry, together with
    the usual path walk that answers [lstat], [stat], [realpath], [readlink]
    and [existsSync]. *)

Module MemFs.

Inductive Inode : Type :=
| IFile (ino nlink size : Z)
| IDir (ino : Z)
| ILink (ino : Z) (target : string)
| IOther (ino : Z).

Definition Tree : Type := list (string * Inode).

Fixpoint lookup (t : Tree) (p : string) : option Inode :=
  match t with
  | [] => None
  | (q, node) :: rest => if String.eqb p q then Some node else lookup rest p
  end.

Definition render (segs : list string) : string :=
  ("/" ++ Posix.joinSegments segs)%string.

(** The root directory is always there. *)
Definition inodeAt (t : Tree) (segs : list string) : option Inode :=
  match segs with
  | [] => Some (IDir 1)
  | _ => lookup t (render segs)
  end.

Definition enoent : NodeError := {| ne_code := "ENOENT"; ne_message := "no such file or directory" |}.
Definition enotdir : NodeError := {| ne_code := "ENOTDIR"; ne_message := "not a directory" |}.
Definition eloop : NodeError := {| ne_code := "ELOOP"; ne_message := "too many symbolic links encountered" |}.
Definition einval : NodeError := {| ne_code := "EINVAL"; ne_message := "invalid argument" |}.

(** Walks [todo] from the canonical directory [cur]; a symbolic link is
    expanded in place, except a final one when [followLast] is off.  The
    fuel bounds the number of steps, as the kernel bounds link expansion. *)
Fixpoint walk (fuel : nat) (t : Tree) (followLast : bool)
  (cur todo : list string) : NodeError + list string :=
  match fuel with
  | O => inl eloop
  | S fuel' =>
      match todo with
      | [] => inr cur
      | seg :: rest =>
          if String.eqb seg "" || String.eqb seg "." then
            walk fuel' t followLast cur rest
          else if String.eqb seg ".." then
            walk fuel' t followLast (removelast cur) rest
          else
            let here := cur ++ [seg] in
            match inodeAt t here with
            | None => inl enoent
            | Some (IDir _) => walk fuel' t followLast here rest
            | Some (ILink _ target) =>
                match rest, followLast with
                | [], false => inr here
                | _, _ =>
                    walk fuel' t followLast
                      (if Posix.isAbsolute target then [] else cur)
                      (Js.split Posix.sep target ++ rest)
                end
            | Some _ =>
                match rest with
                | [] => inr here
                | _ => inl enotdir
                end
            end
      end
  end.

Definition locate (t : Tree) (followLast : bool) (p : string) : NodeError + list string :=
  walk 64 t followLast [] (Js.split Posix.sep p).

Definition statsOf (node : Inode) : Stats :=
  match node with
  | IFile ino nlink size =>
      {| st_type := FtFile; st_dev := 1; st_ino := ino; st_nlink := nlink; st_size := size |}
  | IDir ino =>
      {| st_type := FtDirectory; st_dev := 1; st_ino := ino; st_nlink := 2; st_size := 0 |}
  | ILink ino target =>
      {| st_type := FtSymlink; st_dev := 1; st_ino := ino; st_nlink := 1;
         st_size := Z.of_nat (String.length target) |}
  | IOther ino =>
      {| st_type := FtOther; st_dev := 1; st_ino := ino; st_nlink := 1; st_size := 0 |}
  end.

Definition statAt (t : Tree) (followLast : bool) (p : string) : NodeError + Stats :=
  match locate t followLast p with
  | inl e => inl e
  | inr segs =>
      match inodeAt t segs with
      | Some node => inr (statsOf node)
      | None => inl enoent
      end
  end.

Definition lstat (t : Tree) : string -> NodeError + Stats := statAt t false.

Definition stat (t : Tree) : string -> NodeError + Stats := statAt t true.

Definition realpath (t : Tree) (p : string) : NodeError + string :=
  match locate t true p with
  | inl e => inl e
  | inr segs => inr (render segs)
  end.

Definition readlink (t : Tree) (p : string) : NodeError + string :=
  match locate t false p with
  | inl e => inl e
  | inr segs =>
      match inodeAt t segs with
      | Some (ILink _ target) => inr target
      | Some _ => inl einval
      | None => inl enoent
      end
  end.

(** [fs.existsSync] is [access(path, F_OK)] with every error turned into
    [false]; [access] follows symbolic links. *)
Definition existsSync (t : Tree) (p : string) : bool :=
  match stat t p with
  | inr _ => true
  | inl _ => false
  end.

Definition view (t : Tree) : BoundaryPath.FsView :=
  {| BoundaryPath.fs_lstat := lstat t;
     BoundaryPath.fs_stat := stat t;
     BoundaryPath.fs_realpath := realpath t;
     BoundaryPath.fs_readlink := readlink t;
     BoundaryPath.fs_existsSync := existsSync t |}.

End MemFs.

(** ** A small operating system over that filesystem

    Used to build concrete [FsSafe.Env] values.  The world is a tree, the
    table of open descriptors, and a script of what other tasks or processes
    do to the tree: one entry of the script runs just before each call the
    process makes.  File contents are not modelled, only sizes. *)

Module MemOs.

Import FsSafe.

Record World : Type := mkWorld {
  tree : MemFs.Tree;
  script : list (MemFs.Tree -> MemFs.Tree);
  fds : list (FileHandle * MemFs.Inode)
}.

Definition others (w : World) : World :=
  match script w with
  | [] => w
  | act :: rest => {| tree := act (tree w); script := rest; fds := fds w |}
  end.

Definition eexist : NodeError := {| ne_code := "EEXIST"; ne_message := "file already exists" |}.
Definition eisdir : NodeError :=
  {| ne_code := "EISDIR"; ne_message := "illegal operation on a directory" |}.
Definition ebadf : NodeError := {| ne_code := "EBADF"; ne_message := "bad file descriptor" |}.

Definition inoOf (node : MemFs.Inode) : Z :=
  match node with
  | MemFs.IFile ino _ _ => ino
  | MemFs.IDir ino => ino
  | MemFs.ILink ino _ => ino
  | MemFs.IOther ino => ino
  end.

Fixpoint findIno (t : MemFs.Tree) (ino : Z) : option MemFs.Inode :=
  match t with
  | [] => None
  | (_, node) :: rest => if Z.eqb (inoOf node) ino then Some node else findIno rest ino
  end.

Fixpoint findFd (table : list (FileHandle * MemFs.Inode)) (h : FileHandle)
  : option MemFs.Inode :=
  match table with
  | [] => None
  | (h', node) :: rest => if Z.eqb h h' then Some node else findFd rest h
  end.

Definition hasBits (flags bits : Z) : bool := negb (Z.eqb (Z.land flags bits) 0).

Definition freshIno (t : MemFs.Tree) : Z := 1000 + Z.of_nat (List.length t).

Definition remember (w : World) (node : MemFs.Inode) (t : MemFs.Tree)
  : (NodeError + FileHandle) * World :=
  let h := (3 + Z.of_nat (List.length (fds w)))%Z in
  (inr h, {| tree := t; script := script w; fds := (h, node) :: fds w |}).

(** [open(2)] with the Linux flag bits: [O_NOFOLLOW] refuses a final link,
    [O_CREAT | O_EXCL] creates the file in the real parent directory or
    fails when the name is taken, and a directory cannot be opened for
    writing; on a host that [refuseDirectories], not for reading either. *)
Definition openOn (refuseDirectories : bool)
  (p : string) (flags : Z) (mode : option Z) (w0 : World)
  : (NodeError + FileHandle) * World :=
  let w := others w0 in
  let nofollow := hasBits flags 131072 in
  let creat := hasBits flags 64 in
  let excl := hasBits flags 128 in
  let wronly := hasBits flags 1 in
  match MemFs.locate (tree w) (negb nofollow) p with
  | inr segs =>
      match MemFs.inodeAt (tree w) segs with
      | None => (inl MemFs.enoent, w)
      | Some (MemFs.ILink _ _) => (inl MemFs.eloop, w)
      | Some node =>
          if creat && excl then (inl eexist, w)
          else if (wronly || refuseDirectories)
                  && (match node with MemFs.IDir _ => true | _ => false end)
          then (inl eisdir, w)
          else remember w node (tree w)
      end
  | inl e =>
      if creat && String.eqb (ne_code e) "ENOENT" then
        match MemFs.locate (tree w) true (Posix.dirname p) with
        | inr parent =>
            let node := MemFs.IFile (freshIno (tree w)) 1 0 in
            remember w node
              ((MemFs.render (parent ++ [Posix.basename p]), node) :: tree w)
        | inl e' => (inl e', w)
        end
      else (inl e, w)
  end.

Definition fstat (h : FileHandle) (w0 : World) : (NodeError + Stats) * World :=
  let w := others w0 in
  match findFd (fds w) h with
  | None => (inl ebadf, w)
  | Some node =>
      match findIno (tree w) (inoOf node) with
      | Some current => (inr (MemFs.statsOf current), w)
      | None => (inr (MemFs.statsOf node), w)
      end
  end.

Definition resize (ino size : Z) (t : MemFs.Tree) : MemFs.Tree :=
  map (fun entry =>
         match entry with
         | (q, MemFs.IFile i n _) =>
             if Z.eqb i ino then (q, MemFs.IFile i n size) else entry
         | _ => entry
         end) t.

Definition onHandle (h : FileHandle) (size : Z) (w0 : World) : (NodeError + unit) * World :=
  let w := others w0 in
  match findFd (fds w) h with
  | None => (inl ebadf, w)
  | Some node =>
      (inr tt, {| tree := resize (inoOf node) size (tree w);
                  script := script w; fds := fds w |})
  end.

Definition sizeOfData (data : WriteData) : Z :=
  match data with
  | DataString text _ => Z.of_nat (String.length text)
  | DataBuffer bytes => Z.of_nat (String.length bytes)
  end.

Definition rm (p : string) (w0 : World) : (NodeError + unit) * World :=
  let w := others w0 in
  match MemFs.locate (tree w) false p with
  | inr segs =>
      (inr tt,
       {| tree := filter (fun entry => negb (String.eqb (fst entry) (MemFs.render segs)))
                    (tree w);
          script := script w; fds := fds w |})
  | inl _ => (inr tt, w)
  end.

(** [mkdir -p]: every missing directory on the way is created in the real
    directory of its parent. *)
Fixpoint mkdirp (t : MemFs.Tree) (done todo : list string) : MemFs.Tree :=
  match todo with
  | [] => t
  | seg :: rest =>
      if String.eqb seg "" then mkdirp t done rest
      else
        match MemFs.stat t (MemFs.render (done ++ [seg])) with
        | inr _ => mkdirp t (done ++ [seg]) rest
        | inl _ =>
            match MemFs.locate t true (MemFs.render done) with
            | inr parent =>
                mkdirp ((MemFs.render (parent ++ [seg]), MemFs.IDir (freshIno t)) :: t)
                  (done ++ [seg]) rest
            | inl _ => t
            end
        end
  end.

Definition mkdir (p : string) (w0 : World) : (NodeError + unit) * World :=
  let w := others w0 in
  (inr tt, {| tree := mkdirp (tree w) [] (Js.split Posix.sep p);
              script := script w; fds := fds w |}).

(** Modelled from the spec: [assertNoPathAliasEscape] of
    [./path-alias-guards.js] is missing; the spec says the write variant
    "applies the same alias-escape check to the write target before creating
    or truncating it", so the check is a run of the boundary path resolver on
    the current tree. *)
Definition aliasCheck (absolutePath rootPath boundaryLabel : string) (w0 : World)
  : (Exn + unit) * World :=
  let w := others w0 in
  match BoundaryPath.resolveBoundaryPath
          (PM := Posix.pathModule "/") (PG := Posix.guards "/") (H := Posix.host "/home/u")
          (MemFs.view (tree w))
          {| BoundaryPath.p_absolutePath := absolutePath;
             BoundaryPath.p_rootPath := rootPath;
             BoundaryPath.p_boundaryLabel := boundaryLabel;
             BoundaryPath.p_intent := None;
             BoundaryPath.p_policy := None;
             BoundaryPath.p_skipLexicalRootCheck := None;
             BoundaryPath.p_rootCanonicalPath := None |} with
  | Ok _ => (inr tt, w)
  | Throw e => (inl e, w)
  end.

Definition envOn (refuseDirectories : bool) : Env World :=
  {| os_lstat := fun p w0 => let w := others w0 in (MemFs.lstat (tree w) p, w);
     os_stat := fun p w0 => let w := others w0 in (MemFs.stat (tree w) p, w);
     os_realpath := fun p w0 => let w := others w0 in (MemFs.realpath (tree w) p, w);
     os_open := openOn refuseDirectories;
     os_mkdir := mkdir;
     os_rm := rm;
     os_fstat := fstat;
     os_close := fun h w0 => (inr tt, others w0);
     os_readFile := fun h w0 => (inr "", others w0);
     os_truncate := fun h len => onHandle h len;
     os_writeFile := fun h data => onHandle h (sizeOfData data);
     os_aliasCheck := aliasCheck |}.

Definition env : Env World := envOn false.

(** A quiet world: nobody else touches the tree. *)
Definition quiet (t : MemFs.Tree) : World := {| tree := t; script := []; fds := [] |}.

(** A world in which the others act: [acts] run before the calls of the
    process, in order. *)
Definition busy (t : MemFs.Tree) (acts : list (MemFs.Tree -> MemFs.Tree)) : World :=
  {| tree := t; script := acts; fds := [] |}.

Definition idle : MemFs.Tree -> MemFs.Tree := fun t => t.

(** Replace or add one entry. *)
Definition put (p : string) (node : MemFs.Inode) : MemFs.Tree -> MemFs.Tree :=
  fun t => (p, node) :: filter (fun entry => negb (String.eqb (fst entry) p)) t.

End MemOs.

(** ** Concrete inputs *)

Module Samples.

Import BoundaryPath.

Definition pathModule : PathModule := Posix.pathModule "/".
Definition guards : PathGuards := Posix.guards "/".
Definition host : Host := Posix.host "/home/u".

Definition params (absolute root : string) (policy : option BoundaryPathAliasPolicy)
  : ResolveBoundaryPathParams :=
  {| p_absolutePath := absolute;
     p_rootPath := root;
     p_boundaryLabel := "workspace root";
     p_intent := None;
     p_policy := policy;
     p_skipLexicalRootCheck := None;
     p_rootCanonicalPath := None |}.

(** [/work] with a file, a directory, and a link that leaves the root. *)
Definition workTree : MemFs.Tree :=
  [ ("/work", MemFs.IDir 10);
    ("/work/a.txt", MemFs.IFile 11 1 20);
    ("/work/dir", MemFs.IDir 12);
    ("/work/link", MemFs.ILink 13 "/etc");
    ("/etc", MemFs.IDir 20);
    ("/etc/passwd", MemFs.IFile 21 1 100) ].

(** A root that is a dangling link below a linked directory: [/r] points to
    [/real], and [/real/link] points to [/real/nowhere], which is absent. *)
Definition danglingRootTree : MemFs.Tree :=
  [ ("/real", MemFs.IDir 2);
    ("/r", MemFs.ILink 3 "/real");
    ("/real/link", MemFs.ILink 4 "/real/nowhere") ].

(** [/work/alias] is a link to the directory [/work/real], inside the root. *)
Definition linkedTree : MemFs.Tree :=
  [ ("/work", MemFs.IDir 10);
    ("/work/real", MemFs.IDir 11);
    ("/work/alias", MemFs.ILink 12 "/work/real") ].

(** [/door], outside the root [/work], is a link to the directory
    [/work/sub] inside it. *)
Definition doorTree : MemFs.Tree :=
  [ ("/work", MemFs.IDir 10);
    ("/work/sub", MemFs.IDir 11);
    ("/door", MemFs.ILink 12 "/work/sub") ].

(** [workTree] as seen by a process that may not look at [/work/dir]:
    [lstat] and [stat] of it fail with [EACCES]. *)
Definition eacces : NodeError :=
  {| ne_code := "EACCES"; ne_message := "permission denied" |}.

Definition lockedView : FsView :=
  let open := MemFs.view workTree in
  {| fs_lstat := fun p => if String.eqb p "/work/dir" then inl eacces else fs_lstat open p;
     fs_stat := fun p => if String.eqb p "/work/dir" then inl eacces else fs_stat open p;
     fs_realpath := fs_realpath open;
     fs_readlink := fs_readlink open;
     fs_existsSync := fs_existsSync open |}.

(** A filesystem without links that holds the directory [/work] and the
    file [/work/a.txt], as a table over normalized paths. *)
Definition plainView : FsView :=
  let entry := fun p =>
    if String.eqb p "/work" then Some (MemFs.IDir 10)
    else if String.eqb p "/work/a.txt" then Some (MemFs.IFile 11 1 20)
    else None in
  {| fs_lstat := fun p => match entry p with
                          | Some node => inr (MemFs.statsOf node)
                          | None => inl MemFs.enoent
                          end;
     fs_stat := fun p => match entry p with
                         | Some node => inr (MemFs.statsOf node)
                         | None => inl MemFs.enoent
                         end;
     fs_realpath := fun p => match entry p with
                             | Some _ => inr p
                             | None => inl MemFs.enoent
                             end;
     fs_readlink := fun p => match entry p with
                             | Some _ => inl MemFs.einval
                             | None => inl MemFs.enoent
                             end;
     fs_existsSync := fun p => match entry p with
                               | Some _ => true
                               | None => false
                               end |}.

Definition constants : FsConstants := Posix.linuxConstants.

(** [/work/a.txt] has 20 bytes and one name; [/work/twin.txt] and
    [/work/twin2.txt] are two names of one file. *)
Definition openTree : MemFs.Tree :=
  [ ("/work", MemFs.IDir 10);
    ("/work/a.txt", MemFs.IFile 11 1 20);
    ("/work/dir", MemFs.IDir 12);
    ("/work/twin.txt", MemFs.IFile 14 2 5);
    ("/work/twin2.txt", MemFs.IFile 14 2 5);
    ("/work/null", MemFs.IOther 15);
    ("/home", MemFs.IDir 29);
    ("/home/u", MemFs.IDir 30);
    ("/etc", MemFs.IDir 20);
    ("/etc/passwd", MemFs.IFile 21 1 100) ].

Definition rootParams (relative : string) (reject : option bool) (limit : option Z)
  : FsSafe.RootParams :=
  {| FsSafe.r_rootDir := "/work";
     FsSafe.r_relativePath := relative;
     FsSafe.r_rejectHardlinks := reject;
     FsSafe.r_maxBytes := limit |}.

(** Modelled from the spec: [openVerifiedFileSync] of [./safe-open-sync.js]
    is missing.  The spec gives one algorithm for the verified opener, "in
    blocking and suspension-capable variants", with the option
    [rejectHardlinks] ("reject when the link count is greater than one"), and
    names the failures by the error taxonomy; so the blocking opener is taken
    to be a run of [openVerifiedLocalFile] on the filesystem it is handed,
    reporting the code of the failure. *)
Definition specOpenVerifiedFileSync
  (req : BoundaryFileRead.OpenVerifiedFileSyncParams unit MemOs.World)
  : Result (BoundaryFileRead.SafeOpenSyncResult SafeOpenErrorCode) :=
  match fst (FsSafe.openVerifiedLocalFile (PG := guards) (FC := constants) MemOs.env
               (BoundaryFileRead.req_filePath req)
               (Some {| FsSafe.oo_rejectHardlinks :=
                          Some (BoundaryFileRead.req_rejectHardlinks req) |})
               (FsSafe.start (BoundaryFileRead.req_ioFs req))) with
  | Ok opened =>
      Ok (BoundaryFileRead.SyncOpened SafeOpenErrorCode
            (FsSafe.realPath opened) (FsSafe.handle opened) (FsSafe.stat opened))
  | Throw (SafeOpenError code message cause) =>
      Ok (BoundaryFileRead.SyncFailed code (Some (SafeOpenError code message cause)))
  | Throw e => Throw e
  end.

Definition boundaryParams (absolute : string) (reject : option bool)
  (policy : option BoundaryPathAliasPolicy)
  : BoundaryFileRead.OpenBoundaryFileParams unit MemOs.World :=
  {| BoundaryFileRead.o_absolutePath := absolute;
     BoundaryFileRead.o_rootPath := "/work";
     BoundaryFileRead.o_boundaryLabel := "workspace root";
     BoundaryFileRead.o_rootRealPath := None;
     BoundaryFileRead.o_maxBytes := None;
     BoundaryFileRead.o_rejectHardlinks := reject;
     BoundaryFileRead.o_allowedType := None;
     BoundaryFileRead.o_skipLexicalRootCheck := None;
     BoundaryFileRead.o_ioFs := None;
     BoundaryFileRead.o_aliasPolicy := policy |}.

(** A root with a subdirectory, and a directory outside it that holds a
    file of its own. *)
Definition writeTree : MemFs.Tree :=
  [ ("/work", MemFs.IDir 10);
    ("/work/a.txt", MemFs.IFile 11 1 20);
    ("/work/sub", MemFs.IDir 12);
    ("/home", MemFs.IDir 29);
    ("/home/u", MemFs.IDir 30);
    ("/outside", MemFs.IDir 40);
    ("/outside/victim.txt", MemFs.IFile 41 1 100) ].

Definition writeParams (relative text : string) : FsSafe.WriteParams :=
  {| FsSafe.w_rootDir := "/work";
     FsSafe.w_relativePath := relative;
     FsSafe.w_data := inl text;
     FsSafe.w_encoding := None;
     FsSafe.w_mkdir := None |}.

(** Another process replaces the directory [/work/sub] by a link to
    [/outside]. *)
Definition swapSub : MemFs.Tree -> MemFs.Tree :=
  MemOs.put "/work/sub" (MemFs.ILink 70 "/outside").

End Samples.

(* ================================================================== *)
(** * Part II — lemmas and theorems                                    *)
(* ================================================================== *)

Import BoundaryPath.

(** ** The boundary path resolver *)

Section ResolverFacts.

Context {PM : PathModule} {PG : PathGuards} {H : Host}.
Variable fs : FsView.

Lemma bindR_Ok_inv (A B : Type) (m : Result A) (k : A -> Result B) (b : B) :
  bindR m k = Ok b -> exists a, m = Ok a /\ k a = Ok b.
Proof.
  destruct m as [a|e]; simpl; intros E; [exists a; auto | discriminate].
Qed.

Lemma assertInsideBoundary_Ok (label root candidate absolute : string) (u : unit) :
  assertInsideBoundary label root candidate absolute = Ok u ->
  isPathInside root candidate = true.
Proof.
  unfold assertInsideBoundary.
  destruct (isPathInside root candidate); [reflexivity | discriminate].
Qed.

Lemma finalizeLexicalResolution_inside params rootPath rootCanonical absolute state kind r :
  finalizeLexicalResolution params rootPath rootCanonical absolute state kind = Ok r ->
  isPathInside (rootCanonicalPath r) (canonicalPath r) = true.
Proof.
  unfold finalizeLexicalResolution, assertLexicalCursorInsideBoundary.
  intros E. apply bindR_Ok_inv in E. destruct E as [u [Ha Hb]].
  apply assertInsideBoundary_Ok in Ha.
  inversion Hb; subst r; simpl. exact Ha.
Qed.

Lemma buildOutsideLexicalBoundaryPath_inside label rootCanonical absolute outside rootPath kind r :
  buildOutsideLexicalBoundaryPath label rootCanonical absolute outside rootPath kind = Ok r ->
  isPathInside (rootCanonicalPath r) (canonicalPath r) = true.
Proof.
  unfold buildOutsideLexicalBoundaryPath.
  intros E. apply bindR_Ok_inv in E. destruct E as [u [Ha Hb]].
  apply assertInsideBoundary_Ok in Ha.
  inversion Hb; subst r; simpl. exact Ha.
Qed.

Lemma resolveBoundaryPathLexicalSync_inside params absolute rootPath rootCanonical r :
  resolveBoundaryPathLexicalSync fs params absolute rootPath rootCanonical = Ok r ->
  isPathInside (rootCanonicalPath r) (canonicalPath r) = true.
Proof.
  unfold resolveBoundaryPathLexicalSync.
  destruct (lexicalLoopSync _ _ _ _ _ _ _) as [[u st]|e]; [|discriminate].
  intros E. apply bindR_Ok_inv in E. destruct E as [k [_ Hk]].
  eapply finalizeLexicalResolution_inside; eauto.
Qed.

Lemma resolveBoundaryPathLexicalAsync_inside params absolute rootPath rootCanonical r :
  resolveBoundaryPathLexicalAsync fs params absolute rootPath rootCanonical = Ok r ->
  isPathInside (rootCanonicalPath r) (canonicalPath r) = true.
Proof.
  unfold resolveBoundaryPathLexicalAsync.
  destruct (lexicalLoopAsync _ _ _ _ _ _ _) as [[u st]|e]; [|discriminate].
  intros E. apply bindR_Ok_inv in E. destruct E as [k [_ Hk]].
  eapply finalizeLexicalResolution_inside; eauto.
Qed.

Lemma resolveOutsideBoundaryPathSync_inside label context r :
  resolveOutsideBoundaryPathSync fs label context = Ok (Some r) ->
  isPathInside (rootCanonicalPath r) (canonicalPath r) = true.
Proof.
  unfold resolveOutsideBoundaryPathSync.
  destruct (ctx_lexicalInside context); [discriminate|].
  intros E. apply bindR_Ok_inv in E. destruct E as [k [_ E]].
  apply bindR_Ok_inv in E. destruct E as [r' [Hb E]].
  inversion E; subst r'.
  eapply buildOutsideLexicalBoundaryPath_inside; eauto.
Qed.

Lemma resolveOutsideBoundaryPathAsync_inside label context r :
  resolveOutsideBoundaryPathAsync fs label context = Ok (Some r) ->
  isPathInside (rootCanonicalPath r) (canonicalPath r) = true.
Proof.
  unfold resolveOutsideBoundaryPathAsync.
  destruct (ctx_lexicalInside context); [discriminate|].
  intros E. apply bindR_Ok_inv in E. destruct E as [k [_ E]].
  apply bindR_Ok_inv in E. destruct E as [r' [Hb E]].
  inversion E; subst r'.
  eapply buildOutsideLexicalBoundaryPath_inside; eauto.
Qed.

(** C1 — containment.  Whenever [resolveBoundaryPathSync] or
    [resolveBoundaryPath] returns a record, for any root, any input path, any
    options and any state of the filesystem (existing or missing trailing
    segments alike), [isPathInside] holds of the returned
    [rootCanonicalPath] and [canonicalPath].  The code makes no exception for
    a preserved final symlink: there the canonical cursor is the lexical one,
    and it passes the same check. *)
Theorem resolved_path_is_inside_root (params : ResolveBoundaryPathParams)
  (r : ResolvedBoundaryPath) :
  resolveBoundaryPathSync fs params = Ok r \/ resolveBoundaryPath fs params = Ok r ->
  isPathInside (rootCanonicalPath r) (canonicalPath r) = true.
Proof.
  intros [E|E].
  - unfold resolveBoundaryPathSync in E.
    apply bindR_Ok_inv in E. destruct E as [context [_ E]].
    apply bindR_Ok_inv in E. destruct E as [[outside|] [Ho E]].
    + inversion E; subst outside.
      eapply resolveOutsideBoundaryPathSync_inside; eauto.
    + eapply resolveBoundaryPathLexicalSync_inside; eauto.
  - unfold resolveBoundaryPath in E.
    apply bindR_Ok_inv in E. destruct E as [rootCanonical [_ E]].
    apply bindR_Ok_inv in E. destruct E as [outsideCanonical [_ E]].
    apply bindR_Ok_inv in E. destruct E as [context [_ E]].
    apply bindR_Ok_inv in E. destruct E as [[outside|] [Ho E]].
    + inversion E; subst outside.
      eapply resolveOutsideBoundaryPathAsync_inside; eauto.
    + eapply resolveBoundaryPathLexicalAsync_inside; eauto.
Qed.

End ResolverFacts.

Lemma resolved_path_is_inside_root_witness :
  isPathInside (PathGuards := Samples.guards) "/work" "/work/dir/x/out.txt" = true.
Proof.
  apply (@resolved_path_is_inside_root Samples.pathModule Samples.guards Samples.host
           (MemFs.view Samples.workTree)
           (Samples.params "/work/dir/x/out.txt" "/work" None)
           {| absolutePath := "/work/dir/x/out.txt";
              canonicalPath := "/work/dir/x/out.txt";
              rootPath := "/work";
              rootCanonicalPath := "/work";
              relativePath := "dir/x/out.txt";
              exists_ := false;
              kind := Kmissing |}).
  left. vm_compute. reflexivity.
Defined.

(** ** Blocking and suspension-capable resolver compared *)

Section SyncAsync.

Context {PM : PathModule} {PG : PathGuards} {H : Host}.
Variable fs : FsView.

(** The two lexical walks are the same function: the generator of the
    suspension-capable one yields exactly the steps of the index loop.  The
    steps of the walk leave the list of segments alone. *)
Lemma keepsSegments_bind (A B : Type) (m : Trav A) (k : A -> Trav B) :
  keepsSegments m -> (forall a, keepsSegments (k a)) -> keepsSegments (bindT m k).
Proof.
  intros Hm Hk s b s'. unfold bindT.
  destruct (m s) as [[a s1]|e] eqn:E; [|discriminate].
  intros E'. rewrite (Hk a _ _ _ E'). eapply Hm; eauto.
Qed.

Lemma keepsSegments_ret (A : Type) (a : A) : keepsSegments (retT a).
Proof. intros s a' s' E. inversion E; reflexivity. Qed.

Lemma keepsSegments_throw (A : Type) (e : Exn) : keepsSegments (@throwT A e).
Proof. intros s a' s' E. discriminate. Qed.

Lemma keepsSegments_get : keepsSegments getT.
Proof. intros s a' s' E. inversion E; reflexivity. Qed.

Lemma keepsSegments_lift (A : Type) (r : Result A) : keepsSegments (liftT r).
Proof. intros s a' s' E. unfold liftT in E. destruct r; inversion E; reflexivity. Qed.

Lemma keepsSegments_modify (f : LexicalTraversalState -> LexicalTraversalState) :
  (forall s, segments (f s) = segments s) -> keepsSegments (modifyT f).
Proof. intros Hf s a' s' E. inversion E; subst. apply Hf. Qed.

Ltac keeps :=
  repeat first
    [ apply keepsSegments_bind; [|intros ?]
    | apply keepsSegments_ret | apply keepsSegments_throw | apply keepsSegments_get
    | apply keepsSegments_lift
    | apply keepsSegments_modify; intros ?; reflexivity
    | match goal with |- keepsSegments (if ?b then _ else _) => destruct b end
    | match goal with |- keepsSegments (match ?x with _ => _ end) => destruct x end ].

Lemma keepsSegments_advance segment rootCanonical params absolute :
  keepsSegments (advanceCanonicalCursorForSegment segment rootCanonical params absolute).
Proof. unfold advanceCanonicalCursorForSegment. keeps. Qed.

Lemma keepsSegments_missing idx rootCanonical params absolute :
  keepsSegments (applyMissingSuffixToCanonicalCursor idx rootCanonical params absolute).
Proof. unfold applyMissingSuffixToCanonicalCursor. keeps. Qed.

Lemma keepsSegments_readLexicalStat idx rootCanonical params absolute read :
  keepsSegments (readLexicalStat idx rootCanonical params absolute read).
Proof.
  unfold readLexicalStat, handleLexicalStatReadFailure, handleLexicalLstatFailure.
  keeps.
Qed.

Lemma keepsSegments_disposition isLink segment isLast rootCanonical params absolute :
  keepsSegments
    (handleLexicalStatDisposition isLink segment isLast rootCanonical params absolute).
Proof.
  unfold handleLexicalStatDisposition.
  keeps.
Qed.

Lemma keepsSegments_hop rootCanonical label resolveLink :
  keepsSegments (resolveAndApplySymlinkHop rootCanonical label resolveLink).
Proof. unfold resolveAndApplySymlinkHop, applyResolvedSymlinkHop. keeps. Qed.

Lemma bindT_ext (A B : Type) (m : Trav A) (k1 k2 : A -> Trav B) s :
  (forall a s', m s = Ok (a, s') -> k1 a s' = k2 a s') ->
  bindT m k1 s = bindT m k2 s.
Proof.
  intros Hk. unfold bindT. destruct (m s) as [[a s']|e]; auto.
Qed.

Lemma hop_ext rootCanonical label (f g : string -> Result string) :
  (forall p, f p = g p) ->
  forall s, resolveAndApplySymlinkHop rootCanonical label f s
            = resolveAndApplySymlinkHop rootCanonical label g s.
Proof.
  intros Hfg s. unfold resolveAndApplySymlinkHop, bindT, getT. rewrite Hfg. reflexivity.
Qed.

Lemma lexical_loops_agree params absolute rootCanonical :
  (forall p, resolveSymlinkHopPath fs p = resolveSymlinkHopPathSync fs p) ->
  forall n idx st,
    idx + n = List.length (segments st) ->
    lexicalLoopAsync fs params absolute rootCanonical (S n) idx st
    = lexicalLoopSync fs params absolute rootCanonical n idx st.
Proof.
  intros Hhop n. induction n as [|n IH]; intros idx st Hlen.
  - simpl. unfold iterateLexicalTraversal, bindT, getT, retT.
    replace (Nat.ltb idx (List.length (segments st))) with false; [reflexivity|].
    symmetry. apply Nat.ltb_ge. lia.
  - change (lexicalLoopAsync fs params absolute rootCanonical (S (S n)) idx st)
      with (bindT (iterateLexicalTraversal idx)
              (fun next =>
                 match next with
                 | None => retT tt
                 | Some step =>
                     bindT (readLexicalStat (step_idx step) rootCanonical params absolute
                              (fs_lstat fs))
                       (fun stat =>
                          match stat with
                          | None => retT tt
                          | Some stat =>
                              bindT (handleLexicalStatDisposition (isSymbolicLink stat)
                                       (step_segment step) (step_isLast step)
                                       rootCanonical params absolute)
                                (fun disposition =>
                                   match disposition with
                                   | Continue =>
                                       lexicalLoopAsync fs params absolute rootCanonical
                                         (S n) (S idx)
                                   | Break => retT tt
                                   | ResolveLink =>
                                       bindT (resolveAndApplySymlinkHop rootCanonical
                                                (p_boundaryLabel params)
                                                (resolveSymlinkHopPath fs))
                                         (fun _ =>
                                            lexicalLoopAsync fs params absolute
                                              rootCanonical (S n) (S idx))
                                   end)
                          end)
                 end) st).
    simpl lexicalLoopSync.
    unfold iterateLexicalTraversal.
    unfold bindT at 1 2. unfold getT at 1.
    unfold bindT at 4. unfold getT at 1.
    replace (Nat.ltb idx (List.length (segments st))) with true
      by (symmetry; apply Nat.ltb_lt; lia).
    unfold bindT at 1. unfold modifyT at 1. unfold retT at 1.
    unfold bindT at 3. unfold modifyT at 1.
    simpl step_idx; simpl step_segment; simpl step_isLast.
    set (st1 := set_lexicalCursor _ st).
    assert (Hst1 : segments st1 = segments st) by reflexivity.
    match goal with
    | |- _ = bindT ?m ?k st => change (bindT m k st) with (k tt st1)
    end.
    cbv beta.
    apply bindT_ext. intros [stat|] s2 Hs2; [|reflexivity].
    pose proof (@keepsSegments_readLexicalStat _ _ _ _ _ _ _ _ Hs2) as Hseg2.
    apply bindT_ext. intros d s3 Hs3.
    pose proof (@keepsSegments_disposition _ _ _ _ _ _ _ _ _ Hs3) as Hseg3.
    destruct d; [|reflexivity|].
    + apply IH. rewrite Hseg3, Hseg2, Hst1. lia.
    + unfold bindT at 1.
      rewrite (hop_ext rootCanonical (p_boundaryLabel params) _ _ Hhop s3).
      fold (bindT (resolveAndApplySymlinkHop rootCanonical (p_boundaryLabel params)
                     (resolveSymlinkHopPathSync fs))
                  (fun _ => lexicalLoopAsync fs params absolute rootCanonical (S n) (S idx))
                  s3).
      apply bindT_ext. intros u s4 Hs4.
      pose proof (@keepsSegments_hop _ _ _ _ _ _ Hs4) as Hseg4.
      apply IH. rewrite Hseg4, Hseg3, Hseg2, Hst1. lia.
Qed.

(** Where [fs.existsSync] answers as the [lstat] probe [pathExists] does,
    the two resolvers are the same function. *)
Section ProbesAgree.

Hypothesis probes_agree : forall p, pathExists fs p = Ok (fs_existsSync fs p).

Lemma ancestorLoop_agree fuel : forall cursor missing,
  ancestorLoop fs fuel cursor missing = Ok (ancestorLoopSync fs fuel cursor missing).
Proof.
  induction fuel as [|fuel IH]; intros cursor missing; simpl; [reflexivity|].
  destruct (isFilesystemRoot cursor); cbn [negb andb]; [reflexivity|].
  rewrite probes_agree. cbn [bindR].
  destruct (fs_existsSync fs cursor); cbn [negb]; [reflexivity|].
  destruct (String.eqb (path_dirname cursor) cursor); [reflexivity|apply IH].
Qed.

Lemma resolvePathViaExistingAncestor_agree target :
  resolvePathViaExistingAncestor fs target = Ok (resolvePathViaExistingAncestorSync fs target).
Proof.
  unfold resolvePathViaExistingAncestor, resolvePathViaExistingAncestorSync.
  rewrite ancestorLoop_agree. cbn [bindR].
  destruct (ancestorLoopSync fs _ _ _) as [cursor missing].
  rewrite probes_agree. cbn [bindR].
  destruct (fs_existsSync fs cursor); simpl; [|reflexivity].
  destruct (fs_realpath fs cursor); [reflexivity|].
  destruct missing; reflexivity.
Qed.

Lemma resolveSymlinkHopPath_agree p :
  resolveSymlinkHopPath fs p = resolveSymlinkHopPathSync fs p.
Proof.
  unfold resolveSymlinkHopPath, resolveSymlinkHopPathSync.
  destruct (fs_realpath fs p); [|reflexivity].
  destruct (negb _); [reflexivity|].
  destruct (fs_readlink fs p); simpl; [reflexivity|].
  apply resolvePathViaExistingAncestor_agree.
Qed.

Lemma resolveBoundaryPathLexical_agree params absolute rootPath rootCanonical :
  resolveBoundaryPathLexicalAsync fs params absolute rootPath rootCanonical
  = resolveBoundaryPathLexicalSync fs params absolute rootPath rootCanonical.
Proof.
  unfold resolveBoundaryPathLexicalAsync, resolveBoundaryPathLexicalSync.
  rewrite (lexical_loops_agree params absolute rootCanonical resolveSymlinkHopPath_agree)
    by reflexivity.
  reflexivity.
Qed.

Lemma resolvers_agree_when_probes_agree params :
  resolveBoundaryPath fs params = resolveBoundaryPathSync fs params.
Proof.
  unfold resolveBoundaryPath, resolveBoundaryPathSync.
  replace (match givenRootCanonicalPath params with
           | Some v => Ok (path_resolve [v])
           | None => resolvePathViaExistingAncestor fs (path_resolve [p_rootPath params])
           end)
    with (Ok (A := string)
            match givenRootCanonicalPath params with
            | Some v => path_resolve [v]
            | None => resolvePathViaExistingAncestorSync fs (path_resolve [p_rootPath params])
            end)
    by (destruct (givenRootCanonicalPath params);
        [reflexivity | symmetry; apply resolvePathViaExistingAncestor_agree]).
  cbn [bindR].
  replace (resolveOutsideLexicalCanonicalPathAsync fs (path_resolve [p_rootPath params])
             (path_resolve [p_absolutePath params]))
    with (Ok (resolveOutsideLexicalCanonicalPathSync fs (path_resolve [p_rootPath params])
                (path_resolve [p_absolutePath params]))).
  2:{ unfold resolveOutsideLexicalCanonicalPathAsync, resolveOutsideLexicalCanonicalPathSync.
      destruct (isPathInside _ _); [reflexivity|].
      rewrite resolvePathViaExistingAncestor_agree. reflexivity. }
  cbn [bindR].
  destruct (createBoundaryResolutionContext _ _ _ _ _) as [context|e]; [|reflexivity].
  cbn [bindR].
  change (resolveOutsideBoundaryPathAsync fs (p_boundaryLabel params) context)
    with (resolveOutsideBoundaryPathSync fs (p_boundaryLabel params) context).
  destruct (resolveOutsideBoundaryPathSync fs (p_boundaryLabel params) context)
    as [[outside|]|e]; cbn [bindR]; try reflexivity.
  apply resolveBoundaryPathLexical_agree.
Qed.

End ProbesAgree.

End SyncAsync.

(** C2 — on a root that is a dangling symbolic link below a linked
    directory, the two resolvers return different records.  [/r] is a link
    to [/real] and [/real/link] a link to the absent [/real/nowhere]; root
    and input are both [/r/link].  The suspension-capable resolver probes
    with [lstat], finds the link, fails to take its real path and keeps the
    lexical root [/r/link]; the blocking one probes with [fs.existsSync],
    which follows the link and answers [false], walks up to [/r] and
    returns [/real/link]. *)
Theorem resolvers_disagree_on_dangling_root :
  resolveBoundaryPath (PM := Samples.pathModule) (PG := Samples.guards) (H := Samples.host)
    (MemFs.view Samples.danglingRootTree) (Samples.params "/r/link" "/r/link" None)
  = Ok {| absolutePath := "/r/link";
          canonicalPath := "/r/link";
          rootPath := "/r/link";
          rootCanonicalPath := "/r/link";
          relativePath := "";
          exists_ := false;
          kind := Kmissing |}
  /\
  resolveBoundaryPathSync (PM := Samples.pathModule) (PG := Samples.guards) (H := Samples.host)
    (MemFs.view Samples.danglingRootTree) (Samples.params "/r/link" "/r/link" None)
  = Ok {| absolutePath := "/r/link";
          canonicalPath := "/real/link";
          rootPath := "/r/link";
          rootCanonicalPath := "/real/link";
          relativePath := "";
          exists_ := false;
          kind := Kmissing |}.
Proof. split; vm_compute; reflexivity. Qed.

(** ** Paths whose trailing segments are missing *)

Section MissingSuffix.

Context {PM : PathModule} {PG : PathGuards} {H : Host}.
Variable fs : FsView.
Variable params : ResolveBoundaryPathParams.
Variables absolute rootCanonical : string.

(** One turn of either loop on a segment that is not there: the canonical
    cursor takes the whole missing suffix and the loop stops. *)
Lemma readLexicalStat_missing idx st e :
  fs_lstat fs (lexicalCursor st) = inl e ->
  isNotFoundPathError (NodeErr e) = true ->
  isPathInside rootCanonical
    (path_resolve (canonicalCursor st :: skipn idx (segments st))) = true ->
  readLexicalStat idx rootCanonical params absolute (fs_lstat fs) st
  = Ok (None,
        set_canonicalCursor
          (path_resolve (canonicalCursor st :: skipn idx (segments st))) st).
Proof.
  intros Hl Hnf Hin.
  unfold readLexicalStat, bindT, getT. rewrite Hl.
  unfold handleLexicalStatReadFailure, handleLexicalLstatFailure, bindT.
  rewrite Hnf. cbn [negb].
  unfold applyMissingSuffixToCanonicalCursor, bindT, getT, modifyT, liftT,
    assertLexicalCursorInsideBoundary, assertInsideBoundary.
  cbn [canonicalCursor set_canonicalCursor]. rewrite Hin. reflexivity.
Qed.

Lemma readLexicalStat_present idx st stat :
  fs_lstat fs (lexicalCursor st) = inr stat ->
  readLexicalStat idx rootCanonical params absolute (fs_lstat fs) st = Ok (Some stat, st).
Proof.
  intros Hl. unfold readLexicalStat, bindT, getT. rewrite Hl. reflexivity.
Qed.

Lemma disposition_entry st segment isLast :
  isPathInside rootCanonical (path_resolve [canonicalCursor st; segment]) = true ->
  handleLexicalStatDisposition false segment isLast rootCanonical params absolute st
  = Ok (Continue, set_canonicalCursor (path_resolve [canonicalCursor st; segment]) st).
Proof.
  intros Hin.
  unfold handleLexicalStatDisposition. cbn [negb].
  unfold advanceCanonicalCursorForSegment, bindT, getT, modifyT, liftT, retT,
    assertLexicalCursorInsideBoundary, assertInsideBoundary.
  cbn [canonicalCursor set_canonicalCursor]. rewrite Hin. reflexivity.
Qed.

Lemma disposition_link st segment :
  handleLexicalStatDisposition true segment false rootCanonical params absolute st
  = Ok (ResolveLink, st).
Proof.
  unfold handleLexicalStatDisposition, bindT, getT, retT. cbn [negb].
  rewrite andb_false_r. reflexivity.
Qed.

Lemma hop_to_real st real (resolveLink : string -> Result string) :
  resolveLink (lexicalCursor st) = Ok (path_resolve [real]) ->
  isPathInside rootCanonical (path_resolve [real]) = true ->
  resolveAndApplySymlinkHop rootCanonical (p_boundaryLabel params) resolveLink st
  = Ok (tt, set_lexicalCursor (path_resolve [real])
              (set_canonicalCursor (path_resolve [real]) st)).
Proof.
  intros Hr Hin.
  unfold resolveAndApplySymlinkHop, bindT, getT, liftT. rewrite Hr.
  unfold applyResolvedSymlinkHop, bindT, getT, modifyT. rewrite Hin. reflexivity.
Qed.

Lemma hop_sync_real p real :
  fs_realpath fs p = inr real -> resolveSymlinkHopPathSync fs p = Ok (path_resolve [real]).
Proof. intros Hr. unfold resolveSymlinkHopPathSync. rewrite Hr. reflexivity. Qed.

Lemma hop_async_real p real :
  fs_realpath fs p = inr real -> resolveSymlinkHopPath fs p = Ok (path_resolve [real]).
Proof. intros Hr. unfold resolveSymlinkHopPath. rewrite Hr. reflexivity. Qed.

Lemma nth_middle_app (pre : list string) x post d :
  nth (List.length pre) (pre ++ x :: post) d = x.
Proof. induction pre; simpl; auto. Qed.

Lemma skipn_middle_app (pre post : list string) :
  skipn (List.length pre) (pre ++ post) = post.
Proof. induction pre; simpl; auto. Qed.

Lemma not_last (pre : list string) x y post :
  Nat.eqb (List.length pre) (List.length (pre ++ x :: y :: post) - 1) = false.
Proof.
  apply Nat.eqb_neq. rewrite length_app. simpl. lia.
Qed.

Lemma bindT_Ok (A B : Type) (m : Trav A) (k : A -> Trav B) s a s' :
  m s = Ok (a, s') -> bindT m k s = k a s'.
Proof. intros E. unfold bindT. rewrite E. reflexivity. Qed.

Lemma lexicalLoopSync_step n idx st :
  lexicalLoopSync fs params absolute rootCanonical (S n) idx st
  = bindT (readLexicalStat idx rootCanonical params absolute (fs_lstat fs))
      (fun maybeStat =>
         match maybeStat with
         | None => retT tt
         | Some stat =>
             bindT (handleLexicalStatDisposition (isSymbolicLink stat)
                      (nth idx (segments st) "")
                      (Nat.eqb idx (List.length (segments st) - 1))
                      rootCanonical params absolute)
               (fun disposition =>
                  match disposition with
                  | Continue => lexicalLoopSync fs params absolute rootCanonical n (S idx)
                  | Break => retT tt
                  | ResolveLink =>
                      bindT (resolveAndApplySymlinkHop rootCanonical (p_boundaryLabel params)
                               (resolveSymlinkHopPathSync fs))
                        (fun _ => lexicalLoopSync fs params absolute rootCanonical n (S idx))
                  end)
         end)
      (set_lexicalCursor (path_join (lexicalCursor st) (nth idx (segments st) "")) st).
Proof. reflexivity. Qed.

Lemma lexicalLoopAsync_step n idx st :
  Nat.ltb idx (List.length (segments st)) = true ->
  lexicalLoopAsync fs params absolute rootCanonical (S n) idx st
  = bindT (readLexicalStat idx rootCanonical params absolute (fs_lstat fs))
      (fun maybeStat =>
         match maybeStat with
         | None => retT tt
         | Some stat =>
             bindT (handleLexicalStatDisposition (isSymbolicLink stat)
                      (nth idx (segments st) "")
                      (Nat.eqb idx (List.length (segments st) - 1))
                      rootCanonical params absolute)
               (fun disposition =>
                  match disposition with
                  | Continue => lexicalLoopAsync fs params absolute rootCanonical n (S idx)
                  | Break => retT tt
                  | ResolveLink =>
                      bindT (resolveAndApplySymlinkHop rootCanonical (p_boundaryLabel params)
                               (resolveSymlinkHopPath fs))
                        (fun _ => lexicalLoopAsync fs params absolute rootCanonical n (S idx))
                  end)
         end)
      (set_lexicalCursor (path_join (lexicalCursor st) (nth idx (segments st) "")) st).
Proof.
  intros Hlt. cbn [lexicalLoopAsync].
  unfold iterateLexicalTraversal.
  unfold bindT at 1 2. unfold getT at 1. rewrite Hlt.
  reflexivity.
Qed.

(** Both loops, run from the segment after [pre] over an existing prefix
    followed by a missing suffix [m :: ms], stop at [m] with the canonical
    cursor at the canonical form of the prefix joined with [m :: ms]. *)
Lemma lexicalLoopSync_missing_suffix existing lex canon lexA canonA :
  ExistingPrefix fs rootCanonical lex canon existing lexA canonA ->
  forall pre m ms st e,
    segments st = pre ++ existing ++ m :: ms ->
    lexicalCursor st = lex ->
    canonicalCursor st = canon ->
    fs_lstat fs (path_join lexA m) = inl e ->
    isNotFoundPathError (NodeErr e) = true ->
    isPathInside rootCanonical (path_resolve (canonA :: m :: ms)) = true ->
    lexicalLoopSync fs params absolute rootCanonical
      (List.length (existing ++ m :: ms)) (List.length pre) st
    = Ok (tt, {| segments := segments st;
                 allowFinalSymlink := allowFinalSymlink st;
                 canonicalCursor := path_resolve (canonA :: m :: ms);
                 lexicalCursor := path_join lexA m;
                 preserveFinalSymlink := preserveFinalSymlink st |}).
Proof.
  induction 1 as [lex canon
                 |lex canon segment rest stat lex' canon' Hl Hs Hin _ IH
                 |lex canon segment rest stat real lex' canon' Hl Hs Hr Hin _ IH];
    intros pre m ms st e Hseg Hlex Hcanon Hml Hnf Hmin.
  - cbn [app] in Hseg.
    assert (Hnth : nth (List.length pre) (segments st) "" = m)
      by (rewrite Hseg; apply nth_middle_app).
    assert (Hskip : skipn (List.length pre) (segments st) = m :: ms)
      by (rewrite Hseg; apply skipn_middle_app).
    cbn [app List.length]. rewrite lexicalLoopSync_step, Hnth.
    erewrite bindT_Ok.
    2:{ apply readLexicalStat_missing with (e := e).
        - cbn [lexicalCursor set_lexicalCursor]. rewrite Hlex. exact Hml.
        - exact Hnf.
        - cbn [canonicalCursor segments set_lexicalCursor].
          rewrite Hskip, Hcanon. exact Hmin. }
    cbn [canonicalCursor segments set_lexicalCursor].
    rewrite Hskip, Hcanon, Hlex. reflexivity.
  - assert (Hnth : nth (List.length pre) (segments st) "" = segment)
      by (rewrite Hseg; apply nth_middle_app).
    cbn [app List.length]. rewrite lexicalLoopSync_step, Hnth.
    erewrite bindT_Ok.
    2:{ apply readLexicalStat_present with (stat := stat).
        cbn [lexicalCursor set_lexicalCursor]. rewrite Hlex. exact Hl. }
    cbv beta iota. rewrite Hs.
    erewrite bindT_Ok.
    2:{ apply disposition_entry.
        cbn [canonicalCursor set_lexicalCursor]. rewrite Hcanon. exact Hin. }
    cbv beta iota.
    specialize (IH (pre ++ [segment]) m ms
                  (set_canonicalCursor (path_resolve [canon; segment])
                     (set_lexicalCursor (path_join lex segment) st)) e).
    replace (S (List.length pre)) with (List.length (pre ++ [segment]))
      by (rewrite length_app; cbn [List.length]; lia).
    cbn [canonicalCursor set_lexicalCursor]. rewrite Hcanon, Hlex.
    rewrite IH; auto.
    cbn [segments set_canonicalCursor set_lexicalCursor]. rewrite Hseg.
    rewrite <- app_assoc. reflexivity.
  - assert (Hnth : nth (List.length pre) (segments st) "" = segment)
      by (rewrite Hseg; apply nth_middle_app).
    assert (Hnl : Nat.eqb (List.length pre) (List.length (segments st) - 1) = false).
    { apply Nat.eqb_neq. rewrite Hseg, length_app. cbn [app List.length].
      rewrite length_app. cbn [List.length]. lia. }
    cbn [app List.length]. rewrite lexicalLoopSync_step, Hnth, Hnl.
    erewrite bindT_Ok.
    2:{ apply readLexicalStat_present with (stat := stat).
        cbn [lexicalCursor set_lexicalCursor]. rewrite Hlex. exact Hl. }
    cbv beta iota. rewrite Hs.
    erewrite bindT_Ok by apply disposition_link.
    cbv beta iota.
    erewrite bindT_Ok.
    2:{ apply hop_to_real with (real := real); [|exact Hin].
        apply hop_sync_real. cbn [lexicalCursor set_lexicalCursor]. rewrite Hlex. exact Hr. }
    cbv beta iota.
    specialize (IH (pre ++ [segment]) m ms
                  (set_lexicalCursor (path_resolve [real])
                     (set_canonicalCursor (path_resolve [real])
                        (set_lexicalCursor (path_join (lexicalCursor st) segment) st))) e).
    replace (S (List.length pre)) with (List.length (pre ++ [segment]))
      by (rewrite length_app; cbn [List.length]; lia).
    rewrite IH; auto.
    cbn [segments set_canonicalCursor set_lexicalCursor]. rewrite Hseg.
    rewrite <- app_assoc. reflexivity.
Qed.

Lemma lexicalLoopAsync_missing_suffix existing lex canon lexA canonA :
  ExistingPrefix fs rootCanonical lex canon existing lexA canonA ->
  forall pre m ms st e,
    segments st = pre ++ existing ++ m :: ms ->
    lexicalCursor st = lex ->
    canonicalCursor st = canon ->
    fs_lstat fs (path_join lexA m) = inl e ->
    isNotFoundPathError (NodeErr e) = true ->
    isPathInside rootCanonical (path_resolve (canonA :: m :: ms)) = true ->
    lexicalLoopAsync fs params absolute rootCanonical
      (S (List.length (existing ++ m :: ms))) (List.length pre) st
    = Ok (tt, {| segments := segments st;
                 allowFinalSymlink := allowFinalSymlink st;
                 canonicalCursor := path_resolve (canonA :: m :: ms);
                 lexicalCursor := path_join lexA m;
                 preserveFinalSymlink := preserveFinalSymlink st |}).
Proof.
  induction 1 as [lex canon
                 |lex canon segment rest stat lex' canon' Hl Hs Hin _ IH
                 |lex canon segment rest stat real lex' canon' Hl Hs Hr Hin _ IH];
    intros pre m ms st e Hseg Hlex Hcanon Hml Hnf Hmin;
    assert (Hlt : Nat.ltb (List.length pre) (List.length (segments st)) = true)
      by (apply Nat.ltb_lt; rewrite Hseg, !length_app; cbn [List.length]; lia).
  - cbn [app] in Hseg.
    assert (Hnth : nth (List.length pre) (segments st) "" = m)
      by (rewrite Hseg; apply nth_middle_app).
    assert (Hskip : skipn (List.length pre) (segments st) = m :: ms)
      by (rewrite Hseg; apply skipn_middle_app).
    cbn [app List.length]. rewrite lexicalLoopAsync_step by exact Hlt. rewrite Hnth.
    erewrite bindT_Ok.
    2:{ apply readLexicalStat_missing with (e := e).
        - cbn [lexicalCursor set_lexicalCursor]. rewrite Hlex. exact Hml.
        - exact Hnf.
        - cbn [canonicalCursor segments set_lexicalCursor].
          rewrite Hskip, Hcanon. exact Hmin. }
    cbn [canonicalCursor segments set_lexicalCursor].
    rewrite Hskip, Hcanon, Hlex. reflexivity.
  - assert (Hnth : nth (List.length pre) (segments st) "" = segment)
      by (rewrite Hseg; apply nth_middle_app).
    cbn [app List.length]. rewrite lexicalLoopAsync_step by exact Hlt. rewrite Hnth.
    erewrite bindT_Ok.
    2:{ apply readLexicalStat_present with (stat := stat).
        cbn [lexicalCursor set_lexicalCursor]. rewrite Hlex. exact Hl. }
    cbv beta iota. rewrite Hs.
    erewrite bindT_Ok.
    2:{ apply disposition_entry.
        cbn [canonicalCursor set_lexicalCursor]. rewrite Hcanon. exact Hin. }
    cbv beta iota.
    specialize (IH (pre ++ [segment]) m ms
                  (set_canonicalCursor (path_resolve [canon; segment])
                     (set_lexicalCursor (path_join lex segment) st)) e).
    replace (S (List.length pre)) with (List.length (pre ++ [segment]))
      by (rewrite length_app; cbn [List.length]; lia).
    cbn [canonicalCursor set_lexicalCursor]. rewrite Hcanon, Hlex.
    rewrite IH; auto.
    cbn [segments set_canonicalCursor set_lexicalCursor]. rewrite Hseg.
    rewrite <- app_assoc. reflexivity.
  - assert (Hnth : nth (List.length pre) (segments st) "" = segment)
      by (rewrite Hseg; apply nth_middle_app).
    assert (Hnl : Nat.eqb (List.length pre) (List.length (segments st) - 1) = false).
    { apply Nat.eqb_neq. rewrite Hseg, length_app. cbn [app List.length].
      rewrite length_app. cbn [List.length]. lia. }
    cbn [app List.length]. rewrite lexicalLoopAsync_step by exact Hlt. rewrite Hnth, Hnl.
    erewrite bindT_Ok.
    2:{ apply readLexicalStat_present with (stat := stat).
        cbn [lexicalCursor set_lexicalCursor]. rewrite Hlex. exact Hl. }
    cbv beta iota. rewrite Hs.
    erewrite bindT_Ok by apply disposition_link.
    cbv beta iota.
    erewrite bindT_Ok.
    2:{ apply hop_to_real with (real := real); [|exact Hin].
        apply hop_async_real. cbn [lexicalCursor set_lexicalCursor]. rewrite Hlex. exact Hr. }
    cbv beta iota.
    specialize (IH (pre ++ [segment]) m ms
                  (set_lexicalCursor (path_resolve [real])
                     (set_canonicalCursor (path_resolve [real])
                        (set_lexicalCursor (path_join (lexicalCursor st) segment) st))) e).
    replace (S (List.length pre)) with (List.length (pre ++ [segment]))
      by (rewrite length_app; cbn [List.length]; lia).
    rewrite IH; auto.
    cbn [segments set_canonicalCursor set_lexicalCursor]. rewrite Hseg.
    rewrite <- app_assoc. reflexivity.
Qed.

End MissingSuffix.

Section MissingPathDeterminism.

Context {PM : PathModule} {PG : PathGuards} {H : Host}.
Variable fs : FsView.

Lemma resolvePathViaExistingAncestorSync_existing target real :
  fs_existsSync fs (path_resolve [target]) = true ->
  fs_realpath fs (path_resolve [target]) = inr real ->
  resolvePathViaExistingAncestorSync fs target = path_resolve [real].
Proof.
  intros Hex Hreal. unfold resolvePathViaExistingAncestorSync.
  cbn [ancestorLoopSync]. rewrite Hex. cbn [negb]. rewrite andb_false_r.
  rewrite Hex, Hreal. reflexivity.
Qed.

Lemma resolvePathViaExistingAncestor_existing target stat real :
  fs_lstat fs (path_resolve [target]) = inr stat ->
  fs_realpath fs (path_resolve [target]) = inr real ->
  resolvePathViaExistingAncestor fs target = Ok (path_resolve [real]).
Proof.
  intros Hl Hreal. unfold resolvePathViaExistingAncestor.
  assert (Hp : pathExists fs (path_resolve [target]) = Ok true)
    by (unfold pathExists; rewrite Hl; reflexivity).
  cbn [ancestorLoop]. rewrite Hp. cbn [bindR].
  destruct (isFilesystemRoot (path_resolve [target])); cbn [bindR];
    rewrite Hp; cbn [bindR negb]; rewrite Hreal; reflexivity.
Qed.

(** C3 — missing-path determinism.  Take an existing root (its [lstat],
    [existsSync] and [realpath] answer; no [rootCanonicalPath] is passed in,
    and [path.resolve] leaves its own output as it is) and an input lexically
    under it whose
    segments below the root are [existing ++ m :: ms]: the entries of
    [existing] are there, with [canonA] the canonical form of the deepest
    one, and [m] is not there (nor, then, the input itself).  When the
    appended path passes the boundary test, both resolvers return the record
    with [exists = false], [kind = "missing"] and
    [canonicalPath = path.resolve(canonA, m, ...ms)]: the canonical form of
    the deepest existing ancestor with the missing segments appended as they
    are written. *)
Theorem missing_suffix_resolution
  (params : ResolveBoundaryPathParams) (rootStat : Stats) (rootReal : string)
  (existing : list string) (m : string) (ms : list string) (lexA canonA : string)
  (e e' : NodeError) :
  let root := path_resolve [p_rootPath params] in
  let absolute := path_resolve [p_absolutePath params] in
  let rootCanonical := path_resolve [rootReal] in
  givenRootCanonicalPath params = None ->
  path_resolve [root] = root ->
  fs_lstat fs root = inr rootStat ->
  fs_existsSync fs root = true ->
  fs_realpath fs root = inr rootReal ->
  isPathInside root absolute = true ->
  Js.filterBoolean (Js.split path_sep (path_relative root absolute)) = existing ++ m :: ms ->
  ExistingPrefix fs rootCanonical root rootCanonical existing lexA canonA ->
  fs_lstat fs (path_join lexA m) = inl e ->
  isNotFoundPathError (NodeErr e) = true ->
  fs_stat fs absolute = inl e' ->
  isNotFoundPathError (NodeErr e') = true ->
  isPathInside rootCanonical (path_resolve (canonA :: m :: ms)) = true ->
  exists r,
    resolveBoundaryPathSync fs params = Ok r /\
    resolveBoundaryPath fs params = Ok r /\
    exists_ r = false /\
    kind r = Kmissing /\
    canonicalPath r = path_resolve (canonA :: m :: ms) /\
    rootCanonicalPath r = rootCanonical.
Proof.
  intros root absolute rootCanonical Hgiven Hidem Hrl Hrex Hrr Hinside Hsegs Hprefix
    Hml Hmnf Has Hanf Hmin.
  exists (buildResolvedBoundaryPath absolute (path_resolve (canonA :: m :: ms))
            root rootCanonical {| pk_exists := false; pk_kind := Kmissing |}).
  assert (Hkind : getPathKindSync fs absolute false
                  = Ok {| pk_exists := false; pk_kind := Kmissing |}).
  { unfold getPathKindSync. rewrite Has, Hanf. reflexivity. }
  assert (Hfinal : forall st,
             canonicalCursor st = path_resolve (canonA :: m :: ms) ->
             finalizeLexicalResolution params root rootCanonical absolute st
               {| pk_exists := false; pk_kind := Kmissing |}
             = Ok (buildResolvedBoundaryPath absolute (path_resolve (canonA :: m :: ms))
                     root rootCanonical {| pk_exists := false; pk_kind := Kmissing |})).
  { intros st Hst. unfold finalizeLexicalResolution, assertLexicalCursorInsideBoundary,
      assertInsideBoundary. rewrite Hst, Hmin. reflexivity. }
  assert (Hctx : forall outside,
             createBoundaryResolutionContext params root absolute rootCanonical outside
             = Ok {| ctx_rootPath := root; ctx_absolutePath := absolute;
                     ctx_rootCanonicalPath := rootCanonical; ctx_lexicalInside := true;
                     ctx_canonicalOutsideLexicalPath :=
                       resolveCanonicalOutsideLexicalPath absolute outside |}).
  { intros outside. unfold createBoundaryResolutionContext,
      assertLexicalBoundaryOrCanonicalAlias. rewrite Hinside, orb_true_r. reflexivity. }
  split; [|split; [|repeat split]].
  - unfold resolveBoundaryPathSync. fold root absolute. rewrite Hgiven.
    rewrite (@resolvePathViaExistingAncestorSync_existing root rootReal)
      by (rewrite Hidem; assumption).
    fold rootCanonical. rewrite Hctx. cbn [bindR].
    unfold resolveOutsideBoundaryPathSync.
    cbn [ctx_lexicalInside ctx_absolutePath ctx_rootPath ctx_rootCanonicalPath bindR].
    unfold resolveBoundaryPathLexicalSync.
    set (st0 := createLexicalTraversalState params root rootCanonical absolute).
    assert (Hst0 : segments st0 = existing ++ m :: ms) by exact Hsegs.
    rewrite Hst0.
    pose proof (@lexicalLoopSync_missing_suffix PM PG H fs params absolute rootCanonical
                  existing root rootCanonical lexA canonA Hprefix [] m ms st0 e
                  Hst0 eq_refl eq_refl Hml Hmnf Hmin) as Hloop.
    cbn [List.length] in Hloop. rewrite Hloop.
    cbn [preserveFinalSymlink st0 createLexicalTraversalState].
    rewrite Hkind. cbn [bindR]. apply Hfinal. reflexivity.
  - unfold resolveBoundaryPath. fold root absolute. rewrite Hgiven.
    rewrite (@resolvePathViaExistingAncestor_existing root rootStat rootReal)
      by (rewrite Hidem; assumption).
    cbn [bindR]. fold rootCanonical.
    unfold resolveOutsideLexicalCanonicalPathAsync. rewrite Hinside. cbn [bindR].
    rewrite Hctx. cbn [bindR].
    unfold resolveOutsideBoundaryPathAsync.
    cbn [ctx_lexicalInside ctx_absolutePath ctx_rootPath ctx_rootCanonicalPath bindR].
    unfold resolveBoundaryPathLexicalAsync.
    set (st0 := createLexicalTraversalState params root rootCanonical absolute).
    assert (Hst0 : segments st0 = existing ++ m :: ms) by exact Hsegs.
    rewrite Hst0.
    pose proof (@lexicalLoopAsync_missing_suffix PM PG H fs params absolute rootCanonical
                  existing root rootCanonical lexA canonA Hprefix [] m ms st0 e
                  Hst0 eq_refl eq_refl Hml Hmnf Hmin) as Hloop.
    cbn [List.length] in Hloop. rewrite Hloop.
    cbn [preserveFinalSymlink st0 createLexicalTraversalState].
    change (getPathKind fs absolute false) with (getPathKindSync fs absolute false).
    rewrite Hkind. cbn [bindR]. apply Hfinal. reflexivity.
Qed.

End MissingPathDeterminism.


Lemma missing_suffix_resolution_witness :
  exists r,
    resolveBoundaryPathSync (PM := Samples.pathModule) (PG := Samples.guards)
      (H := Samples.host) (MemFs.view Samples.linkedTree)
      (Samples.params "/work/alias/new/out.txt" "/work" None) = Ok r /\
    resolveBoundaryPath (PM := Samples.pathModule) (PG := Samples.guards)
      (H := Samples.host) (MemFs.view Samples.linkedTree)
      (Samples.params "/work/alias/new/out.txt" "/work" None) = Ok r /\
    exists_ r = false /\
    kind r = Kmissing /\
    canonicalPath r
    = path_resolve (PathModule := Samples.pathModule) ["/work/real"; "new"; "out.txt"] /\
    rootCanonicalPath r = path_resolve (PathModule := Samples.pathModule) ["/work"].
Proof.
  refine (@missing_suffix_resolution Samples.pathModule Samples.guards Samples.host
           (MemFs.view Samples.linkedTree)
           (Samples.params "/work/alias/new/out.txt" "/work" None)
           (MemFs.statsOf (MemFs.IDir 10)) "/work"
           ["alias"] "new" ["out.txt"] "/work/real" "/work/real"
           MemFs.enoent MemFs.enoent _ _ _ _ _ _ _ _ _ _ _ _ _).
  all: match goal with
       | |- ExistingPrefix _ _ _ _ _ _ _ => idtac
       | |- _ => vm_compute; reflexivity
       end.
  eapply Existing_link with (real := "/work/real");
    [vm_compute; reflexivity | vm_compute; reflexivity | vm_compute; reflexivity
    | vm_compute; reflexivity | ].
  replace (path_resolve ["/work/real"]) with "/work/real" by (vm_compute; reflexivity).
  apply Existing_done.
Defined.

(** The same for an input that is not lexically under the root: [/door]
    is a link to [/work/sub], and [/door/new/out.txt] is not there.  The
    canonical path is the real path of [/door], the deepest entry that is
    there, with [new/out.txt] appended. *)
Lemma missing_tail_outside_lexical_root :
  let expected :=
    {| absolutePath := "/door/new/out.txt";
       canonicalPath := "/work/sub/new/out.txt";
       rootPath := "/work";
       rootCanonicalPath := "/work";
       relativePath := "sub/new/out.txt";
       exists_ := false;
       kind := Kmissing |} in
  resolveBoundaryPath (PM := Samples.pathModule) (PG := Samples.guards)
    (H := Samples.host) (MemFs.view Samples.doorTree)
    (Samples.params "/door/new/out.txt" "/work" None) = Ok expected /\
  resolveBoundaryPathSync (PM := Samples.pathModule) (PG := Samples.guards)
    (H := Samples.host) (MemFs.view Samples.doorTree)
    (Samples.params "/door/new/out.txt" "/work" None) = Ok expected.
Proof. split; vm_compute; reflexivity. Qed.

(** ** The verified opener and the root-scoped helpers *)

Import FsSafe.

Section OpenerFacts.

Context {PM : PathModule} {PG : PathGuards} {H : Host} {FC : FsConstants}.
Variable W : Type.
Variable env : Env W.

Ltac next_call c := destruct c as [[?|?] ?] eqn:?.

Ltac exec :=
  repeat first
    [ progress cbn [world trace ofOs fst snd isSafeOpenError]
    | match goal with
      | |- context [os_close env ?a ?w] => next_call (os_close env a w)
      | |- context [os_lstat env ?a ?w] => next_call (os_lstat env a w)
      | |- context [os_stat env ?a ?w] => next_call (os_stat env a w)
      | |- context [os_realpath env ?a ?w] => next_call (os_realpath env a w)
      | |- context [os_fstat env ?a ?w] => next_call (os_fstat env a w)
      | |- context [os_open env ?a ?b ?c ?w] => next_call (os_open env a b c w)
      | |- context [os_mkdir env ?a ?w] => next_call (os_mkdir env a w)
      | |- context [os_rm env ?a ?w] => next_call (os_rm env a w)
      | |- context [os_readFile env ?a ?w] => next_call (os_readFile env a w)
      | |- context [os_truncate env ?a ?b ?w] => next_call (os_truncate env a b w)
      | |- context [os_writeFile env ?a ?b ?w] => next_call (os_writeFile env a b w)
      | |- context [os_aliasCheck env ?a ?b ?c ?w] => next_call (os_aliasCheck env a b c w)
      end ].

Ltac run_call :=
  unfold fsp_lstat, fsp_stat, fsp_realpath, fsp_open, fsp_mkdir_recursive, fsp_rm_force,
    handle_stat, handle_close, handle_readFile, handle_truncate, handle_writeFile, call.

(** C5 — a directory is never opened as a file.  If the [lstat] made before
    the open sees a directory, [openVerifiedLocalFile] fails with
    [SafeOpenError("not-file", "not a file")], without a cause, and the
    [lstat] is the only filesystem call it has made: [fs.open] is not
    attempted.  If that check let the path through and [fs.open] itself fails
    with an [EISDIR] error, the caller gets the same [SafeOpenError] and not
    the error of the operating system. *)
Theorem directory_is_rejected_as_not_file
  (filePath : string) (options : option OpenOptions) (w : W) :
  (forall preStat w1,
      os_lstat env filePath w = (inr preStat, w1) ->
      isDirectory preStat = true ->
      openVerifiedLocalFile env filePath options (start w)
      = (Throw (SafeOpenError NotFile "not a file" None),
         {| world := w1; trace := [EvLstat filePath (inr preStat)] |}))
  /\
  (forall s1 err w2,
      rejectDirectoryBeforeOpen env filePath (start w) = (Ok tt, s1) ->
      os_open env filePath OPEN_READ_FLAGS None (world s1) = (inl err, w2) ->
      hasNodeErrorCode (NodeErr err) "EISDIR" = true ->
      isNotFoundPathError (NodeErr err) = false ->
      isSymlinkOpenError (NodeErr err) = false ->
      openVerifiedLocalFile env filePath options (start w)
      = (Throw (SafeOpenError NotFile "not a file" None),
         {| world := w2;
            trace := trace s1 ++ [EvOpen filePath OPEN_READ_FLAGS None (inl err)] |})).
Proof.
  split.
  - intros preStat w1 Hl Hdir.
    unfold openVerifiedLocalFile, rejectDirectoryBeforeOpen, bind, tryCatch.
    run_call. unfold start. cbn [world trace]. rewrite Hl. cbn [ofOs app].
    rewrite Hdir. reflexivity.
  - intros s1 err w2 Hpre Hopen Hcode Hnf Hsl.
    unfold openVerifiedLocalFile, bind. rewrite Hpre.
    unfold openForRead, tryCatch. run_call. rewrite Hopen. cbn [ofOs].
    rewrite Hnf, Hsl, Hcode. reflexivity.
Qed.

(** C4 (as amended) — race detection at open time.  Let the open succeed
    with handle [h], and let [stat] be what [h.stat()] and [lst] what
    [lstat(filePath)] report afterwards.  (i) If [lst] is a symbolic link the
    call fails with [symlink].  (ii) If it is not and the two identities
    differ, the call fails: with [not-file] when [stat] is not a regular
    file, with [invalid-path] when hardlinks are rejected and [stat] has more
    than one link, and with [path-mismatch] otherwise.  (iii) So a returned
    result means that the path was no link and that both observations were of
    one file. *)
Theorem open_verification_outcomes
  (filePath : string) (options : option OpenOptions) (w : W)
  (s1 : St W) (h : FileHandle) (w2 : W) (stat : Stats) (w3 : W) (lst : Stats) (w4 : W) :
  rejectDirectoryBeforeOpen env filePath (start w) = (Ok tt, s1) ->
  os_open env filePath OPEN_READ_FLAGS None (world s1) = (inr h, w2) ->
  os_fstat env h w2 = (inr stat, w3) ->
  os_lstat env filePath w3 = (inr lst, w4) ->
  let outcome := fst (openVerifiedLocalFile env filePath options (start w)) in
  (isSymbolicLink lst = true ->
   outcome = Throw (SafeOpenError Symlink "symlink not allowed" None))
  /\
  (isSymbolicLink lst = false ->
   sameFileIdentity stat lst = false ->
   outcome =
     if negb (isFile stat) then Throw (SafeOpenError NotFile "not a file" None)
     else if rejectsHardlinks options && (1 <? st_nlink stat)%Z
          then Throw (SafeOpenError InvalidPath "hardlinked path not allowed" None)
          else Throw (SafeOpenError PathMismatch "path changed during read" None))
  /\
  (forall opened,
      outcome = Ok opened ->
      isSymbolicLink lst = false /\ sameFileIdentity stat lst = true /\
      FsSafe.stat opened = stat /\ handle opened = h).
Proof.
  intros Hpre Hopen Hfstat Hlstat outcome.
  assert (Hrun : outcome
                 = fst (verifyOpenedFile env filePath options h
                          {| world := w2;
                             trace := trace s1 ++ [EvOpen filePath OPEN_READ_FLAGS None (inr h)] |})).
  { unfold outcome, openVerifiedLocalFile, bind. rewrite Hpre.
    unfold openForRead, tryCatch. run_call. rewrite Hopen. reflexivity. }
  rewrite Hrun. clear Hrun outcome.
  unfold verifyOpenedFile. fold (rejectsHardlinks options).
  unfold tryCatch, bind, promiseAll2, quietly, tryCatch, throw, ret. run_call.
  cbn [world trace]. rewrite Hfstat. cbn [world trace ofOs]. rewrite Hlstat.
  cbn [ofOs world trace].
  destruct (isSymbolicLink lst) eqn:Hsym.
  { exec. all: repeat split; intros; try discriminate; reflexivity. }
  destruct (negb (isFile stat)) eqn:Hfile.
  { exec. all: repeat split; intros; try discriminate; reflexivity. }
  destruct (rejectsHardlinks options && (1 <? st_nlink stat)%Z) eqn:Hhard.
  { exec. all: repeat split; intros; try discriminate; reflexivity. }
  destruct (sameFileIdentity stat lst) eqn:Hsame; cbn [negb].
  2:{ exec. all: repeat split; intros; try discriminate; reflexivity. }
  split; [intros; discriminate|]. split; [intros; discriminate|].
  intros opened. exec.
  all: repeat match goal with
         | |- context [if ?b then _ else _] => destruct b; exec
         end.
  all: try discriminate.
  cbn [fst]. intros E. inversion E; subst opened. cbn [FsSafe.stat handle]. auto.
Qed.

(** *** What a body may emit and throw *)

Lemma Emits_ret (A : Type) P Q (a : A) : Emits (W := W) P Q (ret a).
Proof.
  intros s r s' E. inversion E; subst. split.
  - exists []. rewrite app_nil_r. auto.
  - intros e He. discriminate.
Qed.

Lemma Emits_throw (A : Type) (P : Event -> Prop) (Q : Exn -> Prop) e :
  Q e -> Emits P Q (@throw W A e).
Proof.
  intros Hq s r s' E. inversion E; subst. split.
  - exists []. rewrite app_nil_r. auto.
  - intros e' He. inversion He; subst. exact Hq.
Qed.

Lemma Emits_bind (A B : Type) P Q (m : M W A) (k : A -> M W B) :
  Emits P Q m -> (forall a, Emits P Q (k a)) -> Emits P Q (bind m k).
Proof.
  intros Hm Hk s r s' E. unfold bind in E.
  destruct (m s) as [[a|e] s1] eqn:Em.
  - destruct (Hm _ _ _ Em) as [[evs1 [T1 F1]] _].
    destruct (Hk a _ _ _ E) as [[evs2 [T2 F2]] Q2].
    split; [|exact Q2].
    exists (evs1 ++ evs2). rewrite T2, T1, app_assoc. split; [reflexivity|].
    apply Forall_app; auto.
  - inversion E; subst. destruct (Hm _ _ _ Em) as [T Qm]. split; [exact T|].
    intros e' He. inversion He; subst. apply Qm. reflexivity.
Qed.

Lemma Emits_tryCatch (A : Type) P Q Q' (m : M W A) (handler : Exn -> M W A) :
  Emits P Q' m -> (forall e, Q' e -> Emits P Q (handler e)) -> Emits P Q (tryCatch m handler).
Proof.
  intros Hm Hh s r s' E. unfold tryCatch in E.
  destruct (m s) as [[a|e] s1] eqn:Em.
  - inversion E; subst. destruct (Hm _ _ _ Em) as [T _]. split; [exact T|].
    intros e He. discriminate.
  - destruct (Hm _ _ _ Em) as [[evs1 [T1 F1]] Q1].
    destruct (Hh e (Q1 e eq_refl) _ _ _ E) as [[evs2 [T2 F2]] Q2].
    split; [|exact Q2].
    exists (evs1 ++ evs2). rewrite T2, T1, app_assoc. split; [reflexivity|].
    apply Forall_app; auto.
Qed.

Lemma Emits_finally (A : Type) P Q (m : M W A) (cleanup : M W unit) :
  Emits P Q m -> Emits P Q cleanup -> Emits P Q (finally m cleanup).
Proof.
  intros Hm Hc s r s' E. unfold finally in E.
  destruct (m s) as [r1 s1] eqn:Em.
  destruct (Hm _ _ _ Em) as [[evs1 [T1 F1]] Q1].
  destruct (cleanup s1) as [[u|e] s2] eqn:Ec;
    destruct (Hc _ _ _ Ec) as [[evs2 [T2 F2]] Q2]; inversion E; subst.
  - split; [|exact Q1].
    exists (evs1 ++ evs2). rewrite T2, T1, app_assoc. split; [reflexivity|].
    apply Forall_app; auto.
  - split; [|intros e' He; inversion He; subst; apply Q2; reflexivity].
    exists (evs1 ++ evs2). rewrite T2, T1, app_assoc. split; [reflexivity|].
    apply Forall_app; auto.
Qed.

Lemma Emits_promiseAll2 (A B : Type) P Q (a : M W A) (b : M W B) :
  Emits P Q a -> Emits P Q b -> Emits P Q (promiseAll2 a b).
Proof.
  intros Ha Hb s r s' E. unfold promiseAll2 in E.
  destruct (a s) as [ra s1] eqn:Ea. destruct (b s1) as [rb s2] eqn:Eb.
  destruct (Ha _ _ _ Ea) as [[evs1 [T1 F1]] Q1].
  destruct (Hb _ _ _ Eb) as [[evs2 [T2 F2]] Q2].
  inversion E; subst. split.
  - exists (evs1 ++ evs2). rewrite T2, T1, app_assoc. split; [reflexivity|].
    apply Forall_app; auto.
  - intros e He. destruct ra; destruct rb; try discriminate; inversion He; subst; auto.
Qed.

Lemma Emits_call (A : Type) (P : Event -> Prop) (Q : Exn -> Prop)
  (op : W -> (NodeError + A) * W) (ev : NodeError + A -> Event) :
  (forall r, P (ev r)) -> (forall e, Q (NodeErr e)) -> Emits P Q (call op ev).
Proof.
  intros Hp Hq s r s' E. unfold call in E.
  destruct (op (world s)) as [o w'] eqn:Eo. inversion E; subst. cbn [trace]. split.
  - exists [ev o]. split; [reflexivity|]. constructor; auto.
  - intros e He. destruct o; cbn [ofOs] in He; inversion He; subst. apply Hq.
Qed.

Lemma Emits_weaken (A : Type) (P P' : Event -> Prop) (Q Q' : Exn -> Prop) (m : M W A) :
  (forall ev, P ev -> P' ev) -> (forall e, Q e -> Q' e) -> Emits P Q m -> Emits P' Q' m.
Proof.
  intros Hp Hq Hm s r s' E. destruct (Hm _ _ _ E) as [[evs [T F]] Qm]. split.
  - exists evs. split; [exact T|]. eapply Forall_impl; eauto.
  - intros e He. auto.
Qed.

Lemma Emits_quietly P Q (m : M W unit) :
  Emits P (fun _ => True) m -> Emits P Q (quietly m).
Proof.
  intros Hm. unfold quietly. eapply Emits_tryCatch; [exact Hm|].
  intros e _. apply Emits_ret.
Qed.

Lemma codeIn_raw codes e : rawExn e -> codeIn codes e.
Proof. unfold rawExn, codeIn. intros Hr code Hc. congruence. Qed.

Lemma codeIn_here codes code message cause :
  In code codes -> codeIn codes (SafeOpenError code message cause).
Proof. intros Hin c Hc. inversion Hc; subst. exact Hin. Qed.

Ltac emits_step :=
  first
    [ apply Emits_ret
    | apply Emits_bind; [|intros ?]
    | apply Emits_promiseAll2
    | apply Emits_quietly
    | apply Emits_finally
    | apply Emits_call; [intros ?; try reflexivity; try exact I
                        | intros ?; try reflexivity; try exact I;
                          try (intros ? ?; discriminate)]
    | apply Emits_throw; first [exact I | apply codeIn_here; cbn [In]; tauto | idtac]
    | match goal with
      | |- Emits _ _ (if ?b then _ else _) => destruct b
      | |- Emits _ _ (match ?x with _ => _ end) => destruct x
      | |- Emits _ _ (let '(_, _) := ?x in _) => destruct x
      end ].

Ltac emits := repeat emits_step.

Section Emitted.

Variable P : Event -> Prop.
Hypothesis P_lstat : forall p r, P (EvLstat p r).
Hypothesis P_stat : forall p r, P (EvStat p r).
Hypothesis P_realpath : forall p r, P (EvRealpath p r).
Hypothesis P_open : forall p flags mode r, P (EvOpen p flags mode r).
Hypothesis P_hstat : forall h r, P (EvHandleStat h r).
Hypothesis P_close : forall h, P (EvHandleClose h).

Ltac run_ops :=
  unfold fsp_lstat, fsp_stat, fsp_realpath, fsp_open, handle_stat, handle_close.

Lemma Emits_openVerifiedLocalFile filePath options :
  Emits P anyExn (openVerifiedLocalFile env filePath options).
Proof.
  unfold openVerifiedLocalFile, rejectDirectoryBeforeOpen, openForRead, verifyOpenedFile.
  run_ops.
  apply Emits_bind; [|intros ?].
  { eapply Emits_tryCatch with (Q' := anyExn); [emits; auto|]. intros e _. emits. }
  apply Emits_bind; [|intros ?].
  { eapply Emits_tryCatch with (Q' := anyExn); [emits; auto|]. intros e _. emits. }
  eapply Emits_tryCatch with (Q' := anyExn); [emits; auto|]. intros e _. emits; auto.
Qed.

Lemma Emits_resolvePathWithinRoot rootDir relativePath :
  Emits P (codeIn [NotFound; InvalidPath; OutsideWorkspace])
    (resolvePathWithinRoot env rootDir relativePath).
Proof.
  unfold resolvePathWithinRoot, expandRelativePathWithHome. run_ops.
  apply Emits_bind; [|intros ?].
  { eapply Emits_tryCatch with (Q' := rawExn); [emits; auto|].
    intros e He. emits. apply codeIn_raw, He. }
  apply Emits_bind; [|intros ?].
  { apply Emits_bind; [|intros ?]; [|emits].
    eapply Emits_tryCatch with (Q' := anyExn); [emits; auto|]. intros e _. emits. }
  emits.
Qed.

Lemma Emits_openFileWithinRoot params :
  Emits P (codeIn [NotFound; InvalidPath; OutsideWorkspace])
    (openFileWithinRoot env params).
Proof.
  unfold openFileWithinRoot.
  apply Emits_bind; [apply Emits_resolvePathWithinRoot|intros [[rootReal rootWithSep] resolved]].
  apply Emits_bind; [|intros ?].
  { eapply Emits_tryCatch with (Q' := anyExn); [apply Emits_openVerifiedLocalFile|].
    intros e _. destruct e as [ne|msg|code msg cause]; [| |destruct code]; emits.
    all: intros c Hc; discriminate. }
  run_ops. emits; auto.
Qed.

End Emitted.

Lemma Emits_readFileWithinRoot params :
  Emits (fun _ => True) (codeIn [NotFound; InvalidPath; OutsideWorkspace; TooLarge])
    (readFileWithinRoot env params).
Proof.
  unfold readFileWithinRoot.
  apply Emits_bind; [|intros opened].
  { eapply Emits_weaken; [| |apply Emits_openFileWithinRoot with (P := fun _ => True); auto].
    - auto.
    - intros e He code Hc. specialize (He code Hc). cbn [In] in *. tauto. }
  unfold readOpenedFileSafely, handle_readFile, handle_close. emits.
Qed.

(** C9 — error-code collapsing in [openFileWithinRoot].  A [SafeOpenError]
    of the inner [openVerifiedLocalFile] comes out unchanged when its code is
    [not-found], and otherwise as [SafeOpenError("invalid-path", ...)] with
    the inner error as its cause.  So a [SafeOpenError] thrown by
    [openFileWithinRoot] has code [not-found], [invalid-path] or
    [outside-workspace], and one thrown by [readFileWithinRoot] one of these
    or [too-large]: [symlink], [not-file] and [path-mismatch] never reach the
    caller as the code of the error. *)
Theorem open_within_root_collapses_codes (params : RootParams) (s : St W) :
  (forall rootReal rootWithSep resolved s1 code message cause s2,
      resolvePathWithinRoot env (r_rootDir params) (r_relativePath params) s
      = (Ok (rootReal, rootWithSep, resolved), s1) ->
      openVerifiedLocalFile env resolved None s1
      = (Throw (SafeOpenError code message cause), s2) ->
      openFileWithinRoot env params s
      = (Throw (match code with
                | NotFound => SafeOpenError code message cause
                | _ => SafeOpenError InvalidPath "path is not a regular file under root"
                         (Some (SafeOpenError code message cause))
                end), s2))
  /\
  (forall e s',
      openFileWithinRoot env params s = (Throw e, s') ->
      forall code, codeOf e = Some code -> In code [NotFound; InvalidPath; OutsideWorkspace])
  /\
  (forall e s',
      readFileWithinRoot env params s = (Throw e, s') ->
      forall code, codeOf e = Some code ->
                   In code [NotFound; InvalidPath; OutsideWorkspace; TooLarge]).
Proof.
  split; [|split].
  - intros rootReal rootWithSep resolved s1 code message cause s2 Hres Hopen.
    unfold openFileWithinRoot, bind. rewrite Hres. unfold tryCatch. rewrite Hopen.
    destruct code; reflexivity.
  - intros e s' E.
    destruct (@Emits_openFileWithinRoot (fun _ => True)
                ltac:(intros; exact I) ltac:(intros; exact I) ltac:(intros; exact I)
                ltac:(intros; exact I) ltac:(intros; exact I) ltac:(intros; exact I)
                params _ _ _ E) as [_ Hq].
    exact (Hq e eq_refl).
  - intros e s' E.
    destruct (@Emits_readFileWithinRoot params _ _ _ E) as [_ Hq].
    exact (Hq e eq_refl).
Qed.

(** C7 — the size limit is enforced before any content is read.  When the
    open made by [readFileWithinRoot] returns a file whose verified size
    exceeds [maxBytes], the read fails with [too-large] and the trace of the
    whole call holds no [readFile] on any handle. *)
Theorem oversized_file_is_never_read
  (params : RootParams) (w : W) (limit : Z) (opened : SafeOpenResult) (s1 : St W) :
  r_maxBytes params = Some limit ->
  openFileWithinRoot env params (start w) = (Ok opened, s1) ->
  (limit < st_size (FsSafe.stat opened))%Z ->
  exists s2,
    readFileWithinRoot env params (start w)
    = (Throw (SafeOpenError TooLarge
                ("file exceeds limit of " ++ Js.ofZ limit ++ " bytes (got "
                 ++ Js.ofZ (st_size (FsSafe.stat opened)) ++ ")") None), s2) /\
    Forall (fun ev => isContentRead ev = false) (trace s2).
Proof.
  intros Hmax Hopen Hsize.
  destruct (@Emits_openFileWithinRoot (fun ev => isContentRead ev = false)
              ltac:(intros; reflexivity) ltac:(intros; reflexivity)
              ltac:(intros; reflexivity) ltac:(intros; reflexivity)
              ltac:(intros; reflexivity) ltac:(intros; reflexivity)
              params _ _ _ Hopen) as [[evs [Ht Hf]] _].
  cbn [start trace app] in Ht.
  unfold readFileWithinRoot, bind.
  change (openFileWithinRoot env
            {| r_rootDir := r_rootDir params; r_relativePath := r_relativePath params;
               r_rejectHardlinks := r_rejectHardlinks params; r_maxBytes := None |})
    with (openFileWithinRoot env params).
  rewrite Hopen. unfold finally, readOpenedFileSafely. rewrite Hmax.
  replace (limit <? st_size (FsSafe.stat opened))%Z with true
    by (symmetry; apply Z.ltb_lt; exact Hsize).
  unfold throw, quietly, tryCatch, handle_close, call, ret.
  destruct (os_close env (handle opened) (world s1)) as [[e|u] w2]; cbn [ofOs];
    eexists; (split; [reflexivity|]); cbn [trace]; rewrite Ht;
    apply Forall_app; (split; [exact Hf|]); repeat constructor.
Qed.

(** C6 (as amended) — hardlink rejection follows the [rejectHardlinks] flag.
    (A) In [openVerifiedLocalFile] with [rejectHardlinks: true], an open
    regular file with more than one link, reached by a path that is no
    symbolic link, fails with [invalid-path].  (B) In [openFileWithinRoot],
    where the flag is on unless the caller passes [false], a verified file
    with more than one link fails with [invalid-path]; with
    [rejectHardlinks: false] the same file is returned.  None of these takes
    an alias policy. *)
Theorem hardlink_rejection_follows_flag :
  (forall filePath options w s1 h w2 stat w3 lst w4,
      rejectDirectoryBeforeOpen env filePath (start w) = (Ok tt, s1) ->
      os_open env filePath OPEN_READ_FLAGS None (world s1) = (inr h, w2) ->
      os_fstat env h w2 = (inr stat, w3) ->
      os_lstat env filePath w3 = (inr lst, w4) ->
      isSymbolicLink lst = false ->
      isFile stat = true ->
      (1 < st_nlink stat)%Z ->
      rejectsHardlinks options = true ->
      fst (openVerifiedLocalFile env filePath options (start w))
      = Throw (SafeOpenError InvalidPath "hardlinked path not allowed" None))
  /\
  (forall params w rootReal rootWithSep resolved s1 opened s2,
      resolvePathWithinRoot env (r_rootDir params) (r_relativePath params) (start w)
      = (Ok (rootReal, rootWithSep, resolved), s1) ->
      openVerifiedLocalFile env resolved None s1 = (Ok opened, s2) ->
      (1 < st_nlink (FsSafe.stat opened))%Z ->
      (r_rejectHardlinks params <> Some false ->
       fst (openFileWithinRoot env params (start w))
       = Throw (SafeOpenError InvalidPath "hardlinked path not allowed" None))
      /\
      (r_rejectHardlinks params = Some false ->
       isPathInside rootWithSep (realPath opened) = true ->
       openFileWithinRoot env params (start w) = (Ok opened, s2))).
Proof.
  split.
  - intros filePath options w s1 h w2 stat w3 lst w4 Hpre Hopen Hfstat Hlstat
      Hsym Hfile Hlinks Hreject.
    unfold openVerifiedLocalFile, bind. rewrite Hpre.
    unfold openForRead, tryCatch. run_call. rewrite Hopen. cbn [ofOs].
    unfold verifyOpenedFile. fold (rejectsHardlinks options).
    unfold tryCatch, bind, promiseAll2, quietly, tryCatch, throw, ret. run_call.
    cbn [world trace]. rewrite Hfstat. cbn [world trace ofOs]. rewrite Hlstat.
    cbn [ofOs world trace]. rewrite Hsym, Hfile, Hreject. cbn [negb andb].
    replace (1 <? st_nlink stat)%Z with true by (symmetry; apply Z.ltb_lt; exact Hlinks).
    exec; reflexivity.
  - intros params w rootReal rootWithSep resolved s1 opened s2 Hres Hopen Hlinks.
    assert (Hl : (1 <? st_nlink (FsSafe.stat opened))%Z = true)
      by (apply Z.ltb_lt; exact Hlinks).
    split.
    + intros Hflag. unfold openFileWithinRoot, bind. rewrite Hres.
      unfold tryCatch. rewrite Hopen. rewrite Hl.
      replace (match r_rejectHardlinks params with Some false => false | _ => true end)
        with true by (destruct (r_rejectHardlinks params) as [[|]|]; congruence).
      cbn [andb]. unfold quietly, tryCatch, throw, ret. run_call. exec; reflexivity.
    + intros Hflag Hin. unfold openFileWithinRoot, bind. rewrite Hres.
      unfold tryCatch. rewrite Hopen. rewrite Hflag. cbn [andb].
      rewrite Hin. reflexivity.
Qed.

(** *** The write helper *)

Lemma orb_false_both a b : a || b = false -> a = false /\ b = false.
Proof. destruct a, b; cbn; auto; discriminate. Qed.

Lemma negb_false_true a : negb a = false -> a = true.
Proof. destruct a; cbn; auto; discriminate. Qed.

Ltac flat_trace := rewrite <- ?app_assoc; cbn [app].

Ltac leave_early :=
  intros E; inversion E; subst; cbn [trace]; flat_trace; eexists;
  (split; [reflexivity|]);
  left; split; [repeat constructor | left; repeat constructor].

Ltac rejected_late :=
  cbn [isSafeOpenError]; rewrite andb_true_r;
  match goal with
  | |- context [if ?created && Js.truthy ?p then _ else _] =>
      destruct created; cbn [andb];
      [ destruct (Js.truthy p);
        [ exec; intros E; inversion E; subst; cbn [trace]; flat_trace; eexists;
          (split; [reflexivity|]);
          left; (split; [repeat constructor | right; split; [reflexivity|eauto]])
        | leave_early ]
      | leave_early ]
  end.

(** The verification block, run from any state: either it leaves without
    truncating or writing (and removes something only when the file was
    created by this call and a [SafeOpenError] was thrown), or the four
    observations passed every check and only then the truncation (of an
    existing file) and the write follow. *)
Lemma verifyOpenedForWrite_trace
  rootWithSep ioPath h created data encoding (s : St W) r s2 :
  verifyOpenedForWrite env rootWithSep ioPath h created data encoding s = (r, s2) ->
  exists evs,
    trace s2 = trace s ++ evs /\
    ((Forall (fun ev => isTruncation ev = false /\ isContentWrite ev = false) evs /\
      (Forall (fun ev => isRemoval ev = false) evs \/
       (created = true /\ exists code message, r = Throw (SafeOpenError code message None))))
     \/
     (exists stat lst realPath realStat late,
         evs = [EvHandleStat h (inr stat); EvLstat ioPath (inr lst);
                EvRealpath ioPath (inr realPath); EvStat realPath (inr realStat)]
               ++ (if created then [] else [EvHandleTruncate h 0%Z]) ++ late /\
         writeChecksPass rootWithSep stat lst realPath realStat /\
         Forall (fun ev => isTruncation ev = false /\ isRemoval ev = false) late)).
Proof.
  unfold verifyOpenedForWrite, checkRealPathThenWrite.
  unfold bind, tryCatch, promiseAll2, quietly, tryCatch, throw, ret. run_call.
  destruct (os_fstat env h (world s)) as [[e1|stat] w1] eqn:E1; cbn [ofOs world trace];
    destruct (os_lstat env ioPath w1) as [[e2|lst] w2] eqn:E2; cbn [ofOs world trace].
  1-3: intros E; inversion E; subst; cbn [trace]; flat_trace; eexists;
       (split; [reflexivity|]);
       left; split; [repeat constructor | left; repeat constructor].
  destruct (isSymbolicLink lst || negb (isFile stat)) eqn:C1; [leave_early|].
  destruct (1 <? st_nlink stat)%Z eqn:C2; [leave_early|].
  destruct (negb (sameFileIdentity stat lst)) eqn:C3; [leave_early|].
  cbn [ofOs world trace].
  destruct (os_realpath env ioPath w2) as [[e3|realPath] w3] eqn:E3;
    cbn [ofOs world trace]; [leave_early|].
  destruct (os_stat env realPath w3) as [[e4|realStat] w4] eqn:E4;
    cbn [ofOs world trace isSafeOpenError andb].
  { rewrite andb_false_r. cbn [andb]. leave_early. }
  destruct (negb (sameFileIdentity stat realStat)) eqn:C4; [rejected_late|].
  destruct (1 <? st_nlink realStat)%Z eqn:C5; [rejected_late|].
  destruct (negb (isPathInside rootWithSep realPath)) eqn:C6; [rejected_late|].
  assert (Hchecks : writeChecksPass rootWithSep stat lst realPath realStat).
  { apply orb_false_both in C1. destruct C1 as [C1a C1b].
    apply negb_false_true in C1b, C3, C4, C6.
    apply Z.ltb_ge in C2, C5.
    unfold writeChecksPass. repeat split; assumption. }
  destruct created; cbn [negb]; destruct data as [text|bytes]; exec;
    cbn [isSafeOpenError andb];
    intros E; inversion E; subst; cbn [trace]; flat_trace; eexists;
    (split; [reflexivity|]);
    right; do 5 eexists; (split; [cbn [app]; reflexivity|]); (split; [exact Hchecks|]);
    repeat constructor.
Qed.

Lemma bind_inv (A B : Type) (m : M W A) (k : A -> M W B) s r s' :
  bind m k s = (r, s') ->
  (exists e, m s = (Throw e, s') /\ r = Throw e) \/
  (exists a s1, m s = (Ok a, s1) /\ k a s1 = (r, s')).
Proof.
  unfold bind. destruct (m s) as [[a|e] s1]; intros E.
  - right. eauto.
  - left. inversion E; subst. eauto.
Qed.

Lemma resolvePathWithinRoot_Ok rootDir relativePath (s : St W) rootReal rootWithSep resolved s1 :
  resolvePathWithinRoot env rootDir relativePath s
  = (Ok (rootReal, rootWithSep, resolved), s1) ->
  rootWithSep = ensureTrailingSep rootReal /\
  exists evs,
    trace s1 = trace s ++ EvRealpath rootDir (inr rootReal) :: evs /\ Forall harmless evs.
Proof.
  unfold resolvePathWithinRoot, expandRelativePathWithHome.
  unfold bind, tryCatch, throw, ret. run_call.
  destruct (os_realpath env rootDir (world s)) as [[e|real] w1]; cbn [ofOs world trace].
  { destruct (isNotFoundPathError (NodeErr e)); intros E; discriminate. }
  match goal with
  | |- context [os_realpath env ?home w1] =>
      destruct (os_realpath env home w1) as [[e|realHome] w2]
  end; cbn [ofOs world trace];
    match goal with
    | |- context [if ?b then _ else _] => destruct b
    end; intros E; inversion E; subst; cbn [trace]; flat_trace;
    (split; [reflexivity|]); eexists; (split; [reflexivity|]);
    repeat constructor.
Qed.

Lemma Emits_openForWrite ioPath :
  Emits harmless anyExn (openForWrite env ioPath).
Proof.
  unfold openForWrite. run_call.
  eapply Emits_tryCatch with (Q' := anyExn).
  - eapply Emits_tryCatch with (Q' := anyExn).
    + emits. all: repeat split.
    + intros e _. emits. all: repeat split.
  - intros e _. emits.
Qed.

Lemma openForWrite_created ioPath (s : St W) h s1 :
  openForWrite env ioPath s = (Ok (h, true), s1) ->
  In (EvOpen ioPath OPEN_WRITE_CREATE_FLAGS (Some 384%Z) (inr h)) (trace s1).
Proof.
  unfold openForWrite, bind, tryCatch, throw, ret. run_call.
  destruct (os_open env ioPath OPEN_WRITE_EXISTING_FLAGS (Some 384%Z) (world s))
    as [[e|h0] w1]; cbn [ofOs world trace].
  2:{ intros E. discriminate. }
  destruct (negb (isNotFoundPathError (NodeErr e))).
  { destruct (isNotFoundPathError (NodeErr e)); [intros E; discriminate|].
    destruct (isSymlinkOpenError (NodeErr e)); intros E; discriminate. }
  cbn [world trace].
  destruct (os_open env ioPath OPEN_WRITE_CREATE_FLAGS (Some 384%Z) w1)
    as [[e'|h1] w2]; cbn [ofOs world trace].
  { destruct (isNotFoundPathError (NodeErr e')); [intros E; discriminate|].
    destruct (isSymlinkOpenError (NodeErr e')); intros E; discriminate. }
  intros E. inversion E; subst. cbn [trace].
  apply in_or_app. right. left. reflexivity.
Qed.

Lemma harmless_no_truncation evs :
  Forall harmless evs -> Forall (fun ev => isTruncation ev = false) evs.
Proof. apply Forall_impl. intros ev [Ht _]. exact Ht. Qed.

Lemma harmless_no_removal evs :
  Forall harmless evs -> Forall (fun ev => isRemoval ev = false) evs.
Proof. apply Forall_impl. intros ev [_ [Hr _]]. exact Hr. Qed.

Lemma harmless_no_write evs :
  Forall harmless evs ->
  Forall (fun ev => isTruncation ev = false /\ isContentWrite ev = false) evs.
Proof. apply Forall_impl. intros ev [Ht [_ Hw]]. auto. Qed.

Ltac harmless_run Hrun Hemits :=
  let evs := fresh "evs" in
  let Ht := fresh "Ht" in
  let Hf := fresh "Hf" in
  destruct (Hemits _ _ _ Hrun) as [[evs [Ht Hf]] _].

(** C8 (as amended) — what [writeFileWithinRoot] may destroy, and when.
    Truncation: either the trace of a call holds no truncation, or it reads
    [realpath(rootDir) :: early ++ [h.stat(); lstat(ioPath); realpath(ioPath);
    stat(realPath); h.truncate(0)] ++ late], where nothing in [early]
    truncates, removes or writes, the four observations pass every identity,
    hardlink and containment check, and nothing in [late] truncates or
    removes.  Removal: either the trace holds no removal, or the call ends
    with a [SafeOpenError], the file was created by this very call, and the
    trace holds no truncation and no write. *)
Theorem write_truncates_only_after_checks (params : WriteParams) (w : W) r s' :
  writeFileWithinRoot env params (start w) = (r, s') ->
  (Forall (fun ev => isTruncation ev = false) (trace s') \/
   exists rootReal early ioPath h stat lst realPath realStat late,
     trace s'
     = EvRealpath (w_rootDir params) (inr rootReal) :: early
       ++ [EvHandleStat h (inr stat); EvLstat ioPath (inr lst);
           EvRealpath ioPath (inr realPath); EvStat realPath (inr realStat);
           EvHandleTruncate h 0%Z] ++ late /\
     Forall harmless early /\
     writeChecksPass (ensureTrailingSep rootReal) stat lst realPath realStat /\
     Forall (fun ev => isTruncation ev = false /\ isRemoval ev = false) late)
  /\
  (Forall (fun ev => isRemoval ev = false) (trace s') \/
   ((exists code message, r = Throw (SafeOpenError code message None)) /\
    (exists ioPath h,
        In (EvOpen ioPath OPEN_WRITE_CREATE_FLAGS (Some 384%Z) (inr h)) (trace s')) /\
    Forall (fun ev => isTruncation ev = false /\ isContentWrite ev = false) (trace s'))).
Proof.
  unfold writeFileWithinRoot. intros Hrun.
  assert (Hquiet : forall evs, trace s' = evs -> Forall harmless evs ->
            Forall (fun ev => isTruncation ev = false) (trace s') /\
            Forall (fun ev => isRemoval ev = false) (trace s')).
  { intros evs -> Hevs. split;
      [apply harmless_no_truncation | apply harmless_no_removal]; exact Hevs. }
  (* resolvePathWithinRoot *)
  apply bind_inv in Hrun. destruct Hrun as [[e [Hm _]]|[[[rootReal rootWithSep] resolved] [s1 [Hm Hrun]]]].
  { assert (Eres : Emits harmless (codeIn [NotFound; InvalidPath; OutsideWorkspace])
              (resolvePathWithinRoot env (w_rootDir params) (w_relativePath params)))
      by (apply Emits_resolvePathWithinRoot; intros; repeat split).
    destruct (Eres _ _ _ Hm) as [[evs [Ht Hf]] _].
    destruct (Hquiet _ Ht Hf); split; left; assumption. }
  apply resolvePathWithinRoot_Ok in Hm. destruct Hm as [-> [evs1 [T1 F1]]].
  cbn [start trace app] in T1.
  (* assertNoPathAliasEscape *)
  apply bind_inv in Hrun.
  assert (Ealias : Emits harmless anyExn
            (tryCatch (assertNoPathAliasEscape env resolved rootReal "root")
               (fun err : Exn =>
                  throw (SafeOpenError InvalidPath "path alias escape blocked" (Some err))))).
  { eapply Emits_tryCatch with (Q' := anyExn).
    - intros s0 r0 s0' E0. unfold assertNoPathAliasEscape in E0.
      destruct (os_aliasCheck env resolved rootReal "root" (world s0)) as [res w0].
      inversion E0; subst. cbn [trace]. split.
      + eexists. split; [reflexivity|]. repeat constructor.
      + intros; exact I.
    - intros e _. emits. }
  destruct Hrun as [[e [Hm2 _]]|[u2 [s2 [Hm2 Hrun]]]];
    destruct (Ealias _ _ _ Hm2) as [[evs2 [T2 F2]] _].
  { rewrite T1 in T2. change (?a :: ?l ++ ?m) with ((a :: l) ++ m) in T2.
    destruct (Hquiet _ T2); [|split; left; assumption].
    apply Forall_app. split; [|exact F2]. constructor; [repeat split|exact F1]. }
  (* mkdir *)
  apply bind_inv in Hrun.
  assert (Emk : Emits harmless anyExn
            (if match w_mkdir params with Some false => false | _ => true end
             then fsp_mkdir_recursive env (path_dirname resolved) else ret tt)).
  { unfold fsp_mkdir_recursive. emits. all: repeat split. }
  destruct Hrun as [[e [Hm3 _]]|[u3 [s3 [Hm3 Hrun]]]];
    destruct (Emk _ _ _ Hm3) as [[evs3 [T3 F3]] _].
  { rewrite T2, T1 in T3.
    destruct (Hquiet _ T3); [|split; left; assumption].
    repeat (apply Forall_app; split); auto. constructor; [repeat split|exact F1]. }
  (* ioPath *)
  apply bind_inv in Hrun.
  assert (Eio : Emits harmless anyExn
            (tryCatch
               (bind (fsp_realpath env resolved)
                  (fun resolvedRealPath =>
                     if negb (isPathInside (ensureTrailingSep rootReal) resolvedRealPath)
                     then throw (SafeOpenError OutsideWorkspace
                                   "file is outside workspace root" None)
                     else ret resolvedRealPath))
               (fun err =>
                  if isSafeOpenError err then throw err
                  else if negb (isNotFoundPathError err) then throw err
                  else ret resolved))).
  { unfold fsp_realpath. eapply Emits_tryCatch with (Q' := anyExn).
    - emits. all: repeat split.
    - intros e _. emits. }
  destruct Hrun as [[e [Hm4 _]]|[ioPath [s4 [Hm4 Hrun]]]];
    destruct (Eio _ _ _ Hm4) as [[evs4 [T4 F4]] _].
  { rewrite T3, T2, T1 in T4.
    destruct (Hquiet _ T4); [|split; left; assumption].
    repeat (apply Forall_app; split); auto. constructor; [repeat split|exact F1]. }
  (* open *)
  apply bind_inv in Hrun.
  destruct Hrun as [[e [Hm5 _]]|[[h created] [s5 [Hm5 Hrun]]]];
    destruct (@Emits_openForWrite ioPath _ _ _ Hm5) as [[evs5 [T5 F5]] _].
  { rewrite T4, T3, T2, T1 in T5.
    destruct (Hquiet _ T5); [|split; left; assumption].
    repeat (apply Forall_app; split); auto. constructor; [repeat split|exact F1]. }
  assert (Hearly : Forall harmless ((((evs1 ++ evs2) ++ evs3) ++ evs4) ++ evs5))
    by (repeat (apply Forall_app; split); auto).
  assert (T : trace s5
              = EvRealpath (w_rootDir params) (inr rootReal)
                :: ((((evs1 ++ evs2) ++ evs3) ++ evs4) ++ evs5)).
  { rewrite T5, T4, T3, T2, T1. cbn [app]. rewrite <- !app_assoc. reflexivity. }
  assert (Hcreated : created = true ->
            In (EvOpen ioPath OPEN_WRITE_CREATE_FLAGS (Some 384%Z) (inr h)) (trace s5)).
  { intros ->. eapply openForWrite_created. exact Hm5. }
  clear T1 T2 T3 T4 T5 F1 F2 F3 F4 F5 Hm2 Hm3 Hm4 Hm5 Ealias Emk Eio.
  set (early := (((evs1 ++ evs2) ++ evs3) ++ evs4) ++ evs5) in *.
  (* verification, truncation, write; then close *)
  unfold finally in Hrun.
  destruct (verifyOpenedForWrite env (ensureTrailingSep rootReal) ioPath h created
              (w_data params) (w_encoding params) s5) as [rv s6] eqn:Hverify.
  apply verifyOpenedForWrite_trace in Hverify.
  destruct Hverify as [evs [Tv Hshape]].
  assert (Hclose : r = rv /\ trace s' = trace s6 ++ [EvHandleClose h]).
  { revert Hrun. unfold quietly, tryCatch, ret, handle_close, call.
    destruct (os_close env h (world s6)) as [[ec|uc] wc]; cbn [ofOs];
      intros E; inversion E; subst; auto. }
  destruct Hclose as [-> Tc]. clear Hrun.
  assert (Ttotal : trace s'
                   = EvRealpath (w_rootDir params) (inr rootReal)
                     :: early ++ evs ++ [EvHandleClose h]).
  { rewrite Tc, Tv, T. cbn [app]. rewrite <- !app_assoc. reflexivity. }
  destruct Hshape as [[Hnw Hrm]|[stat [lst [realPath [realStat [late [Eevs [Hchecks Hlate]]]]]]]].
  - (* left without truncating or writing *)
    assert (Hall : Forall (fun ev => isTruncation ev = false /\ isContentWrite ev = false)
                     (trace s')).
    { rewrite Ttotal. constructor; [split; reflexivity|].
      apply Forall_app. split; [apply harmless_no_write; exact Hearly|].
      apply Forall_app. split; [exact Hnw|]. repeat constructor. }
    split.
    + left. eapply Forall_impl; [|exact Hall]. intros ev [Ht _]. exact Ht.
    + destruct Hrm as [Hnone|[-> Hcode]].
      * left. rewrite Ttotal. constructor; [reflexivity|].
        apply Forall_app. split; [apply harmless_no_removal; exact Hearly|].
        apply Forall_app. split; [exact Hnone|]. repeat constructor.
      * right. split; [exact Hcode|]. split; [|exact Hall].
        exists ioPath, h. rewrite Tc, Tv. apply in_or_app. left.
        apply in_or_app. left. apply Hcreated. reflexivity.
  - (* every check passed *)
    assert (Hnorm : Forall (fun ev => isRemoval ev = false) (trace s')).
    { rewrite Ttotal, Eevs. constructor; [reflexivity|].
      apply Forall_app. split; [apply harmless_no_removal; exact Hearly|].
      apply Forall_app. split.
      - repeat (apply Forall_app; split).
        + repeat constructor.
        + destruct created; repeat constructor.
        + eapply Forall_impl; [|exact Hlate]. intros ev [_ Hr]. exact Hr.
      - repeat constructor. }
    split; [|left; exact Hnorm].
    destruct created.
    + left. rewrite Ttotal, Eevs. constructor; [reflexivity|].
      apply Forall_app. split; [apply harmless_no_truncation; exact Hearly|].
      apply Forall_app. split.
      * repeat (apply Forall_app; split).
        -- repeat constructor.
        -- constructor.
        -- eapply Forall_impl; [|exact Hlate]. intros ev [Ht _]. exact Ht.
      * repeat constructor.
    + right. exists rootReal, early, ioPath, h, stat, lst, realPath, realStat,
        (late ++ [EvHandleClose h]).
      split; [|split; [exact Hearly|split; [exact Hchecks|]]].
      * rewrite Ttotal, Eevs. cbn [app]. rewrite <- ?app_assoc. reflexivity.
      * apply Forall_app. split; [exact Hlate|]. repeat constructor.
Qed.

End OpenerFacts.

(** The opened object is the character device [/work/null]; before the
    verification looks at the path again, another process puts a regular file
    under that name.  The two identities differ and the path is no link, yet
    the failure is [not-file], not [path-mismatch]. *)
Lemma identity_mismatch_reported_as_not_file :
  let w := MemOs.busy Samples.openTree
             [MemOs.idle; MemOs.idle; MemOs.idle;
              MemOs.put "/work/null" (MemFs.IFile 50 1 3)] in
  let observedByHandle := MemFs.statsOf (MemFs.IOther 15) in
  let observedByPath := MemFs.statsOf (MemFs.IFile 50 1 3) in
  let run := openVerifiedLocalFile (PG := Samples.guards) (FC := Samples.constants)
               MemOs.env "/work/null" None (start w) in
  fst run = Throw (SafeOpenError NotFile "not a file" None) /\
  trace (snd run)
  = [EvLstat "/work/null" (inr observedByHandle);
     EvOpen "/work/null" 131072 None (inr 3%Z);
     EvHandleStat 3%Z (inr observedByHandle);
     EvLstat "/work/null" (inr observedByPath);
     EvHandleClose 3%Z] /\
  isSymbolicLink observedByPath = false /\
  sameFileIdentity (PathGuards := Samples.guards) observedByHandle observedByPath = false.
Proof. vm_compute. repeat split. Qed.

Lemma open_verification_outcomes_witness :
  fst (openVerifiedLocalFile (PG := Samples.guards) (FC := Samples.constants)
         MemOs.env "/work/a.txt" None
         (start (MemOs.busy Samples.openTree
                   [MemOs.idle; MemOs.idle; MemOs.idle;
                    MemOs.put "/work/a.txt" (MemFs.ILink 60 "/etc/passwd")])))
  = Throw (SafeOpenError Symlink "symlink not allowed" None).
Proof.
  set (w := MemOs.busy Samples.openTree
              [MemOs.idle; MemOs.idle; MemOs.idle;
               MemOs.put "/work/a.txt" (MemFs.ILink 60 "/etc/passwd")]).
  set (s1 := snd (rejectDirectoryBeforeOpen MemOs.env "/work/a.txt" (start w))).
  set (w2 := snd (os_open MemOs.env "/work/a.txt" 131072%Z None (world s1))).
  set (w3 := snd (os_fstat MemOs.env 3%Z w2)).
  set (w4 := snd (os_lstat MemOs.env "/work/a.txt" w3)).
  apply (proj1 (@open_verification_outcomes Samples.guards Samples.constants
                  MemOs.World MemOs.env "/work/a.txt" None w s1 3%Z w2
                  (MemFs.statsOf (MemFs.IFile 11 1 20)) w3
                  (MemFs.statsOf (MemFs.ILink 60 "/etc/passwd")) w4
                  ltac:(vm_compute; reflexivity) ltac:(vm_compute; reflexivity)
                  ltac:(vm_compute; reflexivity) ltac:(vm_compute; reflexivity))).
  vm_compute. reflexivity.
Defined.

Lemma directory_is_rejected_as_not_file_witness :
  openVerifiedLocalFile (PG := Samples.guards) (FC := Samples.constants)
    MemOs.env "/work/dir" None (start (MemOs.quiet Samples.openTree))
  = (Throw (SafeOpenError NotFile "not a file" None),
     {| world := MemOs.quiet Samples.openTree;
        trace := [EvLstat "/work/dir" (inr (MemFs.statsOf (MemFs.IDir 12)))] |})
  /\
  fst (openVerifiedLocalFile (PG := Samples.guards) (FC := Samples.constants)
         (MemOs.envOn true) "/work/a.txt" None
         (start (MemOs.busy Samples.openTree
                   [MemOs.idle; MemOs.put "/work/a.txt" (MemFs.IDir 40)])))
  = Throw (SafeOpenError NotFile "not a file" None).
Proof.
  split.
  - apply (proj1 (@directory_is_rejected_as_not_file Samples.guards Samples.constants
                    MemOs.World MemOs.env "/work/dir" None (MemOs.quiet Samples.openTree))).
    + vm_compute. reflexivity.
    + vm_compute. reflexivity.
  - erewrite (proj2 (@directory_is_rejected_as_not_file Samples.guards Samples.constants
                       MemOs.World (MemOs.envOn true) "/work/a.txt" None
                       (MemOs.busy Samples.openTree
                          [MemOs.idle; MemOs.put "/work/a.txt" (MemFs.IDir 40)]))).
    + reflexivity.
    + vm_compute. reflexivity.
    + vm_compute. reflexivity.
    + vm_compute. reflexivity.
    + vm_compute. reflexivity.
    + vm_compute. reflexivity.
Defined.

Lemma oversized_file_is_never_read_witness :
  exists s2,
    readFileWithinRoot (PM := Samples.pathModule) (PG := Samples.guards)
      (H := Samples.host) (FC := Samples.constants)
      MemOs.env (Samples.rootParams "a.txt" None (Some 10%Z))
      (start (MemOs.quiet Samples.openTree))
    = (Throw (SafeOpenError TooLarge "file exceeds limit of 10 bytes (got 20)" None), s2) /\
    Forall (fun ev => isContentRead ev = false) (trace s2).
Proof.
  set (params := Samples.rootParams "a.txt" None (Some 10%Z)).
  set (w := MemOs.quiet Samples.openTree).
  set (s1 := snd (openFileWithinRoot (PM := Samples.pathModule) (PG := Samples.guards)
                    (H := Samples.host) (FC := Samples.constants) MemOs.env params (start w))).
  apply (@oversized_file_is_never_read Samples.pathModule Samples.guards Samples.host
           Samples.constants MemOs.World MemOs.env params w 10%Z
           {| handle := 3%Z; realPath := "/work/a.txt";
              stat := MemFs.statsOf (MemFs.IFile 11 1 20) |} s1).
  - reflexivity.
  - vm_compute. reflexivity.
  - vm_compute. reflexivity.
Defined.

Lemma open_within_root_collapses_codes_witness :
  fst (openFileWithinRoot (PM := Samples.pathModule) (PG := Samples.guards)
         (H := Samples.host) (FC := Samples.constants)
         MemOs.env (Samples.rootParams "dir" None None)
         (start (MemOs.quiet Samples.openTree)))
  = Throw (SafeOpenError InvalidPath "path is not a regular file under root"
             (Some (SafeOpenError NotFile "not a file" None)))
  /\ In InvalidPath [NotFound; InvalidPath; OutsideWorkspace]
  /\ In TooLarge [NotFound; InvalidPath; OutsideWorkspace; TooLarge].
Proof.
  set (params := Samples.rootParams "dir" None None).
  set (w := MemOs.quiet Samples.openTree).
  set (s1 := snd (resolvePathWithinRoot (PM := Samples.pathModule) (PG := Samples.guards)
                    (H := Samples.host) MemOs.env "/work" "dir" (start w))).
  set (s2 := snd (openVerifiedLocalFile (PG := Samples.guards) (FC := Samples.constants)
                    MemOs.env "/work/dir" None s1)).
  destruct (@open_within_root_collapses_codes Samples.pathModule Samples.guards
              Samples.host Samples.constants MemOs.World MemOs.env params (start w))
    as [rewrap [openCodes _]].
  destruct (@open_within_root_collapses_codes Samples.pathModule Samples.guards
              Samples.host Samples.constants MemOs.World MemOs.env
              (Samples.rootParams "a.txt" None (Some 10%Z)) (start w))
    as [_ [_ readCodes]].
  split; [|split].
  - rewrite (rewrap "/work" "/work/" "/work/dir" s1 NotFile "not a file" None s2
               ltac:(vm_compute; reflexivity) ltac:(vm_compute; reflexivity)).
    reflexivity.
  - apply (openCodes
             (SafeOpenError InvalidPath "path is not a regular file under root"
                (Some (SafeOpenError NotFile "not a file" None))) s2).
    + vm_compute. reflexivity.
    + reflexivity.
  - apply (readCodes
             (SafeOpenError TooLarge "file exceeds limit of 10 bytes (got 20)" None)
             (snd (readFileWithinRoot (PM := Samples.pathModule) (PG := Samples.guards)
                     (H := Samples.host) (FC := Samples.constants) MemOs.env
                     (Samples.rootParams "a.txt" None (Some 10%Z)) (start w)))).
    + vm_compute. reflexivity.
    + reflexivity.
Defined.

(** Under the [unlinkTarget] preset, whose [allowFinalHardlinkForUnlink] is
    [true], a file with two names is still refused when [rejectHardlinks] is
    [true]: by the boundary file facade, the one entry point that takes an
    alias policy, and by [openFileWithinRoot], which takes none. *)
Lemma hardlink_rejected_under_unlinkTarget_policy :
  allowFinalHardlinkForUnlink unlinkTarget = Some true /\
  BoundaryFileRead.openBoundaryFile
    (PM := Samples.pathModule) (PG := Samples.guards) (H := Samples.host)
    (MemFs.view Samples.openTree) (MemOs.quiet Samples.openTree)
    Samples.specOpenVerifiedFileSync
    (Samples.boundaryParams "/work/twin.txt" (Some true) (Some unlinkTarget))
  = Ok (BoundaryFileRead.Failed (BoundaryFileRead.OpenFailure InvalidPath)
          (Some (SafeOpenError InvalidPath "hardlinked path not allowed" None))) /\
  fst (openFileWithinRoot (PM := Samples.pathModule) (PG := Samples.guards)
         (H := Samples.host) (FC := Samples.constants)
         MemOs.env (Samples.rootParams "twin.txt" (Some true) None)
         (start (MemOs.quiet Samples.openTree)))
  = Throw (SafeOpenError InvalidPath "hardlinked path not allowed" None).
Proof. split; [reflexivity|]. split; vm_compute; reflexivity. Qed.

Lemma hardlink_rejection_follows_flag_witness :
  fst (openVerifiedLocalFile (PG := Samples.guards) (FC := Samples.constants)
         MemOs.env "/work/twin.txt" (Some {| oo_rejectHardlinks := Some true |})
         (start (MemOs.quiet Samples.openTree)))
  = Throw (SafeOpenError InvalidPath "hardlinked path not allowed" None)
  /\
  fst (openFileWithinRoot (PM := Samples.pathModule) (PG := Samples.guards)
         (H := Samples.host) (FC := Samples.constants)
         MemOs.env (Samples.rootParams "twin.txt" None None)
         (start (MemOs.quiet Samples.openTree)))
  = Throw (SafeOpenError InvalidPath "hardlinked path not allowed" None)
  /\
  fst (openFileWithinRoot (PM := Samples.pathModule) (PG := Samples.guards)
         (H := Samples.host) (FC := Samples.constants)
         MemOs.env (Samples.rootParams "twin.txt" (Some false) None)
         (start (MemOs.quiet Samples.openTree)))
  = Ok {| handle := 3%Z; realPath := "/work/twin.txt";
          stat := MemFs.statsOf (MemFs.IFile 14 2 5) |}.
Proof.
  set (w := MemOs.quiet Samples.openTree).
  set (twin := MemFs.statsOf (MemFs.IFile 14 2 5)).
  set (opened := {| handle := 3%Z; realPath := "/work/twin.txt"; stat := twin |}).
  destruct (@hardlink_rejection_follows_flag Samples.pathModule Samples.guards
              Samples.host Samples.constants MemOs.World MemOs.env)
    as [verified rooted].
  split; [|split].
  - set (w2 := snd (os_open MemOs.env "/work/twin.txt" 131072%Z None w)).
    apply (verified "/work/twin.txt" (Some {| oo_rejectHardlinks := Some true |}) w
             (snd (rejectDirectoryBeforeOpen MemOs.env "/work/twin.txt" (start w)))
             3%Z w2 twin w2 twin w2); vm_compute; reflexivity.
  - set (s1 := snd (resolvePathWithinRoot (PM := Samples.pathModule) (PG := Samples.guards)
                      (H := Samples.host) MemOs.env "/work" "twin.txt" (start w))).
    set (s2 := snd (openVerifiedLocalFile (PG := Samples.guards) (FC := Samples.constants)
                      MemOs.env "/work/twin.txt" None s1)).
    apply (proj1 (rooted (Samples.rootParams "twin.txt" None None) w
                    "/work" "/work/" "/work/twin.txt" s1 opened s2
                    ltac:(vm_compute; reflexivity) ltac:(vm_compute; reflexivity)
                    ltac:(vm_compute; reflexivity))).
    discriminate.
  - set (s1 := snd (resolvePathWithinRoot (PM := Samples.pathModule) (PG := Samples.guards)
                      (H := Samples.host) MemOs.env "/work" "twin.txt" (start w))).
    set (s2 := snd (openVerifiedLocalFile (PG := Samples.guards) (FC := Samples.constants)
                      MemOs.env "/work/twin.txt" None s1)).
    rewrite (proj2 (rooted (Samples.rootParams "twin.txt" (Some false) None) w
                      "/work" "/work/" "/work/twin.txt" s1 opened s2
                      ltac:(vm_compute; reflexivity) ltac:(vm_compute; reflexivity)
                      ltac:(vm_compute; reflexivity))
               eq_refl ltac:(vm_compute; reflexivity)).
    reflexivity.
Defined.

(** While [writeFileWithinRoot] creates [sub/new.txt], another process turns
    [/work/sub] into a link to [/outside].  The file is created in
    [/outside]; the containment check on its real path fails, the write is
    rejected, and the removal runs: it follows a failed check, not a passed
    one. *)
Lemma rejected_write_removes_after_failed_check :
  let w := MemOs.busy Samples.writeTree
             [MemOs.idle; MemOs.idle; MemOs.idle; MemOs.idle; Samples.swapSub] in
  let run := writeFileWithinRoot (PM := Samples.pathModule) (PG := Samples.guards)
               (H := Samples.host) (FC := Samples.constants)
               MemOs.env (Samples.writeParams "sub/new.txt" "hello") (start w) in
  let created := MemFs.statsOf (MemFs.IFile 1007 1 0) in
  fst run = Throw (SafeOpenError OutsideWorkspace "file is outside workspace root" None) /\
  trace (snd run)
  = [EvRealpath "/work" (inr "/work");
     EvRealpath "/home/u" (inr "/home/u");
     EvAliasCheck "/work/sub/new.txt" "/work" "root";
     EvMkdir "/work/sub";
     EvRealpath "/work/sub/new.txt" (inl MemFs.enoent);
     EvOpen "/work/sub/new.txt" 131073 (Some 384%Z) (inl MemFs.enoent);
     EvOpen "/work/sub/new.txt" 131265 (Some 384%Z) (inr 3%Z);
     EvHandleStat 3%Z (inr created);
     EvLstat "/work/sub/new.txt" (inr created);
     EvRealpath "/work/sub/new.txt" (inr "/outside/new.txt");
     EvStat "/outside/new.txt" (inr created);
     EvRm "/outside/new.txt";
     EvHandleClose 3%Z] /\
  isPathInside (PathGuards := Samples.guards) "/work/" "/outside/new.txt" = false.
Proof. vm_compute. repeat split. Qed.

(** The same race one step later, after the file was created inside the
    root: the real path of the name is now a file of somebody else in
    [/outside].  The identity check fails, the write is rejected with
    [path-mismatch], and the removal deletes that other file. *)
Lemma rejected_write_can_remove_foreign_file :
  let w := MemOs.busy Samples.writeTree
             [MemOs.idle; MemOs.idle; MemOs.idle; MemOs.idle; MemOs.idle;
              MemOs.idle; MemOs.idle; MemOs.idle; MemOs.idle; Samples.swapSub] in
  let run := writeFileWithinRoot (PM := Samples.pathModule) (PG := Samples.guards)
               (H := Samples.host) (FC := Samples.constants)
               MemOs.env (Samples.writeParams "sub/victim.txt" "hello") (start w) in
  MemFs.lstat Samples.writeTree "/outside/victim.txt"
  = inr (MemFs.statsOf (MemFs.IFile 41 1 100)) /\
  fst run = Throw (SafeOpenError PathMismatch "path mismatch" None) /\
  In (EvRm "/outside/victim.txt") (trace (snd run)) /\
  MemFs.lstat (MemOs.tree (world (snd run))) "/outside/victim.txt" = inl MemFs.enoent.
Proof. vm_compute. repeat split. right. right. right. right. right. right. right. right.
  right. right. right. left. reflexivity. Qed.

Lemma write_truncates_only_after_checks_witness :
  let w := MemOs.quiet Samples.writeTree in
  let params := Samples.writeParams "a.txt" "hello" in
  let run := writeFileWithinRoot (PM := Samples.pathModule) (PG := Samples.guards)
               (H := Samples.host) (FC := Samples.constants) MemOs.env params (start w) in
  (Forall (fun ev => isTruncation ev = false) (trace (snd run)) \/
   exists rootReal early ioPath h stat lst realPath realStat late,
     trace (snd run)
     = EvRealpath (w_rootDir params) (inr rootReal) :: early
       ++ [EvHandleStat h (inr stat); EvLstat ioPath (inr lst);
           EvRealpath ioPath (inr realPath); EvStat realPath (inr realStat);
           EvHandleTruncate h 0%Z] ++ late /\
     Forall harmless early /\
     writeChecksPass (H := Samples.guards)
       (ensureTrailingSep (PM := Samples.pathModule) rootReal) stat lst realPath realStat /\
     Forall (fun ev => isTruncation ev = false /\ isRemoval ev = false) late)
  /\
  (Forall (fun ev => isRemoval ev = false) (trace (snd run)) \/
   ((exists code message, fst run = Throw (SafeOpenError code message None)) /\
    (exists ioPath h,
        In (EvOpen ioPath (OPEN_WRITE_CREATE_FLAGS (FC := Samples.constants))
              (Some 384%Z) (inr h)) (trace (snd run))) /\
    Forall (fun ev => isTruncation ev = false /\ isContentWrite ev = false)
      (trace (snd run)))).
Proof.
  intros w params run.
  apply (@write_truncates_only_after_checks Samples.pathModule Samples.guards Samples.host
           Samples.constants MemOs.World MemOs.env params w (fst run) (snd run)).
  apply surjective_pairing.
Defined.

(** ** The boundary file facade *)

Section FacadeFacts.

Import BoundaryFileRead.

Variables SafeOpenSyncFailureReason SafeOpenSyncAllowedType BoundaryReadFs : Type.
Context {PM : PathModule} {PG : PathGuards} {H : Host}.
Variable fs : FsView.
Variable nodeFs : BoundaryReadFs.
Variable openVerifiedFileSync :
  OpenVerifiedFileSyncParams SafeOpenSyncAllowedType BoundaryReadFs ->
  Result (SafeOpenSyncResult SafeOpenSyncFailureReason).

(** C10 — the facade does not throw on a validation failure.  Whatever
    [resolveBoundaryPathSync] (for [openBoundaryFileSync]) or
    [resolveBoundaryPath] (for [openBoundaryFile]) throws on the arguments
    the facade hands it comes back as the value
    [{ ok: false, reason: "validation", error }]; and when a facade call does
    throw, the exception is one that [openVerifiedFileSync] threw. *)
Theorem facade_returns_validation_failures
  (params : OpenBoundaryFileParams SafeOpenSyncAllowedType BoundaryReadFs) :
  (forall e,
      resolveBoundaryPathSync fs
        {| p_absolutePath := path_resolve [o_absolutePath params];
           p_rootPath := o_rootPath params;
           p_boundaryLabel := o_boundaryLabel params;
           p_intent := None;
           p_policy := None;
           p_skipLexicalRootCheck := o_skipLexicalRootCheck params;
           p_rootCanonicalPath := o_rootRealPath params |} = Throw e ->
      openBoundaryFileSync fs nodeFs openVerifiedFileSync params
      = Ok (Failed (Validation SafeOpenSyncFailureReason) (Some e)))
  /\
  (forall e,
      resolveBoundaryPath fs
        {| p_absolutePath := path_resolve [o_absolutePath params];
           p_rootPath := o_rootPath params;
           p_boundaryLabel := o_boundaryLabel params;
           p_intent := None;
           p_policy := o_aliasPolicy params;
           p_skipLexicalRootCheck := o_skipLexicalRootCheck params;
           p_rootCanonicalPath := o_rootRealPath params |} = Throw e ->
      openBoundaryFile fs nodeFs openVerifiedFileSync params
      = Ok (Failed (Validation SafeOpenSyncFailureReason) (Some e)))
  /\
  (forall e,
      openBoundaryFileSync fs nodeFs openVerifiedFileSync params = Throw e \/
      openBoundaryFile fs nodeFs openVerifiedFileSync params = Throw e ->
      exists request, openVerifiedFileSync request = Throw e).
Proof.
  split; [|split].
  - intros e He. unfold openBoundaryFileSync, resolveBoundaryFilePathGeneric.
    rewrite He. reflexivity.
  - intros e He. unfold openBoundaryFile, resolveBoundaryFilePathGeneric.
    rewrite He. reflexivity.
  - intros e [He|He].
    + unfold openBoundaryFileSync, resolveBoundaryFilePathGeneric in He.
      destruct (resolveBoundaryPathSync fs _) as [resolved|err]; cbn in He;
        [|discriminate].
      unfold openBoundaryFileResolved in He.
      match type of He with
      | context [openVerifiedFileSync ?req] =>
          exists req; destruct (openVerifiedFileSync req) as [[? ? ?|? ?]|?]
      end; try discriminate. inversion He; reflexivity.
    + unfold openBoundaryFile, resolveBoundaryFilePathGeneric in He.
      destruct (resolveBoundaryPath fs _) as [resolved|err]; cbn in He;
        [|discriminate].
      unfold openBoundaryFileResolved in He.
      match type of He with
      | context [openVerifiedFileSync ?req] =>
          exists req; destruct (openVerifiedFileSync req) as [[? ? ?|? ?]|?]
      end; try discriminate. inversion He; reflexivity.
Qed.

End FacadeFacts.

Lemma facade_returns_validation_failures_witness :
  BoundaryFileRead.openBoundaryFileSync
    (PM := Samples.pathModule) (PG := Samples.guards) (H := Samples.host)
    (MemFs.view Samples.openTree) (MemOs.quiet Samples.openTree)
    Samples.specOpenVerifiedFileSync
    (Samples.boundaryParams "/work/../etc/passwd" None None)
  = Ok (BoundaryFileRead.Failed (BoundaryFileRead.Validation SafeOpenErrorCode)
          (Some (JsError "Path escapes workspace root (/work): /etc/passwd")))
  /\
  BoundaryFileRead.openBoundaryFile
    (PM := Samples.pathModule) (PG := Samples.guards) (H := Samples.host)
    (MemFs.view Samples.openTree) (MemOs.quiet Samples.openTree)
    Samples.specOpenVerifiedFileSync
    (Samples.boundaryParams "/work/../etc/passwd" None None)
  = Ok (BoundaryFileRead.Failed (BoundaryFileRead.Validation SafeOpenErrorCode)
          (Some (JsError "Path escapes workspace root (/work): /etc/passwd"))).
Proof.
  destruct (@facade_returns_validation_failures SafeOpenErrorCode unit MemOs.World
              Samples.pathModule Samples.guards Samples.host
              (MemFs.view Samples.openTree) (MemOs.quiet Samples.openTree)
              Samples.specOpenVerifiedFileSync
              (Samples.boundaryParams "/work/../etc/passwd" None None))
    as [blocking [suspending _]].
  split.
  - apply blocking. vm_compute. reflexivity.
  - apply suspending. vm_compute. reflexivity.
Defined.

(** ** The fuel of the ancestor walk

    [resolvePathViaExistingAncestor] loops while [path.dirname] changes the
    cursor.  The embedding gives its loop one unit of fuel per character of
    the path, plus one.  Where [path.dirname] keeps a class of paths and
    shortens every path of the class that it changes, that is enough: more
    fuel changes nothing.  On the POSIX host the absolute paths are such a
    class, and the loop only ever sees outputs of [path.resolve]. *)

Section AncestorFuel.

Context {PM : PathModule} {PG : PathGuards} {H : Host}.
Variable fs : FsView.
Variable good : string -> Prop.
Hypothesis dirname_good : forall p, good p -> good (path_dirname p).
Hypothesis dirname_shrinks :
  forall p, good p ->
    path_dirname p = p \/ String.length (path_dirname p) < String.length p.

Lemma ancestorLoopSync_enough_fuel fuel :
  forall cursor missing more,
    good cursor ->
    String.length cursor < fuel ->
    ancestorLoopSync fs (fuel + more) cursor missing
    = ancestorLoopSync fs fuel cursor missing.
Proof.
  induction fuel as [|fuel IH]; intros cursor missing more Hg Hlen; [lia|].
  cbn [Nat.add ancestorLoopSync].
  destruct (negb (isFilesystemRoot cursor) && negb (fs_existsSync fs cursor));
    [|reflexivity].
  destruct (String.eqb (path_dirname cursor) cursor) eqn:Heq; [reflexivity|].
  apply IH; [apply dirname_good; exact Hg|].
  destruct (dirname_shrinks Hg) as [Hfix|Hlt].
  - rewrite Hfix, String.eqb_refl in Heq. discriminate.
  - lia.
Qed.

Lemma ancestorLoop_enough_fuel fuel :
  forall cursor missing more,
    good cursor ->
    String.length cursor < fuel ->
    ancestorLoop fs (fuel + more) cursor missing = ancestorLoop fs fuel cursor missing.
Proof.
  induction fuel as [|fuel IH]; intros cursor missing more Hg Hlen; [lia|].
  cbn [Nat.add ancestorLoop].
  destruct (isFilesystemRoot cursor); [reflexivity|].
  destruct (pathExists fs cursor) as [[|]|e]; cbn [bindR]; try reflexivity.
  destruct (String.eqb (path_dirname cursor) cursor) eqn:Heq; [reflexivity|].
  apply IH; [apply dirname_good; exact Hg|].
  destruct (dirname_shrinks Hg) as [Hfix|Hlt].
  - rewrite Hfix, String.eqb_refl in Heq. discriminate.
  - lia.
Qed.

End AncestorFuel.

Lemma split_not_nil sep s : Js.split sep s <> [].
Proof.
  destruct s as [|c rest]; cbn [Js.split]; [discriminate|].
  destruct (Ascii.eqb c sep); [discriminate|].
  destruct (Js.split sep rest); discriminate.
Qed.

Lemma join_split s : Posix.joinSegments (Js.split Posix.sep s) = s.
Proof.
  unfold Posix.joinSegments.
  induction s as [|c rest IH]; cbn [Js.split]; [reflexivity|].
  destruct (Ascii.eqb c Posix.sep) eqn:Hc.
  - apply Ascii.eqb_eq in Hc. subst c.
    pose proof (split_not_nil Posix.sep rest) as Hne.
    destruct (Js.split Posix.sep rest) as [|x xs] eqn:Hs; [contradiction|].
    cbn [String.concat]. cbn [String.concat] in IH. rewrite IH. reflexivity.
  - pose proof (split_not_nil Posix.sep rest) as Hne.
    destruct (Js.split Posix.sep rest) as [|x xs] eqn:Hs; [contradiction|].
    destruct xs as [|y ys].
    + cbn [String.concat] in *. rewrite IH. reflexivity.
    + change (String.concat "/" (String c x :: y :: ys))
        with (String c (String.concat "/" (x :: y :: ys))).
      rewrite IH. reflexivity.
Qed.

Lemma string_append_assoc (a b c : string) :
  ((a ++ b) ++ c = a ++ (b ++ c))%string.
Proof. induction a as [|x a IH]; cbn; [reflexivity|]. rewrite IH. reflexivity. Qed.

Lemma join_snoc (l : list string) x :
  l <> [] ->
  Posix.joinSegments (l ++ [x]) = (Posix.joinSegments l ++ "/" ++ x)%string.
Proof.
  unfold Posix.joinSegments.
  induction l as [|a l IH]; intros Hne; [contradiction|].
  destruct l as [|b l].
  - reflexivity.
  - cbn [app String.concat] in *.
    destruct (l ++ [x]) eqn:Hl; [destruct l; discriminate|].
    rewrite IH by discriminate.
    rewrite !string_append_assoc. reflexivity.
Qed.

Lemma string_length_append (a b : string) :
  String.length (a ++ b) = String.length a + String.length b.
Proof. induction a as [|c a IH]; cbn; [reflexivity|]. rewrite IH. reflexivity. Qed.

Lemma posix_dirname_absolute p :
  Posix.isAbsolute p = true ->
  Posix.isAbsolute (Posix.dirname p) = true /\
  (Posix.dirname p = p \/ String.length (Posix.dirname p) < String.length p).
Proof.
  destruct p as [|c rest]; [discriminate|]. cbn [Posix.isAbsolute]. intros Hc.
  apply Ascii.eqb_eq in Hc. subst c.
  unfold Posix.dirname. cbn [Js.split Posix.isAbsolute].
  rewrite Ascii.eqb_refl.
  pose proof (split_not_nil Posix.sep rest) as Hne.
  pose proof (join_split rest) as Hjoin.
  destruct (Js.split Posix.sep rest) as [|x xs] eqn:Hs; [contradiction|].
  destruct (@exists_last _ (x :: xs) ltac:(discriminate)) as [front [final Hfl]].
  rewrite Hfl in *.
  assert (Hrl : removelast ("" :: front ++ [final]) = "" :: front).
  { change ("" :: front ++ [final]) with (("" :: front) ++ [final]).
    apply removelast_last. }
  rewrite Hrl.
  destruct front as [|f front'].
  - cbn [Posix.joinSegments String.concat String.eqb app] in *.
    split; [reflexivity|]. subst rest.
    destruct final; [left; reflexivity|right; cbn; lia].
  - rewrite join_snoc in Hjoin by discriminate.
    assert (Hdir : Posix.joinSegments ("" :: f :: front')
                   = String "/" (Posix.joinSegments (f :: front')))
      by reflexivity.
    rewrite Hdir. cbn [String.eqb Posix.isAbsolute].
    rewrite Ascii.eqb_refl. split; [reflexivity|]. right.
    rewrite <- Hjoin. cbn [String.length]. rewrite !string_length_append.
    cbn [String.length]. lia.
Qed.

Lemma posix_gather_absolute cwd args acc :
  Posix.isAbsolute cwd = true -> Posix.isAbsolute (Posix.gather cwd args acc) = true.
Proof.
  intros Hcwd. revert acc. induction args as [|p args IH]; intros acc; cbn [Posix.gather].
  - destruct cwd; [discriminate|exact Hcwd].
  - destruct (String.eqb p ""); [apply IH|].
    destruct (Posix.isAbsolute p) eqn:Hp; [|apply IH].
    destruct p; [discriminate|exact Hp].
Qed.

Lemma posix_resolve_absolute cwd args :
  Posix.isAbsolute cwd = true -> Posix.isAbsolute (Posix.resolve cwd args) = true.
Proof.
  intros Hcwd. unfold Posix.resolve.
  rewrite posix_gather_absolute by exact Hcwd. reflexivity.
Qed.

(** On a POSIX host with an absolute working directory, neither walk of
    [resolvePathViaExistingAncestor] can run out of the fuel it is given. *)
Lemma posix_ancestor_walk_has_enough_fuel
  (cwd : string) (PG : PathGuards) (fs : FsView) (target : string) (more : nat) :
  Posix.isAbsolute cwd = true ->
  let normalized := Posix.resolve cwd [target] in
  ancestorLoopSync (PM := Posix.pathModule cwd) fs
    (S (String.length normalized) + more) normalized []
  = ancestorLoopSync (PM := Posix.pathModule cwd) fs
      (S (String.length normalized)) normalized []
  /\
  ancestorLoop (PM := Posix.pathModule cwd) fs
    (S (String.length normalized) + more) normalized []
  = ancestorLoop (PM := Posix.pathModule cwd) fs
      (S (String.length normalized)) normalized [].
Proof.
  intros Hcwd normalized.
  assert (Hn : Posix.isAbsolute normalized = true)
    by (apply posix_resolve_absolute; exact Hcwd).
  split.
  - apply (@ancestorLoopSync_enough_fuel (Posix.pathModule cwd) fs
             (fun p => Posix.isAbsolute p = true)); auto.
    + intros p Hp. apply (posix_dirname_absolute p Hp).
    + intros p Hp. apply (posix_dirname_absolute p Hp).
  - apply (@ancestorLoop_enough_fuel (Posix.pathModule cwd) PG fs
             (fun p => Posix.isAbsolute p = true)); auto.
    + intros p Hp. apply (posix_dirname_absolute p Hp).
    + intros p Hp. apply (posix_dirname_absolute p Hp).
Qed.

(** ** The alias policy and hardlinks

    Of an alias policy the resolver reads [allowFinalSymlinkForUnlink] alone,
    and the boundary file facade hands the policy to the resolver and to
    nothing else.  The value of [allowFinalHardlinkForUnlink] therefore
    changes no result of either. *)

Section PolicyAndHardlinks.

Context {PM : PathModule} {PG : PathGuards} {H : Host}.
Variable fs : FsView.

Lemma readLexicalStat_label p q idx rootCanonical absolute read :
  p_boundaryLabel p = p_boundaryLabel q ->
  readLexicalStat idx rootCanonical p absolute read
  = readLexicalStat idx rootCanonical q absolute read.
Proof.
  intros Hl.
  unfold readLexicalStat, handleLexicalStatReadFailure, handleLexicalLstatFailure,
    applyMissingSuffixToCanonicalCursor, assertLexicalCursorInsideBoundary.
  rewrite Hl. reflexivity.
Qed.

Lemma handleLexicalStatDisposition_label p q isLink segment isLast rootCanonical absolute :
  p_boundaryLabel p = p_boundaryLabel q ->
  handleLexicalStatDisposition isLink segment isLast rootCanonical p absolute
  = handleLexicalStatDisposition isLink segment isLast rootCanonical q absolute.
Proof.
  intros Hl.
  unfold handleLexicalStatDisposition, advanceCanonicalCursorForSegment,
    assertLexicalCursorInsideBoundary.
  rewrite Hl. reflexivity.
Qed.

Lemma lexicalLoopAsync_label p q absolute rootCanonical :
  p_boundaryLabel p = p_boundaryLabel q ->
  forall fuel idx st,
    lexicalLoopAsync fs p absolute rootCanonical fuel idx st
    = lexicalLoopAsync fs q absolute rootCanonical fuel idx st.
Proof.
  intros Hl fuel. induction fuel as [|fuel IH]; intros idx st; [reflexivity|].
  cbn [lexicalLoopAsync].
  apply bindT_ext. intros [step|] s1 _; [|reflexivity].
  rewrite (readLexicalStat_label p q _ _ _ _ Hl).
  apply bindT_ext. intros [stat|] s2 _; [|reflexivity].
  rewrite (handleLexicalStatDisposition_label p q _ _ _ _ _ Hl).
  apply bindT_ext. intros d s3 _.
  destruct d; [apply IH|reflexivity|].
  rewrite Hl. apply bindT_ext. intros u s4 _. apply IH.
Qed.

Lemma resolver_ignores_hardlink_allowance
  absolute root label intent skip rootCanonical sym (hard hard' : option bool) :
  resolveBoundaryPath fs
    {| p_absolutePath := absolute; p_rootPath := root; p_boundaryLabel := label;
       p_intent := intent;
       p_policy := Some {| allowFinalSymlinkForUnlink := sym;
                           allowFinalHardlinkForUnlink := hard |};
       p_skipLexicalRootCheck := skip; p_rootCanonicalPath := rootCanonical |}
  = resolveBoundaryPath fs
      {| p_absolutePath := absolute; p_rootPath := root; p_boundaryLabel := label;
         p_intent := intent;
         p_policy := Some {| allowFinalSymlinkForUnlink := sym;
                             allowFinalHardlinkForUnlink := hard' |};
         p_skipLexicalRootCheck := skip; p_rootCanonicalPath := rootCanonical |}.
Proof.
  unfold resolveBoundaryPath, givenRootCanonicalPath, createBoundaryResolutionContext.
  cbn [p_absolutePath p_rootPath p_boundaryLabel p_skipLexicalRootCheck
       p_rootCanonicalPath].
  match goal with
  | |- bindR ?m _ = bindR ?m _ => destruct m as [rc|e]; [|reflexivity]
  end.
  cbn [bindR].
  destruct (resolveOutsideLexicalCanonicalPathAsync fs (path_resolve [root])
              (path_resolve [absolute])) as [outside|e]; [|reflexivity].
  cbn [bindR].
  match goal with
  | |- bindR (bindR ?m _) _ = _ => destruct m as [u|e]; [|reflexivity]
  end.
  cbn [bindR].
  match goal with
  | |- bindR ?m _ = bindR ?m _ => destruct m as [[resolved|]|e]; try reflexivity
  end.
  cbn [bindR ctx_absolutePath ctx_rootPath ctx_rootCanonicalPath].
  unfold resolveBoundaryPathLexicalAsync, createLexicalTraversalState.
  cbn [p_policy allowFinalSymlinkForUnlink segments].
  match goal with
  | |- context [lexicalLoopAsync fs ?p _ _ _ _ _] =>
      match goal with
      | |- _ = match lexicalLoopAsync fs ?q _ _ _ _ _ with _ => _ end =>
          rewrite (@lexicalLoopAsync_label p q _ _ eq_refl)
      end
  end.
  reflexivity.
Qed.

End PolicyAndHardlinks.

Section FacadePolicy.

Import BoundaryFileRead.

Variables SafeOpenSyncFailureReason SafeOpenSyncAllowedType BoundaryReadFs : Type.
Context {PM : PathModule} {PG : PathGuards} {H : Host}.
Variable fs : FsView.
Variable nodeFs : BoundaryReadFs.
Variable openVerifiedFileSync :
  OpenVerifiedFileSyncParams SafeOpenSyncAllowedType BoundaryReadFs
  -> Result (SafeOpenSyncResult SafeOpenSyncFailureReason).

(** Whatever the opener, [openBoundaryFile] answers alike under two alias
    policies that differ in [allowFinalHardlinkForUnlink] only: the request
    it builds for the opener carries [rejectHardlinks ?? true] and no
    policy. *)
Lemma facade_ignores_hardlink_allowance
  absolute root label rootReal maxBytes rejectHardlinks allowedType skip ioFs sym
  (hard hard' : option bool) :
  openBoundaryFile fs nodeFs openVerifiedFileSync
    {| o_absolutePath := absolute; o_rootPath := root; o_boundaryLabel := label;
       o_rootRealPath := rootReal; o_maxBytes := maxBytes;
       o_rejectHardlinks := rejectHardlinks; o_allowedType := allowedType;
       o_skipLexicalRootCheck := skip; o_ioFs := ioFs;
       o_aliasPolicy := Some {| allowFinalSymlinkForUnlink := sym;
                                allowFinalHardlinkForUnlink := hard |} |}
  = openBoundaryFile fs nodeFs openVerifiedFileSync
      {| o_absolutePath := absolute; o_rootPath := root; o_boundaryLabel := label;
         o_rootRealPath := rootReal; o_maxBytes := maxBytes;
         o_rejectHardlinks := rejectHardlinks; o_allowedType := allowedType;
         o_skipLexicalRootCheck := skip; o_ioFs := ioFs;
         o_aliasPolicy := Some {| allowFinalSymlinkForUnlink := sym;
                                  allowFinalHardlinkForUnlink := hard' |} |}.
Proof.
  unfold openBoundaryFile, resolveBoundaryFilePathGeneric.
  cbn [o_absolutePath o_rootPath o_boundaryLabel o_rootRealPath o_maxBytes
       o_rejectHardlinks o_allowedType o_skipLexicalRootCheck o_ioFs o_aliasPolicy].
  rewrite (resolver_ignores_hardlink_allowance fs (path_resolve [absolute]) root label
             None skip rootReal sym hard hard').
  reflexivity.
Qed.

End FacadePolicy.

(* ================================================================== *)
(** * Part III — further properties of the embedded code               *)
(* ================================================================== *)

(** ** The record a resolution returns *)

Section ResolvedRecord.

Context {PM : PathModule} {PG : PathGuards} {H : Host}.
Variable fs : FsView.

Lemma toResolvedKind_not_missing stat : toResolvedKind stat <> Kmissing.
Proof.
  unfold toResolvedKind.
  destruct (isFile stat); [discriminate|].
  destruct (isDirectory stat); [discriminate|].
  destruct (isSymbolicLink stat); discriminate.
Qed.

Lemma getPathKind_exists_iff absolute preserve k :
  getPathKind fs absolute preserve = Ok k \/ getPathKindSync fs absolute preserve = Ok k ->
  (pk_exists k = false <-> pk_kind k = Kmissing).
Proof.
  assert (Hsame : getPathKindSync fs absolute preserve = getPathKind fs absolute preserve)
    by reflexivity.
  rewrite Hsame. intros E. assert (E' : getPathKind fs absolute preserve = Ok k) by tauto.
  clear E. unfold getPathKind in E'.
  destruct (if preserve then fs_lstat fs absolute else fs_stat fs absolute) as [e|stat].
  - destruct (isNotFoundPathError (NodeErr e)); [|discriminate].
    inversion E'; subst k. cbn. tauto.
  - inversion E'; subst k. cbn. split; [discriminate|].
    intros Hk. exfalso. eapply toResolvedKind_not_missing. exact Hk.
Qed.

Lemma relativeInsideRoot_shape rootPath targetPath :
  let relative := relativeInsideRoot rootPath targetPath in
  relative = "" \/
  (relative <> "." /\ Js.startsWith relative ".." = false /\
   path_isAbsolute relative = false).
Proof.
  unfold relativeInsideRoot.
  set (relative := path_relative (path_resolve [rootPath]) (path_resolve [targetPath])).
  cbv zeta.
  destruct (negb (Js.truthy relative) || String.eqb relative ".") eqn:Hfirst;
    [left; reflexivity|].
  destruct (Js.startsWith relative ".." || path_isAbsolute relative) eqn:Hsecond;
    [left; reflexivity|].
  right. apply orb_false_iff in Hfirst. destruct Hfirst as [_ Hdot].
  apply orb_false_iff in Hsecond. destruct Hsecond as [Hup Habs].
  repeat split; auto. intros Heq. rewrite Heq in Hdot. discriminate.
Qed.

Lemma finalizeLexicalResolution_record params rootPath rootCanonical absolute state k r :
  finalizeLexicalResolution params rootPath rootCanonical absolute state k = Ok r ->
  r = buildResolvedBoundaryPath absolute (canonicalCursor state) rootPath rootCanonical k.
Proof.
  unfold finalizeLexicalResolution.
  destruct (assertLexicalCursorInsideBoundary _ _ _ _); cbn [bindR]; congruence.
Qed.

Lemma lexicalSync_record params absolute rootPath rootCanonical r :
  resolveBoundaryPathLexicalSync fs params absolute rootPath rootCanonical = Ok r ->
  exists canonical k,
    (pk_exists k = false <-> pk_kind k = Kmissing) /\
    r = buildResolvedBoundaryPath absolute canonical rootPath rootCanonical k.
Proof.
  unfold resolveBoundaryPathLexicalSync.
  destruct (lexicalLoopSync _ _ _ _ _ _ _) as [[u st]|e]; [|discriminate].
  destruct (getPathKindSync fs absolute (preserveFinalSymlink st)) as [k|e] eqn:Hk;
    cbn [bindR]; [|discriminate].
  intros E. exists (canonicalCursor st), k. split.
  - eapply getPathKind_exists_iff. right. exact Hk.
  - eapply finalizeLexicalResolution_record. exact E.
Qed.

Lemma lexicalAsync_record params absolute rootPath rootCanonical r :
  resolveBoundaryPathLexicalAsync fs params absolute rootPath rootCanonical = Ok r ->
  exists canonical k,
    (pk_exists k = false <-> pk_kind k = Kmissing) /\
    r = buildResolvedBoundaryPath absolute canonical rootPath rootCanonical k.
Proof.
  unfold resolveBoundaryPathLexicalAsync.
  destruct (lexicalLoopAsync _ _ _ _ _ _ _) as [[u st]|e]; [|discriminate].
  destruct (getPathKind fs absolute (preserveFinalSymlink st)) as [k|e] eqn:Hk;
    cbn [bindR]; [|discriminate].
  intros E. exists (canonicalCursor st), k. split.
  - eapply getPathKind_exists_iff. left. exact Hk.
  - eapply finalizeLexicalResolution_record. exact E.
Qed.

Lemma outside_record label rootCanonical absolute canonical rootPath k r :
  buildOutsideLexicalBoundaryPath label rootCanonical absolute canonical rootPath k = Ok r ->
  r = buildResolvedBoundaryPath absolute canonical rootPath rootCanonical k.
Proof.
  unfold buildOutsideLexicalBoundaryPath.
  destruct (assertInsideBoundary _ _ _ _); cbn [bindR]; congruence.
Qed.

Lemma resolveBoundaryPathSync_record params r :
  resolveBoundaryPathSync fs params = Ok r ->
  exists canonical k,
    (pk_exists k = false <-> pk_kind k = Kmissing) /\
    r = buildResolvedBoundaryPath (path_resolve [p_absolutePath params]) canonical
          (path_resolve [p_rootPath params])
          (match givenRootCanonicalPath params with
           | Some v => path_resolve [v]
           | None => resolvePathViaExistingAncestorSync fs (path_resolve [p_rootPath params])
           end) k.
Proof.
  unfold resolveBoundaryPathSync, createBoundaryResolutionContext.
  destruct (assertLexicalBoundaryOrCanonicalAlias _ _ _ _ _ _ _); cbn [bindR]; [|discriminate].
  unfold resolveOutsideBoundaryPathSync.
  cbn [ctx_lexicalInside ctx_absolutePath ctx_rootPath ctx_rootCanonicalPath
       ctx_canonicalOutsideLexicalPath].
  destruct (isPathInside (path_resolve [p_rootPath params])
              (path_resolve [p_absolutePath params])); cbn [bindR].
  - apply lexicalSync_record.
  - destruct (getPathKindSync fs (path_resolve [p_absolutePath params]) false) as [k|e] eqn:Hk;
      cbn [bindR]; [|discriminate].
    match goal with
    | |- context [buildOutsideLexicalBoundaryPath ?l ?rc ?a ?c ?rp ?kk] =>
        destruct (buildOutsideLexicalBoundaryPath l rc a c rp kk) as [r'|e] eqn:Hb
    end; cbn [bindR]; [|discriminate].
    intros E. inversion E; subst r'. clear E.
    eexists _, k. split.
    + eapply getPathKind_exists_iff. right. exact Hk.
    + eapply outside_record. exact Hb.
Qed.

Lemma resolveBoundaryPath_record params r :
  resolveBoundaryPath fs params = Ok r ->
  exists canonical k rootCanonical,
    (pk_exists k = false <-> pk_kind k = Kmissing) /\
    match givenRootCanonicalPath params with
    | Some v => Ok (path_resolve [v])
    | None => resolvePathViaExistingAncestor fs (path_resolve [p_rootPath params])
    end = Ok rootCanonical /\
    r = buildResolvedBoundaryPath (path_resolve [p_absolutePath params]) canonical
          (path_resolve [p_rootPath params]) rootCanonical k.
Proof.
  unfold resolveBoundaryPath.
  match goal with
  | |- bindR ?m _ = _ -> _ => destruct m as [rootCanonical|e] eqn:Hroot
  end; cbn [bindR]; [|discriminate].
  destruct (resolveOutsideLexicalCanonicalPathAsync fs _ _) as [outside|e];
    cbn [bindR]; [|discriminate].
  unfold createBoundaryResolutionContext.
  destruct (assertLexicalBoundaryOrCanonicalAlias _ _ _ _ _ _ _); cbn [bindR]; [|discriminate].
  unfold resolveOutsideBoundaryPathAsync.
  cbn [ctx_lexicalInside ctx_absolutePath ctx_rootPath ctx_rootCanonicalPath
       ctx_canonicalOutsideLexicalPath].
  destruct (isPathInside (path_resolve [p_rootPath params])
              (path_resolve [p_absolutePath params])); cbn [bindR].
  - intros E. destruct (lexicalAsync_record _ _ _ _ E) as [canonical [k [Hk Hr]]].
    exists canonical, k, rootCanonical. auto.
  - destruct (getPathKind fs (path_resolve [p_absolutePath params]) false) as [k|e] eqn:Hk;
      cbn [bindR]; [|discriminate].
    match goal with
    | |- context [buildOutsideLexicalBoundaryPath ?l ?rc ?a ?c ?rp ?kk] =>
        destruct (buildOutsideLexicalBoundaryPath l rc a c rp kk) as [r'|e] eqn:Hb
    end; cbn [bindR]; [|discriminate].
    intros E. inversion E; subst r'. clear E.
    eexists _, k, rootCanonical. split; [|split; [reflexivity|]].
    + eapply getPathKind_exists_iff. left. exact Hk.
    + eapply outside_record. exact Hb.
Qed.

(** X1 — the record of a successful resolution.  Whatever either resolver
    returns echoes the normalized inputs ([absolutePath] and [rootPath] are
    [path.resolve] of the arguments), takes a [rootCanonicalPath] passed in
    as it is (resolved), reports [exists = false] exactly when
    [kind = "missing"], and carries as [relativePath] the path of
    [canonicalPath] relative to [rootCanonicalPath]: the empty string, or a
    relative path that is not ["."], does not start with [".."] and is not
    absolute. *)
Theorem resolved_record_shape (params : ResolveBoundaryPathParams)
  (r : ResolvedBoundaryPath) :
  resolveBoundaryPathSync fs params = Ok r \/ resolveBoundaryPath fs params = Ok r ->
  absolutePath r = path_resolve [p_absolutePath params] /\
  rootPath r = path_resolve [p_rootPath params] /\
  (forall v, givenRootCanonicalPath params = Some v ->
             rootCanonicalPath r = path_resolve [v]) /\
  (exists_ r = false <-> kind r = Kmissing) /\
  relativePath r = relativeInsideRoot (rootCanonicalPath r) (canonicalPath r) /\
  (relativePath r = "" \/
   (relativePath r <> "." /\ Js.startsWith (relativePath r) ".." = false /\
    path_isAbsolute (relativePath r) = false)).
Proof.
  intros [E|E].
  - destruct (resolveBoundaryPathSync_record _ E) as [canonical [k [Hk Hr]]].
    subst r. cbn [absolutePath rootPath rootCanonicalPath canonicalPath relativePath
                  exists_ kind buildResolvedBoundaryPath].
    repeat split; try tauto.
    + intros v Hv. rewrite Hv. reflexivity.
    + apply relativeInsideRoot_shape.
  - destruct (resolveBoundaryPath_record _ E) as [canonical [k [rc [Hk [Hroot Hr]]]]].
    subst r. cbn [absolutePath rootPath rootCanonicalPath canonicalPath relativePath
                  exists_ kind buildResolvedBoundaryPath].
    repeat split; try tauto.
    + intros v Hv. rewrite Hv in Hroot. congruence.
    + apply relativeInsideRoot_shape.
Qed.

End ResolvedRecord.

Lemma resolved_record_shape_witness :
  let r := {| absolutePath := "/work/dir/x/out.txt";
              canonicalPath := "/work/dir/x/out.txt";
              rootPath := "/work";
              rootCanonicalPath := "/work";
              relativePath := "dir/x/out.txt";
              exists_ := false;
              kind := Kmissing |} in
  resolveBoundaryPath (PM := Samples.pathModule) (PG := Samples.guards)
    (H := Samples.host) (MemFs.view Samples.workTree)
    (Samples.params "/work/dir/x/out.txt" "/work" None) = Ok r /\
  (exists_ r = false <-> kind r = Kmissing) /\
  relativePath r
  = relativeInsideRoot (PM := Samples.pathModule) (rootCanonicalPath r) (canonicalPath r).
Proof.
  intros r.
  assert (E : resolveBoundaryPath (PM := Samples.pathModule) (PG := Samples.guards)
                (H := Samples.host) (MemFs.view Samples.workTree)
                (Samples.params "/work/dir/x/out.txt" "/work" None) = Ok r)
    by (vm_compute; reflexivity).
  split; [exact E|].
  destruct (@resolved_record_shape Samples.pathModule Samples.guards Samples.host
              (MemFs.view Samples.workTree)
              (Samples.params "/work/dir/x/out.txt" "/work" None) r (or_intror E))
    as [_ [_ [_ [Hk [Hrel _]]]]].
  split; [exact Hk|exact Hrel].
Defined.

(** ** Inputs that are not lexically under the root *)

Section OutsideRoute.

Context {PM : PathModule} {PG : PathGuards} {H : Host}.
Variable fs : FsView.
Variable params : ResolveBoundaryPathParams.

(** X2 — an input outside the root is refused.  Let the normalized input be
    lexically outside the normalized root, and let its canonical form (the
    real path of its deepest existing ancestor plus what is missing) be
    outside the canonical root.  Without [skipLexicalRootCheck] both
    resolvers throw [Error("Path escapes <label> (<root>): <input>")] before
    the input itself is looked at.  With [skipLexicalRootCheck] the lexical
    test is skipped, but the canonical one is not: once the kind of the input
    is known, both throw [Error("Path resolves outside <label> (<canonical
    root>): <input>")]. *)
Theorem outside_input_is_refused (rootCanonical canonical : string) :
  let root := path_resolve [p_rootPath params] in
  let absolute := path_resolve [p_absolutePath params] in
  isPathInside root absolute = false ->
  isPathInside rootCanonical canonical = false ->
  ((match givenRootCanonicalPath params with
    | Some v => path_resolve [v]
    | None => resolvePathViaExistingAncestorSync fs root
    end = rootCanonical ->
    resolvePathViaExistingAncestorSync fs absolute = canonical ->
    (Js.optTrue (p_skipLexicalRootCheck params) = false ->
     resolveBoundaryPathSync fs params
     = Throw (pathEscapeError (p_boundaryLabel params) root absolute)) /\
    (forall k,
        Js.optTrue (p_skipLexicalRootCheck params) = true ->
        getPathKindSync fs absolute false = Ok k ->
        resolveBoundaryPathSync fs params
        = Throw (JsError ("Path resolves outside " ++ p_boundaryLabel params ++ " ("
                          ++ shortPath rootCanonical ++ "): " ++ shortPath absolute)))))
  /\
  ((match givenRootCanonicalPath params with
    | Some v => Ok (path_resolve [v])
    | None => resolvePathViaExistingAncestor fs root
    end = Ok rootCanonical ->
    resolvePathViaExistingAncestor fs absolute = Ok canonical ->
    (Js.optTrue (p_skipLexicalRootCheck params) = false ->
     resolveBoundaryPath fs params
     = Throw (pathEscapeError (p_boundaryLabel params) root absolute)) /\
    (forall k,
        Js.optTrue (p_skipLexicalRootCheck params) = true ->
        getPathKind fs absolute false = Ok k ->
        resolveBoundaryPath fs params
        = Throw (JsError ("Path resolves outside " ++ p_boundaryLabel params ++ " ("
                          ++ shortPath rootCanonical ++ "): " ++ shortPath absolute))))).
Proof.
  intros root absolute Hlex Hcanon. split.
  - intros Hroot Hc. split.
    + intros Hskip. unfold resolveBoundaryPathSync. fold root absolute.
      rewrite Hroot. unfold createBoundaryResolutionContext,
        resolveOutsideLexicalCanonicalPathSync, resolveCanonicalOutsideLexicalPath,
        assertLexicalBoundaryOrCanonicalAlias.
      rewrite Hlex, Hskip, Hc, Hcanon. reflexivity.
    + intros k Hskip Hk. unfold resolveBoundaryPathSync. fold root absolute.
      rewrite Hroot. unfold createBoundaryResolutionContext,
        resolveOutsideLexicalCanonicalPathSync, resolveCanonicalOutsideLexicalPath,
        assertLexicalBoundaryOrCanonicalAlias.
      rewrite Hlex, Hskip, Hc. cbn [orb bindR].
      unfold resolveOutsideBoundaryPathSync.
      cbn [ctx_lexicalInside ctx_absolutePath ctx_rootPath ctx_rootCanonicalPath
           ctx_canonicalOutsideLexicalPath].
      rewrite Hk. cbn [bindR].
      unfold buildOutsideLexicalBoundaryPath, assertInsideBoundary.
      rewrite Hcanon. reflexivity.
  - intros Hroot Hc. split.
    + intros Hskip. unfold resolveBoundaryPath. fold root absolute.
      rewrite Hroot. cbn [bindR].
      unfold resolveOutsideLexicalCanonicalPathAsync. rewrite Hlex, Hc. cbn [bindR].
      unfold createBoundaryResolutionContext, resolveCanonicalOutsideLexicalPath,
        assertLexicalBoundaryOrCanonicalAlias.
      rewrite Hlex, Hskip, Hcanon. reflexivity.
    + intros k Hskip Hk. unfold resolveBoundaryPath. fold root absolute.
      rewrite Hroot. cbn [bindR].
      unfold resolveOutsideLexicalCanonicalPathAsync. rewrite Hlex, Hc. cbn [bindR].
      unfold createBoundaryResolutionContext, resolveCanonicalOutsideLexicalPath,
        assertLexicalBoundaryOrCanonicalAlias.
      rewrite Hlex, Hskip. cbn [orb bindR].
      unfold resolveOutsideBoundaryPathAsync.
      cbn [ctx_lexicalInside ctx_absolutePath ctx_rootPath ctx_rootCanonicalPath
           ctx_canonicalOutsideLexicalPath].
      rewrite Hk. cbn [bindR].
      unfold buildOutsideLexicalBoundaryPath, assertInsideBoundary.
      rewrite Hcanon. reflexivity.
Qed.

(** X3 — an alias of a path under the root is accepted.  Let the normalized
    input be lexically outside the normalized root while its canonical form
    is inside the canonical root.  Then both resolvers return, without
    walking the segments and whatever the alias policy: [canonicalPath] is
    that canonical form and the kind is the one [stat] (which follows links)
    reports for the input. *)
Theorem outside_alias_is_resolved (rootCanonical canonical : string) (k : PathKind) :
  let root := path_resolve [p_rootPath params] in
  let absolute := path_resolve [p_absolutePath params] in
  isPathInside root absolute = false ->
  isPathInside rootCanonical canonical = true ->
  getPathKind fs absolute false = Ok k ->
  (match givenRootCanonicalPath params with
   | Some v => path_resolve [v]
   | None => resolvePathViaExistingAncestorSync fs root
   end = rootCanonical ->
   resolvePathViaExistingAncestorSync fs absolute = canonical ->
   resolveBoundaryPathSync fs params
   = Ok (buildResolvedBoundaryPath absolute canonical root rootCanonical k))
  /\
  (match givenRootCanonicalPath params with
   | Some v => Ok (path_resolve [v])
   | None => resolvePathViaExistingAncestor fs root
   end = Ok rootCanonical ->
   resolvePathViaExistingAncestor fs absolute = Ok canonical ->
   resolveBoundaryPath fs params
   = Ok (buildResolvedBoundaryPath absolute canonical root rootCanonical k)).
Proof.
  intros root absolute Hlex Hcanon Hk. split.
  - intros Hroot Hc. unfold resolveBoundaryPathSync. fold root absolute.
    rewrite Hroot. unfold createBoundaryResolutionContext,
      resolveOutsideLexicalCanonicalPathSync, resolveCanonicalOutsideLexicalPath,
      assertLexicalBoundaryOrCanonicalAlias.
    rewrite Hlex, Hc, Hcanon.
    destruct (Js.optTrue (p_skipLexicalRootCheck params)); cbn [orb bindR];
      unfold resolveOutsideBoundaryPathSync;
      cbn [ctx_lexicalInside ctx_absolutePath ctx_rootPath ctx_rootCanonicalPath
           ctx_canonicalOutsideLexicalPath];
      change (getPathKindSync fs absolute false) with (getPathKind fs absolute false);
      rewrite Hk; cbn [bindR];
      unfold buildOutsideLexicalBoundaryPath, assertInsideBoundary;
      rewrite Hcanon; reflexivity.
  - intros Hroot Hc. unfold resolveBoundaryPath. fold root absolute.
    rewrite Hroot. cbn [bindR].
    unfold resolveOutsideLexicalCanonicalPathAsync. rewrite Hlex, Hc. cbn [bindR].
    unfold createBoundaryResolutionContext, resolveCanonicalOutsideLexicalPath,
      assertLexicalBoundaryOrCanonicalAlias.
    rewrite Hlex, Hcanon.
    destruct (Js.optTrue (p_skipLexicalRootCheck params)); cbn [orb bindR];
      unfold resolveOutsideBoundaryPathAsync;
      cbn [ctx_lexicalInside ctx_absolutePath ctx_rootPath ctx_rootCanonicalPath
           ctx_canonicalOutsideLexicalPath];
      rewrite Hk; cbn [bindR];
      unfold buildOutsideLexicalBoundaryPath, assertInsideBoundary;
      rewrite Hcanon; reflexivity.
Qed.

End OutsideRoute.

Lemma outside_input_is_refused_witness :
  resolveBoundaryPathSync (PM := Samples.pathModule) (PG := Samples.guards)
    (H := Samples.host) (MemFs.view Samples.workTree)
    (Samples.params "/etc/passwd" "/work" None)
  = Throw (JsError "Path escapes workspace root (/work): /etc/passwd") /\
  resolveBoundaryPath (PM := Samples.pathModule) (PG := Samples.guards)
    (H := Samples.host) (MemFs.view Samples.workTree)
    (Samples.params "/etc/passwd" "/work" None)
  = Throw (JsError "Path escapes workspace root (/work): /etc/passwd").
Proof.
  destruct (@outside_input_is_refused Samples.pathModule Samples.guards Samples.host
              (MemFs.view Samples.workTree) (Samples.params "/etc/passwd" "/work" None)
              "/work" "/etc/passwd"
              ltac:(vm_compute; reflexivity) ltac:(vm_compute; reflexivity))
    as [Hsync Hasync].
  split.
  - exact (proj1 (Hsync ltac:(vm_compute; reflexivity) ltac:(vm_compute; reflexivity))
             eq_refl).
  - exact (proj1 (Hasync ltac:(vm_compute; reflexivity) ltac:(vm_compute; reflexivity))
             eq_refl).
Defined.

Lemma outside_alias_is_resolved_witness :
  resolveBoundaryPathSync (PM := Samples.pathModule) (PG := Samples.guards)
    (H := Samples.host) (MemFs.view Samples.doorTree)
    (Samples.params "/door" "/work" None)
  = Ok {| absolutePath := "/door";
          canonicalPath := "/work/sub";
          rootPath := "/work";
          rootCanonicalPath := "/work";
          relativePath := "sub";
          exists_ := true;
          kind := Kdirectory |}.
Proof.
  exact (proj1 (@outside_alias_is_resolved Samples.pathModule Samples.guards Samples.host
                  (MemFs.view Samples.doorTree) (Samples.params "/door" "/work" None)
                  "/work" "/work/sub" {| pk_exists := true; pk_kind := Kdirectory |}
                  ltac:(vm_compute; reflexivity) ltac:(vm_compute; reflexivity)
                  ltac:(vm_compute; reflexivity))
           ltac:(vm_compute; reflexivity) ltac:(vm_compute; reflexivity)).
Defined.

(** ** The walk over the segments *)

Section Walk.

Context {PM : PathModule} {PG : PathGuards} {H : Host}.
Variable fs : FsView.
Variable params : ResolveBoundaryPathParams.
Variables absolute rootCanonical : string.

Lemma state_eta (st : LexicalTraversalState) :
  {| segments := segments st; allowFinalSymlink := allowFinalSymlink st;
     canonicalCursor := canonicalCursor st; lexicalCursor := lexicalCursor st;
     preserveFinalSymlink := preserveFinalSymlink st |} = st.
Proof. destruct st; reflexivity. Qed.

Lemma disposition_link_resolved st segment isLast :
  allowFinalSymlink st && isLast = false ->
  handleLexicalStatDisposition true segment isLast rootCanonical params absolute st
  = Ok (ResolveLink, st).
Proof.
  intros Hno. unfold handleLexicalStatDisposition, bindT, getT, retT. cbn [negb].
  rewrite Hno. reflexivity.
Qed.

Lemma disposition_link_preserved st segment :
  allowFinalSymlink st = true ->
  isPathInside rootCanonical (path_resolve [canonicalCursor st; segment]) = true ->
  handleLexicalStatDisposition true segment true rootCanonical params absolute st
  = Ok (Break,
        set_canonicalCursor (path_resolve [canonicalCursor st; segment])
          (set_preserveFinalSymlink true st)).
Proof.
  intros Hallow Hin. unfold handleLexicalStatDisposition, bindT, getT, retT. cbn [negb].
  rewrite Hallow. cbn [andb].
  unfold modifyT, advanceCanonicalCursorForSegment, bindT, getT, modifyT, liftT,
    assertLexicalCursorInsideBoundary, assertInsideBoundary.
  cbn [canonicalCursor set_canonicalCursor set_preserveFinalSymlink]. rewrite Hin.
  reflexivity.
Qed.

Lemma hop_escapes st linkCanonical (resolveLink : string -> Result string) :
  resolveLink (lexicalCursor st) = Ok linkCanonical ->
  isPathInside rootCanonical linkCanonical = false ->
  resolveAndApplySymlinkHop rootCanonical (p_boundaryLabel params) resolveLink st
  = Throw (symlinkEscapeError (p_boundaryLabel params) rootCanonical (lexicalCursor st)).
Proof.
  intros Hr Hout.
  unfold resolveAndApplySymlinkHop, bindT, getT, liftT. rewrite Hr.
  unfold applyResolvedSymlinkHop, bindT, getT, throwT. rewrite Hout. reflexivity.
Qed.

Lemma readLexicalStat_refused idx st e :
  fs_lstat fs (lexicalCursor st) = inl e ->
  isNotFoundPathError (NodeErr e) = false ->
  readLexicalStat idx rootCanonical params absolute (fs_lstat fs) st = Throw (NodeErr e).
Proof.
  intros Hl Hnf. unfold readLexicalStat, bindT, getT. rewrite Hl.
  unfold handleLexicalStatReadFailure, handleLexicalLstatFailure, bindT, retT, throwT.
  rewrite Hnf. reflexivity.
Qed.

Lemma bindT_Throw (A B : Type) (m : Trav A) (k : A -> Trav B) s e :
  m s = Throw e -> bindT m k s = Throw e.
Proof. intros E. unfold bindT. rewrite E. reflexivity. Qed.

Lemma lexicalLoopAsync_done n idx st :
  Nat.ltb idx (List.length (segments st)) = false ->
  lexicalLoopAsync fs params absolute rootCanonical (S n) idx st = Ok (tt, st).
Proof.
  intros Hge. cbn [lexicalLoopAsync]. unfold iterateLexicalTraversal.
  unfold bindT at 1 2. unfold getT at 1. rewrite Hge. reflexivity.
Qed.

(** Where the walk stands after the segments of an existing prefix. *)
Ltac skip_prefix step hop_real :=
  induction 1 as [lex canon
                 |lex canon segment more stat lex' canon' Hl Hs Hin _ IH
                 |lex canon segment more stat real lex' canon' Hl Hs Hr Hin _ IH];
    intros pre rest st Hseg Hlex Hcanon Hfinal;
    [ cbn [app] in *; rewrite app_nil_r; subst lex canon; rewrite state_eta; reflexivity
    | | ];
    (assert (Hnth : nth (List.length pre) (segments st) "" = segment)
       by (rewrite Hseg; apply nth_middle_app));
    (assert (Hlt : Nat.ltb (List.length pre) (List.length (segments st)) = true)
       by (apply Nat.ltb_lt; rewrite Hseg, !length_app; cbn [List.length]; lia));
    cbn [app List.length]; step Hlt; rewrite Hnth;
    (erewrite bindT_Ok;
     [|apply readLexicalStat_present with (stat := stat);
       cbn [lexicalCursor set_lexicalCursor]; rewrite Hlex; exact Hl]);
    cbv beta iota; rewrite Hs;
    [ (erewrite bindT_Ok;
       [|apply disposition_entry;
         cbn [canonicalCursor set_lexicalCursor]; rewrite Hcanon; exact Hin]);
      cbv beta iota;
      specialize (IH (pre ++ [segment]) rest
                    (set_canonicalCursor (path_resolve [canon; segment])
                       (set_lexicalCursor (path_join lex segment) st)));
      replace (S (List.length pre)) with (List.length (pre ++ [segment]))
        by (rewrite length_app; cbn [List.length]; lia);
      cbn [canonicalCursor set_lexicalCursor]; rewrite Hcanon, Hlex;
      rewrite IH; auto;
      [ rewrite <- app_assoc; reflexivity
      | cbn [segments set_canonicalCursor set_lexicalCursor]; rewrite Hseg;
        rewrite <- app_assoc; reflexivity ]
    | (erewrite bindT_Ok;
       [|apply disposition_link_resolved;
         destruct Hfinal as [Hrest|Hno];
         [ replace (Nat.eqb (List.length pre) (List.length (segments st) - 1)) with false;
           [apply andb_false_r|];
           symmetry; apply Nat.eqb_neq; rewrite Hseg, ?length_app; cbn [List.length];
           rewrite ?length_app;
           destruct rest; [contradiction|cbn [List.length]; lia]
         | cbn [allowFinalSymlink set_lexicalCursor]; rewrite Hno; reflexivity ]]);
      cbv beta iota;
      (erewrite bindT_Ok;
       [|apply hop_to_real with (real := real); [|exact Hin];
         apply hop_real; cbn [lexicalCursor set_lexicalCursor]; rewrite Hlex; exact Hr]);
      cbv beta iota;
      specialize (IH (pre ++ [segment]) rest
                    (set_lexicalCursor (path_resolve [real])
                       (set_canonicalCursor (path_resolve [real])
                          (set_lexicalCursor (path_join (lexicalCursor st) segment) st))));
      replace (S (List.length pre)) with (List.length (pre ++ [segment]))
        by (rewrite length_app; cbn [List.length]; lia);
      rewrite IH; auto;
      [ rewrite <- app_assoc; reflexivity
      | cbn [segments set_canonicalCursor set_lexicalCursor]; rewrite Hseg;
        rewrite <- app_assoc; reflexivity ]
    ].

Lemma lexicalLoopSync_skip_prefix existing lex canon lexA canonA :
  ExistingPrefix fs rootCanonical lex canon existing lexA canonA ->
  forall pre rest st,
    segments st = pre ++ existing ++ rest ->
    lexicalCursor st = lex ->
    canonicalCursor st = canon ->
    rest <> [] \/ allowFinalSymlink st = false ->
    lexicalLoopSync fs params absolute rootCanonical
      (List.length (existing ++ rest)) (List.length pre) st
    = lexicalLoopSync fs params absolute rootCanonical
        (List.length rest) (List.length (pre ++ existing))
        {| segments := segments st;
           allowFinalSymlink := allowFinalSymlink st;
           canonicalCursor := canonA;
           lexicalCursor := lexA;
           preserveFinalSymlink := preserveFinalSymlink st |}.
Proof.
  skip_prefix ltac:(fun Hlt => rewrite lexicalLoopSync_step) hop_sync_real.
Qed.

Lemma lexicalLoopAsync_skip_prefix existing lex canon lexA canonA :
  ExistingPrefix fs rootCanonical lex canon existing lexA canonA ->
  forall pre rest st,
    segments st = pre ++ existing ++ rest ->
    lexicalCursor st = lex ->
    canonicalCursor st = canon ->
    rest <> [] \/ allowFinalSymlink st = false ->
    lexicalLoopAsync fs params absolute rootCanonical
      (S (List.length (existing ++ rest))) (List.length pre) st
    = lexicalLoopAsync fs params absolute rootCanonical
        (S (List.length rest)) (List.length (pre ++ existing))
        {| segments := segments st;
           allowFinalSymlink := allowFinalSymlink st;
           canonicalCursor := canonA;
           lexicalCursor := lexA;
           preserveFinalSymlink := preserveFinalSymlink st |}.
Proof.
  skip_prefix ltac:(fun Hlt => rewrite lexicalLoopAsync_step by exact Hlt)
              hop_async_real.
Qed.

End Walk.

Section WalkTail.

Context {PM : PathModule} {PG : PathGuards} {H : Host}.
Variable fs : FsView.
Variable params : ResolveBoundaryPathParams.
Variables absolute rootCanonical : string.

(** One turn of either loop, by what it finds at the next segment. *)
Ltac tail_refused step :=
  intros Hnth Hl Hnf; step; rewrite Hnth;
  apply bindT_Throw; eapply readLexicalStat_refused;
  [cbn [lexicalCursor set_lexicalCursor]; exact Hl | exact Hnf].

Lemma lexicalLoopSync_refused n idx st seg e :
  nth idx (segments st) "" = seg ->
  fs_lstat fs (path_join (lexicalCursor st) seg) = inl e ->
  isNotFoundPathError (NodeErr e) = false ->
  lexicalLoopSync fs params absolute rootCanonical (S n) idx st = Throw (NodeErr e).
Proof. tail_refused ltac:(rewrite lexicalLoopSync_step). Qed.

Lemma lexicalLoopAsync_refused n idx st seg e :
  Nat.ltb idx (List.length (segments st)) = true ->
  nth idx (segments st) "" = seg ->
  fs_lstat fs (path_join (lexicalCursor st) seg) = inl e ->
  isNotFoundPathError (NodeErr e) = false ->
  lexicalLoopAsync fs params absolute rootCanonical (S n) idx st = Throw (NodeErr e).
Proof. intros Hlt. tail_refused ltac:(rewrite lexicalLoopAsync_step by exact Hlt). Qed.

Ltac tail_escape step hop_real :=
  intros Hnth Hl Hs Hno Hr Hout; step; rewrite Hnth;
  (erewrite bindT_Ok;
   [|eapply readLexicalStat_present;
     cbn [lexicalCursor set_lexicalCursor]; exact Hl]);
  cbv beta iota; rewrite Hs;
  (erewrite bindT_Ok;
   [|apply disposition_link_resolved; cbn [allowFinalSymlink set_lexicalCursor]; exact Hno]);
  cbv beta iota;
  apply bindT_Throw;
  erewrite hop_escapes;
  [ reflexivity
  | apply hop_real; cbn [lexicalCursor set_lexicalCursor]; exact Hr
  | exact Hout ].

Lemma lexicalLoopSync_escape n idx st seg stat real :
  nth idx (segments st) "" = seg ->
  fs_lstat fs (path_join (lexicalCursor st) seg) = inr stat ->
  isSymbolicLink stat = true ->
  allowFinalSymlink st && Nat.eqb idx (List.length (segments st) - 1) = false ->
  fs_realpath fs (path_join (lexicalCursor st) seg) = inr real ->
  isPathInside rootCanonical (path_resolve [real]) = false ->
  lexicalLoopSync fs params absolute rootCanonical (S n) idx st
  = Throw (symlinkEscapeError (p_boundaryLabel params) rootCanonical
             (path_join (lexicalCursor st) seg)).
Proof. tail_escape ltac:(rewrite lexicalLoopSync_step) hop_sync_real. Qed.

Lemma lexicalLoopAsync_escape n idx st seg stat real :
  Nat.ltb idx (List.length (segments st)) = true ->
  nth idx (segments st) "" = seg ->
  fs_lstat fs (path_join (lexicalCursor st) seg) = inr stat ->
  isSymbolicLink stat = true ->
  allowFinalSymlink st && Nat.eqb idx (List.length (segments st) - 1) = false ->
  fs_realpath fs (path_join (lexicalCursor st) seg) = inr real ->
  isPathInside rootCanonical (path_resolve [real]) = false ->
  lexicalLoopAsync fs params absolute rootCanonical (S n) idx st
  = Throw (symlinkEscapeError (p_boundaryLabel params) rootCanonical
             (path_join (lexicalCursor st) seg)).
Proof.
  intros Hlt.
  tail_escape ltac:(rewrite lexicalLoopAsync_step by exact Hlt) hop_async_real.
Qed.

Ltac tail_preserved step :=
  intros Hnth Hlast Hl Hs Hallow Hin; step; rewrite Hnth, Hlast;
  (erewrite bindT_Ok;
   [|eapply readLexicalStat_present;
     cbn [lexicalCursor set_lexicalCursor]; exact Hl]);
  cbv beta iota; rewrite Hs;
  (erewrite bindT_Ok;
   [|apply disposition_link_preserved;
     [cbn [allowFinalSymlink set_lexicalCursor]; exact Hallow
     |cbn [canonicalCursor set_lexicalCursor]; exact Hin]]);
  reflexivity.

Lemma lexicalLoopSync_preserved n idx st seg stat :
  nth idx (segments st) "" = seg ->
  Nat.eqb idx (List.length (segments st) - 1) = true ->
  fs_lstat fs (path_join (lexicalCursor st) seg) = inr stat ->
  isSymbolicLink stat = true ->
  allowFinalSymlink st = true ->
  isPathInside rootCanonical (path_resolve [canonicalCursor st; seg]) = true ->
  lexicalLoopSync fs params absolute rootCanonical (S n) idx st
  = Ok (tt, {| segments := segments st;
               allowFinalSymlink := allowFinalSymlink st;
               canonicalCursor := path_resolve [canonicalCursor st; seg];
               lexicalCursor := path_join (lexicalCursor st) seg;
               preserveFinalSymlink := true |}).
Proof. tail_preserved ltac:(rewrite lexicalLoopSync_step). Qed.

Lemma lexicalLoopAsync_preserved n idx st seg stat :
  Nat.ltb idx (List.length (segments st)) = true ->
  nth idx (segments st) "" = seg ->
  Nat.eqb idx (List.length (segments st) - 1) = true ->
  fs_lstat fs (path_join (lexicalCursor st) seg) = inr stat ->
  isSymbolicLink stat = true ->
  allowFinalSymlink st = true ->
  isPathInside rootCanonical (path_resolve [canonicalCursor st; seg]) = true ->
  lexicalLoopAsync fs params absolute rootCanonical (S n) idx st
  = Ok (tt, {| segments := segments st;
               allowFinalSymlink := allowFinalSymlink st;
               canonicalCursor := path_resolve [canonicalCursor st; seg];
               lexicalCursor := path_join (lexicalCursor st) seg;
               preserveFinalSymlink := true |}).
Proof. intros Hlt. tail_preserved ltac:(rewrite lexicalLoopAsync_step by exact Hlt). Qed.

End WalkTail.

(** ** What a resolution under the root comes to

    The input is lexically under the root, and the segments between the two
    start with [existing]: entries that are there, each of them an ordinary
    entry or a link whose real path is inside the canonical root
    ([ExistingPrefix]); [lexA] and [canonA] are the lexical cursor and the
    canonical form reached after them.  The theorems say what both resolvers
    do with what comes next. *)

Section WalkOutcomes.

Context {PM : PathModule} {PG : PathGuards} {H : Host}.
Variable fs : FsView.
Variable params : ResolveBoundaryPathParams.
Variable rootCanonical : string.
Variable existing : list string.
Variables lexA canonA : string.

Local Abbreviation root := (path_resolve [p_rootPath params]).
Local Abbreviation absolute := (path_resolve [p_absolutePath params]).
Local Abbreviation state0 := (createLexicalTraversalState params root rootCanonical absolute).

Hypothesis lexically_inside : isPathInside root absolute = true.
Hypothesis root_sync :
  match givenRootCanonicalPath params with
  | Some v => path_resolve [v]
  | None => resolvePathViaExistingAncestorSync fs root
  end = rootCanonical.
Hypothesis root_async :
  match givenRootCanonicalPath params with
  | Some v => Ok (path_resolve [v])
  | None => resolvePathViaExistingAncestor fs root
  end = Ok rootCanonical.
Hypothesis prefix :
  ExistingPrefix fs rootCanonical root rootCanonical existing lexA canonA.

Lemma inside_route_sync :
  resolveBoundaryPathSync fs params
  = resolveBoundaryPathLexicalSync fs params absolute root rootCanonical.
Proof.
  unfold resolveBoundaryPathSync. rewrite root_sync.
  unfold createBoundaryResolutionContext, assertLexicalBoundaryOrCanonicalAlias.
  rewrite lexically_inside, orb_true_r. cbn [bindR].
  unfold resolveOutsideBoundaryPathSync.
  cbn [ctx_lexicalInside ctx_absolutePath ctx_rootPath ctx_rootCanonicalPath bindR].
  reflexivity.
Qed.

Lemma inside_route_async :
  resolveBoundaryPath fs params
  = resolveBoundaryPathLexicalAsync fs params absolute root rootCanonical.
Proof.
  unfold resolveBoundaryPath. rewrite root_async. cbn [bindR].
  unfold resolveOutsideLexicalCanonicalPathAsync. rewrite lexically_inside. cbn [bindR].
  unfold createBoundaryResolutionContext, assertLexicalBoundaryOrCanonicalAlias.
  rewrite lexically_inside, orb_true_r. cbn [bindR].
  unfold resolveOutsideBoundaryPathAsync.
  cbn [ctx_lexicalInside ctx_absolutePath ctx_rootPath ctx_rootCanonicalPath bindR].
  reflexivity.
Qed.

Lemma after_prefix_sync rest :
  segments state0 = existing ++ rest ->
  rest <> [] \/ allowFinalSymlink state0 = false ->
  lexicalLoopSync fs params absolute rootCanonical (List.length (segments state0)) 0 state0
  = lexicalLoopSync fs params absolute rootCanonical (List.length rest)
      (List.length existing)
      {| segments := existing ++ rest;
         allowFinalSymlink := allowFinalSymlink state0;
         canonicalCursor := canonA;
         lexicalCursor := lexA;
         preserveFinalSymlink := false |}.
Proof.
  intros Hseg Hfinal.
  pose proof (@lexicalLoopSync_skip_prefix PM PG H fs params absolute rootCanonical
                existing root rootCanonical lexA canonA prefix [] rest state0
                Hseg eq_refl eq_refl Hfinal) as Hskip.
  cbn [List.length app] in Hskip. rewrite Hseg in *. exact Hskip.
Qed.

Lemma after_prefix_async rest :
  segments state0 = existing ++ rest ->
  rest <> [] \/ allowFinalSymlink state0 = false ->
  lexicalLoopAsync fs params absolute rootCanonical
    (S (List.length (segments state0))) 0 state0
  = lexicalLoopAsync fs params absolute rootCanonical (S (List.length rest))
      (List.length existing)
      {| segments := existing ++ rest;
         allowFinalSymlink := allowFinalSymlink state0;
         canonicalCursor := canonA;
         lexicalCursor := lexA;
         preserveFinalSymlink := false |}.
Proof.
  intros Hseg Hfinal.
  pose proof (@lexicalLoopAsync_skip_prefix PM PG H fs params absolute rootCanonical
                existing root rootCanonical lexA canonA prefix [] rest state0
                Hseg eq_refl eq_refl Hfinal) as Hskip.
  cbn [List.length app] in Hskip. rewrite Hseg in *. exact Hskip.
Qed.

Lemma next_is_in_range seg more :
  Nat.ltb (List.length existing) (List.length (existing ++ seg :: more)) = true.
Proof. apply Nat.ltb_lt. rewrite length_app. cbn [List.length]. lia. Qed.

(** X4 — a link that leaves the root is refused.  When the next segment is
    a symbolic link that the walk resolves (it is not the last segment, or
    the policy does not allow a final link) and the real path of the link is
    outside the canonical root, both resolvers throw
    [Error("Symlink escapes <label> (<canonical root>): <path of the link>")],
    whatever follows the link. *)
Theorem escaping_link_is_refused (seg : string) (more : list string)
  (stat : Stats) (real : string) :
  segments state0 = existing ++ seg :: more ->
  fs_lstat fs (path_join lexA seg) = inr stat ->
  isSymbolicLink stat = true ->
  more <> [] \/ allowFinalSymlink state0 = false ->
  fs_realpath fs (path_join lexA seg) = inr real ->
  isPathInside rootCanonical (path_resolve [real]) = false ->
  resolveBoundaryPathSync fs params
  = Throw (symlinkEscapeError (p_boundaryLabel params) rootCanonical (path_join lexA seg))
  /\
  resolveBoundaryPath fs params
  = Throw (symlinkEscapeError (p_boundaryLabel params) rootCanonical (path_join lexA seg)).
Proof.
  intros Hseg Hl Hs Hfinal Hr Hout.
  assert (Hno : allowFinalSymlink state0
                && Nat.eqb (List.length existing)
                     (List.length (existing ++ seg :: more) - 1) = false).
  { destruct Hfinal as [Hmore|Hno]; [|rewrite Hno; reflexivity].
    replace (Nat.eqb (List.length existing) (List.length (existing ++ seg :: more) - 1))
      with false; [apply andb_false_r|].
    symmetry. apply Nat.eqb_neq. rewrite length_app. cbn [List.length].
    destruct more; [contradiction|cbn [List.length]; lia]. }
  split.
  - rewrite inside_route_sync. unfold resolveBoundaryPathLexicalSync.
    rewrite (after_prefix_sync Hseg) by (left; discriminate).
    cbn [List.length].
    erewrite lexicalLoopSync_escape with (seg := seg); [reflexivity|..];
      cbn [segments lexicalCursor allowFinalSymlink]; eauto.
    apply nth_middle_app.
  - rewrite inside_route_async. unfold resolveBoundaryPathLexicalAsync.
    rewrite (after_prefix_async Hseg) by (left; discriminate).
    cbn [List.length].
    erewrite lexicalLoopAsync_escape with (seg := seg); [reflexivity|..];
      cbn [segments lexicalCursor allowFinalSymlink]; eauto.
    + apply next_is_in_range.
    + apply nth_middle_app.
Qed.

(** X5 — a filesystem error is passed on as it is.  When [lstat] of the
    next segment fails with an error that is not a not-found error, both
    resolvers throw that very error. *)
Theorem lstat_failure_propagates (seg : string) (more : list string) (e : NodeError) :
  segments state0 = existing ++ seg :: more ->
  fs_lstat fs (path_join lexA seg) = inl e ->
  isNotFoundPathError (NodeErr e) = false ->
  resolveBoundaryPathSync fs params = Throw (NodeErr e) /\
  resolveBoundaryPath fs params = Throw (NodeErr e).
Proof.
  intros Hseg Hl Hnf. split.
  - rewrite inside_route_sync. unfold resolveBoundaryPathLexicalSync.
    rewrite (after_prefix_sync Hseg) by (left; discriminate).
    cbn [List.length].
    erewrite lexicalLoopSync_refused with (seg := seg); [reflexivity|..];
      cbn [segments lexicalCursor]; eauto.
    apply nth_middle_app.
  - rewrite inside_route_async. unfold resolveBoundaryPathLexicalAsync.
    rewrite (after_prefix_async Hseg) by (left; discriminate).
    cbn [List.length].
    erewrite lexicalLoopAsync_refused with (seg := seg); [reflexivity|..];
      cbn [segments lexicalCursor]; eauto.
    + apply next_is_in_range.
    + apply nth_middle_app.
Qed.

(** X6 — a final link is kept when the policy allows it.  When the last
    segment is a symbolic link and the policy has
    [allowFinalSymlinkForUnlink: true], the link is not resolved: both
    resolvers return the path of the link itself (the canonical form of its
    parent joined with its name) as [canonicalPath], with the kind that
    [lstat] reports for the input.  The target of the link is not looked
    at. *)
Theorem allowed_final_link_is_kept (seg : string) (stat inputStat : Stats) :
  segments state0 = existing ++ [seg] ->
  fs_lstat fs (path_join lexA seg) = inr stat ->
  isSymbolicLink stat = true ->
  allowFinalSymlink state0 = true ->
  isPathInside rootCanonical (path_resolve [canonA; seg]) = true ->
  fs_lstat fs absolute = inr inputStat ->
  let expected :=
    buildResolvedBoundaryPath absolute (path_resolve [canonA; seg]) root rootCanonical
      {| pk_exists := true; pk_kind := toResolvedKind inputStat |} in
  resolveBoundaryPathSync fs params = Ok expected /\
  resolveBoundaryPath fs params = Ok expected.
Proof.
  intros Hseg Hl Hs Hallow Hin Hinput expected.
  assert (Hlast : Nat.eqb (List.length existing)
                    (List.length (existing ++ [seg]) - 1) = true).
  { apply Nat.eqb_eq. rewrite length_app. cbn [List.length]. lia. }
  split.
  - rewrite inside_route_sync. unfold resolveBoundaryPathLexicalSync.
    rewrite (after_prefix_sync Hseg) by (left; discriminate).
    cbn [List.length].
    erewrite lexicalLoopSync_preserved with (seg := seg);
      cbn [segments lexicalCursor canonicalCursor allowFinalSymlink]; eauto;
      [|apply nth_middle_app].
    cbn [preserveFinalSymlink]. unfold getPathKindSync. rewrite Hinput. cbn [bindR].
    unfold finalizeLexicalResolution, assertLexicalCursorInsideBoundary,
      assertInsideBoundary.
    cbn [canonicalCursor]. rewrite Hin. reflexivity.
  - rewrite inside_route_async. unfold resolveBoundaryPathLexicalAsync.
    rewrite (after_prefix_async Hseg) by (left; discriminate).
    cbn [List.length].
    erewrite lexicalLoopAsync_preserved with (seg := seg);
      cbn [segments lexicalCursor canonicalCursor allowFinalSymlink]; eauto;
      [|apply next_is_in_range|apply nth_middle_app].
    cbn [preserveFinalSymlink]. unfold getPathKind. rewrite Hinput. cbn [bindR].
    unfold finalizeLexicalResolution, assertLexicalCursorInsideBoundary,
      assertInsideBoundary.
    cbn [canonicalCursor]. rewrite Hin. reflexivity.
Qed.

(** X7 — an existing path is resolved to its canonical form.  When every
    segment is there and no final link is kept, both resolvers return
    [canonicalPath = canonA], the canonical form reached at the last
    segment, with the kind that [stat] reports for the input. *)
Theorem existing_path_is_resolved (k : PathKind) :
  segments state0 = existing ->
  allowFinalSymlink state0 = false ->
  isPathInside rootCanonical canonA = true ->
  getPathKind fs absolute false = Ok k ->
  let expected := buildResolvedBoundaryPath absolute canonA root rootCanonical k in
  resolveBoundaryPathSync fs params = Ok expected /\
  resolveBoundaryPath fs params = Ok expected.
Proof.
  intros Hseg Hno Hin Hk expected.
  assert (Hseg' : segments state0 = existing ++ []) by (rewrite app_nil_r; exact Hseg).
  split.
  - rewrite inside_route_sync. unfold resolveBoundaryPathLexicalSync.
    rewrite (after_prefix_sync Hseg') by (right; exact Hno).
    cbn [List.length lexicalLoopSync]. unfold retT.
    cbn [preserveFinalSymlink].
    change (getPathKindSync fs absolute false) with (getPathKind fs absolute false).
    rewrite Hk. cbn [bindR].
    unfold finalizeLexicalResolution, assertLexicalCursorInsideBoundary,
      assertInsideBoundary.
    cbn [canonicalCursor]. rewrite Hin. reflexivity.
  - rewrite inside_route_async. unfold resolveBoundaryPathLexicalAsync.
    rewrite (after_prefix_async Hseg') by (right; exact Hno).
    rewrite lexicalLoopAsync_done
      by (cbn [segments]; apply Nat.ltb_ge; rewrite app_nil_r; lia).
    cbn [preserveFinalSymlink]. rewrite Hk. cbn [bindR].
    unfold finalizeLexicalResolution, assertLexicalCursorInsideBoundary,
      assertInsideBoundary.
    cbn [canonicalCursor]. rewrite Hin. reflexivity.
Qed.

End WalkOutcomes.

Lemma escaping_link_is_refused_witness :
  resolveBoundaryPathSync (PM := Samples.pathModule) (PG := Samples.guards)
    (H := Samples.host) (MemFs.view Samples.workTree)
    (Samples.params "/work/link/passwd" "/work" None)
  = Throw (JsError "Symlink escapes workspace root (/work): /work/link") /\
  resolveBoundaryPath (PM := Samples.pathModule) (PG := Samples.guards)
    (H := Samples.host) (MemFs.view Samples.workTree)
    (Samples.params "/work/link/passwd" "/work" None)
  = Throw (JsError "Symlink escapes workspace root (/work): /work/link").
Proof.
  refine (@escaping_link_is_refused Samples.pathModule Samples.guards Samples.host
            (MemFs.view Samples.workTree)
            (Samples.params "/work/link/passwd" "/work" None)
            "/work" [] "/work" "/work" _ _ _ _ "link" ["passwd"]
            (MemFs.statsOf (MemFs.ILink 13 "/etc")) "/etc" _ _ _ _ _ _).
  all: match goal with
       | |- ExistingPrefix _ _ _ _ _ _ _ => idtac
       | |- _ \/ _ => left; discriminate
       | |- _ => vm_compute; reflexivity
       end.
  replace (path_resolve [p_rootPath (Samples.params "/work/link/passwd" "/work" None)])
    with "/work" by (vm_compute; reflexivity).
  apply Existing_done.
Defined.

Lemma lstat_failure_propagates_witness :
  resolveBoundaryPathSync (PM := Samples.pathModule) (PG := Samples.guards)
    (H := Samples.host) Samples.lockedView
    (Samples.params "/work/dir/notes.txt" "/work" None)
  = Throw (NodeErr Samples.eacces) /\
  resolveBoundaryPath (PM := Samples.pathModule) (PG := Samples.guards)
    (H := Samples.host) Samples.lockedView
    (Samples.params "/work/dir/notes.txt" "/work" None)
  = Throw (NodeErr Samples.eacces).
Proof.
  refine (@lstat_failure_propagates Samples.pathModule Samples.guards Samples.host
            Samples.lockedView
            (Samples.params "/work/dir/notes.txt" "/work" None)
            "/work" [] "/work" "/work" _ _ _ _ "dir" ["notes.txt"] Samples.eacces _ _ _).
  all: match goal with
       | |- ExistingPrefix _ _ _ _ _ _ _ => idtac
       | |- _ => vm_compute; reflexivity
       end.
  replace (path_resolve [p_rootPath (Samples.params "/work/dir/notes.txt" "/work" None)])
    with "/work" by (vm_compute; reflexivity).
  apply Existing_done.
Defined.

Lemma allowed_final_link_is_kept_witness :
  let expected :=
    {| absolutePath := "/work/link";
       canonicalPath := "/work/link";
       rootPath := "/work";
       rootCanonicalPath := "/work";
       relativePath := "link";
       exists_ := true;
       kind := Ksymlink |} in
  resolveBoundaryPathSync (PM := Samples.pathModule) (PG := Samples.guards)
    (H := Samples.host) (MemFs.view Samples.workTree)
    (Samples.params "/work/link" "/work" (Some unlinkTarget)) = Ok expected /\
  resolveBoundaryPath (PM := Samples.pathModule) (PG := Samples.guards)
    (H := Samples.host) (MemFs.view Samples.workTree)
    (Samples.params "/work/link" "/work" (Some unlinkTarget)) = Ok expected.
Proof.
  refine (@allowed_final_link_is_kept Samples.pathModule Samples.guards Samples.host
            (MemFs.view Samples.workTree)
            (Samples.params "/work/link" "/work" (Some unlinkTarget))
            "/work" [] "/work" "/work" _ _ _ _ "link"
            (MemFs.statsOf (MemFs.ILink 13 "/etc")) (MemFs.statsOf (MemFs.ILink 13 "/etc"))
            _ _ _ _ _ _).
  all: match goal with
       | |- ExistingPrefix _ _ _ _ _ _ _ => idtac
       | |- _ => vm_compute; reflexivity
       end.
  replace (path_resolve [p_rootPath (Samples.params "/work/link" "/work" (Some unlinkTarget))])
    with "/work" by (vm_compute; reflexivity).
  apply Existing_done.
Defined.

Lemma existing_path_is_resolved_witness :
  let expected :=
    {| absolutePath := "/work/alias";
       canonicalPath := "/work/real";
       rootPath := "/work";
       rootCanonicalPath := "/work";
       relativePath := "real";
       exists_ := true;
       kind := Kdirectory |} in
  resolveBoundaryPathSync (PM := Samples.pathModule) (PG := Samples.guards)
    (H := Samples.host) (MemFs.view Samples.linkedTree)
    (Samples.params "/work/alias" "/work" None) = Ok expected /\
  resolveBoundaryPath (PM := Samples.pathModule) (PG := Samples.guards)
    (H := Samples.host) (MemFs.view Samples.linkedTree)
    (Samples.params "/work/alias" "/work" None) = Ok expected.
Proof.
  refine (@existing_path_is_resolved Samples.pathModule Samples.guards Samples.host
            (MemFs.view Samples.linkedTree)
            (Samples.params "/work/alias" "/work" None)
            "/work" ["alias"] "/work/real" "/work/real" _ _ _ _
            {| pk_exists := true; pk_kind := Kdirectory |} _ _ _ _).
  all: match goal with
       | |- ExistingPrefix _ _ _ _ _ _ _ => idtac
       | |- _ => vm_compute; reflexivity
       end.
  replace (path_resolve [p_rootPath (Samples.params "/work/alias" "/work" None)])
    with "/work" by (vm_compute; reflexivity).
  eapply Existing_link with (real := "/work/real");
    [vm_compute; reflexivity | vm_compute; reflexivity | vm_compute; reflexivity
    | vm_compute; reflexivity | ].
  replace (path_resolve ["/work/real"]) with "/work/real" by (vm_compute; reflexivity).
  apply Existing_done.
Defined.

(** ** The walk up to the deepest existing ancestor *)

Section AncestorWalk.

Context {PM : PathModule} {PG : PathGuards} {H : Host}.
Variable fs : FsView.

Lemma climb_fixed k p : path_dirname p = p -> climb k p = p.
Proof.
  intros Hfix. induction k as [|k IH]; cbn [climb]; [reflexivity|].
  rewrite Hfix. exact IH.
Qed.

Lemma ancestorLoopSync_reaches k :
  forall fuel cursor missing,
    k < fuel ->
    (forall j, j < k ->
               isFilesystemRoot (climb j cursor) = false /\
               fs_existsSync fs (climb j cursor) = false) ->
    fs_existsSync fs (climb k cursor) = true ->
    ancestorLoopSync fs fuel cursor missing
    = (climb k cursor, missingNames k cursor missing).
Proof.
  induction k as [|k IH]; intros fuel cursor missing Hfuel Hbelow Hthere;
    (destruct fuel as [|fuel]; [lia|]); cbn [ancestorLoopSync climb missingNames].
  - cbn [climb] in Hthere. rewrite Hthere, andb_false_r. reflexivity.
  - destruct (Hbelow 0 ltac:(lia)) as [Hroot Hgone]. cbn [climb] in Hroot, Hgone.
    rewrite Hroot, Hgone. cbn [negb andb].
    destruct (String.eqb (path_dirname cursor) cursor) eqn:Hfix.
    + apply String.eqb_eq in Hfix.
      cbn [climb] in Hthere. rewrite Hfix, (climb_fixed k Hfix) in Hthere. congruence.
    + apply IH; [lia| |exact Hthere].
      intros j Hj. exact (Hbelow (S j) ltac:(lia)).
Qed.

Lemma ancestorLoop_reaches k :
  forall fuel cursor missing,
    k < fuel ->
    (forall j, j < k ->
               isFilesystemRoot (climb j cursor) = false /\
               pathExists fs (climb j cursor) = Ok false) ->
    pathExists fs (climb k cursor) = Ok true ->
    ancestorLoop fs fuel cursor missing
    = Ok (climb k cursor, missingNames k cursor missing).
Proof.
  induction k as [|k IH]; intros fuel cursor missing Hfuel Hbelow Hthere;
    (destruct fuel as [|fuel]; [lia|]); cbn [ancestorLoop climb missingNames].
  - cbn [climb] in Hthere. rewrite Hthere. cbn [bindR].
    destruct (isFilesystemRoot cursor); reflexivity.
  - destruct (Hbelow 0 ltac:(lia)) as [Hroot Hgone]. cbn [climb] in Hroot, Hgone.
    rewrite Hroot, Hgone. cbn [bindR].
    destruct (String.eqb (path_dirname cursor) cursor) eqn:Hfix.
    + apply String.eqb_eq in Hfix.
      cbn [climb] in Hthere. rewrite Hfix, (climb_fixed k Hfix) in Hthere. congruence.
    + apply IH; [lia| |exact Hthere].
      intros j Hj. exact (Hbelow (S j) ltac:(lia)).
Qed.

(** X8 — the deepest existing ancestor decides the canonical form.  Let
    [normalized] be [path.resolve(target)], and let its [k]-th ancestor be
    the first one that is there, the [k] paths below it being absent and no
    filesystem root ([k] at most the length of the path, which holds
    wherever [path.dirname] shortens what it changes).  If [realpath] of
    that ancestor answers [real], [resolvePathViaExistingAncestorSync] and
    [resolvePathViaExistingAncestor] return [path.resolve(real)] followed by
    the base names of the [k] absent paths, outermost first; if [realpath]
    fails they return [normalized] unchanged.  The blocking function probes
    with [fs.existsSync], the other with [lstat]. *)
Theorem ancestor_walk_stops_at_first_existing (target : string) (k : nat) :
  let normalized := path_resolve [target] in
  let ancestor := climb k normalized in
  let names := missingNames k normalized [] in
  let expected :=
    match fs_realpath fs ancestor with
    | inr real =>
        match names with
        | [] => path_resolve [real]
        | _ => path_resolve (path_resolve [real] :: names)
        end
    | inl _ => normalized
    end in
  k <= String.length normalized ->
  (forall j, j < k -> isFilesystemRoot (climb j normalized) = false) ->
  ((forall j, j < k -> fs_existsSync fs (climb j normalized) = false) ->
   fs_existsSync fs ancestor = true ->
   resolvePathViaExistingAncestorSync fs target = expected)
  /\
  ((forall j, j < k -> pathExists fs (climb j normalized) = Ok false) ->
   pathExists fs ancestor = Ok true ->
   resolvePathViaExistingAncestor fs target = Ok expected).
Proof.
  intros normalized ancestor names expected Hk Hroots. split.
  - intros Hgone Hthere. unfold resolvePathViaExistingAncestorSync. fold normalized.
    rewrite (@ancestorLoopSync_reaches k) by (auto; lia).
    fold ancestor names. rewrite Hthere. cbn [negb]. unfold expected.
    destruct (fs_realpath fs ancestor); [reflexivity|]. destruct names; reflexivity.
  - intros Hgone Hthere. unfold resolvePathViaExistingAncestor. fold normalized.
    rewrite (@ancestorLoop_reaches k) by (auto; lia).
    cbn [bindR]. fold ancestor names. rewrite Hthere. cbn [bindR negb]. unfold expected.
    destruct (fs_realpath fs ancestor); [reflexivity|]. destruct names; reflexivity.
Qed.

(** X9 — an unreadable ancestor.  When the [k] paths below the [k]-th
    ancestor of [path.resolve(target)] are absent and [lstat] of that
    ancestor fails with an error that is not a not-found error,
    [resolvePathViaExistingAncestor] throws that very error instead of
    climbing further or falling back to the normalized path. *)
Theorem ancestor_walk_rethrows_lstat_errors (target : string) (k : nat) (e : NodeError) :
  let normalized := path_resolve [target] in
  k <= String.length normalized ->
  (forall j, j < k ->
             isFilesystemRoot (climb j normalized) = false /\
             pathExists fs (climb j normalized) = Ok false) ->
  isFilesystemRoot (climb k normalized) = false ->
  fs_lstat fs (climb k normalized) = inl e ->
  isNotFoundPathError (NodeErr e) = false ->
  resolvePathViaExistingAncestor fs target = Throw (NodeErr e).
Proof.
  intros normalized Hk Hbelow Hroot Hl Hnf.
  unfold resolvePathViaExistingAncestor. fold normalized.
  assert (Hprobe : pathExists fs (climb k normalized) = Throw (NodeErr e))
    by (unfold pathExists; rewrite Hl, Hnf; reflexivity).
  assert (Hloop : forall n fuel cursor missing,
             n < fuel ->
             (forall j, j < n ->
                        isFilesystemRoot (climb j cursor) = false /\
                        pathExists fs (climb j cursor) = Ok false) ->
             isFilesystemRoot (climb n cursor) = false ->
             pathExists fs (climb n cursor) = Throw (NodeErr e) ->
             ancestorLoop fs fuel cursor missing = Throw (NodeErr e)).
  { induction n as [|n IH]; intros fuel cursor missing Hfuel Hb Hr Hp;
      (destruct fuel as [|fuel]; [lia|]); cbn [ancestorLoop].
    - cbn [climb] in Hr, Hp. rewrite Hr, Hp. reflexivity.
    - destruct (Hb 0 ltac:(lia)) as [Hroot0 Hgone0]. cbn [climb] in Hroot0, Hgone0.
      rewrite Hroot0, Hgone0. cbn [bindR].
      destruct (String.eqb (path_dirname cursor) cursor) eqn:Hfix.
      + apply String.eqb_eq in Hfix.
        cbn [climb] in Hp. rewrite Hfix, (climb_fixed n Hfix) in Hp. congruence.
      + apply IH; [lia| |exact Hr|exact Hp].
        intros j Hj. exact (Hb (S j) ltac:(lia)). }
  rewrite (Hloop k) by (auto; lia). reflexivity.
Qed.

End AncestorWalk.

Lemma ancestor_walk_stops_at_first_existing_witness :
  resolvePathViaExistingAncestorSync (PM := Samples.pathModule)
    (MemFs.view Samples.doorTree) "/door/new/out.txt" = "/work/sub/new/out.txt" /\
  resolvePathViaExistingAncestor (PM := Samples.pathModule) (PG := Samples.guards)
    (MemFs.view Samples.doorTree) "/door/new/out.txt" = Ok "/work/sub/new/out.txt".
Proof.
  destruct (@ancestor_walk_stops_at_first_existing Samples.pathModule Samples.guards
              (MemFs.view Samples.doorTree) "/door/new/out.txt" 2
              ltac:(vm_compute; lia)
              ltac:(intros j Hj; destruct j as [|[|j]];
                    [vm_compute; reflexivity|vm_compute; reflexivity|lia]))
    as [Hsync Hasync].
  split.
  - apply Hsync.
    + intros j Hj. destruct j as [|[|j]]; [vm_compute; reflexivity ..|lia].
    + vm_compute. reflexivity.
  - apply Hasync.
    + intros j Hj. destruct j as [|[|j]]; [vm_compute; reflexivity ..|lia].
    + vm_compute. reflexivity.
Defined.

Lemma ancestor_walk_rethrows_lstat_errors_witness :
  resolvePathViaExistingAncestor (PM := Samples.pathModule) (PG := Samples.guards)
    Samples.lockedView "/work/dir/notes.txt" = Throw (NodeErr Samples.eacces).
Proof.
  apply (@ancestor_walk_rethrows_lstat_errors Samples.pathModule Samples.guards
           Samples.lockedView "/work/dir/notes.txt" 1 Samples.eacces).
  - vm_compute. lia.
  - intros j Hj. destruct j as [|j]; [split; vm_compute; reflexivity|lia].
  - vm_compute. reflexivity.
  - vm_compute. reflexivity.
  - vm_compute. reflexivity.
Defined.

(** ** What the resolvers and the facade read of an alias policy *)

Section PolicyFlag.

Context {PM : PathModule} {PG : PathGuards} {H : Host}.
Variable fs : FsView.

Lemma lexicalLoopSync_label p q absolute rootCanonical :
  p_boundaryLabel p = p_boundaryLabel q ->
  forall remaining idx st,
    lexicalLoopSync fs p absolute rootCanonical remaining idx st
    = lexicalLoopSync fs q absolute rootCanonical remaining idx st.
Proof.
  intros Hl remaining. induction remaining as [|remaining IH]; intros idx st;
    [reflexivity|].
  cbn [lexicalLoopSync].
  apply bindT_ext. intros st1 s1 _.
  apply bindT_ext. intros u s2 _.
  rewrite (readLexicalStat_label p q _ _ _ _ Hl).
  apply bindT_ext. intros [stat|] s3 _; [|reflexivity].
  rewrite (handleLexicalStatDisposition_label p q _ _ _ _ _ Hl).
  apply bindT_ext. intros d s4 _.
  destruct d; [apply IH|reflexivity|].
  rewrite Hl. apply bindT_ext. intros u' s5 _. apply IH.
Qed.

Lemma resolveBoundaryPath_policy_flag
  absolute root label intent skip rootCanonical (policy policy' : option BoundaryPathAliasPolicy) :
  match policy with
  | Some pol => Js.optTrue (allowFinalSymlinkForUnlink pol)
  | None => false
  end
  = match policy' with
    | Some pol => Js.optTrue (allowFinalSymlinkForUnlink pol)
    | None => false
    end ->
  resolveBoundaryPath fs
    {| p_absolutePath := absolute; p_rootPath := root; p_boundaryLabel := label;
       p_intent := intent; p_policy := policy;
       p_skipLexicalRootCheck := skip; p_rootCanonicalPath := rootCanonical |}
  = resolveBoundaryPath fs
      {| p_absolutePath := absolute; p_rootPath := root; p_boundaryLabel := label;
         p_intent := intent; p_policy := policy';
         p_skipLexicalRootCheck := skip; p_rootCanonicalPath := rootCanonical |}.
Proof.
  intros Hflag.
  unfold resolveBoundaryPath, givenRootCanonicalPath, createBoundaryResolutionContext.
  cbn [p_absolutePath p_rootPath p_boundaryLabel p_skipLexicalRootCheck
       p_rootCanonicalPath].
  match goal with
  | |- bindR ?m _ = bindR ?m _ => destruct m as [rc|e]; [|reflexivity]
  end.
  cbn [bindR].
  destruct (resolveOutsideLexicalCanonicalPathAsync fs (path_resolve [root])
              (path_resolve [absolute])) as [outside|e]; [|reflexivity].
  cbn [bindR].
  match goal with
  | |- bindR (bindR ?m _) _ = _ => destruct m as [u|e]; [|reflexivity]
  end.
  cbn [bindR].
  match goal with
  | |- bindR ?m _ = bindR ?m _ => destruct m as [[resolved|]|e]; try reflexivity
  end.
  cbn [bindR ctx_absolutePath ctx_rootPath ctx_rootCanonicalPath].
  unfold resolveBoundaryPathLexicalAsync, createLexicalTraversalState.
  cbn [p_policy segments]. rewrite Hflag.
  match goal with
  | |- context [lexicalLoopAsync fs ?p _ _ _ _ _] =>
      match goal with
      | |- _ = match lexicalLoopAsync fs ?q _ _ _ _ _ with _ => _ end =>
          rewrite (@lexicalLoopAsync_label PM PG H fs p q _ _ eq_refl)
      end
  end.
  reflexivity.
Qed.

Lemma resolveBoundaryPathSync_policy_flag
  absolute root label intent skip rootCanonical (policy policy' : option BoundaryPathAliasPolicy) :
  match policy with
  | Some pol => Js.optTrue (allowFinalSymlinkForUnlink pol)
  | None => false
  end
  = match policy' with
    | Some pol => Js.optTrue (allowFinalSymlinkForUnlink pol)
    | None => false
    end ->
  resolveBoundaryPathSync fs
    {| p_absolutePath := absolute; p_rootPath := root; p_boundaryLabel := label;
       p_intent := intent; p_policy := policy;
       p_skipLexicalRootCheck := skip; p_rootCanonicalPath := rootCanonical |}
  = resolveBoundaryPathSync fs
      {| p_absolutePath := absolute; p_rootPath := root; p_boundaryLabel := label;
         p_intent := intent; p_policy := policy';
         p_skipLexicalRootCheck := skip; p_rootCanonicalPath := rootCanonical |}.
Proof.
  intros Hflag.
  unfold resolveBoundaryPathSync, givenRootCanonicalPath, createBoundaryResolutionContext.
  cbn [p_absolutePath p_rootPath p_boundaryLabel p_skipLexicalRootCheck
       p_rootCanonicalPath].
  match goal with
  | |- bindR (bindR ?m _) _ = _ => destruct m as [u|e]; [|reflexivity]
  end.
  cbn [bindR].
  match goal with
  | |- bindR ?m _ = bindR ?m _ => destruct m as [[resolved|]|e]; try reflexivity
  end.
  cbn [bindR ctx_absolutePath ctx_rootPath ctx_rootCanonicalPath].
  unfold resolveBoundaryPathLexicalSync, createLexicalTraversalState.
  cbn [p_policy segments]. rewrite Hflag.
  match goal with
  | |- context [lexicalLoopSync fs ?p _ _ _ _ _] =>
      match goal with
      | |- _ = match lexicalLoopSync fs ?q _ _ _ _ _ with _ => _ end =>
          rewrite (@lexicalLoopSync_label p q _ _ eq_refl)
      end
  end.
  reflexivity.
Qed.

End PolicyFlag.

Section Contained.

Context {PM : PathModule} {PG : PathGuards} {H : Host}.
Variable fs : FsView.

Lemma resolveBoundaryPathSync_contained params r :
  resolveBoundaryPathSync fs params = Ok r ->
  isPathInside (rootCanonicalPath r) (canonicalPath r) = true.
Proof.
  intros E. unfold resolveBoundaryPathSync in E.
  apply bindR_Ok_inv in E. destruct E as [context [_ E]].
  apply bindR_Ok_inv in E. destruct E as [[outside|] [Ho E]].
  - inversion E; subst outside.
    eapply resolveOutsideBoundaryPathSync_inside; eauto.
  - eapply resolveBoundaryPathLexicalSync_inside; eauto.
Qed.

Lemma resolveBoundaryPath_contained params r :
  resolveBoundaryPath fs params = Ok r ->
  isPathInside (rootCanonicalPath r) (canonicalPath r) = true.
Proof.
  intros E. unfold resolveBoundaryPath in E.
  apply bindR_Ok_inv in E. destruct E as [rootCanonical [_ E]].
  apply bindR_Ok_inv in E. destruct E as [outsideCanonical [_ E]].
  apply bindR_Ok_inv in E. destruct E as [context [_ E]].
  apply bindR_Ok_inv in E. destruct E as [[outside|] [Ho E]].
  - inversion E; subst outside.
    eapply resolveOutsideBoundaryPathAsync_inside; eauto.
  - eapply resolveBoundaryPathLexicalAsync_inside; eauto.
Qed.

End Contained.

(** ** The boundary file facade *)

Section FacadeMore.

Import BoundaryFileRead.

Variables SafeOpenSyncFailureReason SafeOpenSyncAllowedType BoundaryReadFs : Type.
Context {PM : PathModule} {PG : PathGuards} {H : Host}.
Variable fs : FsView.
Variable nodeFs : BoundaryReadFs.
Variable openVerifiedFileSync :
  OpenVerifiedFileSyncParams SafeOpenSyncAllowedType BoundaryReadFs
  -> Result (SafeOpenSyncResult SafeOpenSyncFailureReason).

(** X10 — the alias policy is read through one flag.  The resolvers and
    [openBoundaryFile] look at a policy only to ask whether
    [allowFinalSymlinkForUnlink] is [true]: two policies that answer alike
    (an absent policy answers no) give the same results.  So
    [allowFinalHardlinkForUnlink] changes nothing, and the [strict] preset
    behaves as no policy at all. *)
Theorem policy_is_read_through_one_flag (policy policy' : option BoundaryPathAliasPolicy) :
  match policy with
  | Some pol => Js.optTrue (allowFinalSymlinkForUnlink pol)
  | None => false
  end
  = match policy' with
    | Some pol => Js.optTrue (allowFinalSymlinkForUnlink pol)
    | None => false
    end ->
  (forall absolute root label intent skip rootCanonical,
      resolveBoundaryPath fs
        {| p_absolutePath := absolute; p_rootPath := root; p_boundaryLabel := label;
           p_intent := intent; p_policy := policy;
           p_skipLexicalRootCheck := skip; p_rootCanonicalPath := rootCanonical |}
      = resolveBoundaryPath fs
          {| p_absolutePath := absolute; p_rootPath := root; p_boundaryLabel := label;
             p_intent := intent; p_policy := policy';
             p_skipLexicalRootCheck := skip; p_rootCanonicalPath := rootCanonical |})
  /\
  (forall absolute root label intent skip rootCanonical,
      resolveBoundaryPathSync fs
        {| p_absolutePath := absolute; p_rootPath := root; p_boundaryLabel := label;
           p_intent := intent; p_policy := policy;
           p_skipLexicalRootCheck := skip; p_rootCanonicalPath := rootCanonical |}
      = resolveBoundaryPathSync fs
          {| p_absolutePath := absolute; p_rootPath := root; p_boundaryLabel := label;
             p_intent := intent; p_policy := policy';
             p_skipLexicalRootCheck := skip; p_rootCanonicalPath := rootCanonical |})
  /\
  (forall absolute root label rootReal maxBytes rejectHardlinks allowedType skip ioFs,
      openBoundaryFile fs nodeFs openVerifiedFileSync
        {| o_absolutePath := absolute; o_rootPath := root; o_boundaryLabel := label;
           o_rootRealPath := rootReal; o_maxBytes := maxBytes;
           o_rejectHardlinks := rejectHardlinks; o_allowedType := allowedType;
           o_skipLexicalRootCheck := skip; o_ioFs := ioFs; o_aliasPolicy := policy |}
      = openBoundaryFile fs nodeFs openVerifiedFileSync
          {| o_absolutePath := absolute; o_rootPath := root; o_boundaryLabel := label;
             o_rootRealPath := rootReal; o_maxBytes := maxBytes;
             o_rejectHardlinks := rejectHardlinks; o_allowedType := allowedType;
             o_skipLexicalRootCheck := skip; o_ioFs := ioFs; o_aliasPolicy := policy' |}).
Proof.
  intros Hflag. split; [|split].
  - intros. apply resolveBoundaryPath_policy_flag. exact Hflag.
  - intros. apply resolveBoundaryPathSync_policy_flag. exact Hflag.
  - intros. unfold openBoundaryFile, resolveBoundaryFilePathGeneric.
    cbn [o_absolutePath o_rootPath o_boundaryLabel o_rootRealPath o_maxBytes
         o_rejectHardlinks o_allowedType o_skipLexicalRootCheck o_ioFs o_aliasPolicy].
    rewrite (@resolveBoundaryPath_policy_flag PM PG H fs (path_resolve [absolute]) root
               label None skip rootReal policy policy' Hflag).
    reflexivity.
Qed.

(** X11 — blocking and suspension-capable calls agree where the probes do.
    On a filesystem where the [lstat] probe of the suspension-capable walk
    ([pathExists]) answers as [fs.existsSync] does for every path, the two
    resolvers return the same outcome for every input, and so do
    [openBoundaryFile] and [openBoundaryFileSync] whenever the alias policy
    does not allow a final symbolic link (the blocking facade takes no
    policy). *)
Theorem blocking_and_async_agree :
  (forall p, pathExists fs p = Ok (fs_existsSync fs p)) ->
  (forall params, resolveBoundaryPath fs params = resolveBoundaryPathSync fs params)
  /\
  (forall params,
      match o_aliasPolicy params with
      | Some pol => Js.optTrue (allowFinalSymlinkForUnlink pol)
      | None => false
      end = false ->
      openBoundaryFile fs nodeFs openVerifiedFileSync params
      = openBoundaryFileSync fs nodeFs openVerifiedFileSync params).
Proof.
  intros Hprobe. split.
  - intros params. apply resolvers_agree_when_probes_agree. exact Hprobe.
  - intros params Hflag. unfold openBoundaryFile, openBoundaryFileSync,
      resolveBoundaryFilePathGeneric.
    rewrite (@resolveBoundaryPath_policy_flag PM PG H fs
               (path_resolve [o_absolutePath params]) (o_rootPath params)
               (o_boundaryLabel params) None (o_skipLexicalRootCheck params)
               (o_rootRealPath params) (o_aliasPolicy params) None Hflag).
    rewrite (@resolvers_agree_when_probes_agree PM PG H fs Hprobe).
    destruct (resolveBoundaryPathSync fs _) as [r|e]; reflexivity.
Qed.

(** X12 — what an open through the facade went through.  When
    [openBoundaryFileSync] or [openBoundaryFile] returns an open file, the
    opener returned it for a request whose [filePath] is
    [path.resolve(absolutePath)], whose [resolvedPath] lies inside the
    [rootRealPath] of the result, whose [rejectHardlinks] is on unless the
    caller passed [false], and whose [maxBytes] and [allowedType] are the
    caller's. *)
Theorem facade_open_request
  (params : OpenBoundaryFileParams SafeOpenSyncAllowedType BoundaryReadFs)
  (path : string) (fd : Z) (stat : Stats) (rootReal : string) :
  openBoundaryFileSync fs nodeFs openVerifiedFileSync params
  = Ok (Opened SafeOpenSyncFailureReason path fd stat rootReal) \/
  openBoundaryFile fs nodeFs openVerifiedFileSync params
  = Ok (Opened SafeOpenSyncFailureReason path fd stat rootReal) ->
  exists request,
    openVerifiedFileSync request = Ok (SyncOpened SafeOpenSyncFailureReason path fd stat) /\
    req_filePath request = path_resolve [o_absolutePath params] /\
    isPathInside rootReal (req_resolvedPath request) = true /\
    req_rejectHardlinks request
    = match o_rejectHardlinks params with Some b => b | None => true end /\
    req_maxBytes request = o_maxBytes params /\
    req_allowedType request = o_allowedType params.
Proof.
  intros [E|E].
  - unfold openBoundaryFileSync, resolveBoundaryFilePathGeneric in E.
    destruct (resolveBoundaryPathSync fs _) as [r|e] eqn:Hr; cbn in E; [|discriminate].
    unfold openBoundaryFileResolved in E.
    match type of E with
    | context [openVerifiedFileSync ?req] =>
        exists req; destruct (openVerifiedFileSync req) as [[p f s|reason err]|e]
    end; try discriminate.
    inversion E; subst. cbn. repeat split; auto.
    eapply resolveBoundaryPathSync_contained. exact Hr.
  - unfold openBoundaryFile, resolveBoundaryFilePathGeneric in E.
    destruct (resolveBoundaryPath fs _) as [r|e] eqn:Hr; cbn in E; [|discriminate].
    unfold openBoundaryFileResolved in E.
    match type of E with
    | context [openVerifiedFileSync ?req] =>
        exists req; destruct (openVerifiedFileSync req) as [[p f s|reason err]|e]
    end; try discriminate.
    inversion E; subst. cbn. repeat split; auto.
    eapply resolveBoundaryPath_contained. exact Hr.
Qed.

End FacadeMore.

Lemma policy_is_read_through_one_flag_witness :
  resolveBoundaryPath (PM := Samples.pathModule) (PG := Samples.guards)
    (H := Samples.host) (MemFs.view Samples.workTree)
    (Samples.params "/work/link" "/work" (Some strict))
  = resolveBoundaryPath (PM := Samples.pathModule) (PG := Samples.guards)
      (H := Samples.host) (MemFs.view Samples.workTree)
      (Samples.params "/work/link" "/work" None)
  /\
  BoundaryFileRead.openBoundaryFile
    (PM := Samples.pathModule) (PG := Samples.guards) (H := Samples.host)
    (MemFs.view Samples.openTree) (MemOs.quiet Samples.openTree)
    Samples.specOpenVerifiedFileSync
    (Samples.boundaryParams "/work/twin.txt" None (Some strict))
  = BoundaryFileRead.openBoundaryFile
      (PM := Samples.pathModule) (PG := Samples.guards) (H := Samples.host)
      (MemFs.view Samples.openTree) (MemOs.quiet Samples.openTree)
      Samples.specOpenVerifiedFileSync
      (Samples.boundaryParams "/work/twin.txt" None None).
Proof.
  split.
  - exact (proj1 (@policy_is_read_through_one_flag SafeOpenErrorCode unit MemOs.World
                    Samples.pathModule Samples.guards Samples.host
                    (MemFs.view Samples.workTree) (MemOs.quiet Samples.workTree)
                    Samples.specOpenVerifiedFileSync (Some strict) None eq_refl)
             "/work/link" "/work" "workspace root" None None None).
  - exact (proj2 (proj2 (@policy_is_read_through_one_flag SafeOpenErrorCode unit
                           MemOs.World Samples.pathModule Samples.guards Samples.host
                           (MemFs.view Samples.openTree) (MemOs.quiet Samples.openTree)
                           Samples.specOpenVerifiedFileSync (Some strict) None eq_refl))
             "/work/twin.txt" "/work" "workspace root" None None None None None None).
Defined.

Lemma plainView_probes_agree p :
  pathExists (PG := Samples.guards) Samples.plainView p
  = Ok (fs_existsSync Samples.plainView p).
Proof.
  unfold pathExists, Samples.plainView. cbn [fs_lstat fs_existsSync].
  destruct (String.eqb p "/work"); [reflexivity|].
  destruct (String.eqb p "/work/a.txt"); reflexivity.
Qed.

Lemma blocking_and_async_agree_witness :
  resolveBoundaryPath (PM := Samples.pathModule) (PG := Samples.guards)
    (H := Samples.host) Samples.plainView (Samples.params "/work/a.txt" "/work" None)
  = resolveBoundaryPathSync (PM := Samples.pathModule) (PG := Samples.guards)
      (H := Samples.host) Samples.plainView (Samples.params "/work/a.txt" "/work" None)
  /\
  BoundaryFileRead.openBoundaryFile
    (PM := Samples.pathModule) (PG := Samples.guards) (H := Samples.host)
    Samples.plainView (MemOs.quiet Samples.openTree) Samples.specOpenVerifiedFileSync
    (Samples.boundaryParams "/work/a.txt" None (Some strict))
  = BoundaryFileRead.openBoundaryFileSync
      (PM := Samples.pathModule) (PG := Samples.guards) (H := Samples.host)
      Samples.plainView (MemOs.quiet Samples.openTree) Samples.specOpenVerifiedFileSync
      (Samples.boundaryParams "/work/a.txt" None (Some strict)).
Proof.
  destruct (@blocking_and_async_agree SafeOpenErrorCode unit MemOs.World
              Samples.pathModule Samples.guards Samples.host
              Samples.plainView (MemOs.quiet Samples.openTree)
              Samples.specOpenVerifiedFileSync plainView_probes_agree)
    as [Hresolvers Hfacade].
  split.
  - apply Hresolvers.
  - apply Hfacade. reflexivity.
Defined.

Lemma facade_open_request_witness :
  exists request,
    Samples.specOpenVerifiedFileSync request
    = Ok (BoundaryFileRead.SyncOpened SafeOpenErrorCode "/work/a.txt" 3%Z
            (MemFs.statsOf (MemFs.IFile 11 1 20))) /\
    BoundaryFileRead.req_filePath request = "/work/a.txt" /\
    isPathInside (PathGuards := Samples.guards) "/work"
      (BoundaryFileRead.req_resolvedPath request) = true /\
    BoundaryFileRead.req_rejectHardlinks request = true.
Proof.
  destruct (@facade_open_request SafeOpenErrorCode unit MemOs.World
              Samples.pathModule Samples.guards Samples.host
              (MemFs.view Samples.openTree) (MemOs.quiet Samples.openTree)
              Samples.specOpenVerifiedFileSync
              (Samples.boundaryParams "/work/a.txt" None None)
              "/work/a.txt" 3%Z (MemFs.statsOf (MemFs.IFile 11 1 20)) "/work"
              ltac:(left; vm_compute; reflexivity))
    as [request [Hopen [Hfile [Hinside [Hreject _]]]]].
  exists request. repeat split; assumption.
Defined.

(** ** Paths in error messages *)

Lemma prefix_of_append (p rest : string) : String.prefix p (p ++ rest) = true.
Proof.
  induction p as [|c p IH]; cbn; [destruct rest; reflexivity|].
  destruct (Ascii.ascii_dec c c) as [_|Hne]; [exact IH|contradiction].
Qed.

Lemma substring_all (s : string) : String.substring 0 (String.length s) s = s.
Proof. induction s as [|c s IH]; cbn; [reflexivity|]. rewrite IH. reflexivity. Qed.

Lemma slice_of_append (p rest : string) : Js.slice (String.length p) (p ++ rest) = rest.
Proof.
  unfold Js.slice. rewrite string_length_append.
  replace (String.length p + String.length rest - String.length p)
    with (String.length rest) by lia.
  induction p as [|c p IH]; cbn [String.length String.append String.substring].
  - apply substring_all.
  - exact IH.
Qed.

Section ShortPath.

Context {PM : PathModule} {PG : PathGuards} {H : Host}.

(** X13 — the home directory is abbreviated in messages.  [shortPath]
    turns every string that starts with [os.homedir()] into ["~"] followed by
    the rest, wherever the rest begins (it need not begin at a path
    separator); so the messages of the three boundary errors show such paths
    with the prefix replaced. *)
Theorem shortPath_abbreviates_home (rest label : string) :
  shortPath (os_homedir ++ rest) = ("~" ++ rest)%string /\
  pathEscapeError label (os_homedir ++ rest) (os_homedir ++ rest)
  = JsError ("Path escapes " ++ label ++ " (~" ++ rest ++ "): ~" ++ rest) /\
  symlinkEscapeError label (os_homedir ++ rest) (os_homedir ++ rest)
  = JsError ("Symlink escapes " ++ label ++ " (~" ++ rest ++ "): ~" ++ rest).
Proof.
  assert (Hshort : shortPath (os_homedir ++ rest) = ("~" ++ rest)%string).
  { unfold shortPath, Js.startsWith. rewrite prefix_of_append, slice_of_append.
    reflexivity. }
  split; [exact Hshort|].
  unfold pathEscapeError, symlinkEscapeError. rewrite Hshort. split; reflexivity.
Qed.

End ShortPath.

(** ** Handles: who closes what *)

Lemma opensIn_app a b : opensIn (a ++ b) = opensIn a ++ opensIn b.
Proof. unfold opensIn. apply flat_map_app. Qed.

Lemma closesIn_app a b : closesIn (a ++ b) = closesIn a ++ closesIn b.
Proof. unfold closesIn. apply flat_map_app. Qed.

Lemma no_handle_events evs :
  Forall (fun ev => opensIn [ev] = [] /\ closesIn [ev] = []) evs ->
  opensIn evs = [] /\ closesIn evs = [].
Proof.
  induction 1 as [|ev evs [Ho Hc] _ [IHo IHc]]; [split; reflexivity|].
  change (ev :: evs) with ([ev] ++ evs).
  rewrite opensIn_app, closesIn_app, Ho, Hc, IHo, IHc. split; reflexivity.
Qed.

Section Handles.

Context {PM : PathModule} {PG : PathGuards} {H : Host} {FC : FsConstants}.
Variable W : Type.
Variable env : Env W.

Ltac next_call c := destruct c as [[?|?] ?] eqn:?.

Ltac exec :=
  repeat first
    [ progress cbn [world trace ofOs fst snd isSafeOpenError]
    | match goal with
      | |- context [os_close env ?a ?w] => next_call (os_close env a w)
      | |- context [os_lstat env ?a ?w] => next_call (os_lstat env a w)
      | |- context [os_stat env ?a ?w] => next_call (os_stat env a w)
      | |- context [os_realpath env ?a ?w] => next_call (os_realpath env a w)
      | |- context [os_fstat env ?a ?w] => next_call (os_fstat env a w)
      | |- context [os_open env ?a ?b ?c ?w] => next_call (os_open env a b c w)
      | |- context [os_mkdir env ?a ?w] => next_call (os_mkdir env a w)
      | |- context [os_rm env ?a ?w] => next_call (os_rm env a w)
      | |- context [os_readFile env ?a ?w] => next_call (os_readFile env a w)
      | |- context [os_truncate env ?a ?b ?w] => next_call (os_truncate env a b w)
      | |- context [os_writeFile env ?a ?b ?w] => next_call (os_writeFile env a b w)
      | |- context [os_aliasCheck env ?a ?b ?c ?w] => next_call (os_aliasCheck env a b c w)
      end ].

Ltac run_call :=
  unfold fsp_lstat, fsp_stat, fsp_realpath, fsp_open, fsp_mkdir_recursive, fsp_rm_force,
    handle_stat, handle_close, handle_readFile, handle_truncate, handle_writeFile, call.

Ltac branches :=
  repeat first
    [ progress exec
    | match goal with
      | |- context [if ?b then _ else _] => destruct b
      end ].

(** Closes a leaf of a symbolic run: the events are read off the trace. *)
Ltac leaf :=
  intros E; inversion E; subst; cbn [trace]; rewrite <- ?app_assoc; cbn [app];
  eexists; (split; [reflexivity|]); cbn; repeat split; reflexivity.

Ltac quiet_emits :=
  repeat first
    [ apply Emits_ret
    | apply Emits_bind; [|intros ?]
    | apply Emits_promiseAll2
    | apply Emits_quietly
    | apply Emits_finally
    | apply Emits_call; [intros ?; split; reflexivity | intros ?; exact I]
    | apply Emits_throw; exact I
    | match goal with
      | |- Emits _ _ (tryCatch _ _) =>
          eapply Emits_tryCatch with (Q' := anyExn); [|intros ? _]
      | |- Emits _ _ (if ?b then _ else _) => destruct b
      | |- Emits _ _ (match ?x with _ => _ end) => destruct x
      | |- Emits _ _ (let '(_, _) := ?x in _) => destruct x
      end ].

Lemma quiet_run (A : Type) (m : M W A) :
  Emits (fun ev => opensIn [ev] = [] /\ closesIn [ev] = []) anyExn m ->
  forall s r s',
    m s = (r, s') ->
    exists evs, trace s' = trace s ++ evs /\ opensIn evs = [] /\ closesIn evs = [].
Proof.
  intros Hm s r s' E. destruct (Hm _ _ _ E) as [[evs [Ht Hf]] _].
  exists evs. split; [exact Ht|]. apply no_handle_events. exact Hf.
Qed.

Lemma quiet_rejectDirectoryBeforeOpen filePath :
  Emits (fun ev => opensIn [ev] = [] /\ closesIn [ev] = []) anyExn
    (rejectDirectoryBeforeOpen env filePath).
Proof. unfold rejectDirectoryBeforeOpen, fsp_lstat. quiet_emits. Qed.

Lemma quiet_resolvePathWithinRoot rootDir relativePath :
  Emits (fun ev => opensIn [ev] = [] /\ closesIn [ev] = []) anyExn
    (resolvePathWithinRoot env rootDir relativePath).
Proof.
  unfold resolvePathWithinRoot, expandRelativePathWithHome, fsp_realpath. quiet_emits.
Qed.

Lemma quiet_readOpenedFileSafely opened maxBytes :
  Emits (fun ev => opensIn [ev] = [] /\ closesIn [ev] = []) anyExn
    (readOpenedFileSafely env opened maxBytes).
Proof. unfold readOpenedFileSafely, handle_readFile. quiet_emits. Qed.

Lemma quiet_assertNoPathAliasEscape absolutePath rootPath label :
  Emits (fun ev => opensIn [ev] = [] /\ closesIn [ev] = []) anyExn
    (assertNoPathAliasEscape env absolutePath rootPath label).
Proof.
  intros s r s' E. unfold assertNoPathAliasEscape in E.
  destruct (os_aliasCheck env absolutePath rootPath label (world s)) as [o w'].
  inversion E; subst. cbn [trace]. split; [|intros; exact I].
  eexists. split; [reflexivity|]. repeat constructor.
Qed.

Lemma quiet_verifyOpenedForWrite rootWithSep ioPath h created data encoding :
  Emits (fun ev => opensIn [ev] = [] /\ closesIn [ev] = []) anyExn
    (verifyOpenedForWrite env rootWithSep ioPath h created data encoding).
Proof.
  unfold verifyOpenedForWrite, checkRealPathThenWrite, fsp_lstat, fsp_stat, fsp_realpath,
    fsp_rm_force, handle_stat, handle_truncate, handle_writeFile.
  quiet_emits.
Qed.

Lemma openForRead_handles filePath (s : St W) r s' :
  openForRead env filePath s = (r, s') ->
  exists evs,
    trace s' = trace s ++ evs /\
    closesIn evs = [] /\
    opensIn evs = match r with Ok h => [h] | Throw _ => [] end.
Proof.
  unfold openForRead, tryCatch, throw. run_call. branches; leaf.
Qed.

Lemma verifyOpenedFile_handles filePath options h (s : St W) r s' :
  verifyOpenedFile env filePath options h s = (r, s') ->
  exists evs,
    trace s' = trace s ++ evs /\
    opensIn evs = [] /\
    match r with
    | Ok opened => handle opened = h /\ closesIn evs = []
    | Throw _ => closesIn evs = [h]
    end.
Proof.
  unfold verifyOpenedFile, tryCatch, bind, promiseAll2, quietly, tryCatch, throw, ret.
  run_call. branches; leaf.
Qed.

Lemma openVerifiedLocalFile_handles filePath options (s : St W) r s' :
  openVerifiedLocalFile env filePath options s = (r, s') ->
  exists evs,
    trace s' = trace s ++ evs /\
    match r with
    | Ok opened => opensIn evs = [handle opened] /\ closesIn evs = []
    | Throw _ => closesIn evs = opensIn evs
    end.
Proof.
  unfold openVerifiedLocalFile. intros E.
  apply bind_inv in E. destruct E as [[e [E Hr]]|[u [s1 [E1 E]]]].
  { subst r.
    destruct (quiet_run (@quiet_rejectDirectoryBeforeOpen filePath) _ E)
      as [evs [Ht [Ho Hc]]].
    exists evs. split; [exact Ht|]. congruence. }
  destruct (quiet_run (@quiet_rejectDirectoryBeforeOpen filePath) _ E1)
    as [evs1 [Ht1 [Ho1 Hc1]]].
  apply bind_inv in E. destruct E as [[e [E Hr]]|[h [s2 [E2 E]]]].
  { subst r. destruct (openForRead_handles _ _ E) as [evs2 [Ht2 [Hc2 Ho2]]].
    exists (evs1 ++ evs2). rewrite Ht2, Ht1, app_assoc. split; [reflexivity|].
    rewrite opensIn_app, closesIn_app, Ho1, Hc1, Ho2, Hc2. reflexivity. }
  destruct (openForRead_handles _ _ E2) as [evs2 [Ht2 [Hc2 Ho2]]].
  destruct (verifyOpenedFile_handles _ _ _ _ E) as [evs3 [Ht3 [Ho3 Hr]]].
  exists (evs1 ++ evs2 ++ evs3). rewrite Ht3, Ht2, Ht1, !app_assoc.
  split; [reflexivity|].
  rewrite !opensIn_app, !closesIn_app, Ho1, Hc1, Ho2, Hc2, Ho3. cbn [app].
  destruct r as [opened|e].
  - destruct Hr as [Hh Hc3]. rewrite Hc3, Hh. split; reflexivity.
  - rewrite Hr. reflexivity.
Qed.

Lemma openFileWithinRoot_handles params (s : St W) r s' :
  openFileWithinRoot env params s = (r, s') ->
  exists evs,
    trace s' = trace s ++ evs /\
    match r with
    | Ok opened => opensIn evs = [handle opened] /\ closesIn evs = []
    | Throw _ => closesIn evs = opensIn evs
    end.
Proof.
  unfold openFileWithinRoot. intros E.
  apply bind_inv in E. destruct E as [[e [E Hr]]|[[[rootReal rootWithSep] resolved] [s1 [E1 E]]]].
  { subst r.
    destruct (quiet_run (@quiet_resolvePathWithinRoot _ _) _ E) as [evs [Ht [Ho Hc]]].
    exists evs. split; [exact Ht|]. congruence. }
  destruct (quiet_run (@quiet_resolvePathWithinRoot _ _) _ E1) as [evs1 [Ht1 [Ho1 Hc1]]].
  apply bind_inv in E. destruct E as [[e [E Hr]]|[opened [s2 [E2 E]]]].
  { subst r. unfold tryCatch in E.
    destruct (openVerifiedLocalFile env resolved None s1) as [[o|e1] s2] eqn:Eo;
      [discriminate|].
    destruct (openVerifiedLocalFile_handles _ _ _ Eo) as [evs2 [Ht2 Hb]].
    assert (Hs : s' = s2)
      by (destruct e1 as [ne|msg|code msg cause]; [| |destruct code];
          unfold throw in E; inversion E; reflexivity).
    subst s'.
    exists (evs1 ++ evs2). rewrite Ht2, Ht1, app_assoc. split; [reflexivity|].
    rewrite opensIn_app, closesIn_app, Ho1, Hc1. exact Hb. }
  unfold tryCatch in E2.
  destruct (openVerifiedLocalFile env resolved None s1) as [[o|e1] s2'] eqn:Eo.
  2:{ destruct e1 as [ne|msg|code msg cause]; [| |destruct code];
        unfold throw in E2; discriminate. }
  inversion E2; subst o s2'. clear E2.
  destruct (openVerifiedLocalFile_handles _ _ _ Eo) as [evs2 [Ht2 [Ho2 Hc2]]].
  revert E. unfold bind, quietly, tryCatch, throw, ret. run_call.
  branches; intros E; inversion E; subst; cbn [trace]; rewrite ?Ht2, ?Ht1;
    rewrite <- ?app_assoc; eexists; (split; [reflexivity|]);
    rewrite ?opensIn_app, ?closesIn_app, ?Ho1, ?Hc1, ?Ho2, ?Hc2; cbn;
    repeat split; reflexivity.
Qed.

Lemma finally_close_handles (A : Type) (m : M W A) h :
  Emits (fun ev => opensIn [ev] = [] /\ closesIn [ev] = []) anyExn m ->
  forall (s : St W) r s',
    finally m (quietly (handle_close env h)) s = (r, s') ->
    exists evs, trace s' = trace s ++ evs /\ opensIn evs = [] /\ closesIn evs = [h].
Proof.
  intros Hm s r s' E. unfold finally in E.
  destruct (m s) as [r1 s1] eqn:Em.
  destruct (quiet_run Hm _ Em) as [evs1 [Ht1 [Ho1 Hc1]]].
  revert E. unfold quietly, tryCatch, ret. run_call.
  branches; intros E; inversion E; subst; cbn [trace]; rewrite ?Ht1;
    rewrite <- ?app_assoc; eexists; (split; [reflexivity|]);
    rewrite ?opensIn_app, ?closesIn_app, ?Ho1, ?Hc1; cbn; repeat split; reflexivity.
Qed.

Lemma readFileWithinRoot_handles params (s : St W) r s' :
  readFileWithinRoot env params s = (r, s') ->
  exists evs, trace s' = trace s ++ evs /\ closesIn evs = opensIn evs.
Proof.
  unfold readFileWithinRoot. intros E.
  apply bind_inv in E. destruct E as [[e [E Hr]]|[opened [s1 [E1 E]]]].
  { destruct (openFileWithinRoot_handles _ _ E) as [evs [Ht Hb]]. eauto. }
  destruct (openFileWithinRoot_handles _ _ E1) as [evs1 [Ht1 [Ho1 Hc1]]].
  destruct (@finally_close_handles _ _ _ (@quiet_readOpenedFileSafely _ _) _ _ _ E)
    as [evs2 [Ht2 [Ho2 Hc2]]].
  exists (evs1 ++ evs2). rewrite Ht2, Ht1, app_assoc. split; [reflexivity|].
  rewrite opensIn_app, closesIn_app, Ho1, Hc1, Ho2, Hc2, app_nil_r. reflexivity.
Qed.

Lemma readLocalFileSafely_handles filePath maxBytes (s : St W) r s' :
  readLocalFileSafely env filePath maxBytes s = (r, s') ->
  exists evs, trace s' = trace s ++ evs /\ closesIn evs = opensIn evs.
Proof.
  unfold readLocalFileSafely. intros E.
  apply bind_inv in E. destruct E as [[e [E Hr]]|[opened [s1 [E1 E]]]].
  { destruct (openVerifiedLocalFile_handles _ _ _ E) as [evs [Ht Hb]]. eauto. }
  destruct (openVerifiedLocalFile_handles _ _ _ E1) as [evs1 [Ht1 [Ho1 Hc1]]].
  destruct (@finally_close_handles _ _ _ (@quiet_readOpenedFileSafely _ _) _ _ _ E)
    as [evs2 [Ht2 [Ho2 Hc2]]].
  exists (evs1 ++ evs2). rewrite Ht2, Ht1, app_assoc. split; [reflexivity|].
  rewrite opensIn_app, closesIn_app, Ho1, Hc1, Ho2, Hc2, app_nil_r. reflexivity.
Qed.

Lemma createRootScopedReadFile_handles params filePath (s : St W) r s' :
  createRootScopedReadFile env params filePath s = (r, s') ->
  exists evs, trace s' = trace s ++ evs /\ closesIn evs = opensIn evs.
Proof.
  unfold createRootScopedReadFile, readPathWithinRoot. intros E.
  apply bind_inv in E. destruct E as [[e [E Hr]]|[safeRead [s1 [E1 E]]]].
  - eapply readFileWithinRoot_handles. exact E.
  - unfold ret in E. inversion E; subst. eapply readFileWithinRoot_handles. exact E1.
Qed.

Lemma openForWrite_handles ioPath (s : St W) r s' :
  openForWrite env ioPath s = (r, s') ->
  exists evs,
    trace s' = trace s ++ evs /\
    closesIn evs = [] /\
    opensIn evs = match r with Ok (h, _) => [h] | Throw _ => [] end.
Proof.
  unfold openForWrite, tryCatch, bind, throw, ret. run_call. branches; leaf.
Qed.

Lemma writeFileWithinRoot_handles params (s : St W) r s' :
  writeFileWithinRoot env params s = (r, s') ->
  exists evs, trace s' = trace s ++ evs /\ closesIn evs = opensIn evs.
Proof.
  unfold writeFileWithinRoot. intros E.
  apply bind_inv in E. destruct E as [[e [E Hr]]|[[[rootReal rootWithSep] resolved] [s1 [E1 E]]]].
  { destruct (quiet_run (@quiet_resolvePathWithinRoot _ _) _ E) as [evs [Ht [Ho Hc]]].
    exists evs. split; [exact Ht|]. congruence. }
  destruct (quiet_run (@quiet_resolvePathWithinRoot _ _) _ E1) as [evs1 [Ht1 [Ho1 Hc1]]].
  assert (Hquiet : forall (A : Type) (m : M W A),
             Emits (fun ev => opensIn [ev] = [] /\ closesIn [ev] = []) anyExn m ->
             forall sa ra sb, m sa = (ra, sb) ->
               exists evs, trace sb = trace sa ++ evs /\ opensIn evs = [] /\ closesIn evs = [])
    by (intros A m Hm sa ra sb Em; exact (quiet_run Hm _ Em)).
  apply bind_inv in E. destruct E as [[e [E Hr]]|[u2 [s2 [E2 E]]]].
  { assert (Hq : Emits (fun ev => opensIn [ev] = [] /\ closesIn [ev] = []) anyExn
                   (tryCatch (assertNoPathAliasEscape env resolved rootReal "root")
                      (fun err => throw (SafeOpenError InvalidPath
                                           "path alias escape blocked" (Some err)))))
      by (eapply Emits_tryCatch with (Q' := anyExn);
          [apply quiet_assertNoPathAliasEscape|intros ? _; apply Emits_throw; exact I]).
    destruct (Hquiet _ _ Hq _ _ _ E) as [evs2 [Ht2 [Ho2 Hc2]]].
    exists (evs1 ++ evs2). rewrite Ht2, Ht1, app_assoc. split; [reflexivity|].
    rewrite opensIn_app, closesIn_app, Ho1, Hc1, Ho2, Hc2. reflexivity. }
  assert (Hq2 : Emits (fun ev => opensIn [ev] = [] /\ closesIn [ev] = []) anyExn
                  (tryCatch (assertNoPathAliasEscape env resolved rootReal "root")
                     (fun err => throw (SafeOpenError InvalidPath
                                          "path alias escape blocked" (Some err)))))
    by (eapply Emits_tryCatch with (Q' := anyExn);
        [apply quiet_assertNoPathAliasEscape|intros ? _; apply Emits_throw; exact I]).
  destruct (Hquiet _ _ Hq2 _ _ _ E2) as [evs2 [Ht2 [Ho2 Hc2]]].
  apply bind_inv in E. destruct E as [[e [E Hr]]|[u3 [s3 [E3 E]]]].
  { assert (Hq : Emits (fun ev => opensIn [ev] = [] /\ closesIn [ev] = []) anyExn
                   (if match w_mkdir params with Some false => false | _ => true end
                    then fsp_mkdir_recursive env (path_dirname resolved) else ret tt))
      by (unfold fsp_mkdir_recursive; quiet_emits).
    destruct (Hquiet _ _ Hq _ _ _ E) as [evs3 [Ht3 [Ho3 Hc3]]].
    exists (evs1 ++ evs2 ++ evs3). rewrite Ht3, Ht2, Ht1, !app_assoc.
    split; [reflexivity|].
    rewrite !opensIn_app, !closesIn_app, Ho1, Hc1, Ho2, Hc2, Ho3, Hc3. reflexivity. }
  assert (Hq3 : Emits (fun ev => opensIn [ev] = [] /\ closesIn [ev] = []) anyExn
                  (if match w_mkdir params with Some false => false | _ => true end
                   then fsp_mkdir_recursive env (path_dirname resolved) else ret tt))
    by (unfold fsp_mkdir_recursive; quiet_emits).
  destruct (Hquiet _ _ Hq3 _ _ _ E3) as [evs3 [Ht3 [Ho3 Hc3]]].
  assert (Hq4 : Emits (fun ev => opensIn [ev] = [] /\ closesIn [ev] = []) anyExn
                  (tryCatch
                     (bind (fsp_realpath env resolved)
                        (fun resolvedRealPath =>
                           if negb (isPathInside rootWithSep resolvedRealPath) then
                             throw (SafeOpenError OutsideWorkspace
                                      "file is outside workspace root" None)
                           else ret resolvedRealPath))
                     (fun err =>
                        if isSafeOpenError err then throw err
                        else if negb (isNotFoundPathError err) then throw err
                        else ret resolved)))
    by (unfold fsp_realpath; quiet_emits).
  apply bind_inv in E. destruct E as [[e [E Hr]]|[ioPath [s4 [E4 E]]]].
  { destruct (Hquiet _ _ Hq4 _ _ _ E) as [evs4 [Ht4 [Ho4 Hc4]]].
    exists (evs1 ++ evs2 ++ evs3 ++ evs4). rewrite Ht4, Ht3, Ht2, Ht1, !app_assoc.
    split; [reflexivity|].
    rewrite !opensIn_app, !closesIn_app, Ho1, Hc1, Ho2, Hc2, Ho3, Hc3, Ho4, Hc4.
    reflexivity. }
  destruct (Hquiet _ _ Hq4 _ _ _ E4) as [evs4 [Ht4 [Ho4 Hc4]]].
  apply bind_inv in E. destruct E as [[e [E Hr]]|[[h created] [s5 [E5 E]]]].
  { destruct (openForWrite_handles _ _ E) as [evs5 [Ht5 [Hc5 Ho5]]]. subst r.
    exists (evs1 ++ evs2 ++ evs3 ++ evs4 ++ evs5).
    rewrite Ht5, Ht4, Ht3, Ht2, Ht1, !app_assoc. split; [reflexivity|].
    rewrite !opensIn_app, !closesIn_app, Ho1, Hc1, Ho2, Hc2, Ho3, Hc3, Ho4, Hc4, Ho5, Hc5.
    reflexivity. }
  destruct (openForWrite_handles _ _ E5) as [evs5 [Ht5 [Hc5 Ho5]]].
  destruct (@finally_close_handles _ _ _ (@quiet_verifyOpenedForWrite _ _ _ _ _ _) _ _ _ E)
    as [evs6 [Ht6 [Ho6 Hc6]]].
  exists (evs1 ++ evs2 ++ evs3 ++ evs4 ++ evs5 ++ evs6).
  rewrite Ht6, Ht5, Ht4, Ht3, Ht2, Ht1, !app_assoc. split; [reflexivity|].
  rewrite !opensIn_app, !closesIn_app, Ho1, Hc1, Ho2, Hc2, Ho3, Hc3, Ho4, Hc4, Ho5, Hc5,
    Ho6, Hc6.
  cbn [app]. rewrite ?app_nil_r. reflexivity.
Qed.

(** X14 — a verified open hands over exactly one handle.  When
    [openVerifiedLocalFile] or [openFileWithinRoot] returns, the call has
    obtained one handle from [fs.open], the one it returns, and has closed
    nothing: the caller owns it.  When either throws, every handle the call
    obtained has been closed (or [close] has at least been attempted: its
    failure is dropped) before the error reaches the caller. *)
Theorem verified_open_hands_over_one_handle
  (filePath : string) (options : option OpenOptions) (params : RootParams) (w : W) :
  (let run := openVerifiedLocalFile env filePath options (start w) in
   match fst run with
   | Ok opened =>
       opensIn (trace (snd run)) = [handle opened] /\ closesIn (trace (snd run)) = []
   | Throw _ => closesIn (trace (snd run)) = opensIn (trace (snd run))
   end)
  /\
  (let run := openFileWithinRoot env params (start w) in
   match fst run with
   | Ok opened =>
       opensIn (trace (snd run)) = [handle opened] /\ closesIn (trace (snd run)) = []
   | Throw _ => closesIn (trace (snd run)) = opensIn (trace (snd run))
   end).
Proof.
  split; cbv zeta.
  - destruct (openVerifiedLocalFile env filePath options (start w)) as [r s'] eqn:E.
    destruct (openVerifiedLocalFile_handles _ _ _ E) as [evs [Ht Hb]].
    cbn [fst snd start trace app] in *. rewrite Ht. exact Hb.
  - destruct (openFileWithinRoot env params (start w)) as [r s'] eqn:E.
    destruct (openFileWithinRoot_handles _ _ E) as [evs [Ht Hb]].
    cbn [fst snd start trace app] in *. rewrite Ht. exact Hb.
Qed.

(** X15 — the read helpers leak no handle.  Whatever happens in
    [readFileWithinRoot], [readLocalFileSafely], [readPathWithinRoot] or a
    reader made by [createRootScopedReadFile] (success, a rejected file, a
    failing read), the handles the call closed are the handles it obtained
    from [fs.open], in that order. *)
Theorem read_helpers_close_what_they_open
  (params : RootParams) (filePath : string) (maxBytes : option Z)
  (pathParams : PathReadParams) (scoped : RootScopedReadParams) (w : W) :
  (let run := readFileWithinRoot env params (start w) in
   closesIn (trace (snd run)) = opensIn (trace (snd run))) /\
  (let run := readLocalFileSafely env filePath maxBytes (start w) in
   closesIn (trace (snd run)) = opensIn (trace (snd run))) /\
  (let run := readPathWithinRoot env pathParams (start w) in
   closesIn (trace (snd run)) = opensIn (trace (snd run))) /\
  (let run := createRootScopedReadFile env scoped filePath (start w) in
   closesIn (trace (snd run)) = opensIn (trace (snd run))).
Proof.
  repeat split; cbv zeta.
  - destruct (readFileWithinRoot env params (start w)) as [r s'] eqn:E.
    destruct (readFileWithinRoot_handles _ _ E) as [evs [Ht Hb]].
    cbn [fst snd start trace app] in *. rewrite Ht. exact Hb.
  - destruct (readLocalFileSafely env filePath maxBytes (start w)) as [r s'] eqn:E.
    destruct (readLocalFileSafely_handles _ _ _ E) as [evs [Ht Hb]].
    cbn [fst snd start trace app] in *. rewrite Ht. exact Hb.
  - destruct (readPathWithinRoot env pathParams (start w)) as [r s'] eqn:E.
    unfold readPathWithinRoot in E.
    destruct (readFileWithinRoot_handles _ _ E) as [evs [Ht Hb]].
    cbn [fst snd start trace app] in *. rewrite Ht. exact Hb.
  - destruct (createRootScopedReadFile env scoped filePath (start w)) as [r s'] eqn:E.
    destruct (createRootScopedReadFile_handles _ _ _ E) as [evs [Ht Hb]].
    cbn [fst snd start trace app] in *. rewrite Ht. exact Hb.
Qed.

(** X16 — the write helper leaks no handle.  Whatever happens in
    [writeFileWithinRoot] (success, a rejected target, a failing write), the
    handle it obtained from [fs.open], if any, has been closed when it
    returns or throws. *)
Theorem write_helper_closes_what_it_opens (params : WriteParams) (w : W) :
  let run := writeFileWithinRoot env params (start w) in
  closesIn (trace (snd run)) = opensIn (trace (snd run)).
Proof.
  cbv zeta.
  destruct (writeFileWithinRoot env params (start w)) as [r s'] eqn:E.
  destruct (writeFileWithinRoot_handles _ _ E) as [evs [Ht Hb]].
  cbn [fst snd start trace app] in *. rewrite Ht. exact Hb.
Qed.

End Handles.

(** ** What the root-scoped helpers guarantee *)

Section RootScoped.

Context {PM : PathModule} {PG : PathGuards} {H : Host} {FC : FsConstants}.
Variable W : Type.
Variable env : Env W.

Ltac next_call c := destruct c as [[?|?] ?] eqn:?.

Ltac exec :=
  repeat first
    [ progress cbn [world trace ofOs fst snd isSafeOpenError]
    | match goal with
      | |- context [os_close env ?a ?w] => next_call (os_close env a w)
      | |- context [os_lstat env ?a ?w] => next_call (os_lstat env a w)
      | |- context [os_stat env ?a ?w] => next_call (os_stat env a w)
      | |- context [os_realpath env ?a ?w] => next_call (os_realpath env a w)
      | |- context [os_fstat env ?a ?w] => next_call (os_fstat env a w)
      | |- context [os_open env ?a ?b ?c ?w] => next_call (os_open env a b c w)
      | |- context [os_mkdir env ?a ?w] => next_call (os_mkdir env a w)
      | |- context [os_rm env ?a ?w] => next_call (os_rm env a w)
      | |- context [os_readFile env ?a ?w] => next_call (os_readFile env a w)
      | |- context [os_truncate env ?a ?b ?w] => next_call (os_truncate env a b w)
      | |- context [os_writeFile env ?a ?b ?w] => next_call (os_writeFile env a b w)
      | |- context [os_aliasCheck env ?a ?b ?c ?w] => next_call (os_aliasCheck env a b c w)
      end ].

Ltac run_call :=
  unfold fsp_lstat, fsp_stat, fsp_realpath, fsp_open, fsp_mkdir_recursive, fsp_rm_force,
    handle_stat, handle_close, handle_readFile, handle_truncate, handle_writeFile, call.

Ltac branches :=
  repeat first
    [ progress exec
    | match goal with
      | |- context [if ?b then _ else _] => destruct b
      end ].

Lemma resolvePathWithinRoot_inside rootDir relativePath (s : St W)
  rootReal rootWithSep resolved s1 :
  resolvePathWithinRoot env rootDir relativePath s
  = (Ok (rootReal, rootWithSep, resolved), s1) ->
  rootWithSep = ensureTrailingSep rootReal /\
  isPathInside rootWithSep resolved = true /\
  exists home answer,
    trace s1 = trace s ++ [EvRealpath rootDir (inr rootReal); EvRealpath home answer].
Proof.
  unfold resolvePathWithinRoot, expandRelativePathWithHome.
  unfold bind, tryCatch, throw, ret. run_call.
  destruct (os_realpath env rootDir (world s)) as [[e|real] w1]; cbn [ofOs world trace].
  { destruct (isNotFoundPathError (NodeErr e)); intros E; discriminate E. }
  match goal with
  | |- context [os_realpath env ?home w1] =>
      destruct (os_realpath env home w1) as [[e|realHome] w2]
  end; cbn [ofOs world trace];
    match goal with
    | |- context [if negb ?b then _ else _] => destruct b eqn:Hin
    end; cbn [negb]; intros E; inversion E; subst; cbn [trace];
    rewrite <- ?app_assoc; cbn [app];
    (split; [reflexivity|]); (split; [exact Hin|]); eexists _, _; reflexivity.
Qed.

Lemma verifyOpenedFile_Ok filePath options h (s : St W) opened s' :
  verifyOpenedFile env filePath options h s = (Ok opened, s') ->
  exists lst realStat,
    handle opened = h /\
    trace s' = trace s ++ [EvHandleStat h (inr (stat opened)); EvLstat filePath (inr lst);
                           EvRealpath filePath (inr (realPath opened));
                           EvStat (realPath opened) (inr realStat)] /\
    isSymbolicLink lst = false /\
    isFile (stat opened) = true /\
    sameFileIdentity (stat opened) lst = true /\
    sameFileIdentity (stat opened) realStat = true /\
    (rejectsHardlinks options = true ->
     (st_nlink (stat opened) <= 1)%Z /\ (st_nlink realStat <= 1)%Z).
Proof.
  unfold verifyOpenedFile. fold (rejectsHardlinks options).
  unfold tryCatch, bind, promiseAll2, quietly, tryCatch, throw, ret. run_call.
  destruct (os_fstat env h (world s)) as [[e1|st] w1]; cbn [ofOs world trace];
    destruct (os_lstat env filePath w1) as [[e2|lst] w2]; cbn [ofOs world trace].
  1-3: branches; intros E; discriminate E.
  destruct (isSymbolicLink lst) eqn:C1.
  { branches; intros E; discriminate E. }
  destruct (negb (isFile st)) eqn:C2.
  { branches; intros E; discriminate E. }
  destruct (rejectsHardlinks options && (1 <? st_nlink st)%Z) eqn:C3.
  { branches; intros E; discriminate E. }
  destruct (negb (sameFileIdentity st lst)) eqn:C4.
  { branches; intros E; discriminate E. }
  cbn [ofOs world trace].
  destruct (os_realpath env filePath w2) as [[e3|real] w3]; cbn [ofOs world trace].
  { branches; intros E; discriminate E. }
  destruct (os_stat env real w3) as [[e4|realStat] w4]; cbn [ofOs world trace].
  { branches; intros E; discriminate E. }
  destruct (rejectsHardlinks options && (1 <? st_nlink realStat)%Z) eqn:C5.
  { branches; intros E; discriminate E. }
  destruct (negb (sameFileIdentity st realStat)) eqn:C6.
  { branches; intros E; discriminate E. }
  intros E. inversion E; subst. cbn [handle stat realPath trace].
  exists lst, realStat.
  apply negb_false_true in C2, C4, C6.
  rewrite <- ?app_assoc. cbn [app]. repeat split; auto.
  - destruct (1 <? st_nlink st)%Z eqn:Hn; [|apply Z.ltb_ge in Hn; exact Hn].
    rewrite H0 in C3. discriminate.
  - destruct (1 <? st_nlink realStat)%Z eqn:Hn; [|apply Z.ltb_ge in Hn; exact Hn].
    rewrite H0 in C5. discriminate.
Qed.

Lemma openVerifiedLocalFile_Ok filePath options (s : St W) opened s' :
  openVerifiedLocalFile env filePath options s = (Ok opened, s') ->
  exists before lst realStat,
    trace s' = trace s
               ++ [EvLstat filePath before;
                   EvOpen filePath OPEN_READ_FLAGS None (inr (handle opened));
                   EvHandleStat (handle opened) (inr (stat opened));
                   EvLstat filePath (inr lst);
                   EvRealpath filePath (inr (realPath opened));
                   EvStat (realPath opened) (inr realStat)] /\
    isSymbolicLink lst = false /\
    isFile (stat opened) = true /\
    sameFileIdentity (stat opened) lst = true /\
    sameFileIdentity (stat opened) realStat = true /\
    (rejectsHardlinks options = true ->
     (st_nlink (stat opened) <= 1)%Z /\ (st_nlink realStat <= 1)%Z).
Proof.
  unfold openVerifiedLocalFile. intros E.
  apply bind_inv in E. destruct E as [[e [_ Hr]]|[u [s1 [E1 E]]]]; [discriminate|].
  apply bind_inv in E. destruct E as [[e [_ Hr]]|[h [s2 [E2 E]]]]; [discriminate|].
  destruct (verifyOpenedFile_Ok _ _ _ _ E) as [lst [realStat [Hh [Ht Hfacts]]]].
  subst h.
  assert (H1 : exists before, trace s1 = trace s ++ [EvLstat filePath before]).
  { revert E1. unfold rejectDirectoryBeforeOpen, tryCatch, bind, throw, ret. run_call.
    destruct (os_lstat env filePath (world s)) as [[e|pre] w1]; cbn [ofOs world trace].
    - cbn [isSafeOpenError]. intros E1. inversion E1; subst. cbn [trace]. eauto.
    - destruct (isDirectory pre); cbn [isSafeOpenError]; intros E1; inversion E1; subst.
      cbn [trace]. eauto. }
  destruct H1 as [before Ht1].
  assert (H2 : trace s2 = trace s1
                          ++ [EvOpen filePath OPEN_READ_FLAGS None (inr (handle opened))]).
  { revert E2. unfold openForRead, tryCatch, throw. run_call.
    destruct (os_open env filePath OPEN_READ_FLAGS None (world s1)) as [[e|h] w2];
      cbn [ofOs world trace].
    - destruct (isNotFoundPathError (NodeErr e)); [intros E2; discriminate E2|].
      destruct (isSymlinkOpenError (NodeErr e)); [intros E2; discriminate E2|].
      destruct (hasNodeErrorCode (NodeErr e) "EISDIR"); intros E2; discriminate E2.
    - intros E2. inversion E2; subst. reflexivity. }
  exists before, lst, realStat. split; [|exact Hfacts].
  rewrite Ht, H2, Ht1, <- !app_assoc. reflexivity.
Qed.

Lemma openFileWithinRoot_Ok (params : RootParams) (w : W)
  (opened : SafeOpenResult) (s' : St W) :
  openFileWithinRoot env params (start w) = (Ok opened, s') ->
  exists rootReal resolved home homeAnswer before lst realStat,
    trace s' = [EvRealpath (r_rootDir params) (inr rootReal);
                EvRealpath home homeAnswer;
                EvLstat resolved before;
                EvOpen resolved OPEN_READ_FLAGS None (inr (handle opened));
                EvHandleStat (handle opened) (inr (stat opened));
                EvLstat resolved (inr lst);
                EvRealpath resolved (inr (realPath opened));
                EvStat (realPath opened) (inr realStat)] /\
    isPathInside (ensureTrailingSep rootReal) resolved = true /\
    isFile (stat opened) = true /\
    isSymbolicLink lst = false /\
    sameFileIdentity (stat opened) lst = true /\
    sameFileIdentity (stat opened) realStat = true /\
    isPathInside (ensureTrailingSep rootReal) (realPath opened) = true /\
    (r_rejectHardlinks params <> Some false -> (st_nlink (stat opened) <= 1)%Z).
Proof.
  unfold openFileWithinRoot. intros E.
  apply bind_inv in E.
  destruct E as [[e [_ Hr]]|[[[rootReal rootWithSep] resolved] [s1 [E1 E]]]];
    [discriminate|].
  destruct (resolvePathWithinRoot_inside _ _ _ E1) as [Hsep [Hin [home [answer Ht1]]]].
  subst rootWithSep.
  apply bind_inv in E. destruct E as [[e [_ Hr]]|[o [s2 [E2 E]]]]; [discriminate|].
  unfold tryCatch in E2.
  destruct (openVerifiedLocalFile env resolved None s1) as [[o'|e1] s2'] eqn:Eo.
  2:{ destruct e1 as [ne|msg|code msg cause]; [| |destruct code];
        unfold throw in E2; discriminate. }
  inversion E2; subst o' s2'. clear E2.
  destruct (openVerifiedLocalFile_Ok _ _ _ Eo)
    as [before [lst [realStat [Ht2 [Hlink [Hfile [Hsame [Hreal _]]]]]]]].
  revert E. unfold bind, quietly, tryCatch, throw, ret. run_call.
  destruct (match r_rejectHardlinks params with Some false => false | _ => true end
            && (1 <? st_nlink (stat o))%Z) eqn:Chard.
  { branches; intros E; discriminate E. }
  destruct (negb (isPathInside (ensureTrailingSep rootReal) (realPath o))) eqn:Cin.
  { branches; intros E; discriminate E. }
  intros E. inversion E; subst.
  exists rootReal, resolved, home, answer, before, lst, realStat.
  apply negb_false_true in Cin.
  split.
  { rewrite Ht2, Ht1. reflexivity. }
  repeat split; auto.
  intros Hreject.
  destruct (1 <? st_nlink (stat opened))%Z eqn:Hn; [|apply Z.ltb_ge in Hn; exact Hn].
  destruct (r_rejectHardlinks params) as [[|]|]; cbn in Chard; try discriminate.
  contradiction Hreject. reflexivity.
Qed.

(** X17 — what a file opened under a root has passed.  When
    [openFileWithinRoot] returns, the root was resolved to [rootReal]; the
    path [resolved] that was opened passed the containment test against
    [rootReal] with a trailing separator; the handle reports a regular file;
    the path was seen not to be a symbolic link and to name the file of the
    handle, as was the real path of the path; that real path passed the
    containment test too; and the file has a single link unless the caller
    passed [rejectHardlinks: false].  The eight filesystem calls made are
    exactly those listed. *)
Theorem open_within_root_postconditions (params : RootParams) (w : W)
  (opened : SafeOpenResult) (s' : St W) :
  openFileWithinRoot env params (start w) = (Ok opened, s') ->
  exists rootReal resolved home homeAnswer before lst realStat,
    trace s' = [EvRealpath (r_rootDir params) (inr rootReal);
                EvRealpath home homeAnswer;
                EvLstat resolved before;
                EvOpen resolved OPEN_READ_FLAGS None (inr (handle opened));
                EvHandleStat (handle opened) (inr (stat opened));
                EvLstat resolved (inr lst);
                EvRealpath resolved (inr (realPath opened));
                EvStat (realPath opened) (inr realStat)] /\
    isPathInside (ensureTrailingSep rootReal) resolved = true /\
    isFile (stat opened) = true /\
    isSymbolicLink lst = false /\
    sameFileIdentity (stat opened) lst = true /\
    sameFileIdentity (stat opened) realStat = true /\
    isPathInside (ensureTrailingSep rootReal) (realPath opened) = true /\
    (r_rejectHardlinks params <> Some false -> (st_nlink (stat opened) <= 1)%Z).
Proof. apply openFileWithinRoot_Ok. Qed.

(** X18 — a root that cannot be resolved.  When [realpath] of the root
    directory fails, [openFileWithinRoot], [readFileWithinRoot] and
    [writeFileWithinRoot] stop there, having made that one call: with
    [SafeOpenError("not-found", "root dir not found")] for a not-found
    error, and with the error of [realpath] itself otherwise. *)
Theorem unresolvable_root_stops_the_helpers
  (rootParams : RootParams) (writeParams : WriteParams) (w : W) :
  (forall e w1,
      os_realpath env (r_rootDir rootParams) w = (inl e, w1) ->
      let failure :=
        if isNotFoundPathError (NodeErr e)
        then SafeOpenError NotFound "root dir not found" None
        else NodeErr e in
      let after := {| world := w1;
                      trace := [EvRealpath (r_rootDir rootParams) (inl e)] |} in
      openFileWithinRoot env rootParams (start w) = (Throw failure, after) /\
      readFileWithinRoot env rootParams (start w) = (Throw failure, after))
  /\
  (forall e w1,
      os_realpath env (w_rootDir writeParams) w = (inl e, w1) ->
      writeFileWithinRoot env writeParams (start w)
      = (Throw (if isNotFoundPathError (NodeErr e)
                then SafeOpenError NotFound "root dir not found" None
                else NodeErr e),
         {| world := w1; trace := [EvRealpath (w_rootDir writeParams) (inl e)] |})).
Proof.
  split.
  - intros e w1 Hroot failure after.
    assert (Hresolve : resolvePathWithinRoot env (r_rootDir rootParams)
                         (r_relativePath rootParams) (start w)
                       = (Throw failure, after)).
    { unfold resolvePathWithinRoot, bind, tryCatch, throw. run_call.
      unfold start. cbn [world trace]. rewrite Hroot. cbn [ofOs app].
      unfold failure, after. destruct (isNotFoundPathError (NodeErr e)); reflexivity. }
    split.
    + unfold openFileWithinRoot, bind. rewrite Hresolve. reflexivity.
    + unfold readFileWithinRoot, openFileWithinRoot, bind.
      cbn [r_rootDir r_relativePath]. rewrite Hresolve. reflexivity.
  - intros e w1 Hroot.
    unfold writeFileWithinRoot, resolvePathWithinRoot, bind, tryCatch, throw. run_call.
    unfold start. cbn [world trace]. rewrite Hroot. cbn [ofOs app].
    destruct (isNotFoundPathError (NodeErr e)); reflexivity.
Qed.

End RootScoped.

Lemma open_within_root_postconditions_witness :
  let run := openFileWithinRoot (PM := Samples.pathModule) (PG := Samples.guards)
               (H := Samples.host) (FC := Samples.constants)
               MemOs.env (Samples.rootParams "a.txt" None None)
               (start (MemOs.quiet Samples.openTree)) in
  exists opened,
    fst run = Ok opened /\
    isFile (stat opened) = true /\
    isPathInside (PathGuards := Samples.guards) "/work/" (realPath opened) = true /\
    (st_nlink (stat opened) <= 1)%Z.
Proof.
  intros run.
  set (opened := {| handle := 3%Z; realPath := "/work/a.txt";
                    stat := MemFs.statsOf (MemFs.IFile 11 1 20) |}).
  assert (Hrun : run = (Ok opened, snd run)) by (vm_compute; reflexivity).
  destruct (@open_within_root_postconditions Samples.pathModule Samples.guards
              Samples.host Samples.constants MemOs.World MemOs.env
              (Samples.rootParams "a.txt" None None) (MemOs.quiet Samples.openTree)
              opened (snd run) Hrun)
    as [rootReal [resolved [home [homeAnswer [before [lst [realStat
         [Htrace [_ [Hfile [_ [_ [_ [Hinside Hlinks]]]]]]]]]]]]]].
  exists opened. split; [rewrite Hrun; reflexivity|].
  split; [exact Hfile|]. split; [vm_compute; reflexivity|].
  apply Hlinks. discriminate.
Defined.

Lemma unresolvable_root_stops_the_helpers_witness :
  let params := {| r_rootDir := "/gone"; r_relativePath := "a.txt";
                   r_rejectHardlinks := None; r_maxBytes := None |} in
  fst (readFileWithinRoot (PM := Samples.pathModule) (PG := Samples.guards)
         (H := Samples.host) (FC := Samples.constants)
         MemOs.env params (start (MemOs.quiet Samples.openTree)))
  = Throw (SafeOpenError NotFound "root dir not found" None).
Proof.
  intros params.
  destruct (@unresolvable_root_stops_the_helpers Samples.pathModule Samples.guards
              Samples.host Samples.constants MemOs.World MemOs.env params
              (Samples.writeParams "a.txt" "x") (MemOs.quiet Samples.openTree))
    as [Hread _].
  destruct (Hread MemFs.enoent (MemOs.quiet Samples.openTree)
              ltac:(vm_compute; reflexivity)) as [_ Hr].
  rewrite Hr. reflexivity.
Defined.

(** ** What the helpers open, and how *)

Section OpenDiscipline.

Context {PM : PathModule} {PG : PathGuards} {H : Host} {FC : FsConstants}.
Variable W : Type.
Variable env : Env W.

Ltac run_ops :=
  unfold fsp_lstat, fsp_stat, fsp_realpath, fsp_open, fsp_mkdir_recursive, fsp_rm_force,
    handle_stat, handle_close, handle_readFile, handle_truncate, handle_writeFile.

Lemma Emits_aliasCheck (P : Event -> Prop) absolutePath rootPath label :
  P (EvAliasCheck absolutePath rootPath label) ->
  Emits P anyExn (assertNoPathAliasEscape env absolutePath rootPath label).
Proof.
  intros Hp s r s' E. unfold assertNoPathAliasEscape in E.
  destruct (os_aliasCheck env absolutePath rootPath label (world s)) as [o w'].
  inversion E; subst. cbn [trace]. split; [|intros; exact I].
  eexists. split; [reflexivity|]. repeat constructor. exact Hp.
Qed.

(** Every event a body emits satisfies a property that each kind of call
    is checked against by [check]. *)
Ltac emits_by check :=
  repeat first
    [ apply Emits_ret
    | apply Emits_bind; [|intros ?]
    | apply Emits_promiseAll2
    | apply Emits_quietly
    | apply Emits_finally
    | apply Emits_call; [intros ?; check | intros ?; exact I]
    | apply Emits_aliasCheck; check
    | apply Emits_throw; exact I
    | progress cbv zeta
    | match goal with
      | |- Emits _ _ (tryCatch _ _) =>
          eapply Emits_tryCatch with (Q' := anyExn); [|intros ? _]
      | |- Emits _ _ (if ?b then _ else _) => destruct b
      | |- Emits _ _ (match ?x with _ => _ end) => destruct x
      | |- Emits _ _ (let '(_, _) := ?x in _) => destruct x
      end ].

Ltac unfold_helpers :=
  unfold createRootScopedReadFile, readPathWithinRoot, readFileWithinRoot,
    readLocalFileSafely, readOpenedFileSafely, openFileWithinRoot, resolvePathWithinRoot,
    expandRelativePathWithHome, openVerifiedLocalFile, rejectDirectoryBeforeOpen,
    openForRead, verifyOpenedFile, writeFileWithinRoot, openForWrite,
    verifyOpenedForWrite, checkRealPathThenWrite;
  run_ops.

Ltac from_start Hemits :=
  cbv zeta;
  match goal with
  | |- context [snd (?m (start ?w))] =>
      destruct (m (start w)) as [r s'] eqn:E;
      destruct (Hemits _ _ _ E) as [[evs [Ht Hf]] _];
      cbn [fst snd start trace app] in *; rewrite Ht; exact Hf
  end.

(** X19 — the read helpers only read.  Every [fs.open] made by
    [readFileWithinRoot], [readLocalFileSafely], [readPathWithinRoot] or a
    reader made by [createRootScopedReadFile] uses [OPEN_READ_FLAGS] and no
    mode, and none of them creates a directory, removes, truncates or
    writes anything. *)
Theorem read_helpers_only_read
  (params : RootParams) (filePath : string) (maxBytes : option Z)
  (pathParams : PathReadParams) (scoped : RootScopedReadParams) (w : W) :
  let readOnly := fun ev =>
    opensOnlyWith [(OPEN_READ_FLAGS, None)] ev /\ harmless ev /\ isMkdir ev = false in
  Forall readOnly (trace (snd (readFileWithinRoot env params (start w)))) /\
  Forall readOnly (trace (snd (readLocalFileSafely env filePath maxBytes (start w)))) /\
  Forall readOnly (trace (snd (readPathWithinRoot env pathParams (start w)))) /\
  Forall readOnly (trace (snd (createRootScopedReadFile env scoped filePath (start w)))).
Proof.
  intros readOnly.
  assert (H1 : forall p, Emits readOnly anyExn (readFileWithinRoot env p)).
  { intros p. unfold_helpers.
    emits_by ltac:(unfold readOnly, harmless; cbn; repeat split; auto). }
  assert (H2 : Emits readOnly anyExn (readLocalFileSafely env filePath maxBytes)).
  { unfold_helpers.
    emits_by ltac:(unfold readOnly, harmless; cbn; repeat split; auto). }
  assert (H3 : Emits readOnly anyExn (readPathWithinRoot env pathParams)).
  { unfold readPathWithinRoot. apply H1. }
  assert (H4 : Emits readOnly anyExn (createRootScopedReadFile env scoped filePath)).
  { unfold createRootScopedReadFile, readPathWithinRoot.
    apply Emits_bind; [apply H1|intros ?; apply Emits_ret]. }
  repeat split.
  - from_start (H1 params).
  - from_start H2.
  - from_start H3.
  - from_start H4.
Qed.

(** X20 — how the write helper opens.  Every [fs.open] made by
    [writeFileWithinRoot] uses [OPEN_WRITE_EXISTING_FLAGS] or
    [OPEN_WRITE_CREATE_FLAGS] (which has [O_CREAT | O_EXCL]: an existing file
    is never replaced) with mode [0o600]; the helper never reads content; and
    with [mkdir: false] it creates no directory. *)
Theorem write_helper_open_discipline (params : WriteParams) (w : W) :
  let run := writeFileWithinRoot env params (start w) in
  Forall (fun ev =>
            opensOnlyWith [(OPEN_WRITE_EXISTING_FLAGS, Some 384%Z);
                           (OPEN_WRITE_CREATE_FLAGS, Some 384%Z)] ev /\
            isContentRead ev = false)
    (trace (snd run)) /\
  (w_mkdir params = Some false ->
   Forall (fun ev => isMkdir ev = false) (trace (snd run))).
Proof.
  split.
  - assert (H1 : Emits (fun ev =>
                          opensOnlyWith [(OPEN_WRITE_EXISTING_FLAGS, Some 384%Z);
                                         (OPEN_WRITE_CREATE_FLAGS, Some 384%Z)] ev /\
                          isContentRead ev = false)
                   anyExn (writeFileWithinRoot env params)).
    { unfold_helpers. emits_by ltac:(cbn; repeat split; auto). }
    from_start H1.
  - intros Hmkdir.
    assert (H1 : Emits (fun ev => isMkdir ev = false) anyExn
                   (writeFileWithinRoot env params)).
    { unfold_helpers. rewrite Hmkdir. emits_by ltac:(reflexivity). }
    from_start H1.
Qed.

End OpenDiscipline.

Lemma write_helper_open_discipline_witness :
  let params := {| w_rootDir := "/work"; w_relativePath := "sub/new.txt";
                   w_data := inl "hello"; w_encoding := None;
                   w_mkdir := Some false |} in
  Forall (fun ev => isMkdir ev = false)
    (trace (snd (writeFileWithinRoot (PM := Samples.pathModule) (PG := Samples.guards)
                   (H := Samples.host) (FC := Samples.constants)
                   MemOs.env params (start (MemOs.quiet Samples.writeTree))))).
Proof.
  intros params.
  exact (proj2 (@write_helper_open_discipline Samples.pathModule Samples.guards
                  Samples.host Samples.constants MemOs.World MemOs.env params
                  (MemOs.quiet Samples.writeTree)) eq_refl).
Defined.

Lemma land_lor_same (a b : Z) : Z.land (Z.lor a b) b = b.
Proof.
  apply Z.bits_inj'. intros n Hn. rewrite Z.land_spec, Z.lor_spec.
  destruct (Z.testbit a n), (Z.testbit b n); reflexivity.
Qed.

Section NoFollow.

Context {FC : FsConstants}.

(** X21 — links are not followed on open where the platform allows it.
    Where [process.platform] is not [win32] and [fsConstants] has
    [O_NOFOLLOW], the flags of every open made for reading or writing
    contain that bit.  Elsewhere they are the plain [O_RDONLY], [O_WRONLY]
    and [O_WRONLY | O_CREAT | O_EXCL]. *)
Theorem nofollow_is_requested_where_supported :
  (forall bit,
      platform_is_win32 = false ->
      O_NOFOLLOW = Some bit ->
      Z.land OPEN_READ_FLAGS bit = bit /\
      Z.land OPEN_WRITE_EXISTING_FLAGS bit = bit /\
      Z.land OPEN_WRITE_CREATE_FLAGS bit = bit)
  /\
  (platform_is_win32 = true \/ O_NOFOLLOW = None ->
   OPEN_READ_FLAGS = O_RDONLY /\
   OPEN_WRITE_EXISTING_FLAGS = O_WRONLY /\
   OPEN_WRITE_CREATE_FLAGS = Z.lor (Z.lor O_WRONLY O_CREAT) O_EXCL).
Proof.
  split.
  - intros bit Hplatform Hbit.
    unfold OPEN_READ_FLAGS, OPEN_WRITE_EXISTING_FLAGS, OPEN_WRITE_CREATE_FLAGS,
      nofollowBits, SUPPORTS_NOFOLLOW.
    rewrite Hplatform, Hbit. cbn [negb andb].
    repeat split; apply land_lor_same.
  - intros Hnone.
    assert (Hbits : nofollowBits = 0%Z).
    { unfold nofollowBits, SUPPORTS_NOFOLLOW.
      destruct Hnone as [Hwin|Hkey]; [rewrite Hwin|rewrite Hkey];
        cbn [negb andb]; [reflexivity|]. rewrite andb_false_r. reflexivity. }
    unfold OPEN_READ_FLAGS, OPEN_WRITE_EXISTING_FLAGS, OPEN_WRITE_CREATE_FLAGS.
    rewrite Hbits, !Z.lor_0_r. repeat split.
Qed.

End NoFollow.

Lemma nofollow_is_requested_where_supported_witness :
  Z.land (OPEN_READ_FLAGS (FC := Samples.constants)) 131072 = 131072%Z /\
  Z.land (OPEN_WRITE_EXISTING_FLAGS (FC := Samples.constants)) 131072 = 131072%Z /\
  Z.land (OPEN_WRITE_CREATE_FLAGS (FC := Samples.constants)) 131072 = 131072%Z.
Proof.
  exact (proj1 (@nofollow_is_requested_where_supported Samples.constants)
           131072%Z eq_refl eq_refl).
Defined.

(** ** Reading under a root, and reading a local file *)

Section ReadOutcomes.

Context {PM : PathModule} {PG : PathGuards} {H : Host} {FC : FsConstants}.
Variable W : Type.
Variable env : Env W.

Ltac run_ops :=
  unfold fsp_lstat, fsp_stat, fsp_realpath, fsp_open, fsp_mkdir_recursive, fsp_rm_force,
    handle_stat, handle_close, handle_readFile, handle_truncate, handle_writeFile.

(** The codes a body may throw, when every [catch] clause rethrows or throws
    one of them. *)
Ltac emits_codes :=
  repeat first
    [ apply Emits_ret
    | apply Emits_bind; [|intros ?]
    | apply Emits_promiseAll2
    | apply Emits_quietly
    | apply Emits_finally
    | apply Emits_call;
      [intros ?; exact I | intros ?; first [exact I | intros ? ?; discriminate]]
    | apply Emits_throw; first [assumption | apply codeIn_here; cbn [In]; tauto]
    | progress cbv zeta
    | match goal with
      | |- Emits _ ?Q (tryCatch _ _) =>
          eapply Emits_tryCatch with (Q' := Q); [|intros ? ?]
      | |- Emits _ _ (if ?b then _ else _) => destruct b
      | |- Emits _ _ (match ?x with _ => _ end) => destruct x
      | |- Emits _ _ (let '(_, _) := ?x in _) => destruct x
      end ].

Lemma Emits_readLocalFileSafely filePath maxBytes :
  Emits (fun _ => True) (codeIn [NotFound; Symlink; NotFile; PathMismatch; TooLarge])
    (readLocalFileSafely env filePath maxBytes).
Proof.
  unfold readLocalFileSafely, readOpenedFileSafely, openVerifiedLocalFile,
    rejectDirectoryBeforeOpen, openForRead, verifyOpenedFile.
  run_ops. cbn [Js.optTrue andb]. emits_codes.
Qed.

(** X22 — reading a local file keeps the classifications apart.
    [readLocalFileSafely] passes a failure of [openVerifiedLocalFile] on as
    it is; a [SafeOpenError] it throws has code [not-found], [symlink],
    [not-file], [path-mismatch] or [too-large], and never [invalid-path] or
    [outside-workspace]: it checks no root and does not reject hardlinks. *)
Theorem local_read_keeps_classifications (filePath : string) (maxBytes : option Z)
  (s : St W) :
  (forall e s1,
      openVerifiedLocalFile env filePath None s = (Throw e, s1) ->
      readLocalFileSafely env filePath maxBytes s = (Throw e, s1))
  /\
  (forall e s',
      readLocalFileSafely env filePath maxBytes s = (Throw e, s') ->
      forall code, codeOf e = Some code ->
                   In code [NotFound; Symlink; NotFile; PathMismatch; TooLarge]).
Proof.
  split.
  - intros e s1 Hopen. unfold readLocalFileSafely, bind. rewrite Hopen. reflexivity.
  - intros e s' E.
    destruct (@Emits_readLocalFileSafely filePath maxBytes _ _ _ E) as [_ Hq].
    exact (Hq e eq_refl).
Qed.

(** X23 — what a read under a root returns.  When [readFileWithinRoot]
    returns, the file was opened by [openFileWithinRoot]; the result carries
    the real path and the [stat] of that open; the content was read from the
    handle of that open, which was closed afterwards; the size that [stat]
    reports is within [maxBytes] when a limit was given; and the file is a
    regular file whose real path passed the containment test against the
    resolved root. *)
Theorem read_within_root_result (params : RootParams) (w : W)
  (result : SafeLocalReadResult) (s' : St W) :
  readFileWithinRoot env params (start w) = (Ok result, s') ->
  exists opened s1 rootReal,
    openFileWithinRoot env
      {| r_rootDir := r_rootDir params; r_relativePath := r_relativePath params;
         r_rejectHardlinks := r_rejectHardlinks params; r_maxBytes := None |}
      (start w) = (Ok opened, s1) /\
    read_realPath result = realPath opened /\
    read_stat result = stat opened /\
    trace s' = trace s1 ++ [EvHandleReadFile (handle opened);
                            EvHandleClose (handle opened)] /\
    (forall limit, r_maxBytes params = Some limit ->
                   (st_size (read_stat result) <= limit)%Z) /\
    isFile (read_stat result) = true /\
    hd_error (trace s') = Some (EvRealpath (r_rootDir params) (inr rootReal)) /\
    isPathInside (ensureTrailingSep rootReal) (read_realPath result) = true.
Proof.
  unfold readFileWithinRoot. intros E.
  apply bind_inv in E. destruct E as [[e [_ Hr]]|[opened [s1 [E1 E]]]]; [discriminate|].
  destruct (@openFileWithinRoot_Ok _ _ _ _ _ _ _ _ _ _ E1)
    as [rootReal [resolved [home [homeAnswer [before [lst [realStat
         [Htrace [_ [Hfile [_ [_ [_ [Hinside _]]]]]]]]]]]]]].
  cbn [r_rootDir] in Htrace.
  exists opened, s1, rootReal. split; [exact E1|].
  revert E. unfold finally, readOpenedFileSafely, quietly, tryCatch, bind, throw, ret.
  run_ops. unfold call.
  assert (Hsize : forall limit, (limit <? st_size (stat opened))%Z = false ->
                                (st_size (stat opened) <= limit)%Z)
    by (intros limit Hl; apply Z.ltb_ge in Hl; exact Hl).
  destruct (r_maxBytes params) as [limit|] eqn:Hmax.
  - destruct (limit <? st_size (stat opened))%Z eqn:Hl.
    { destruct (os_close env (handle opened) (world s1)) as [[e|u] w2];
        cbn [ofOs]; intros E; discriminate E. }
    destruct (os_readFile env (handle opened) (world s1)) as [[e|buffer] w2];
      cbn [ofOs world trace];
      destruct (os_close env (handle opened) w2) as [[e'|u] w3];
      cbn [ofOs]; intros E; try discriminate E;
      inversion E; subst; cbn [read_realPath read_stat trace];
      rewrite <- ?app_assoc; cbn [app]; rewrite Htrace;
      (repeat split; auto); intros limit' Hlimit; inversion Hlimit; subst; auto.
  - destruct (os_readFile env (handle opened) (world s1)) as [[e|buffer] w2];
      cbn [ofOs world trace];
      destruct (os_close env (handle opened) w2) as [[e'|u] w3];
      cbn [ofOs]; intros E; try discriminate E;
      inversion E; subst; cbn [read_realPath read_stat trace];
      rewrite <- ?app_assoc; cbn [app]; rewrite Htrace;
      (repeat split; auto); intros limit' Hlimit; discriminate Hlimit.
Qed.

End ReadOutcomes.

Lemma local_read_keeps_classifications_witness :
  readLocalFileSafely (PG := Samples.guards) (FC := Samples.constants)
    MemOs.env "/work/link" None (start (MemOs.quiet Samples.workTree))
  = (Throw (SafeOpenError Symlink "symlink open blocked"
              (Some (NodeErr MemFs.eloop))),
     snd (openVerifiedLocalFile (PG := Samples.guards) (FC := Samples.constants)
            MemOs.env "/work/link" None (start (MemOs.quiet Samples.workTree)))).
Proof.
  apply (proj1 (@local_read_keeps_classifications Samples.guards Samples.constants
                  MemOs.World MemOs.env "/work/link" None
                  (start (MemOs.quiet Samples.workTree)))).
  vm_compute. reflexivity.
Defined.

Lemma read_within_root_result_witness :
  let run := readFileWithinRoot (PM := Samples.pathModule) (PG := Samples.guards)
               (H := Samples.host) (FC := Samples.constants)
               MemOs.env (Samples.rootParams "a.txt" None (Some 20%Z))
               (start (MemOs.quiet Samples.openTree)) in
  exists result,
    fst run = Ok result /\
    read_realPath result = "/work/a.txt" /\
    (st_size (read_stat result) <= 20)%Z /\
    isFile (read_stat result) = true.
Proof.
  intros run.
  assert (Hrun : exists result, run = (Ok result, snd run)).
  { eexists. vm_compute. reflexivity. }
  destruct Hrun as [result Hrun].
  destruct (@read_within_root_result Samples.pathModule Samples.guards Samples.host
              Samples.constants MemOs.World MemOs.env
              (Samples.rootParams "a.txt" None (Some 20%Z))
              (MemOs.quiet Samples.openTree) result (snd run) Hrun)
    as [opened [s1 [rootReal [Hopen [Hpath [Hstat [_ [Hsize [Hfile _]]]]]]]]].
  exists result. split; [rewrite Hrun; reflexivity|].
  split.
  - rewrite Hpath.
    assert (Ho : fst (openFileWithinRoot (PM := Samples.pathModule)
                        (PG := Samples.guards) (H := Samples.host)
                        (FC := Samples.constants) MemOs.env
                        {| r_rootDir := "/work"; r_relativePath := "a.txt";
                           r_rejectHardlinks := None; r_maxBytes := None |}
                        (start (MemOs.quiet Samples.openTree)))
                 = Ok {| handle := 3%Z; realPath := "/work/a.txt";
                         stat := MemFs.statsOf (MemFs.IFile 11 1 20) |})
      by (vm_compute; reflexivity).
    cbn [Samples.rootParams r_rootDir r_relativePath r_rejectHardlinks] in Hopen.
    rewrite Hopen in Ho. cbn [fst] in Ho. inversion Ho. reflexivity.
  - split; [apply Hsize; reflexivity|exact Hfile].
Defined.

(** ** Which paths are opened, and what a write leaves behind *)

Section WriteOutcomes.

Context {PM : PathModule} {PG : PathGuards} {H : Host} {FC : FsConstants}.
Variable W : Type.
Variable env : Env W.

Ltac run_ops :=
  unfold fsp_lstat, fsp_stat, fsp_realpath, fsp_open, fsp_mkdir_recursive, fsp_rm_force,
    handle_stat, handle_close, handle_readFile, handle_truncate, handle_writeFile.

Ltac emits_by check :=
  repeat first
    [ apply Emits_ret
    | apply Emits_bind; [|intros ?]
    | apply Emits_promiseAll2
    | apply Emits_quietly
    | apply Emits_finally
    | apply Emits_call; [intros ?; check | intros ?; exact I]
    | apply Emits_aliasCheck; check
    | apply Emits_throw; exact I
    | progress cbv zeta
    | match goal with
      | |- Emits _ _ (tryCatch _ _) =>
          eapply Emits_tryCatch with (Q' := anyExn); [|intros ? _]
      | |- Emits _ _ (if ?b then _ else _) => destruct b
      | |- Emits _ _ (match ?x with _ => _ end) => destruct x
      | |- Emits _ _ (let '(_, _) := ?x in _) => destruct x
      end ].

(** The events of the continuation [k] that a run [E : k s = (r, s')] went
    through satisfy [P]. *)
Ltac continue_with P E check :=
  match type of E with
  | ?k ?s = (?r, ?s') =>
      let Hk := fresh "Hk" in
      assert (Hk : Emits P anyExn k);
      [ unfold readOpenedFileSafely, openVerifiedLocalFile, rejectDirectoryBeforeOpen,
          openForRead,
          verifyOpenedFile, openForWrite, verifyOpenedForWrite, checkRealPathThenWrite;
        run_ops; emits_by check
      | destruct (Hk _ _ _ E) as [[evs [Ht Hf]] _]; clear Hk ]
  end.

Lemma not_opened (evs : list Event) p flags mode o :
  Forall (opensOnlyWith []) evs -> ~ In (EvOpen p flags mode o) evs.
Proof.
  intros Hf Hin. rewrite Forall_forall in Hf. exact (Hf _ Hin).
Qed.

Lemma opened_at (evs : list Event) path p flags mode o :
  Forall (fun ev => match ev with EvOpen q _ _ _ => q = path | _ => True end) evs ->
  In (EvOpen p flags mode o) evs -> p = path.
Proof.
  intros Hf Hin. rewrite Forall_forall in Hf. exact (Hf _ Hin).
Qed.

Lemma not_opened_no_handles (evs : list Event) :
  Forall (opensOnlyWith []) evs -> opensIn evs = [].
Proof.
  induction 1 as [|ev evs Hev _ IH]; [reflexivity|].
  change (ev :: evs) with ([ev] ++ evs). rewrite opensIn_app, IH, app_nil_r.
  destruct ev; try reflexivity. destruct Hev.
Qed.

Lemma openFileWithinRoot_opens_inside params (w : W) r s' :
  openFileWithinRoot env params (start w) = (r, s') ->
  forall p flags mode o,
    In (EvOpen p flags mode o) (trace s') ->
    exists rootReal,
      hd_error (trace s') = Some (EvRealpath (r_rootDir params) (inr rootReal)) /\
      isPathInside (ensureTrailingSep rootReal) p = true.
Proof.
  unfold openFileWithinRoot. intros E p flags mode o Hin.
  apply bind_inv in E.
  destruct E as [[e [E Hr]]|[[[rootReal rootWithSep] resolved] [s1 [E1 E]]]].
  { exfalso.
    assert (Hq : Emits (opensOnlyWith []) anyExn
                   (resolvePathWithinRoot env (r_rootDir params) (r_relativePath params)))
      by (unfold resolvePathWithinRoot, expandRelativePathWithHome; run_ops;
          emits_by ltac:(exact I)).
    destruct (Hq _ _ _ E) as [[evs [Ht Hf]] _]. cbn [start trace app] in Ht.
    rewrite Ht in Hin. eapply not_opened; [exact Hf|exact Hin]. }
  destruct (resolvePathWithinRoot_inside env _ _ _ E1) as [Hsep [Hinside [home [answer Ht1]]]].
  subst rootWithSep. cbn [start trace app] in Ht1.
  continue_with (fun ev => match ev with EvOpen q _ _ _ => q = resolved | _ => True end)
    E ltac:(first [reflexivity | exact I]).
  rewrite Ht, Ht1 in *. exists rootReal. split; [reflexivity|].
  cbn [app In] in Hin.
  destruct Hin as [Hin|[Hin|Hin]]; [discriminate Hin|discriminate Hin|].
  rewrite (@opened_at _ _ _ _ _ _ Hf Hin). exact Hinside.
Qed.

Lemma write_target_inside rootWithSep resolved (s : St W) ioPath s1 :
  isPathInside rootWithSep resolved = true ->
  tryCatch
    (bind (fsp_realpath env resolved)
       (fun resolvedRealPath =>
          if negb (isPathInside rootWithSep resolvedRealPath) then
            throw (SafeOpenError OutsideWorkspace "file is outside workspace root" None)
          else ret resolvedRealPath))
    (fun err =>
       if isSafeOpenError err then throw err
       else if negb (isNotFoundPathError err) then throw err
       else ret resolved) s = (Ok ioPath, s1) ->
  isPathInside rootWithSep ioPath = true /\
  exists answer, trace s1 = trace s ++ [EvRealpath resolved answer] /\
    (answer = inr ioPath \/
     (ioPath = resolved /\
      exists e, answer = inl e /\ isNotFoundPathError (NodeErr e) = true)).
Proof.
  intros Hinside. unfold tryCatch, bind, throw, ret. run_ops. unfold call.
  destruct (os_realpath env resolved (world s)) as [[e|real] w1]; cbn [ofOs world trace].
  - cbn [isSafeOpenError]. destruct (isNotFoundPathError (NodeErr e)) eqn:Hnf;
      cbn [negb]; intros E; [|discriminate E].
    inversion E; subst. cbn [trace]. split; [exact Hinside|].
    eexists. split; [reflexivity|]. right. split; [reflexivity|]. eauto.
  - destruct (isPathInside rootWithSep real) eqn:Hreal; cbn [negb isSafeOpenError];
      intros E; [|discriminate E].
    inversion E; subst. cbn [trace]. split; [exact Hreal|].
    eexists. split; [reflexivity|]. left. reflexivity.
Qed.

(** The stages of [writeFileWithinRoot]: either it stops before any
    [fs.open], or it reaches [openForWrite] on a path that passed the
    containment test. *)
Lemma writeFileWithinRoot_stages params (w : W) r s' :
  writeFileWithinRoot env params (start w) = (r, s') ->
  ((exists e, r = Throw e) /\ Forall (opensOnlyWith []) (trace s')) \/
  (exists rootReal resolved ioPath s4,
      hd_error (trace s4) = Some (EvRealpath (w_rootDir params) (inr rootReal)) /\
      Forall (opensOnlyWith []) (trace s4) /\
      Forall harmless (trace s4) /\
      isPathInside (ensureTrailingSep rootReal) resolved = true /\
      isPathInside (ensureTrailingSep rootReal) ioPath = true /\
      bind (openForWrite env ioPath)
        (fun opened =>
           let '(handle, createdForWrite) := opened in
           finally
             (verifyOpenedForWrite env (ensureTrailingSep rootReal) ioPath handle
                createdForWrite (w_data params) (w_encoding params))
             (quietly (handle_close env handle))) s4 = (r, s')).
Proof.
  unfold writeFileWithinRoot. intros E.
  assert (Hstop : forall (A : Type) (m : M W A) sa e sb pre,
             Emits (fun ev => opensOnlyWith [] ev /\ harmless ev) anyExn m ->
             trace sa = pre ->
             Forall (fun ev => opensOnlyWith [] ev /\ harmless ev) pre ->
             m sa = (Throw e, sb) ->
             Forall (opensOnlyWith []) (trace sb)).
  { intros A m sa e sb pre Hm Hpre Hf Em.
    destruct (Hm _ _ _ Em) as [[evs [Ht Hfe]] _]. rewrite Ht, Hpre.
    apply Forall_app.
    split; [eapply Forall_impl; [|exact Hf]|eapply Forall_impl; [|exact Hfe]];
      intros ? [? _]; assumption. }
  assert (Hgo : forall (A : Type) (m : M W A) sa a sb pre,
             Emits (fun ev => opensOnlyWith [] ev /\ harmless ev) anyExn m ->
             trace sa = pre ->
             Forall (fun ev => opensOnlyWith [] ev /\ harmless ev) pre ->
             m sa = (Ok a, sb) ->
             exists evs, trace sb = pre ++ evs /\
                         Forall (fun ev => opensOnlyWith [] ev /\ harmless ev) (pre ++ evs)).
  { intros A m sa a sb pre Hm Hpre Hf Em.
    destruct (Hm _ _ _ Em) as [[evs [Ht Hfe]] _]. exists evs. rewrite Ht, Hpre.
    split; [reflexivity|]. apply Forall_app. split; assumption. }
  assert (Hq1 : forall rootDir relative,
             Emits (fun ev => opensOnlyWith [] ev /\ harmless ev) anyExn
               (resolvePathWithinRoot env rootDir relative))
    by (intros; unfold resolvePathWithinRoot, expandRelativePathWithHome; run_ops;
        emits_by ltac:(unfold harmless; cbn; repeat split; auto)).
  apply bind_inv in E.
  destruct E as [[e [E Hr]]|[[[rootReal rootWithSep] resolved] [s1 [E1 E]]]].
  { left. split; [eauto|].
    eapply (Hstop _ _ (start w) _ _ []); [apply Hq1|reflexivity|constructor|exact E]. }
  destruct (resolvePathWithinRoot_inside env _ _ _ E1) as [Hsep [Hinside [home [answer Ht1]]]].
  subst rootWithSep. cbn [start trace app] in Ht1.
  assert (Hf1 : Forall (fun ev => opensOnlyWith [] ev /\ harmless ev) (trace s1))
    by (rewrite Ht1; repeat constructor).
  apply bind_inv in E. destruct E as [[e [E Hr]]|[u2 [s2 [E2 E]]]].
  { left. split; [eauto|]. eapply (Hstop _ _ s1 _ _ (trace s1)); [|reflexivity|exact Hf1|exact E].
    emits_by ltac:(unfold harmless; cbn; repeat split; auto). }
  destruct (fun Hm => Hgo _ _ s1 _ _ (trace s1) Hm eq_refl Hf1 E2) as [evs2 [Ht2 Hf2]];
    [emits_by ltac:(unfold harmless; cbn; repeat split; auto)|].
  rewrite <- Ht2 in Hf2.
  apply bind_inv in E. destruct E as [[e [E Hr]]|[u3 [s3 [E3 E]]]].
  { left. split; [eauto|]. eapply (Hstop _ _ s2 _ _ (trace s2)); [|reflexivity|exact Hf2|exact E].
    run_ops. emits_by ltac:(unfold harmless; cbn; repeat split; auto). }
  destruct (fun Hm => Hgo _ _ s2 _ _ (trace s2) Hm eq_refl Hf2 E3) as [evs3 [Ht3 Hf3]];
    [run_ops; emits_by ltac:(unfold harmless; cbn; repeat split; auto)|].
  rewrite <- Ht3 in Hf3.
  apply bind_inv in E. destruct E as [[e [E Hr]]|[ioPath [s4 [E4 E]]]].
  { left. split; [eauto|]. eapply (Hstop _ _ s3 _ _ (trace s3)); [|reflexivity|exact Hf3|exact E].
    run_ops. emits_by ltac:(unfold harmless; cbn; repeat split; auto). }
  destruct (fun Hm => Hgo _ _ s3 _ _ (trace s3) Hm eq_refl Hf3 E4) as [evs4 [Ht4 Hf4]];
    [run_ops; emits_by ltac:(unfold harmless; cbn; repeat split; auto)|].
  rewrite <- Ht4 in Hf4.
  destruct (@write_target_inside _ _ _ _ _ Hinside E4) as [Hio _].
  right. exists rootReal, resolved, ioPath, s4.
  split.
  { rewrite Ht4, Ht3, Ht2, Ht1. reflexivity. }
  split; [eapply Forall_impl; [|exact Hf4]; intros ? [? _]; assumption|].
  split; [eapply Forall_impl; [|exact Hf4]; intros ? [_ ?]; assumption|].
  auto.
Qed.

(** X24 — only paths that passed the containment test are opened.  In
    every run of [openFileWithinRoot], [readFileWithinRoot] or
    [writeFileWithinRoot], the first call resolves the root, and every path
    handed to [fs.open] afterwards, whether the open succeeds or not, has
    passed [isPathInside] against the resolved root with a trailing
    separator. *)
Theorem only_contained_paths_are_opened
  (rootParams : RootParams) (writeParams : WriteParams) (w : W)
  (p : string) (flags : Z) (mode : option Z) (o : NodeError + FileHandle) :
  (In (EvOpen p flags mode o) (trace (snd (openFileWithinRoot env rootParams (start w)))) ->
   exists rootReal,
     hd_error (trace (snd (openFileWithinRoot env rootParams (start w))))
     = Some (EvRealpath (r_rootDir rootParams) (inr rootReal)) /\
     isPathInside (ensureTrailingSep rootReal) p = true)
  /\
  (In (EvOpen p flags mode o) (trace (snd (readFileWithinRoot env rootParams (start w)))) ->
   exists rootReal,
     hd_error (trace (snd (readFileWithinRoot env rootParams (start w))))
     = Some (EvRealpath (r_rootDir rootParams) (inr rootReal)) /\
     isPathInside (ensureTrailingSep rootReal) p = true)
  /\
  (In (EvOpen p flags mode o) (trace (snd (writeFileWithinRoot env writeParams (start w)))) ->
   exists rootReal,
     hd_error (trace (snd (writeFileWithinRoot env writeParams (start w))))
     = Some (EvRealpath (w_rootDir writeParams) (inr rootReal)) /\
     isPathInside (ensureTrailingSep rootReal) p = true).
Proof.
  split; [|split].
  - destruct (openFileWithinRoot env rootParams (start w)) as [r s'] eqn:E.
    cbn [snd]. intros Hin. eapply openFileWithinRoot_opens_inside; eauto.
  - destruct (readFileWithinRoot env rootParams (start w)) as [r s'] eqn:E.
    cbn [snd]. intros Hin. unfold readFileWithinRoot in E.
    apply bind_inv in E. destruct E as [[e [E Hr]]|[opened [s1 [E1 E]]]].
    + eapply openFileWithinRoot_opens_inside; [exact E|exact Hin].
    + continue_with (opensOnlyWith []) E ltac:(exact I).
      assert (Hhead : exists ev rest, trace s1 = ev :: rest).
      { destruct (@openFileWithinRoot_Ok _ _ _ _ _ _ _ _ _ _ E1)
          as [rootReal [resolved [home [ha [before [lst [realStat [Htr _]]]]]]]].
        rewrite Htr. eauto. }
      destruct Hhead as [ev [rest Hs1]].
      rewrite Ht in Hin. apply in_app_or in Hin. destruct Hin as [Hin|Hin].
      * destruct (@openFileWithinRoot_opens_inside _ _ _ _ E1 _ _ _ _ Hin)
          as [rootReal [Hhd Hinside]].
        exists rootReal. split; [|exact Hinside].
        rewrite Ht, Hs1 in *. exact Hhd.
      * exfalso. eapply not_opened; [exact Hf|exact Hin].
  - destruct (writeFileWithinRoot env writeParams (start w)) as [r s'] eqn:E.
    cbn [snd]. intros Hin.
    destruct (@writeFileWithinRoot_stages _ _ _ _ E)
      as [[_ Hnone]|[rootReal [resolved [ioPath [s4 [Hhd [Hnone [_ [_ [Hio E']]]]]]]]]].
    + exfalso. eapply not_opened; [exact Hnone|exact Hin].
    + continue_with (fun ev => match ev with EvOpen q _ _ _ => q = ioPath | _ => True end)
        E' ltac:(first [reflexivity | exact I]).
      exists rootReal. rewrite Ht in *.
      destruct (trace s4) as [|ev rest] eqn:Hs4; [discriminate Hhd|].
      split; [exact Hhd|].
      apply in_app_or in Hin. destruct Hin as [Hin|Hin].
      * exfalso. eapply not_opened; [exact Hnone|exact Hin].
      * rewrite (@opened_at _ _ _ _ _ _ Hf Hin). exact Hio.
Qed.

Ltac next_call c := destruct c as [[?|?] ?] eqn:?.

Ltac exec :=
  repeat first
    [ progress cbn [world trace ofOs fst snd isSafeOpenError]
    | match goal with
      | |- context [os_close env ?a ?w] => next_call (os_close env a w)
      | |- context [os_lstat env ?a ?w] => next_call (os_lstat env a w)
      | |- context [os_stat env ?a ?w] => next_call (os_stat env a w)
      | |- context [os_realpath env ?a ?w] => next_call (os_realpath env a w)
      | |- context [os_fstat env ?a ?w] => next_call (os_fstat env a w)
      | |- context [os_open env ?a ?b ?c ?w] => next_call (os_open env a b c w)
      | |- context [os_rm env ?a ?w] => next_call (os_rm env a w)
      | |- context [os_truncate env ?a ?b ?w] => next_call (os_truncate env a b w)
      | |- context [os_writeFile env ?a ?b ?w] => next_call (os_writeFile env a b w)
      end ].

Ltac branches :=
  repeat first
    [ progress exec
    | match goal with
      | |- context [if ?b then _ else _] => destruct b
      end ].

Lemma openForWrite_Ok ioPath (s : St W) h created s1 :
  openForWrite env ioPath s = (Ok (h, created), s1) ->
  exists failed,
    trace s1
    = trace s ++ failed
      ++ [EvOpen ioPath
            (if created then OPEN_WRITE_CREATE_FLAGS else OPEN_WRITE_EXISTING_FLAGS)
            (Some 384%Z) (inr h)] /\
    Forall harmless failed /\
    opensIn failed = [].
Proof.
  unfold openForWrite, bind, tryCatch, throw, ret. run_ops. unfold call.
  destruct (os_open env ioPath OPEN_WRITE_EXISTING_FLAGS (Some 384%Z) (world s))
    as [[e|h0] w1]; cbn [ofOs world trace].
  2:{ intros E. inversion E; subst. cbn [trace]. exists []. repeat split. constructor. }
  destruct (negb (isNotFoundPathError (NodeErr e))).
  { destruct (isNotFoundPathError (NodeErr e)); [intros E; discriminate E|].
    destruct (isSymlinkOpenError (NodeErr e)); intros E; discriminate E. }
  cbn [world trace].
  destruct (os_open env ioPath OPEN_WRITE_CREATE_FLAGS (Some 384%Z) w1)
    as [[e'|h1] w2]; cbn [ofOs world trace].
  { destruct (isNotFoundPathError (NodeErr e')); [intros E; discriminate E|].
    destruct (isSymlinkOpenError (NodeErr e')); intros E; discriminate E. }
  intros E. inversion E; subst. cbn [trace].
  exists [EvOpen ioPath OPEN_WRITE_EXISTING_FLAGS (Some 384%Z) (inl e)].
  rewrite <- ?app_assoc. repeat split. repeat constructor.
Qed.

Lemma verifyOpenedForWrite_Ok
  rootWithSep ioPath h created data encoding (s : St W) u s2 :
  verifyOpenedForWrite env rootWithSep ioPath h created data encoding s = (Ok u, s2) ->
  exists stat lst realPath realStat,
    trace s2
    = trace s
      ++ [EvHandleStat h (inr stat); EvLstat ioPath (inr lst);
          EvRealpath ioPath (inr realPath); EvStat realPath (inr realStat)]
      ++ (if created then [] else [EvHandleTruncate h 0%Z])
      ++ [EvHandleWriteFile h (writtenData data encoding)] /\
    writeChecksPass rootWithSep stat lst realPath realStat.
Proof.
  unfold verifyOpenedForWrite, checkRealPathThenWrite.
  unfold bind, tryCatch, promiseAll2, quietly, tryCatch, throw, ret. run_ops. unfold call.
  destruct (os_fstat env h (world s)) as [[e1|stat] w1]; cbn [ofOs world trace];
    destruct (os_lstat env ioPath w1) as [[e2|lst] w2]; cbn [ofOs world trace].
  1-3: intros E; discriminate E.
  destruct (isSymbolicLink lst || negb (isFile stat)) eqn:C1; [intros E; discriminate E|].
  destruct (1 <? st_nlink stat)%Z eqn:C2; [intros E; discriminate E|].
  destruct (negb (sameFileIdentity stat lst)) eqn:C3; [intros E; discriminate E|].
  cbn [ofOs world trace].
  destruct (os_realpath env ioPath w2) as [[e3|realPath] w3];
    cbn [ofOs world trace]; [intros E; discriminate E|].
  destruct (os_stat env realPath w3) as [[e4|realStat] w4];
    cbn [ofOs world trace isSafeOpenError andb].
  { branches; intros E; discriminate E. }
  destruct (negb (sameFileIdentity stat realStat)) eqn:C4;
    [branches; intros E; discriminate E|].
  destruct (1 <? st_nlink realStat)%Z eqn:C5; [branches; intros E; discriminate E|].
  destruct (negb (isPathInside rootWithSep realPath)) eqn:C6;
    [branches; intros E; discriminate E|].
  assert (Hchecks : writeChecksPass rootWithSep stat lst realPath realStat).
  { apply orb_false_both in C1. destruct C1 as [C1a C1b].
    apply negb_false_true in C1b, C3, C4, C6.
    apply Z.ltb_ge in C2, C5.
    unfold writeChecksPass. repeat split; assumption. }
  destruct created; cbn [negb]; destruct data as [text|bytes]; branches;
    intros E; try discriminate E;
    inversion E; subst; cbn [trace writtenData]; rewrite <- ?app_assoc; cbn [app];
    exists stat, lst, realPath, realStat; (split; [reflexivity|exact Hchecks]).
Qed.

(** X25 — what a successful write has done.  When [writeFileWithinRoot]
    returns, it obtained exactly one handle, by an [fs.open] of a path that
    passed the containment test; the handle, the path and the real path
    passed every identity, hardlink and containment check; a file that
    existed was truncated to zero after those checks and a file this call
    created was not; the data was then written once through that handle,
    text with the given encoding or ["utf8"]; the handle was closed last;
    and nothing before the open truncated, removed or wrote anything. *)
Theorem successful_write_shape (params : WriteParams) (w : W) (u : unit) (s' : St W) :
  writeFileWithinRoot env params (start w) = (Ok u, s') ->
  exists rootReal before ioPath (created : bool) h stat lst realPath realStat,
    trace s'
    = before
      ++ [EvOpen ioPath
            (if created then OPEN_WRITE_CREATE_FLAGS else OPEN_WRITE_EXISTING_FLAGS)
            (Some 384%Z) (inr h);
          EvHandleStat h (inr stat); EvLstat ioPath (inr lst);
          EvRealpath ioPath (inr realPath); EvStat realPath (inr realStat)]
      ++ (if created then [] else [EvHandleTruncate h 0%Z])
      ++ [EvHandleWriteFile h (writtenData (w_data params) (w_encoding params));
          EvHandleClose h] /\
    hd_error before = Some (EvRealpath (w_rootDir params) (inr rootReal)) /\
    Forall harmless before /\
    opensIn before = [] /\
    isPathInside (ensureTrailingSep rootReal) ioPath = true /\
    writeChecksPass (ensureTrailingSep rootReal) stat lst realPath realStat.
Proof.
  intros E.
  destruct (@writeFileWithinRoot_stages _ _ _ _ E)
    as [[[e He] _]|[rootReal [resolved [ioPath [s4 [Hhd [Hnone [Hharm [_ [Hio E']]]]]]]]]];
    [discriminate He|].
  apply bind_inv in E'. destruct E' as [[e [_ He]]|[[h created] [s5 [E5 E6]]]];
    [discriminate He|].
  destruct (@openForWrite_Ok _ _ _ _ _ E5) as [failed [Ht5 [Hfharm Hfopens]]].
  unfold finally in E6.
  destruct (verifyOpenedForWrite env (ensureTrailingSep rootReal) ioPath h created
              (w_data params) (w_encoding params) s5) as [r6 s6] eqn:E7.
  assert (Hr6 : r6 = Ok u /\ trace s' = trace s6 ++ [EvHandleClose h]).
  { revert E6. unfold quietly, tryCatch, ret. run_ops. unfold call.
    destruct (os_close env h (world s6)) as [[ec|uc] wc]; cbn [ofOs];
      intros E6; inversion E6; subst; split; reflexivity. }
  destruct Hr6 as [-> Ht'].
  destruct (@verifyOpenedForWrite_Ok _ _ _ _ _ _ _ _ _ E7)
    as [stat [lst [realPath [realStat [Ht7 Hchecks]]]]].
  exists rootReal, (trace s4 ++ failed), ioPath, created, h, stat, lst, realPath, realStat.
  split.
  { rewrite Ht', Ht7, Ht5. rewrite <- ?app_assoc. cbn [app]. reflexivity. }
  split.
  { destruct (trace s4); [discriminate Hhd|exact Hhd]. }
  split; [apply Forall_app; split; assumption|].
  split.
  { rewrite opensIn_app, Hfopens, app_nil_r. apply not_opened_no_handles. exact Hnone. }
  split; [exact Hio|exact Hchecks].
Qed.

(** X26 — a refused alias check stops the write before it touches
    anything.  When the target resolves lexically under the root and
    [assertNoPathAliasEscape] throws [e], [writeFileWithinRoot] throws
    [SafeOpenError("invalid-path", "path alias escape blocked")] with [e] as
    its cause, and its only calls were the two [realpath]s of the path
    resolution and the check itself: no directory was created and no file
    was opened. *)
Theorem alias_escape_stops_the_write
  (params : WriteParams) (w : W) (rootReal rootWithSep resolved : string) (s1 : St W)
  (e : Exn) (w2 : W) :
  resolvePathWithinRoot env (w_rootDir params) (w_relativePath params) (start w)
  = (Ok (rootReal, rootWithSep, resolved), s1) ->
  os_aliasCheck env resolved rootReal "root" (world s1) = (inl e, w2) ->
  exists home answer,
    writeFileWithinRoot env params (start w)
    = (Throw (SafeOpenError InvalidPath "path alias escape blocked" (Some e)),
       {| world := w2;
          trace := [EvRealpath (w_rootDir params) (inr rootReal);
                    EvRealpath home answer;
                    EvAliasCheck resolved rootReal "root"] |}).
Proof.
  intros E1 E2.
  destruct (resolvePathWithinRoot_inside env _ _ _ E1) as [_ [_ [home [answer Ht1]]]].
  cbn [start trace app] in Ht1.
  exists home, answer.
  unfold writeFileWithinRoot, bind at 1. rewrite E1.
  unfold bind at 1, tryCatch, assertNoPathAliasEscape, throw. rewrite E2, Ht1.
  reflexivity.
Qed.

End WriteOutcomes.

Lemma only_contained_paths_are_opened_witness :
  let params := {| w_rootDir := "/work"; w_relativePath := "sub/new.txt";
                   w_data := inl "hello"; w_encoding := None;
                   w_mkdir := Some false |} in
  exists rootReal,
    hd_error (trace (snd (writeFileWithinRoot (PM := Samples.pathModule)
                            (PG := Samples.guards) (H := Samples.host)
                            (FC := Samples.constants)
                            MemOs.env params (start (MemOs.quiet Samples.writeTree)))))
    = Some (EvRealpath "/work" (inr rootReal)) /\
    isPathInside (PathGuards := Samples.guards)
      (ensureTrailingSep (PM := Samples.pathModule) rootReal) "/work/sub/new.txt" = true.
Proof.
  intros params.
  refine (proj2 (proj2 (@only_contained_paths_are_opened Samples.pathModule Samples.guards
            Samples.host Samples.constants MemOs.World MemOs.env
            (Samples.rootParams "a.txt" None None) params (MemOs.quiet Samples.writeTree)
            "/work/sub/new.txt" (@OPEN_WRITE_CREATE_FLAGS Samples.constants) (Some 384%Z)
            (inr 3%Z))) _).
  vm_compute. right. right. right. right. right. left. reflexivity.
Defined.

Lemma successful_write_shape_witness :
  let params := {| w_rootDir := "/work"; w_relativePath := "sub/new.txt";
                   w_data := inl "hello"; w_encoding := None;
                   w_mkdir := Some false |} in
  let run := writeFileWithinRoot (PM := Samples.pathModule) (PG := Samples.guards)
               (H := Samples.host) (FC := Samples.constants)
               MemOs.env params (start (MemOs.quiet Samples.writeTree)) in
  fst run = Ok tt /\
  exists before h,
    In (EvHandleWriteFile h (DataString "hello" "utf8")) (trace (snd run)) /\
    opensIn before = [] /\
    exists rest, trace (snd run) = before ++ rest.
Proof.
  intros params run.
  assert (Hrun : run = (Ok tt, snd run)) by (vm_compute; reflexivity).
  split; [rewrite Hrun; reflexivity|].
  destruct (@successful_write_shape Samples.pathModule Samples.guards Samples.host
              Samples.constants MemOs.World MemOs.env params
              (MemOs.quiet Samples.writeTree) tt (snd run) Hrun)
    as [rootReal [before [ioPath [created [h [stat [lst [realPath [realStat
         [Ht [_ [_ [Hopens _]]]]]]]]]]]]].
  exists before, h. split; [|split; [exact Hopens|eexists; exact Ht]].
  rewrite Ht. apply in_or_app. right. apply in_or_app. right.
  apply in_or_app. right. left. reflexivity.
Defined.

Lemma alias_escape_stops_the_write_witness :
  let params := {| w_rootDir := "/work"; w_relativePath := "link/passwd";
                   w_data := inl "x"; w_encoding := None; w_mkdir := None |} in
  exists cause home answer,
    writeFileWithinRoot (PM := Samples.pathModule) (PG := Samples.guards)
      (H := Samples.host) (FC := Samples.constants)
      MemOs.env params (start (MemOs.quiet Samples.workTree))
    = (Throw (SafeOpenError InvalidPath "path alias escape blocked" (Some cause)),
       {| world := MemOs.quiet Samples.workTree;
          trace := [EvRealpath "/work" (inr "/work");
                    EvRealpath home answer;
                    EvAliasCheck "/work/link/passwd" "/work" "root"] |}).
Proof.
  intros params.
  assert (Hres : exists s1,
             resolvePathWithinRoot (PM := Samples.pathModule) (PG := Samples.guards)
               (H := Samples.host) MemOs.env "/work" "link/passwd"
               (start (MemOs.quiet Samples.workTree))
             = (Ok ("/work", "/work/", "/work/link/passwd"), s1) /\
             world s1 = MemOs.quiet Samples.workTree).
  { eexists. split; vm_compute; reflexivity. }
  destruct Hres as [s1 [Hres Hworld]].
  assert (Hcheck : exists cause,
             os_aliasCheck MemOs.env "/work/link/passwd" "/work" "root" (world s1)
             = (inl cause, MemOs.quiet Samples.workTree)).
  { rewrite Hworld. eexists. vm_compute. reflexivity. }
  destruct Hcheck as [cause Hcheck].
  exists cause.
  exact (@alias_escape_stops_the_write Samples.pathModule Samples.guards Samples.host
           Samples.constants MemOs.World MemOs.env params (MemOs.quiet Samples.workTree)
           "/work" "/work/" "/work/link/passwd" s1 cause (MemOs.quiet Samples.workTree)
           Hres Hcheck).
Defined.
